(* ===== verification/_CoqProject ===== *)
-Q . S2P
Prelude.v
Str.v
Net.v
Apis.v
ApiModels.v
Restrictions.v
Jwt.v
Request.v
RateLimiter.v
Resolver.v
TunnelServer.v
ReverseTunnel.v
Server.v
Transport.v
Duplex.v
Config.v
Listeners.v
Client.v
Udp.v
CnxPool.v
Connect.v
Proxies.v
Scp.v
Sockets.v
Terminal.v
Executor.v
Reloader.v
TlsSetup.v
Serve.v
