(* ===== verification/Prelude.v ===== *)
(** * A verification of wstunnel

    wstunnel carries TCP, UDP, unix-socket and stdio connections between a client and a
    server inside websocket or HTTP/2 connections.  A forward tunnel is opened by a local
    connection of the client; a reverse tunnel by a connection to a listener the server
    opens for the client; a tunnel id names a destination the server looks up in a registry
    filled from Kubernetes pods.  This library models the Rust sources under [src/] as
    executable functions and step relations and proves what makes them correct.

    ** Parts of the program and the files that model them

    - [Prelude], [Str], [Net]: results ([outcome]: Ok, Err or a panic), integers with their
      widths, durations; Rust's [str] operations and UTF-8; addresses, hosts, the protocols
      of [tunnel/mod.rs] ([LocalProtocol], [RemoteAddr]).
    - [Apis], [ApiModels]: the third-party crates, one class of operations and one of
      documented laws per crate (regex, ipnet, url, http, uuid, base64, jsonwebtoken), and
      concrete instances that satisfy the laws, on which witnesses run.
    - [Restrictions]: [restrictions/types.rs], [restrictions/mod.rs] and the checks of
      [tunnel/server/utils.rs]: which requests a set of rules admits, rules made from the
      command line, port mappings; [Policy] is what the rules mean according to their
      documentation, [Enforced] what the code lets pass.
    - [Jwt]: [tunnel/transport/jwt.rs], [transport/types.rs]: the token that carries a request.
    - [Request]: the requests of [transport/websocket.rs] and [transport/http2.rs] and how
      the server reads them ([server/utils.rs], [transport/mod.rs]).
    - [RateLimiter]: [tunnel/rate_limiter.rs]: limiters shared by the connections of a tunnel
      (the governor crate as a class with the law of its algorithm), the pool of limiters,
      limited readers and writers.
    - [Resolver]: the registry of the [tunnel-server] program (pods, http answers) and
      [tunnel/server/tunnel_resolver.rs].  [TunnelServer]: the program itself, its watcher
      and its http server over the shared registry, and its shutdown.
    - [ReverseTunnel]: [tunnel/server/reverse_tunnel.rs]: the table of listeners, as steps of
      requests, listener tasks, timers and connections in any order.
    - [Server]: [tunnel/server/server.rs] and its handlers: from a request to its effects
      (a logged-effects monad over [outcome]).
    - [Serve]: [WsServer::serve] and [run_server_impl]: start-up, the accept loop with its
      handshakes and connections, reloaded rules and certificates, the shared limiters, as
      steps in any order with a trace; on it the client, the server and the registry composed.
    - [Transport]: [transport/io.rs], the readers and writers of both transports, pings and
      closing: what each direction of a tunnel does by itself.
    - [Duplex]: the two tasks of a tunnel running together, each possibly blocked in a write:
      the channel of control frames with its [Notify], and the [oneshot] by which each sees
      the end of the other.
    - [Config], [Listeners], [Client]: the values of the command line ([config.rs]), the
      listeners as instances of the trait's class, the connectors, the client and its
      reverse loop ([tunnel/client/client.rs]), start-up ([lib.rs]).
    - [Udp]: the UDP server and the socks5 UDP server, as steps in any order, with the panics
      of the timer of a new stream.
    - [Connect]: [protocols/dns/resolver.rs], connection attempts of
      [protocols/tcp/server.rs] and [protocols/udp/server.rs], http proxies.
    - [CnxPool]: [client/cnx_pool.rs], [client/l4_transport_stream.rs] and the connection part
      of both transports: streams with the bytes read too far, the pool (bb8 as a class with
      its laws) and what tunnels take from it.
    - [Sockets]: [somark.rs], socket options, buffers and marks, the transparent proxy, the
      resolver's sockets, the start of the proxies, socks5 associations, the datagram writers
      of both UDP servers.
    - [Terminal]: standard input and output, unix sockets, the ssh session and shell, and
      [wstunnel-cli/src/main.rs] (where logs go, which command runs).
    - [Executor]: [executor.rs]: task sets shared by clones, references and drops.
    - [TlsSetup]: [protocols/tls/server.rs], [embedded_certificate.rs] and the TLS part of
      [lib.rs]: what connectors and acceptors are built from (rustls as a class with laws).
    - [Proxies]: the http and socks5 proxies the client offers to applications.
    - [Scp]: [protocols/ssh/scp.rs], both directions, in a state and error monad.
    - [Reloader]: [restrictions/config_reloader.rs], [tunnel/tls_reloader.rs] and the
      [TlsContext] of the server: handlers interleaved with the accept loop.

    Each record field, constructor and function keeps the name it has in Rust where that is
    possible.  State is passed explicitly; tasks and threads that share state are steps of a
    relation or a function on a list of events, so that theorems quantify over every order.

    ** What the theorems show

    - Admission (Serve, Server, Restrictions): whatever a request makes the server do was
      admitted by a rule, over whole runs by a rule in force at that moment; a server started
      with targets on the command line connects to nothing else; a server with client
      certificates never serves a client without one; the checks refine the documented policy
      (for unix sockets only where the rules list them); rules from the command line admit
      exactly the given prefixes and targets; refused requests get a 400; a request can only
      abort the server through an operation on the network that the rules admitted (and one
      with a timeout of zero does).
    - Requests (Request, Client): what the client asks for is what the server reads, over
      both transports; the destination a dynamic reverse listener was asked for reaches the
      client.
    - Composition (Serve, TunnelServer): an admitted request is connected to its destination;
      a tunnel identifier is connected to the pod the registry saw last; every answer of the
      registry, in every interleaving, is what the last pod of the tunnel says; tunnels of
      one identifier share their limiters.
    - Connections and tasks (CnxPool, Executor): no stream is used by two tunnels or put back
      after use; bytes read too far are what the tunnel reads first; no task outlives the
      executors it was spawned through.
    - Data (Transport, Duplex, Udp, ReverseTunnel, RateLimiter): a tunnel delivers the bytes
      given to it, in order, also with the two tasks of both ends in any interleaving and with
      failures; control frames are answered in order and not forgotten; datagrams reach their
      own stream, and those of a socks5 association all of them, in order; each connection of
      a reverse listener is handed to one request, in order; connections of a tunnel together
      stay within the burst and one byte per replenishment interval.
    - Proxies and credentials (Proxies): the http proxy forwards exactly what its contract
      admits; the client's credentials are those the proxy accepts; over TCP the socks5 proxy
      serves only clients that proved theirs, but one client that stalls holds up all others.
    - Liveness and termination (Duplex, Client, Udp, Connect, Scp, Reloader): each direction
      of a tunnel follows the end of the other, unless its writer is blocked in the transport
      or its local side keeps sending; the reverse loop survives
      every failure; the UDP server never waits for a stream that cannot answer; the race of
      addresses keeps the first connection; the exchange with a proxy and a download end.
    - Files (Scp, Reloader): uploading and downloading a tree are inverse; reloaded rules are
      whole; a certificate change is never lost.
    - Theorems about behaviour the code probably does not intend say so in their comment (a
      replaced pod, the first idle tick of a reverse listener, an unsolicited pong,
      half-closed connections, a ping before the writing task runs, stdio tunnels, unix paths
      of reverse tunnels, file names chosen by an scp server, broken key files, a reload that
      drops ECH, dates of the embedded certificate, the end of a shell's input, drops of
      cloned executors, a socks5 client that stalls, a timeout of zero).

    ** Bounds

    Integers are [Z] with the bounds or the wrap-around of their Rust type at the places where
    the code relies on them.  Recursion is structural where the data allows it.  Elsewhere a
    function has a fuel: [interleave] takes the number of addresses, which is enough because
    each turn takes one; the loops of [Scp] take the number of messages to come plus one,
    and [scp_download_terminates] proves that enough; [upload_dir] takes the depth of the tree.

    ** Not modelled

    Third-party code is a parameter: clap's reading of the command line, hyper, fastwebsockets
    and h2 below the messages they deliver, rustls, russh, bb8, kube, axum, the tokio runtime
    and the system's sockets; where the program relies on their behaviour it is a class of
    laws with a concrete instance.  Log output and [Debug] instances are left out.  Times are
    arguments: the model of a timer is the moment it fires. *)

(** ** This file: what all the others share *)

From Stdlib Require Import ZArith Lia Ascii String.
From stdpp Require Import base gmap strings list pretty.

#[global] Open Scope Z_scope.

Declare Scope rust_scope.
Delimit Scope rust_scope with rust.

Create HintDb wst discriminated.
Create Rewrite HintDb wst.

(** ** Fallible computations

    A Rust call returns [Ok], returns [Err] or panics ([unwrap], [expect],
    [unreachable!], a checked index or an arithmetic overflow check). *)

Inductive outcome (E A : Type) : Type :=
| Ok (a : A)
| Err (e : E)
| Panic.
Arguments Ok {E A} a.
Arguments Err {E A} e.
Arguments Panic {E A}.

(** [std::task::Poll]. *)
Inductive Poll (A : Type) := Pending | Ready (a : A).
Arguments Pending {A}.
Arguments Ready {A} a.

#[global] Instance outcome_ret {E} : MRet (outcome E) := λ A a, Ok a.
#[global] Instance outcome_bind {E} : MBind (outcome E) := λ A B f m,
  match m with
  | Ok a => f a
  | Err e => Err e
  | Panic => Panic
  end.
#[global] Instance outcome_fmap {E} : FMap (outcome E) := λ A B f m,
  match m with
  | Ok a => Ok (f a)
  | Err e => Err e
  | Panic => Panic
  end.

#[global] Instance outcome_eq_dec {E A} `{EqDecision E, EqDecision A} :
  EqDecision (outcome E A).
Proof. solve_decision. Defined.

Definition is_ok {E A} (m : outcome E A) : bool :=
  match m with Ok _ => true | _ => false end.

(** [Option::ok_or] and [Result::ok]. *)
Definition ok_or {E A} (e : E) (o : option A) : outcome E A :=
  match o with Some a => Ok a | None => Err e end.

Definition ok {E A} (m : outcome E A) : option A :=
  match m with Ok a => Some a | _ => None end.

Definition map_err {E F A} (f : E → F) (m : outcome E A) : outcome F A :=
  match m with Ok a => Ok a | Err e => Err (f e) | Panic => Panic end.

(** [Option::unwrap]: a panic on [None]. *)
Definition unwrap {E A} (o : option A) : outcome E A :=
  match o with Some a => Ok a | None => Panic end.

(** [iter().map(f).collect::<Result<Vec<_>, _>>()]: stops at the first failure. *)
Fixpoint collect {E A B} (f : A → outcome E B) (l : list A) : outcome E (list B) :=
  match l with
  | [] => Ok []
  | x :: l => match f x with
              | Ok y => match collect f l with
                        | Ok ys => Ok (y :: ys)
                        | Err e => Err e
                        | Panic => Panic
                        end
              | Err e => Err e
              | Panic => Panic
              end
  end.

Lemma bind_ok_inv {E A B} (m : outcome E A) (f : A → outcome E B) b :
  m ≫= f = Ok b ↔ ∃ a, m = Ok a ∧ f a = Ok b.
Proof. destruct m; naive_solver. Qed.

(** ** Absence of panics *)

Create HintDb no_panic.

Lemma bind_no_panic {E A B} (m : outcome E A) (f : A → outcome E B) :
  m ≠ Panic → (∀ a, m = Ok a → f a ≠ Panic) → m ≫= f ≠ Panic.
Proof. intros Hm Hf. destruct m; [by apply Hf|done|done]. Qed.

Lemma unwrap_no_panic {E A} (o : option A) : is_Some o → unwrap (E := E) o ≠ Panic.
Proof. by intros [a ->]. Qed.

Lemma ok_or_no_panic {E A} (e : E) (o : option A) : ok_or e o ≠ Panic.
Proof. by destruct o. Qed.

#[export] Hint Resolve unwrap_no_panic ok_or_no_panic : no_panic.

Lemma ok_or_ok {E A} (e : E) (o : option A) a : ok_or e o = Ok a ↔ o = Some a.
Proof. destruct o; naive_solver. Qed.

Lemma map_err_ok {E F A} (f : E → F) (m : outcome E A) a :
  map_err f m = Ok a ↔ m = Ok a.
Proof. destruct m; naive_solver. Qed.

Lemma collect_ok {E A B} (f : A → outcome E B) l ys :
  collect f l = Ok ys ↔ Forall2 (λ x y, f x = Ok y) l ys.
Proof.
  revert ys. induction l as [|x l IH]; intros ys; simpl.
  - split; [intros [= <-]; constructor | by inversion 1].
  - split.
    + destruct (f x) eqn:Hx, (collect f l) eqn:Hl; intros [= <-].
      constructor; [done|]. by apply IH.
    + inversion 1 as [|? y ? ys' Hxy Hys]; subst. rewrite Hxy.
      apply IH in Hys. by rewrite Hys.
Qed.

(** ** Machine integers *)

Definition U8_MAX : Z := 2 ^ 8 - 1.
Definition U16_MAX : Z := 2 ^ 16 - 1.
Definition U32_MAX : Z := 2 ^ 32 - 1.
Definition U64_MAX : Z := 2 ^ 64 - 1.

(** [x as uW] and the wrapping operations on a [W]-bit unsigned integer. *)
Definition wrap (w x : Z) : Z := x mod 2 ^ w.

(** [x.clamp(lo, hi)]. *)
Definition clamp (lo hi x : Z) : Z := if x <? lo then lo else if hi <? x then hi else x.

Lemma wrap_range w x : 0 ≤ w → 0 ≤ wrap w x < 2 ^ w.
Proof. intros Hw. apply Z.mod_pos_bound. by apply Z.pow_pos_nonneg. Qed.

Lemma wrap_small w x : 0 ≤ x < 2 ^ w → wrap w x = x.
Proof. apply Z.mod_small. Qed.

Lemma clamp_range lo hi x : lo ≤ hi → lo ≤ clamp lo hi x ≤ hi.
Proof. unfold clamp. repeat case_match; lia. Qed.

Lemma clamp_id lo hi x : lo ≤ x ≤ hi → clamp lo hi x = x.
Proof. unfold clamp. repeat case_match; lia. Qed.

#[export] Hint Resolve wrap_range clamp_range : wst.

(** ** Durations

    [std::time::Duration] counted in nanoseconds. *)

Definition Duration := Z.
Definition NANOS : Z := 1000000000.
Definition from_secs (s : Z) : Duration := s * NANOS.
Definition from_millis (ms : Z) : Duration := ms * 1000000.
Definition as_secs (d : Duration) : Z := d / NANOS.

Lemma as_secs_from_secs s : as_secs (from_secs s) = s.
Proof. unfold as_secs, from_secs, NANOS. by apply Z.div_mul. Qed.

#[export] Hint Rewrite as_secs_from_secs : wst.

(** ** Iterator adapters *)

Section Iter.
Context {A B : Type}.
Implicit Types (l : list A).

(** [Iterator::find_map]. *)
Fixpoint find_map (f : A → option B) (l : list A) : option B :=
  match l with
  | [] => None
  | x :: l => match f x with Some y => Some y | None => find_map f l end
  end.

Lemma find_map_Some f l y :
  find_map f l = Some y ↔
  ∃ l1 x l2, l = l1 ++ x :: l2 ∧ f x = Some y ∧ Forall (λ x, f x = None) l1.
Proof.
  induction l as [|a l IH]; simpl; [by split; [|intros ([]&?&?&?&?)]|].
  split.
  - destruct (f a) eqn:Ha.
    + intros [= ->]. exists [], a, l. naive_solver.
    + intros (l1&x&l2&->&Hx&Hl1)%IH. exists (a :: l1), x, l2. naive_solver.
  - intros ([|b l1]&x&l2&Heq&Hx&Hl1); simplify_eq/=.
    + by rewrite Hx.
    + apply Forall_cons in Hl1 as [Hb Hl1]. rewrite Hb. apply IH. eauto 10.
Qed.

Lemma find_map_None f l : find_map f l = None ↔ Forall (λ x, f x = None) l.
Proof.
  induction l as [|a l IH]; simpl; [by split|].
  rewrite Forall_cons. destruct (f a); naive_solver.
Qed.

(** [Iterator::find]. *)
Fixpoint find (p : A → bool) (l : list A) : option A :=
  match l with
  | [] => None
  | x :: l => if p x then Some x else find p l
  end.

Lemma find_Some p l x :
  find p l = Some x ↔
  ∃ l1 l2, l = l1 ++ x :: l2 ∧ p x = true ∧ Forall (λ x, p x = false) l1.
Proof.
  induction l as [|a l IH]; simpl; [by split; [|intros ([]&?&?&?)]|].
  split.
  - destruct (p a) eqn:Ha.
    + intros [= ->]. exists [], l. naive_solver.
    + intros (l1&l2&->&Hx&Hl1)%IH. exists (a :: l1), l2. naive_solver.
  - intros ([|b l1]&l2&Heq&Hx&Hl1); simplify_eq/=; [by rewrite Hx|].
    apply Forall_cons in Hl1 as [Hb Hl1]. rewrite Hb. apply IH. eauto.
Qed.

Lemma find_None p l : find p l = None ↔ Forall (λ x, p x = false) l.
Proof.
  induction l as [|a l IH]; simpl; [by split|].
  rewrite Forall_cons. destruct (p a); naive_solver.
Qed.
End Iter.

(** [Iterator::any] and [Iterator::all]. *)
Lemma any_true {A} (p : A → bool) l : existsb p l = true ↔ ∃ x, x ∈ l ∧ p x = true.
Proof. rewrite existsb_exists. by setoid_rewrite list_elem_of_In. Qed.

Lemma any_false {A} (p : A → bool) l : existsb p l = false ↔ ∀ x, x ∈ l → p x = false.
Proof.
  rewrite <-not_true_iff_false, any_true. split.
  - intros H x Hx. destruct (p x) eqn:?; [|done]. exfalso; eauto.
  - intros H (x&Hx&?). by rewrite H in *.
Qed.

Lemma all_true {A} (p : A → bool) l : forallb p l = true ↔ ∀ x, x ∈ l → p x = true.
Proof. rewrite forallb_forall. by setoid_rewrite list_elem_of_In. Qed.

(** The association of a key after a sequence of updates: the last update that hits
    the key decides.  [upd] is any map's update and [get] its lookup. *)
Lemma fold_update_get {K V M X} (get : M → K → option V) (upd : M → X → M)
    (hit : X → K → bool) (val : X → option V) :
  (∀ m x k, get (upd m x) k = if hit x k then val x else get m k) →
  ∀ xs m k, get (fold_left upd xs m) k =
    match find (λ x, hit x k) (rev xs) with Some x => val x | None => get m k end.
Proof.
  intros Hupd xs. induction xs as [|a xs IH]; intros m k; simpl; [done|].
  rewrite IH. clear IH. generalize (rev xs). intros l.
  induction l as [|x l IHl]; simpl; [|by destruct (hit x k)].
  rewrite Hupd. by destruct (hit a k).
Qed.
