(* ===== verification/Str.v ===== *)
(** * Str: the operations of Rust's [str] that the program uses

    A [&str] is its UTF-8 bytes, a [string] whose characters are bytes.  Pattern
    arguments are a byte or a non-empty [string].  Each function has the lemma
    that characterises it on every input; the parsers of the other files are
    proved with these lemmas only. *)

From Stdlib Require Import ZArith Lia Ascii String.
From stdpp Require Import base strings list pretty.
From S2P Require Import Prelude.

#[local] Open Scope stdpp_scope.

Lemma app_String a s t : String a s +:+ t = String a (s +:+ t).
Proof. reflexivity. Qed.
Lemma app_Empty t : "" +:+ t = t.
Proof. reflexivity. Qed.
Lemma app_empty_r s : s +:+ "" = s.
Proof. induction s as [|a s IH]; [done|]. by rewrite app_String, IH. Qed.
Lemma str_app_assoc s t u : (s +:+ t) +:+ u = s +:+ (t +:+ u).
Proof. induction s as [|a s IH]; [done|]. by rewrite !app_String, IH. Qed.
Lemma length_str_app s t : String.length (s +:+ t) = (String.length s + String.length t)%nat.
Proof. induction s as [|a s IH]; [done|]. rewrite app_String. simpl. by rewrite IH. Qed.

Create Rewrite HintDb str.
#[export] Hint Rewrite app_String app_Empty app_empty_r str_app_assoc : str.

(** ** Bytes of a string *)

Fixpoint bytes (s : string) : list ascii :=
  match s with "" => [] | String a s => a :: bytes s end.

Lemma bytes_app s t : bytes (s +:+ t) = bytes s ++ bytes t.
Proof. induction s as [|a s IH]; [done|]. rewrite app_String. simpl. by rewrite IH. Qed.
Lemma length_bytes s : List.length (bytes s) = String.length s.
Proof. induction s; simpl; congruence. Qed.
#[global] Instance bytes_inj : Inj (=) (=) bytes.
Proof. intros s. induction s as [|a s IH]; intros [|b t] [=]; f_equal; auto. Qed.

(** [s.contains(c)] for a one-byte [char]. *)
Definition contains_char (c : ascii) (s : string) : bool := bool_decide (c ∈ bytes s).

Lemma contains_char_spec c s : contains_char c s = true ↔ c ∈ bytes s.
Proof. apply bool_decide_eq_true. Qed.

(** ** Prefixes *)

(** [s.strip_prefix(p)]; [s.starts_with(p)]. *)
Fixpoint strip_prefix (p s : string) : option string :=
  match p, s with
  | "", _ => Some s
  | String a p, String b s => if Ascii.eqb a b then strip_prefix p s else None
  | String _ _, "" => None
  end.
Definition starts_with (p s : string) : bool :=
  match strip_prefix p s with Some _ => true | None => false end.

Lemma strip_prefix_Some p s r : strip_prefix p s = Some r ↔ s = p +:+ r.
Proof.
  revert s. induction p as [|a p IH]; intros s.
  - cbn [strip_prefix]. rewrite app_Empty. split; congruence.
  - rewrite app_String. destruct s as [|b s]; cbn [strip_prefix]; [done|].
    destruct (Ascii.eqb_spec a b) as [->|Hne]; [rewrite IH|]; split; congruence.
Qed.

Lemma strip_prefix_app p r : strip_prefix p (p +:+ r) = Some r.
Proof. by apply strip_prefix_Some. Qed.

Lemma starts_with_true p s : starts_with p s = true ↔ ∃ r, s = p +:+ r.
Proof.
  unfold starts_with. destruct (strip_prefix p s) as [r|] eqn:E.
  - apply strip_prefix_Some in E. naive_solver.
  - split; [done|]. intros [r ->]. by rewrite strip_prefix_app in E.
Qed.

(** ** Reversal and suffixes *)

Fixpoint rev_append (s acc : string) : string :=
  match s with "" => acc | String a s => rev_append s (String a acc) end.
Definition rev_str (s : string) : string := rev_append s "".

Lemma rev_append_app s acc : rev_append s acc = rev_str s +:+ acc.
Proof.
  unfold rev_str. revert acc. induction s as [|a s IH]; intros acc; [done|]. simpl.
  rewrite IH, (IH (String a "")). by rewrite str_app_assoc.
Qed.
Lemma rev_str_app s t : rev_str (s +:+ t) = rev_str t +:+ rev_str s.
Proof.
  induction s as [|a s IH]; [by rewrite app_Empty, app_empty_r|].
  rewrite app_String. unfold rev_str at 1 3. simpl.
  by rewrite !rev_append_app, IH, str_app_assoc.
Qed.
Lemma rev_str_involutive s : rev_str (rev_str s) = s.
Proof.
  induction s as [|a s IH]; [done|].
  unfold rev_str at 2. simpl. by rewrite rev_append_app, rev_str_app, IH.
Qed.
#[global] Instance rev_str_inj : Inj (=) (=) rev_str.
Proof. intros s t H. by rewrite <-(rev_str_involutive s), H, rev_str_involutive. Qed.

(** [s.strip_suffix(p)]; [s.ends_with(p)]. *)
Definition strip_suffix (p s : string) : option string :=
  rev_str <$> strip_prefix (rev_str p) (rev_str s).
Definition ends_with (p s : string) : bool :=
  match strip_suffix p s with Some _ => true | None => false end.

Lemma strip_suffix_Some p s r : strip_suffix p s = Some r ↔ s = r +:+ p.
Proof.
  unfold strip_suffix. rewrite fmap_Some. setoid_rewrite strip_prefix_Some. split.
  - intros (t&Ht&->). apply (inj rev_str).
    by rewrite rev_str_app, rev_str_involutive.
  - intros ->. exists (rev_str r). by rewrite rev_str_app, rev_str_involutive.
Qed.

Lemma ends_with_true p s : ends_with p s = true ↔ ∃ r, s = r +:+ p.
Proof.
  unfold ends_with. destruct (strip_suffix p s) as [r|] eqn:E.
  - apply strip_suffix_Some in E. naive_solver.
  - split; [done|]. intros [r Hr]. by apply strip_suffix_Some in Hr; simplify_eq.
Qed.

(** ** Slices: [&s[..n]] and [&s[n..]] *)

Fixpoint take_str (n : nat) (s : string) : string :=
  match n, s with S n, String a s => String a (take_str n s) | _, _ => "" end.
Fixpoint drop_str (n : nat) (s : string) : string :=
  match n, s with S n, String _ s => drop_str n s | _, _ => s end.

Lemma take_drop_str n s : take_str n s +:+ drop_str n s = s.
Proof. revert s. induction n as [|n IH]; intros [|a s]; cbn [take_str drop_str]; [done..|].
  by rewrite app_String, IH.
Qed.

Lemma length_take_str n s : String.length (take_str n s) = Nat.min n (String.length s).
Proof. revert s. induction n as [|n IH]; intros [|a s]; simpl; auto. Qed.

Lemma length_drop_str n s : String.length (drop_str n s) = (String.length s - n)%nat.
Proof. revert s. induction n as [|n IH]; intros [|a s]; simpl; auto. Qed.

Lemma take_str_all n s : (String.length s ≤ n)%nat → take_str n s = s.
Proof.
  revert s. induction n as [|n IH]; intros [|a s]; simpl; intros; try done; [lia|].
  by rewrite IH by lia.
Qed.

Lemma take_str_app s t : take_str (String.length s) (s +:+ t) = s.
Proof. induction s as [|a s IH]; [by destruct t|]. rewrite app_String. simpl. by rewrite IH. Qed.

Lemma drop_str_app s t : drop_str (String.length s) (s +:+ t) = t.
Proof. induction s as [|a s IH]; [by destruct t|]. rewrite app_String. simpl. by rewrite IH. Qed.

(** ** Splitting *)

(** [s.split_once(p)] for a string pattern: at the first occurrence of [p]. *)
Fixpoint split_once (p s : string) : option (string * string) :=
  match strip_prefix p s with
  | Some r => Some ("", r)
  | None => match s with
            | "" => None
            | String a s => match split_once p s with
                            | Some (l, r) => Some (String a l, r)
                            | None => None
                            end
            end
  end.

(** [s.split_once(|c| f(c))] for a predicate on one-byte chars. *)
Fixpoint split_once_by (f : ascii → bool) (s : string) : option (string * string) :=
  match s with
  | "" => None
  | String a s => if f a then Some ("", s)
                  else match split_once_by f s with
                       | Some (l, r) => Some (String a l, r)
                       | None => None
                       end
  end.
Definition split_once_char (c : ascii) : string → option (string * string) :=
  split_once_by (Ascii.eqb c).

(** [s.contains(p)] for a string pattern. *)
Definition contains (p s : string) : bool :=
  match split_once p s with Some _ => true | None => false end.

Lemma split_once_Some p s l r : split_once p s = Some (l, r) → s = l +:+ p +:+ r.
Proof.
  revert l r. induction s as [|a s IH]; intros l r; cbn [split_once].
  - destruct (strip_prefix p "") eqn:E; [|done].
    intros [= <- <-]. by apply strip_prefix_Some in E.
  - destruct (strip_prefix p (String a s)) eqn:E.
    + intros [= <- <-]. by apply strip_prefix_Some in E.
    + destruct (split_once p s) as [[l' r']|]; [|done].
      intros [= <- <-]. rewrite app_String. by rewrite (IH l' r').
Qed.

Lemma split_once_None p s : split_once p s = None ↔ ∀ l r, s ≠ l +:+ p +:+ r.
Proof.
  induction s as [|a s IH]; cbn [split_once].
  - destruct (strip_prefix p "") as [q|] eqn:E.
    + split; [done|]. intros H. apply strip_prefix_Some in E. by destruct (H "" q).
    + split; [|done]. intros _ l r H. symmetry in H. destruct l; [|done].
      rewrite app_Empty in H. by rewrite <-H, strip_prefix_app in E.
  - destruct (strip_prefix p (String a s)) as [q|] eqn:E.
    + split; [done|]. intros H. apply strip_prefix_Some in E. by destruct (H "" q).
    + destruct (split_once p s) as [[l' r']|] eqn:E2.
      * split; [done|]. intros H. apply split_once_Some in E2.
        destruct (H (String a l') r'). by rewrite app_String, E2.
      * split; [|done]. intros _ [|b l] r H.
        -- rewrite app_Empty in H. by rewrite H, strip_prefix_app in E.
        -- rewrite app_String in H. simplify_eq. by eapply IH.
Qed.

(** A pattern whose first character does not occur before it is found there. *)
Lemma split_once_fresh c p l r :
  Forall (λ a, Ascii.eqb c a = false) (bytes l) →
  split_once (String c p) (l +:+ String c p +:+ r) = Some (l, r).
Proof.
  induction l as [|a l IH]; cbn [bytes].
  - intros _. rewrite app_Empty. destruct r; cbn [split_once];
      rewrite app_String; cbn [split_once]; by rewrite <-app_String, strip_prefix_app.
  - rewrite Forall_cons. intros [Ha Hl]. rewrite app_String. cbn [split_once strip_prefix].
    rewrite Ha, IH by done. done.
Qed.

Lemma split_once_absent c p s :
  Forall (λ a, Ascii.eqb c a = false) (bytes s) → split_once (String c p) s = None.
Proof.
  induction s as [|a s IH]; cbn [bytes split_once strip_prefix]; [done|].
  rewrite Forall_cons. intros [-> Hs]. by rewrite IH.
Qed.

Lemma contains_true p s : contains p s = true ↔ ∃ l r, s = l +:+ p +:+ r.
Proof.
  unfold contains. destruct (split_once p s) as [[l r]|] eqn:E.
  - apply split_once_Some in E. naive_solver.
  - rewrite split_once_None in E. naive_solver.
Qed.

(** The text before the first split has no split of its own. *)
Lemma split_once_by_Some f s l r :
  split_once_by f s = Some (l, r) ↔
  ∃ c, s = l +:+ String c r ∧ f c = true ∧ Forall (λ a, f a = false) (bytes l).
Proof.
  revert l r. induction s as [|a s IH]; intros l r; cbn [split_once_by].
  - split; [done|]. intros (c&H&_). destruct l; by rewrite ?app_String in H.
  - destruct (f a) eqn:Ha; split.
    + intros [= <- <-]. exists a. by repeat constructor.
    + intros (c&H&Hc&Hl). destruct l as [|b l]; [by rewrite app_Empty in H; simplify_eq|].
      rewrite app_String in H. simplify_eq. inversion Hl. congruence.
    + destruct (split_once_by f s) as [[l' r']|] eqn:E; intros [= <- <-].
      destruct (proj1 (IH l' r') eq_refl) as (c&->&Hc&Hl).
      exists c. rewrite app_String. by repeat constructor.
    + intros (c&H&Hc&Hl). destruct l as [|b l].
      { rewrite app_Empty in H. congruence. }
      rewrite app_String in H. simplify_eq. inversion Hl; subst.
      by rewrite (proj2 (IH l r)) by eauto.
Qed.

Lemma split_once_by_None f s :
  split_once_by f s = None ↔ Forall (λ a, f a = false) (bytes s).
Proof.
  induction s as [|a s IH]; simpl; [by split; [constructor|]|].
  rewrite Forall_cons, <-IH. destruct (f a); [by split; [|intros []]|].
  destruct (split_once_by f s) as [[]|]; split; intros; try done; by destruct_and?.
Qed.

Lemma no_char_bytes c s :
  Forall (λ a, Ascii.eqb c a = false) (bytes s) ↔ contains_char c s = false.
Proof.
  unfold contains_char. rewrite bool_decide_eq_false, Forall_forall.
  setoid_rewrite Ascii.eqb_neq. split.
  - intros H Hc. by apply (H c).
  - intros H a Ha ->. done.
Qed.

Lemma split_once_char_Some c s l r :
  split_once_char c s = Some (l, r) ↔
  s = l +:+ String c r ∧ contains_char c l = false.
Proof.
  unfold split_once_char. rewrite split_once_by_Some, <-no_char_bytes. split.
  - intros (d&->&->%Ascii.eqb_eq&Hl). done.
  - intros [-> Hl]. exists c. by rewrite Ascii.eqb_refl.
Qed.

Lemma split_once_char_None c s :
  split_once_char c s = None ↔ contains_char c s = false.
Proof. unfold split_once_char. by rewrite split_once_by_None, no_char_bytes. Qed.

(** [s.rsplit_once(c)]: at the last occurrence. *)
Definition rsplit_once_char (c : ascii) (s : string) : option (string * string) :=
  match split_once_char c (rev_str s) with
  | Some (r, l) => Some (rev_str l, rev_str r)
  | None => None
  end.

(** [s.split(c)]: the pieces between the occurrences of [c], one more than these. *)
Fixpoint split_char (c : ascii) (s : string) : list string :=
  match s with
  | "" => [""]
  | String a s => if Ascii.eqb c a then "" :: split_char c s
                  else match split_char c s with
                       | [] => [String a ""]
                       | p :: ps => String a p :: ps
                       end
  end.

Lemma split_char_nonempty c s : split_char c s ≠ [].
Proof. destruct s; simpl; [done|]. by repeat case_match. Qed.

Lemma split_char_none c s : contains_char c s = false → split_char c s = [s].
Proof.
  rewrite <-no_char_bytes.
  induction s as [|a s IH]; simpl; [done|].
  rewrite Forall_cons. intros [-> Hs]. by rewrite IH.
Qed.

Lemma split_char_app c l r :
  contains_char c l = false → split_char c (l +:+ String c r) = l :: split_char c r.
Proof.
  rewrite <-no_char_bytes.
  induction l as [|a l IH]; simpl.
  - intros _. by rewrite Ascii.eqb_refl.
  - rewrite Forall_cons. intros [Ha Hl]. by rewrite Ha, IH.
Qed.

Lemma split_char_app_any c l r :
  split_char c (l +:+ String c r) = split_char c l ++ split_char c r.
Proof.
  induction l as [|a l IH].
  - rewrite app_Empty. cbn [split_char]. by rewrite Ascii.eqb_refl.
  - rewrite app_String. cbn [split_char]. rewrite IH. destruct (Ascii.eqb c a); [done|].
    by destruct (split_char c l) eqn:Hl; [apply split_char_nonempty in Hl|].
Qed.

(** [s.splitn(n, c)]: at most [n] pieces. *)
Fixpoint splitn_char (n : nat) (c : ascii) (s : string) : list string :=
  match n with
  | 0%nat => []
  | 1%nat => [s]
  | S n => match split_once_char c s with
           | Some (l, r) => l :: splitn_char n c r
           | None => [s]
           end
  end.

(** ** Trimming

    [char::is_whitespace] is Unicode [White_Space]; its members have one, two or
    three UTF-8 bytes. *)

Definition byte_in (l : list Z) (a : ascii) : bool :=
  bool_decide (Z.of_N (N_of_ascii a) ∈ l).
Definition ws1 (a : ascii) : bool := byte_in [9; 10; 11; 12; 13; 32] a.
Definition ws2 (a b : ascii) : bool := byte_in [194] a && byte_in [133; 160] b.
Definition ws3 (a b c : ascii) : bool :=
  (byte_in [225] a && byte_in [154] b && byte_in [128] c)
  || (byte_in [226] a && byte_in [128] b
      && byte_in [128; 129; 130; 131; 132; 133; 134; 135; 136; 137; 138; 168; 169; 175] c)
  || (byte_in [226] a && byte_in [129] b && byte_in [159] c)
  || (byte_in [227] a && byte_in [128] b && byte_in [128] c).

(** Drops the white space at the front; [w1], [w2], [w3] recognise a character of
    one, two and three bytes. *)
Fixpoint trim_front (w1 : ascii → bool) (w2 : ascii → ascii → bool)
    (w3 : ascii → ascii → ascii → bool) (s : string) : string :=
  match s with
  | "" => ""
  | String a s1 =>
      if w1 a then trim_front w1 w2 w3 s1
      else match s1 with
           | "" => s
           | String b s2 =>
               if w2 a b then trim_front w1 w2 w3 s2
               else match s2 with
                    | "" => s
                    | String c s3 => if w3 a b c then trim_front w1 w2 w3 s3 else s
                    end
           end
  end.

(** [trim_start], [trim_end] and [trim]. *)
Definition trim_start : string → string := trim_front ws1 ws2 ws3.
Definition trim_end (s : string) : string :=
  rev_str (trim_front ws1 (λ a b, ws2 b a) (λ a b c, ws3 c b a) (rev_str s)).
Definition trim (s : string) : string := trim_end (trim_start s).

Lemma trim_front_suffix w1 w2 w3 s : ∃ p, s = p +:+ trim_front w1 w2 w3 s.
Proof.
  assert (∀ n s, (String.length s ≤ n)%nat → ∃ p, s = p +:+ trim_front w1 w2 w3 s) as H.
  { clear s. induction n as [|n IH]; intros [|a s1] Hn; try by exists "".
    { simpl in Hn. lia. }
    cbn [String.length] in Hn. cbn [trim_front]. destruct (w1 a).
    { destruct (IH s1) as [p Hp]; [lia|]. exists (String a p).
      rewrite app_String. by f_equal. }
    destruct s1 as [|b s2]; [by exists ""|]. destruct (w2 a b).
    { destruct (IH s2) as [p Hp]; [simpl in Hn; lia|]. exists (String a (String b p)).
      rewrite !app_String. by do 2 f_equal. }
    destruct s2 as [|c s3]; [by exists ""|]. destruct (w3 a b c); [|by exists ""].
    destruct (IH s3) as [p Hp]; [simpl in Hn; lia|].
    exists (String a (String b (String c p))). rewrite !app_String. by do 3 f_equal. }
  by eapply H.
Qed.

(** Trimming only removes bytes at the two ends. *)
Lemma trim_infix s : ∃ p q, s = p +:+ trim s +:+ q.
Proof.
  destruct (trim_front_suffix ws1 ws2 ws3 s) as [p Hp].
  destruct (trim_front_suffix ws1 (λ a b, ws2 b a) (λ a b c, ws3 c b a)
              (rev_str (trim_start s))) as [q Hq].
  exists p, (rev_str q). apply (f_equal rev_str) in Hq.
  rewrite rev_str_involutive, rev_str_app in Hq. unfold trim, trim_end.
  rewrite <-Hq. exact Hp.
Qed.

(** Text without blanks: printable ASCII other than the space. *)
Definition graphic_char (a : ascii) : bool :=
  let c := Z.of_N (N_of_ascii a) in (33 <=? c) && (c <=? 126).
Definition graphic (s : string) : bool := forallb graphic_char (bytes s).

Lemma graphic_cons a s : graphic (String a s) = graphic_char a && graphic s.
Proof. done. Qed.

Lemma graphic_app s t : graphic (s +:+ t) = graphic s && graphic t.
Proof. unfold graphic. by rewrite bytes_app, forallb_app. Qed.

Lemma graphic_rev s : graphic (rev_str s) = graphic s.
Proof.
  induction s as [|a s IH]; [done|]. change (String a s) with (String a "" +:+ s).
  rewrite rev_str_app, !graphic_app, IH, andb_comm. done.
Qed.

Lemma graphic_not_byte_in l a :
  graphic_char a = true → Forall (λ x, x < 33 ∨ 126 < x) l → byte_in l a = false.
Proof.
  intros Ha Hl. unfold byte_in. apply bool_decide_eq_false. intros Hin.
  rewrite Forall_forall in Hl. apply Hl in Hin. unfold graphic_char in Ha.
  apply andb_true_iff in Ha. lia.
Qed.

Lemma graphic_not_ws a b c :
  graphic_char a = true → ws1 a = false ∧ ws2 a b = false ∧ ws3 a b c = false.
Proof.
  intros Ha. unfold ws1, ws2, ws3.
  rewrite !(graphic_not_byte_in _ a) by (first [done | repeat constructor; lia]). done.
Qed.

Lemma graphic_not_ws_end a b c :
  graphic_char c = true → ws1 c = false ∧ ws2 b c = false ∧ ws3 a b c = false.
Proof.
  intros Hc. unfold ws1, ws2, ws3.
  rewrite !(graphic_not_byte_in _ c) by (first [done | repeat constructor; lia]).
  by rewrite !andb_false_r.
Qed.

Lemma trim_front_id w1 w2 w3 a s :
  (∀ b c, w1 a = false ∧ w2 a b = false ∧ w3 a b c = false) →
  trim_front w1 w2 w3 (String a s) = String a s.
Proof.
  intros Hw. destruct s as [|b [|c s]]; cbn [trim_front].
  - by destruct (Hw a a) as (->&_).
  - by destruct (Hw b b) as (->&->&_).
  - by destruct (Hw b c) as (->&->&->).
Qed.

(** Nothing is trimmed from a text whose first and last bytes are printable. *)
Lemma trim_id a s b t :
  graphic_char a = true → graphic_char b = true → String a s = t +:+ String b "" →
  trim (String a s) = String a s.
Proof.
  intros Ha Hb Hs. unfold trim, trim_end, trim_start.
  rewrite (trim_front_id _ _ _ a s) by (intros; by apply graphic_not_ws).
  rewrite Hs, rev_str_app. change (rev_str (String b "")) with (String b "").
  rewrite app_String, app_Empty. rewrite trim_front_id.
  - change (String b (rev_str t)) with (rev_str (String b "") +:+ rev_str t).
    by rewrite <-rev_str_app, rev_str_involutive.
  - intros c d. by apply graphic_not_ws_end.
Qed.

Lemma str_snoc_inv s : s = "" ∨ ∃ t b, s = t +:+ String b "".
Proof.
  induction s as [|a s IH]; [by left|right]. destruct IH as [->|(t&b&->)].
  - by exists "", a.
  - by exists (String a t), b.
Qed.

Lemma trim_graphic s : graphic s = true → trim s = s.
Proof.
  intros Hs. destruct s as [|a s]; [done|].
  destruct (str_snoc_inv (String a s)) as [?|(t&b&Ht)]; [done|].
  eapply trim_id; [..|exact Ht].
  - rewrite graphic_cons in Hs. by apply andb_true_iff in Hs as [? _].
  - rewrite Ht, graphic_app in Hs. apply andb_true_iff in Hs as [_ Hs].
    rewrite graphic_cons in Hs. by apply andb_true_iff in Hs as [? _].
Qed.

(** [s.trim_start_matches(c)] and [s.trim_end_matches(c)]. *)
Fixpoint trim_start_matches (c : ascii) (s : string) : string :=
  match s with
  | "" => ""
  | String a s' => if Ascii.eqb c a then trim_start_matches c s' else s
  end.
Definition trim_end_matches (c : ascii) (s : string) : string :=
  rev_str (trim_start_matches c (rev_str s)).

Lemma trim_end_matches_last c d s :
  c ≠ d → trim_end_matches c (s +:+ String d "") = s +:+ String d "".
Proof.
  intros Hne. unfold trim_end_matches. rewrite rev_str_app.
  change (rev_str (String d "")) with (String d "").
  rewrite app_String, app_Empty. cbn [trim_start_matches].
  rewrite (proj2 (Ascii.eqb_neq _ _)) by done.
  change (String d (rev_str s)) with (String d "" +:+ rev_str s).
  by rewrite rev_str_app, rev_str_involutive.
Qed.

Lemma trim_end_matches_snoc c s :
  trim_end_matches c (s +:+ String c "") = trim_end_matches c s.
Proof.
  unfold trim_end_matches. rewrite rev_str_app.
  change (rev_str (String c "")) with (String c "").
  rewrite app_String, app_Empty. cbn [trim_start_matches]. by rewrite Ascii.eqb_refl.
Qed.

(** ** Numbers *)

(** [char::to_digit(radix)] for radix 10 and 16. *)
Definition to_digit (radix : Z) (a : ascii) : option Z :=
  let c := Z.of_N (N_of_ascii a) in
  let d := if (48 <=? c) && (c <=? 57) then c - 48
           else if (97 <=? c) && (c <=? 122) then c - 97 + 10
           else if (65 <=? c) && (c <=? 90) then c - 65 + 10
           else radix in
  if d <? radix then Some d else None.

Fixpoint parse_digits (max acc : Z) (s : string) : option Z :=
  match s with
  | "" => Some acc
  | String a s => match to_digit 10 a with
                  | None => None
                  | Some d => let acc := acc * 10 + d in
                              if max <? acc then None else parse_digits max acc s
                  end
  end.

(** [s.parse::<uW>()] with [max] the largest value of the type. *)
Definition parse_uint (max : Z) (s : string) : option Z :=
  match s with
  | "" => None
  | String a r =>
      if Ascii.eqb a "+"%char
      then match r with "" => None | _ => parse_digits max 0 r end
      else parse_digits max 0 s
  end.
Definition parse_u16 : string → option Z := parse_uint U16_MAX.
Definition parse_u64 : string → option Z := parse_uint U64_MAX.

(** [format!("{n}")] for an unsigned integer. *)
Definition show (n : Z) : string := pretty (Z.to_N n).

Lemma to_digit_range r a d : to_digit r a = Some d → 0 ≤ d < r.
Proof.
  unfold to_digit. set (c := Z.of_N (N_of_ascii a)). assert (0 ≤ c) by lia.
  intros Hd. repeat case_match; simplify_eq; lia.
Qed.

Lemma parse_digits_range max acc s n :
  0 ≤ acc ≤ max → parse_digits max acc s = Some n → acc ≤ n ≤ max.
Proof.
  revert acc. induction s as [|a s IH]; intros acc Hacc; simpl; [naive_solver lia|].
  destruct (to_digit 10 a) as [d|] eqn:Hd; [|done]. apply to_digit_range in Hd.
  destruct (max <? acc * 10 + d) eqn:?; [done|]. intros H. apply IH in H; lia.
Qed.

Lemma parse_uint_range max s n : 0 ≤ max → parse_uint max s = Some n → 0 ≤ n ≤ max.
Proof.
  intros Hmax. unfold parse_uint. destruct s as [|a [|b r]]; [done|..].
  - destruct (Ascii.eqb a "+"); [done|]. apply parse_digits_range. lia.
  - destruct (Ascii.eqb a "+"); apply parse_digits_range; lia.
Qed.

Lemma to_digit_pretty x : (x < 10)%N → to_digit 10 (pretty_N_char x) = Some (Z.of_N x).
Proof.
  intros Hx.
  assert (x = 0 ∨ x = 1 ∨ x = 2 ∨ x = 3 ∨ x = 4 ∨ x = 5 ∨ x = 6
          ∨ x = 7 ∨ x = 8 ∨ x = 9)%N as H by lia.
  by repeat destruct H as [->|H]; subst.
Qed.

Lemma parse_digits_pretty max x s :
  Z.of_N x ≤ max →
  parse_digits max 0 (pretty_N_go x s) = parse_digits max (Z.of_N x) s.
Proof.
  revert s. induction (N.lt_wf_0 x) as [x _ IH]; intros s Hmax.
  destruct (decide (x = 0%N)) as [->|Hx]; [by rewrite pretty_N_go_0|].
  rewrite pretty_N_go_step by lia.
  pose proof (N.div_mod x 10 ltac:(done)) as Hdm.
  pose proof (N.mod_lt x 10 ltac:(done)) as Hlt.
  assert (x `div` 10 < x)%N as Hdiv by (apply N.div_lt; lia).
  rewrite IH; [|done|clear -Hmax Hdiv; lia]. cbn [parse_digits].
  rewrite to_digit_pretty by done. cbn zeta.
  replace (Z.of_N (x / 10) * 10 + Z.of_N (x `mod` 10)) with (Z.of_N x) by lia.
  by rewrite (proj2 (Z.ltb_ge _ _)).
Qed.

Lemma pretty_head x : ∃ a s, pretty (x : N) = String a s ∧ a ≠ "+"%char.
Proof.
  assert (∀ x s, (0 < x)%N → ∃ a t, pretty_N_go x s = String a t ∧ a ≠ "+"%char) as Hgo.
  { intros y. induction (N.lt_wf_0 y) as [y _ IH]; intros s Hy.
    rewrite pretty_N_go_step by done. destruct (decide (y / 10 = 0)%N) as [->|Hne].
    - rewrite pretty_N_go_0. eexists _, _. split; [done|].
      unfold pretty_N_char. by repeat case_match.
    - apply IH; [apply N.div_lt; lia|by apply N.neq_0_lt_0]. }
  unfold pretty, pretty_N. case_decide; [by exists "0"%char, ""|].
  apply Hgo. lia.
Qed.

(** Printing then parsing an unsigned integer in range gives it back. *)
Lemma parse_uint_show max n : 0 ≤ n ≤ max → parse_uint max (show n) = Some n.
Proof.
  intros Hn. unfold show, parse_uint.
  destruct (pretty_head (Z.to_N n)) as (a&s&Heq&Ha). rewrite Heq.
  rewrite (proj2 (Ascii.eqb_neq _ _)) by done. rewrite <-Heq.
  unfold pretty, pretty_N. case_decide as H0.
  - assert (n = 0) as -> by lia. cbn [parse_digits]. change (to_digit 10 "0") with (Some 0).
    cbn beta iota. by rewrite (proj2 (Z.ltb_ge _ _)) by lia.
  - rewrite parse_digits_pretty by lia. simpl. f_equal. lia.
Qed.

Lemma show_no_char c n :
  (∀ x, (x < 10)%N → pretty_N_char x ≠ c) → contains_char c (show n) = false.
Proof.
  intros Hc. unfold show. apply no_char_bytes.
  assert (∀ x s, Forall (λ a, Ascii.eqb c a = false) (bytes s) →
                 Forall (λ a, Ascii.eqb c a = false) (bytes (pretty_N_go x s))) as Hgo.
  { intros x. induction (N.lt_wf_0 x) as [x _ IH]; intros s Hs.
    destruct (decide (x = 0%N)) as [->|Hx]; [by rewrite pretty_N_go_0|].
    rewrite pretty_N_go_step by lia. apply IH; [apply N.div_lt; lia|].
    simpl. constructor; [|done]. apply Ascii.eqb_neq.
    intros ->. by eapply (Hc (x `mod` 10)%N); [apply N.mod_lt|]. }
  unfold pretty, pretty_N. case_decide.
  - repeat constructor. apply Ascii.eqb_neq. intros ->. by apply (Hc 0%N).
  - apply Hgo. constructor.
Qed.

(** Decimal digits are none of the separators the program uses. *)
Lemma show_no_sep c n : to_digit 10 c = None → contains_char c (show n) = false.
Proof.
  intros Hc. apply show_no_char. intros x Hx <-. by rewrite to_digit_pretty in Hc.
Qed.

Lemma show_graphic n : graphic (show n) = true.
Proof.
  unfold graphic. apply forallb_forall. intros a Ha.
  destruct (graphic_char a) eqn:E; [done|]. exfalso.
  assert (contains_char a (show n) = false) as Hno.
  { apply show_no_sep. unfold graphic_char in E. unfold to_digit. cbv zeta in *.
    set (c := Z.of_N (N_of_ascii a)) in *. clearbody c.
    destruct (33 <=? c) eqn:E1, (c <=? 126) eqn:E2; simpl in E; try done;
      repeat case_match; try done; exfalso; lia. }
  apply not_true_iff_false in Hno. apply Hno, contains_char_spec. by apply list_elem_of_In.
Qed.

(** ** UTF-8 validity ([std::str::from_utf8], [Path::to_str], [String::from_utf8]) *)

Definition in_range (lo hi : Z) (a : ascii) : bool :=
  let c := Z.of_N (N_of_ascii a) in (lo <=? c) && (c <=? hi).
Definition cont : ascii → bool := in_range 128 191.

Fixpoint utf8_valid (s : string) : bool :=
  match s with
  | "" => true
  | String a s1 =>
      if in_range 0 127 a then utf8_valid s1 else
      match s1 with
      | "" => false
      | String b s2 =>
          if in_range 194 223 a && cont b then utf8_valid s2 else
          match s2 with
          | "" => false
          | String c s3 =>
              if ((in_range 224 224 a && in_range 160 191 b)
                  || (in_range 225 236 a && cont b)
                  || (in_range 237 237 a && in_range 128 159 b)
                  || (in_range 238 239 a && cont b)) && cont c
              then utf8_valid s3 else
              match s3 with
              | "" => false
              | String d s4 =>
                  if ((in_range 240 240 a && in_range 144 191 b)
                      || (in_range 241 243 a && cont b)
                      || (in_range 244 244 a && in_range 128 143 b)) && cont c && cont d
                  then utf8_valid s4 else false
              end
          end
      end
  end.

Definition from_utf8 (s : string) : option string :=
  if utf8_valid s then Some s else None.

(** [str::is_char_boundary(n)]: the byte at [n] is not a continuation byte. *)
Definition is_char_boundary (n : nat) (s : string) : bool :=
  match String.get n s with
  | Some a => negb (cont a)
  | None => Nat.eqb n (String.length s)
  end.

(** [String::from_utf8_lossy]: each maximal prefix of a character that cannot be completed
    is replaced by U+FFFD. *)
Definition REPLACEMENT : string := String "239" (String "191" (String "189" "")).

Definition lead3 (a b : ascii) : bool :=
  (in_range 224 224 a && in_range 160 191 b) || (in_range 225 236 a && cont b)
  || (in_range 237 237 a && in_range 128 159 b) || (in_range 238 239 a && cont b).
Definition lead4 (a b : ascii) : bool :=
  (in_range 240 240 a && in_range 144 191 b) || (in_range 241 243 a && cont b)
  || (in_range 244 244 a && in_range 128 143 b).

Fixpoint from_utf8_lossy (s : string) : string :=
  match s with
  | "" => ""
  | String a s1 =>
      if in_range 0 127 a then String a (from_utf8_lossy s1) else
      match s1 with
      | "" => REPLACEMENT
      | String b s2 =>
          if in_range 194 223 a && cont b then String a (String b (from_utf8_lossy s2)) else
          if negb (lead3 a b || lead4 a b) then REPLACEMENT +:+ from_utf8_lossy s1 else
          match s2 with
          | "" => REPLACEMENT
          | String c s3 =>
              if negb (cont c) then REPLACEMENT +:+ from_utf8_lossy s2 else
              if lead3 a b then String a (String b (String c (from_utf8_lossy s3))) else
              match s3 with
              | "" => REPLACEMENT
              | String d s4 =>
                  if cont d
                  then String a (String b (String c (String d (from_utf8_lossy s4))))
                  else REPLACEMENT +:+ from_utf8_lossy s3
              end
          end
      end
  end.

(** Text is left alone. *)
Lemma from_utf8_lossy_valid s : utf8_valid s = true → from_utf8_lossy s = s.
Proof.
  assert (∀ n s, (String.length s ≤ n)%nat → utf8_valid s = true → from_utf8_lossy s = s) as Hn.
  { clear s. induction n as [|n IH]; intros [|a s1] Hl; try done; cbn [String.length] in Hl; [lia|].
    cbn [utf8_valid from_utf8_lossy]. destruct (in_range 0 127 a).
    { intros Hv. f_equal. apply IH; [lia|done]. }
    destruct s1 as [|b s2]; [done|]. cbn [String.length] in Hl.
    destruct (in_range 194 223 a && cont b).
    { intros Hv. do 2 f_equal. apply IH; [lia|done]. }
    destruct s2 as [|c s3]; [done|]. cbn [String.length] in Hl.
    fold (lead3 a b) (lead4 a b). destruct (cont c); cbn [negb]; rewrite ?andb_true_r, ?andb_false_r.
    - destruct (lead3 a b); cbn [orb negb].
      { intros Hv. do 3 f_equal. apply IH; [lia|done]. }
      destruct s3 as [|d s4]; [done|]. cbn [String.length] in Hl.
      destruct (lead4 a b), (cont d); cbn; try done.
      intros Hv. do 4 f_equal. apply IH; [lia|done].
    - by destruct s3. }
  by apply (Hn (String.length s)).
Qed.

Lemma utf8_valid_app s t : utf8_valid s = true → utf8_valid t = true → utf8_valid (s +:+ t) = true.
Proof.
  intros Hs Ht. revert Hs. remember (String.length s) as n eqn:Hn.
  assert (String.length s ≤ n)%nat as Hle by lia. clear Hn. revert s Hle.
  induction n as [|n IH]; intros [|a s1] Hl; try done; cbn [String.length] in Hl; [lia|].
  rewrite app_String. cbn [utf8_valid]. destruct (in_range 0 127 a); [apply IH; lia|].
  destruct s1 as [|b s2]; [done|]. cbn [String.length] in Hl. rewrite app_String.
  destruct (in_range 194 223 a && cont b); [apply IH; lia|].
  destruct s2 as [|c s3]; [done|]. cbn [String.length] in Hl. rewrite app_String.
  fold (lead3 a b) (lead4 a b). destruct (lead3 a b && cont c); [apply IH; lia|].
  destruct s3 as [|d s4]; [done|]. cbn [String.length] in Hl. rewrite app_String.
  destruct (lead4 a b && cont c && cont d); [apply IH; lia|done].
Qed.

Lemma utf8_valid_graphic s : graphic s = true → utf8_valid s = true.
Proof.
  induction s as [|a s IH]; [done|]. rewrite graphic_cons. intros [Ha Hs]%andb_true_iff.
  cbn [utf8_valid]. unfold in_range, graphic_char in *.
  replace (_ && _) with true by lia. by apply IH.
Qed.

(** [to_ascii_lowercase], with which [eq_ignore_ascii_case] compares. *)
Definition ascii_lower (a : ascii) : ascii :=
  if in_range 65 90 a then ascii_of_N (N_of_ascii a + 32) else a.
Fixpoint to_ascii_lowercase (s : string) : string :=
  match s with "" => "" | String a s => String (ascii_lower a) (to_ascii_lowercase s) end.
