(* ===== verification/Net.v ===== *)
(** * Net: addresses, hosts and the tunnel protocol descriptors

    The address types of [std::net] and [url::Host] as data, the address parser of
    the standard library ([core::net::parser]), and the definitions of
    [src/wstunnel/src/tunnel/mod.rs]: [LocalProtocol], [RemoteAddr],
    [to_host_port], [try_to_sock_addr]. *)

From Stdlib Require Import ZArith Lia Ascii String.
From stdpp Require Import base gmap strings list countable.
From S2P Require Import Prelude Str.

#[local] Open Scope stdpp_scope.

(** ** Addresses *)

(** An address is its big-endian integer: a [u32] or a [u128]. *)
Record Ipv4Addr := mkIpv4 { v4_bits : Z }.
Record Ipv6Addr := mkIpv6 { v6_bits : Z }.

Inductive IpAddr := IpV4 (ip : Ipv4Addr) | IpV6 (ip : Ipv6Addr).

Inductive SocketAddr :=
| SockV4 (ip : Ipv4Addr) (port : Z)
| SockV6 (ip : Ipv6Addr) (port flowinfo scope_id : Z).

(** [url::Host<String>]. *)
Inductive Host :=
| Domain (d : string)
| Ipv4 (ip : Ipv4Addr)
| Ipv6 (ip : Ipv6Addr).

#[global] Instance Ipv4Addr_eq : EqDecision Ipv4Addr.
Proof. solve_decision. Defined.
#[global] Instance Ipv6Addr_eq : EqDecision Ipv6Addr.
Proof. solve_decision. Defined.
#[global] Instance IpAddr_eq : EqDecision IpAddr.
Proof. solve_decision. Defined.
#[global] Instance SocketAddr_eq : EqDecision SocketAddr.
Proof. solve_decision. Defined.
#[global] Instance Host_eq : EqDecision Host.
Proof. solve_decision. Defined.

#[global] Instance SocketAddr_countable : Countable SocketAddr.
Proof.
  refine (inj_countable'
    (λ a, match a with
          | SockV4 (mkIpv4 i) p => inl (i, p)
          | SockV6 (mkIpv6 i) p f s => inr (i, p, f, s)
          end)
    (λ x, match x with
          | inl (i, p) => SockV4 (mkIpv4 i) p
          | inr (i, p, f, s) => SockV6 (mkIpv6 i) p f s
          end) _).
  by intros [[] | []].
Defined.

(** [n] bytes of [x], most significant first ([octets], [to_be_bytes]). *)
Fixpoint be_bytes (n : nat) (x : Z) : list Z :=
  match n with
  | 0%nat => []
  | S n => Z.land (Z.shiftr x (8 * Z.of_nat n)) 255 :: be_bytes n x
  end.

(** [from_be_bytes]. *)
Definition of_be_bytes (l : list Z) : Z := fold_left (λ acc b, Z.lor (Z.shiftl acc 8) b) l 0.

Lemma of_be_bytes_acc n x acc : 0 ≤ x →
  fold_left (λ acc b, Z.lor (Z.shiftl acc 8) b) (be_bytes n x) acc
  = acc * 2 ^ (8 * Z.of_nat n) + x mod 2 ^ (8 * Z.of_nat n).
Proof.
  intros Hx. revert acc. induction n as [|n IH]; intros acc.
  { cbn [be_bytes fold_left]. change (8 * Z.of_nat 0) with 0. rewrite Z.mod_1_r. lia. }
  cbn [be_bytes fold_left]. rewrite IH. 
  change 255 with (Z.ones 8). rewrite Z.land_ones by lia.
  replace (Z.lor (Z.shiftl acc 8) (Z.shiftr x (8 * Z.of_nat n) mod 2 ^ 8))
    with (acc * 2 ^ 8 + Z.shiftr x (8 * Z.of_nat n) mod 2 ^ 8).
  2:{ rewrite <-Z.shiftl_mul_pow2 by lia.
      assert (Z.land (Z.shiftl acc 8) (Z.shiftr x (8 * Z.of_nat n) mod 2 ^ 8) = 0) as Hl.
      { apply Z.bits_inj_0. intros i. rewrite Z.land_spec. destruct (Z.ltb_spec i 8).
        - by rewrite Z.shiftl_spec_low.
        - rewrite Z.mod_pow2_bits_high by lia. apply andb_false_r. }
      by rewrite Z.add_nocarry_lxor, Z.lxor_lor. }
  rewrite Z.shiftr_div_pow2 by lia.
  replace (8 * Z.of_nat (S n)) with (8 * Z.of_nat n + 8) by lia.
  rewrite Z.pow_add_r by lia. rewrite Z.rem_mul_r by lia. lia.
Qed.

Lemma of_be_bytes_be_bytes n x :
  0 ≤ x < 2 ^ (8 * Z.of_nat n) → of_be_bytes (be_bytes n x) = x.
Proof. intros Hx. unfold of_be_bytes. rewrite of_be_bytes_acc, Z.mod_small by lia. lia. Qed.
Lemma length_be_bytes n x : length (be_bytes n x) = n.
Proof. induction n as [|n IH]; cbn; [done|]. by rewrite IH. Qed.

Definition v4_of_octets (a b c d : Z) : Ipv4Addr := mkIpv4 (of_be_bytes [a; b; c; d]).
Definition v6_of_segments (l : list Z) : Ipv6Addr :=
  mkIpv6 (fold_left (λ acc g, Z.lor (Z.shiftl acc 16) g) l 0).

Definition UNSPECIFIED_V4 : Ipv4Addr := mkIpv4 0.
Definition UNSPECIFIED_V6 : Ipv6Addr := mkIpv6 0.
Definition LOCALHOST_V4 : Ipv4Addr := v4_of_octets 127 0 0 1.

Definition is_ipv4 (ip : IpAddr) : bool := match ip with IpV4 _ => true | IpV6 _ => false end.
Definition is_sock_v6 (a : SocketAddr) : bool :=
  match a with SockV6 _ _ _ _ => true | SockV4 _ _ => false end.

Definition sock_ip (a : SocketAddr) : IpAddr :=
  match a with SockV4 ip _ => IpV4 ip | SockV6 ip _ _ _ => IpV6 ip end.
Definition sock_port (a : SocketAddr) : Z :=
  match a with SockV4 _ p => p | SockV6 _ p _ _ => p end.
Definition sock_new (ip : IpAddr) (port : Z) : SocketAddr :=
  match ip with IpV4 ip => SockV4 ip port | IpV6 ip => SockV6 ip port 0 0 end.

(** [SocketAddr::set_ip]: a change of family drops flow info and scope. *)
Definition set_ip (a : SocketAddr) (ip : IpAddr) : SocketAddr :=
  match a, ip with
  | SockV4 _ p, IpV4 ip => SockV4 ip p
  | SockV6 _ p f s, IpV6 ip => SockV6 ip p f s
  | _, _ => sock_new ip (sock_port a)
  end.

(** ** The standard library's address parser

    A reader takes the remaining input and returns a value with what is left, or
    nothing, in which case the caller keeps its own input ([read_atomically]). *)

Module AddrParser.
Fixpoint read_digits (radix : Z) (max_digits count : nat) (acc : Z) (s : string)
    : option (Z * nat * string) :=
  match s with
  | "" => Some (acc, count, "")
  | String a s' =>
      match to_digit radix a with
      | None => Some (acc, count, s)
      | Some d => if Nat.ltb max_digits (S count) then None
                  else read_digits radix max_digits (S count) (acc * radix + d) s'
      end
  end.

Definition read_number (radix : Z) (max_digits : nat) (allow_zero_prefix : bool)
    (max : Z) (s : string) : option (Z * string) :=
  let has_leading_zero := match s with String a _ => Ascii.eqb a "0"%char | "" => false end in
  match read_digits radix max_digits 0 0 s with
  | None => None
  | Some (_, 0%nat, _) => None
  | Some (n, count, r) =>
      if negb allow_zero_prefix && has_leading_zero && Nat.ltb 1 count then None
      else if n <=? max then Some (n, r) else None
  end.

Definition read_given_char (c : ascii) (s : string) : option string :=
  strip_prefix (String c "") s.

Definition read_separator {A} (sep : ascii) (first : bool)
    (inner : string → option (A * string)) (s : string) : option (A * string) :=
  if first then inner s
  else match read_given_char sep s with Some r => inner r | None => None end.

Definition read_octet (first : bool) : string → option (Z * string) :=
  read_separator "."%char first (read_number 10 3 false U8_MAX).

Definition read_ipv4_addr (s : string) : option (Ipv4Addr * string) :=
  match read_octet true s with
  | None => None
  | Some (a, s) =>
  match read_octet false s with
  | None => None
  | Some (b, s) =>
  match read_octet false s with
  | None => None
  | Some (c, s) =>
  match read_octet false s with
  | None => None
  | Some (d, s) => Some (v4_of_octets a b c d, s)
  end end end end.

(** The groups read before the first failure, whether they end in an embedded
    IPv4 address, and what is left. *)
Fixpoint read_groups (limit : nat) (first : bool) (s : string) : list Z * bool * string :=
  match limit with
  | 0%nat => ([], false, s)
  | S limit' =>
      match (if Nat.ltb 1 limit then read_separator ":"%char first read_ipv4_addr s
             else None) with
      | Some (v4, r) => ([Z.shiftr (v4_bits v4) 16; Z.land (v4_bits v4) 65535], true, r)
      | None =>
          match read_separator ":"%char first (read_number 16 4 true U16_MAX) s with
          | Some (g, r) => let '(gs, v4, r) := read_groups limit' false r in (g :: gs, v4, r)
          | None => ([], false, s)
          end
      end
  end.

Definition read_ipv6_addr (s : string) : option (Ipv6Addr * string) :=
  let '(head, head_ipv4, s) := read_groups 8 true s in
  if Nat.eqb (List.length head) 8 then Some (v6_of_segments head, s)
  else if head_ipv4 then None
  else match strip_prefix "::" s with
       | None => None
       | Some s =>
           let limit := (8 - (List.length head + 1))%nat in
           let '(tail, _, s) := read_groups limit true s in
           let zeros := replicate (8 - List.length head - List.length tail) 0 in
           Some (v6_of_segments (head ++ zeros ++ tail), s)
       end.

Definition parse_with {A} (inner : string → option (A * string)) (s : string) : option A :=
  match inner s with Some (a, "") => Some a | _ => None end.
End AddrParser.

(** [Ipv4Addr::from_str], [Ipv6Addr::from_str] and [IpAddr::from_str]. *)
Definition ipv4_from_str (s : string) : option Ipv4Addr :=
  if Nat.ltb 15 (String.length s) then None
  else AddrParser.parse_with AddrParser.read_ipv4_addr s.
Definition ipv6_from_str : string → option Ipv6Addr :=
  AddrParser.parse_with AddrParser.read_ipv6_addr.
Definition ipaddr_from_str : string → option IpAddr :=
  AddrParser.parse_with (λ s,
    match AddrParser.read_ipv4_addr s with
    | Some (ip, r) => Some (IpV4 ip, r)
    | None => match AddrParser.read_ipv6_addr s with
              | Some (ip, r) => Some (IpV6 ip, r)
              | None => None
              end
    end).

(** The text of an IPv4 address is digits and dots. *)
Definition dotted (s : string) : bool :=
  forallb (λ a, match to_digit 10 a with Some _ => true | None => Ascii.eqb a "." end) (bytes s).

Lemma dotted_app s t : dotted (s +:+ t) = dotted s && dotted t.
Proof. unfold dotted. by rewrite bytes_app, forallb_app. Qed.

Lemma read_digits_dotted max n acc s v k r :
  AddrParser.read_digits 10 max n acc s = Some (v, k, r) →
  ∃ p, s = p +:+ r ∧ dotted p = true.
Proof.
  revert n acc. induction s as [|a s IH]; intros n acc; cbn [AddrParser.read_digits].
  - intros [= _ _ <-]. by exists "".
  - destruct (to_digit 10 a) as [d|] eqn:Hd.
    + destruct (Nat.ltb _ _); [done|]. intros (p&->&Hp)%IH. exists (String a p).
      split; [done|]. unfold dotted in *. cbn [bytes forallb]. by rewrite Hd.
    + intros [= _ _ <-]. by exists "".
Qed.

Lemma read_octet_dotted first s v r :
  AddrParser.read_octet first s = Some (v, r) → ∃ p, s = p +:+ r ∧ dotted p = true.
Proof.
  unfold AddrParser.read_octet, AddrParser.read_separator. intros Hs.
  assert (∀ s, AddrParser.read_number 10 3 false U8_MAX s = Some (v, r) →
               ∃ p, s = p +:+ r ∧ dotted p = true) as Hnum.
  { clear s Hs. intros s. unfold AddrParser.read_number.
    destruct (AddrParser.read_digits 10 3 0 0 s) as [[[n k] r']|] eqn:E; [|done].
    apply read_digits_dotted in E as (p&->&Hp). intros H. exists p.
    destruct k; [done|]. repeat case_match; by simplify_eq. }
  destruct first; [by apply Hnum|].
  destruct (AddrParser.read_given_char "." s) as [s'|] eqn:E; [|done].
  apply strip_prefix_Some in E as ->. apply Hnum in Hs as (p&->&Hp).
  exists ("." +:+ p). by rewrite dotted_app.
Qed.

Lemma ipaddr_from_str_v4_dotted s ip : ipaddr_from_str s = Some (IpV4 ip) → dotted s = true.
Proof.
  unfold ipaddr_from_str, AddrParser.parse_with.
  destruct (AddrParser.read_ipv4_addr s) as [[ip' r]|] eqn:E; [|intros H; repeat case_match; by simplify_eq].
  destruct r; [|done]. intros _. unfold AddrParser.read_ipv4_addr in E.
  destruct (AddrParser.read_octet true s) as [[a s1]|] eqn:E1; [|done].
  destruct (AddrParser.read_octet false s1) as [[b s2]|] eqn:E2; [|done].
  destruct (AddrParser.read_octet false s2) as [[c s3]|] eqn:E3; [|done].
  destruct (AddrParser.read_octet false s3) as [[d s4]|] eqn:E4; [|done]. simplify_eq.
  apply read_octet_dotted in E1 as (?&->&?), E2 as (?&->&?), E3 as (?&->&?), E4 as (?&->&?).
  rewrite !dotted_app, !andb_true_iff. done.
Qed.

(** A dotted quad has a dot. *)
Lemma ipaddr_from_str_v4_dot s ip : ipaddr_from_str s = Some (IpV4 ip) → contains_char "." s = true.
Proof.
  unfold ipaddr_from_str, AddrParser.parse_with.
  destruct (AddrParser.read_ipv4_addr s) as [[ip' r]|] eqn:E; [|intros H; repeat case_match; by simplify_eq].
  intros _. unfold AddrParser.read_ipv4_addr in E.
  destruct (AddrParser.read_octet true s) as [[a s1]|] eqn:E1; [|done].
  destruct (AddrParser.read_octet false s1) as [[b s2]|] eqn:E2; [|done].
  apply read_octet_dotted in E1 as (p&->&_). unfold AddrParser.read_octet, AddrParser.read_separator in E2.
  destruct (AddrParser.read_given_char "." s1) as [s'|] eqn:Ed; [|done].
  apply strip_prefix_Some in Ed as ->. apply contains_char_spec. rewrite !bytes_app. set_solver.
Qed.

Lemma dotted_graphic s : dotted s = true → graphic s = true.
Proof.
  unfold dotted, graphic. rewrite !forallb_forall. intros Hs a Ha. specialize (Hs a Ha).
  destruct (to_digit 10 a) as [d|] eqn:E; [|apply Ascii.eqb_eq in Hs; by subst a].
  unfold to_digit in E. unfold graphic_char. cbv zeta in *.
  repeat case_match; try done; lia.
Qed.

Example ipaddr_from_str_v4 : ipaddr_from_str "127.0.0.1" = Some (IpV4 LOCALHOST_V4).
Proof. reflexivity. Qed.
Example ipaddr_from_str_v6 : ipaddr_from_str "::ffff:1.2.3.4" = Some (IpV6 (mkIpv6 0xffff01020304)).
Proof. reflexivity. Qed.
Example ipaddr_from_str_zero : ipaddr_from_str "127.0.0.01" = None.
Proof. reflexivity. Qed.

(** ** Tunnel descriptors ([tunnel/mod.rs]) *)

(** A path is its bytes; [to_str] succeeds when they are UTF-8. *)
Definition PathBuf := string.
Definition to_str : PathBuf → option string := from_utf8.

Inductive LocalProtocol :=
| Tcp (proxy_protocol : bool)
| Udp (timeout : option Duration)
| Stdio (proxy_protocol : bool)
| TunnelStdio (proxy_protocol : bool) (timeout : option Duration)
| Socks5 (timeout : option Duration) (credentials : option (string * string))
| TProxyTcp
| TProxyUdp (timeout : option Duration)
| HttpProxy (timeout : option Duration) (credentials : option (string * string))
    (proxy_protocol : bool)
| ReverseTcp
| ReverseUdp (timeout : option Duration)
| ReverseSocks5 (timeout : option Duration) (credentials : option (string * string))
| ReverseHttpProxy (timeout : option Duration) (credentials : option (string * string))
| ReverseUnix (path : PathBuf)
| Unix (path : PathBuf) (proxy_protocol : bool).

#[global] Instance LocalProtocol_eq : EqDecision LocalProtocol.
Proof. solve_decision. Defined.

Definition is_reverse_tunnel (p : LocalProtocol) : bool :=
  match p with
  | ReverseTcp | ReverseUdp _ | ReverseSocks5 _ _ | ReverseUnix _ | ReverseHttpProxy _ _ => true
  | _ => false
  end.

Definition is_dynamic_reverse_tunnel (p : LocalProtocol) : bool :=
  match p with
  | ReverseSocks5 _ _ | ReverseHttpProxy _ _ => true
  | _ => false
  end.

Record RemoteAddr := mkRemote {
  protocol : LocalProtocol;
  host : Host;
  port : Z
}.

#[global] Instance RemoteAddr_eq : EqDecision RemoteAddr.
Proof. solve_decision. Defined.

Definition to_host_port (addr : SocketAddr) : Host * Z :=
  match sock_ip addr with
  | IpV4 ip => (Ipv4 ip, sock_port addr)
  | IpV6 ip => (Ipv6 ip, sock_port addr)
  end.

Definition try_to_sock_addr (hp : Host * Z) : outcome string SocketAddr :=
  let '(host, port) := hp in
  match host with
  | Domain _ => Err "Cannot convert domain to socket address"
  | Ipv4 ip => Ok (SockV4 ip port)
  | Ipv6 ip => Ok (SockV6 ip port 0 0)
  end.

Lemma dynamic_is_reverse p : is_dynamic_reverse_tunnel p = true → is_reverse_tunnel p = true.
Proof. by destruct p. Qed.

(** [try_to_sock_addr] inverts [to_host_port] up to IPv6 flow info and scope. *)
Lemma try_to_sock_addr_to_host_port a :
  try_to_sock_addr (to_host_port a) = Ok (sock_new (sock_ip a) (sock_port a)).
Proof. by destruct a. Qed.
