(* ===== verification/Apis.v ===== *)
(** * Apis: the third-party crates the program calls

    One class per crate with the operations the program uses, and one class of laws
    stating what their documentation promises and the program relies on.  No other
    file assumes anything about these crates. *)

From Stdlib Require Import ZArith Lia Ascii String.
From stdpp Require Import base gmap strings list countable.
From S2P Require Import Prelude Str Net.

#[local] Open Scope stdpp_scope.

Definition NEWLINE : ascii := "010"%char.

(** ** [regex] *)

Class RegexApi := {
  Regex : Type;
  (** [Regex::new], [Regex::is_match], [regex::escape]. *)
  regex_new : string → option Regex;
  is_match : Regex → string → bool;
  regex_escape : string → string;
}.

(** [.] matches everything but a line feed; without the [m] flag [^] and [$] are the
    ends of the haystack; [escape] makes a pattern that matches the text itself. *)
Class RegexLaws `{RegexApi} : Prop := {
  regex_any : ∃ r, regex_new "^.*$" = Some r ∧
    ∀ t, is_match r t = negb (contains_char NEWLINE t);
  regex_empty : ∃ r, regex_new "^$" = Some r ∧ ∀ t, is_match r t = bool_decide (t = "");
  regex_exact s r : regex_new ("^" +:+ regex_escape s +:+ "$") = Some r →
    ∀ t, is_match r t = bool_decide (t = s);
}.

(** ** [ipnet] *)

Class IpNetApi := {
  IpNet : Type;
  (** [Ipv4Net::default()] and [Ipv6Net::default()], [IpNet::new], [IpNet::contains]. *)
  ipv4net_default : IpNet;
  ipv6net_default : IpNet;
  ipnet_new : IpAddr → Z → option IpNet;
  ipnet_contains : IpNet → IpAddr → bool;
}.

(** The defaults are [0.0.0.0/0] and [::/0]; a full-length prefix is one address. *)
Class IpNetLaws `{IpNetApi} : Prop := {
  ipnet_default_v4 ip : ipnet_contains ipv4net_default ip = is_ipv4 ip;
  ipnet_default_v6 ip : ipnet_contains ipv6net_default ip = negb (is_ipv4 ip);
  ipnet_single ip : ∃ n, ipnet_new ip (if is_ipv4 ip then 32 else 128) = Some n ∧
    ∀ x, ipnet_contains n x = bool_decide (x = ip);
}.

(** ** [url] (hosts) and [uuid] *)

Class HostApi := {
  (** [url::Host::parse] and [Host::to_string]. *)
  host_parse : string → option Host;
  host_to_string : Host → string;
}.

Definition v4_wf (ip : Ipv4Addr) : Prop := 0 ≤ v4_bits ip ≤ U32_MAX.
Definition v6_wf (ip : Ipv6Addr) : Prop := 0 ≤ v6_bits ip < 2 ^ 128.

(** Serialising and parsing again gives the same host, for a host that was parsed
    and for every address. *)
Class HostLaws `{HostApi} : Prop := {
  host_reparse s h : host_parse s = Some h → host_parse (host_to_string h) = Some h;
  host_v4 ip : v4_wf ip → host_parse (host_to_string (Ipv4 ip)) = Some (Ipv4 ip);
  host_v6 ip : v6_wf ip → host_parse (host_to_string (Ipv6 ip)) = Some (Ipv6 ip);
}.

Class UuidApi := {
  Uuid : Type;
  uuid_eq :: EqDecision Uuid;
  uuid_countable :: Countable Uuid;
  (** [Uuid::parse_str] (and [FromStr]), [Uuid::to_string], [Uuid::from_u128]. *)
  uuid_parse_str : string → option Uuid;
  uuid_to_string : Uuid → string;
  uuid_from_u128 : Z → Uuid;
}.

(** ** [http]: header values, header maps, request targets *)

(** Header names are their canonical, lower-case, text. *)
Definition HeaderName := string.

Class HttpApi := {
  HeaderValue : Type;
  (** [HeaderValue::from_str], [HeaderValue::to_str], [HeaderName::from_str]. *)
  hv_from_str : string → option HeaderValue;
  hv_to_str : HeaderValue → option string;
  header_name_from_str : string → option HeaderName;
  (** [HeaderMap] with [get] (the first value), [append], [insert], [remove]. *)
  HeaderMap : Type;
  hm_empty : HeaderMap;
  hm_get : HeaderMap → HeaderName → option HeaderValue;
  hm_append : HeaderName → HeaderValue → HeaderMap → HeaderMap;
  hm_insert : HeaderName → HeaderValue → HeaderMap → HeaderMap;
  hm_remove : HeaderName → HeaderMap → HeaderMap;
  (** [Uri::from_str] and [Uri::path]. *)
  Uri : Type;
  uri_parse : string → option Uri;
  uri_path : Uri → string;
}.

Definition visible_char (a : ascii) : bool :=
  let c := Z.of_N (N_of_ascii a) in ((32 <=? c) && (c <? 127)) || (c =? 9).
Definition visible (s : string) : bool := forallb visible_char (bytes s).

(** Unreserved characters of a path ([ALPHA / DIGIT / "-" / "." / "_" / "~"]) and ["/"]. *)
Definition path_char (a : ascii) : bool :=
  let c := Z.of_N (N_of_ascii a) in
  ((97 <=? c) && (c <=? 122)) || ((65 <=? c) && (c <=? 90)) || ((48 <=? c) && (c <=? 57))
  || bool_decide (c ∈ [45; 46; 47; 95; 126]).
Definition path_safe (s : string) : bool := forallb path_char (bytes s).

Class HttpLaws `{HttpApi} : Prop := {
  hv_str s v : visible s = true → hv_from_str s = Some v → hv_to_str v = Some s;
  hv_visible s : visible s = true → is_Some (hv_from_str s);
  hv_to_str_visible v s : hv_to_str v = Some s → visible s = true;
  hm_get_empty k : hm_get hm_empty k = None;
  hm_get_append k v m k' : hm_get (hm_append k v m) k' =
    if decide (k = k') then Some (default v (hm_get m k)) else hm_get m k';
  hm_get_insert k v m k' : hm_get (hm_insert k v m) k' =
    if decide (k = k') then Some v else hm_get m k';
  hm_get_remove k m k' : hm_get (hm_remove k m) k' =
    if decide (k = k') then None else hm_get m k';
  (** Origin form and absolute form (RFC 9112, section 3.2). *)
  uri_origin p : path_safe p = true →
    ∃ u, uri_parse ("/" +:+ p) = Some u ∧ uri_path u = "/" +:+ p;
  uri_absolute scheme authority p u :
    path_safe p = true → authority ≠ "" →
    (∀ c, c ∈ ["/"; "?"; "#"]%char → contains_char c authority = false) →
    scheme = "http" ∨ scheme = "https" →
    uri_parse (scheme +:+ "://" +:+ authority +:+ "/" +:+ p) = Some u →
    uri_path u = "/" +:+ p;
}.

(** ** [url] (locators) *)

Class UrlApi := {
  Url : Type;
  (** [scheme], [host], [port], [port_or_known_default], [username], [password]
      (percent-encoded), [as_str], [path_segments_mut().push]. *)
  url_scheme : Url → string;
  url_host : Url → option Host;
  url_port : Url → option Z;
  url_port_or_known_default : Url → option Z;
  url_username : Url → string;
  url_password : Url → option string;
  url_as_str : Url → string;
  url_push : Url → string → option Url;
  (** [Url::parse], [query_pairs] and [form_urlencoded::parse]. *)
  url_parse : string → option Url;
  url_query_pairs : Url → list (string * string);
  form_urlencoded_parse : string → list (string * string);
  (** [set_username] and [set_password] (refused by locators that cannot have them). *)
  url_set_username : Url → string → option Url;
  url_set_password : Url → string → option Url;
}.

(** A domain or an IPv4 address, as written in a locator. *)
Definition plain_host (h : string) : bool :=
  graphic h && forallb (λ c, negb (contains_char c h)) [":"; "/"; "?"; "#"; "@"; "\"]%char.

(** [https://host:port] and [https://host:port?query]: the default port is not kept, and
    the pairs of a printable query are those of its text. *)
Class UrlLaws `{HostApi, UrlApi} : Prop := {
  url_https h host p :
    host_parse h = Some host → plain_host h = true → 0 ≤ p ≤ U16_MAX →
    ∃ u, url_parse ("https://" +:+ h +:+ ":" +:+ show p) = Some u
      ∧ url_host u = Some host ∧ url_port u = (if p =? 443 then None else Some p)
      ∧ url_query_pairs u = [];
  url_https_query h host p q :
    host_parse h = Some host → plain_host h = true → 0 ≤ p ≤ U16_MAX →
    graphic q = true → contains_char "#" q = false →
    ∃ u, url_parse ("https://" +:+ h +:+ ":" +:+ show p +:+ "?" +:+ q) = Some u
      ∧ url_host u = Some host ∧ url_port u = (if p =? 443 then None else Some p)
      ∧ url_query_pairs u = form_urlencoded_parse q;
}.

(** ** [base64] (standard alphabet) *)

Class Base64Api := { b64_encode : string → string; b64_decode : string → option string }.

Class Base64Laws `{Base64Api} : Prop := {
  b64_decode_encode s : b64_decode (b64_encode s) = Some s;
  b64_graphic s : graphic (b64_encode s) = true;
  b64_nonempty s : s ≠ "" → b64_encode s ≠ "";
}.

Lemma graphic_visible s : graphic s = true → visible s = true.
Proof.
  unfold graphic, visible. rewrite !forallb_forall. intros Hs a Ha. specialize (Hs a Ha).
  unfold graphic_char in Hs. unfold visible_char. lia.
Qed.
Lemma b64_visible `{Base64Laws} s : visible (b64_encode s) = true.
Proof. apply graphic_visible, b64_graphic. Qed.

(** ** [jsonwebtoken]

    [encode] with the process key and [decode] without signature validation and
    without required claims, on the claims type [C]. *)

Class JwtApi (C : Type) := {
  jwt_encode : C → option string;
  jwt_decode : string → option C;
}.

(** A token is printable text (base64url and dots) and decodes to its claims. *)
Class JwtLaws (C : Type) `{JwtApi C} : Prop := {
  jwt_decode_encode c t : jwt_encode c = Some t → jwt_decode t = Some c;
  jwt_visible c t : jwt_encode c = Some t → visible t = true;
}.
