(* ===== verification/ApiModels.v ===== *)
(** * ApiModels: concrete models of the third-party crates

    Executable instances of the classes of [Apis] that satisfy their laws.  They
    show that the laws can hold together and let the witnesses of the other files
    evaluate the program on concrete inputs; no theorem depends on them. *)

From Stdlib Require Import ZArith Lia Ascii String.
From stdpp Require Import base gmap strings list countable.
From S2P Require Import Prelude Str Net Apis.

#[local] Open Scope stdpp_scope.

(** ** Regular expressions: "any line" and literal patterns *)

Inductive toy_regex := ToyAny | ToyLit (s : string).

Fixpoint toy_escape (s : string) : string :=
  match s with "" => "" | String a s => String "\"%char (String a (toy_escape s)) end.
Fixpoint toy_unescape (s : string) : string :=
  match s with String _ (String a s) => String a (toy_unescape s) | _ => "" end.

Definition toy_regex_new (p : string) : option toy_regex :=
  if String.eqb p "^.*$" then Some ToyAny
  else match strip_prefix "^" p with
       | Some r => match strip_suffix "$" r with
                   | Some l => Some (ToyLit (toy_unescape l))
                   | None => None
                   end
       | None => None
       end.

Definition toy_is_match (r : toy_regex) (t : string) : bool :=
  match r with
  | ToyAny => negb (contains_char NEWLINE t)
  | ToyLit s => bool_decide (t = s)
  end.

#[global] Instance toy_regex_api : RegexApi :=
  {| Regex := toy_regex; regex_new := toy_regex_new; is_match := toy_is_match;
     regex_escape := toy_escape |}.

Lemma toy_unescape_escape s : toy_unescape (toy_escape s) = s.
Proof. induction s; simpl; congruence. Qed.

#[global] Instance toy_regex_laws : RegexLaws.
Proof.
  split.
  - by exists ToyAny.
  - by exists (ToyLit "").
  - intros s r. cbn [regex_new toy_regex_api regex_escape]. unfold toy_regex_new.
    destruct (String.eqb_spec ("^" +:+ toy_escape s +:+ "$") "^.*$") as [Heq|_].
    { exfalso. destruct s; discriminate Heq. }
    rewrite strip_prefix_app.
    rewrite (proj2 (strip_suffix_Some "$" (toy_escape s +:+ "$") (toy_escape s))) by done.
    intros [= <-] t. simpl. by rewrite toy_unescape_escape.
Qed.

(** ** Networks: address and prefix length *)

Definition toy_net_contains (n : IpAddr * Z) (x : IpAddr) : bool :=
  match n, x with
  | (IpV4 a, len), IpV4 b =>
      Z.shiftr (v4_bits a) (32 - len) =? Z.shiftr (v4_bits b) (32 - len)
  | (IpV6 a, len), IpV6 b =>
      Z.shiftr (v6_bits a) (128 - len) =? Z.shiftr (v6_bits b) (128 - len)
  | _, _ => false
  end.

Inductive toy_net := ToyAll4 | ToyAll6 | ToyNet (ip : IpAddr) (len : Z).

#[global] Instance toy_ipnet_api : IpNetApi :=
  {| IpNet := toy_net;
     ipv4net_default := ToyAll4;
     ipv6net_default := ToyAll6;
     ipnet_new ip len :=
       if (0 <=? len) && (len <=? (if is_ipv4 ip then 32 else 128))
       then Some (ToyNet ip len) else None;
     ipnet_contains n x :=
       match n with
       | ToyAll4 => is_ipv4 x
       | ToyAll6 => negb (is_ipv4 x)
       | ToyNet ip len => toy_net_contains (ip, len) x
       end |}.

#[global] Instance toy_ipnet_laws : IpNetLaws.
Proof.
  split; [done|done|].
  intros [a|a]; eexists; (split; [reflexivity|]); intros [b|b]; cbn;
    rewrite ?Z.shiftr_0_r; try by symmetry; apply bool_decide_eq_false.
  - destruct a as [a], b as [b]; cbn. destruct (Z.eqb_spec a b) as [->|Hne].
    + by rewrite bool_decide_eq_true_2.
    + by rewrite bool_decide_eq_false_2 by congruence.
  - destruct a as [a], b as [b]; cbn. destruct (Z.eqb_spec a b) as [->|Hne].
    + by rewrite bool_decide_eq_true_2.
    + by rewrite bool_decide_eq_false_2 by congruence.
Qed.

(** ** Hosts and identifiers *)

(** An address is printed in decimal with a marker, so that printing and parsing are
    inverse. *)
Definition toy_host_to_string (h : Host) : string :=
  match h with
  | Domain d => d
  | Ipv4 ip => "4!" +:+ show (v4_bits ip)
  | Ipv6 ip => "6!" +:+ show (v6_bits ip)
  end.
Definition toy_host_parse (s : string) : option Host :=
  match strip_prefix "4!" s with
  | Some r => (λ n, Ipv4 (mkIpv4 n)) <$> parse_uint U32_MAX r
  | None =>
      match strip_prefix "6!" s with
      | Some r => (λ n, Ipv6 (mkIpv6 n)) <$> parse_uint (2 ^ 128 - 1) r
      | None => if String.eqb s "" then None else Some (Domain s)
      end
  end.

#[global] Instance toy_host_api : HostApi :=
  {| host_parse := toy_host_parse; host_to_string := toy_host_to_string |}.

#[global] Instance toy_uuid_api : UuidApi :=
  {| Uuid := Z; uuid_parse_str := parse_uint (2 ^ 128 - 1); uuid_to_string := show;
     uuid_from_u128 := id |}.

Lemma toy_host_v4 ip : v4_wf ip → toy_host_parse (toy_host_to_string (Ipv4 ip)) = Some (Ipv4 ip).
Proof.
  intros Hwf. unfold toy_host_parse, toy_host_to_string. rewrite strip_prefix_app.
  unfold v4_wf in Hwf. rewrite parse_uint_show by done. by destruct ip.
Qed.

Lemma toy_host_v6 ip : v6_wf ip → toy_host_parse (toy_host_to_string (Ipv6 ip)) = Some (Ipv6 ip).
Proof.
  intros Hwf. unfold toy_host_parse, toy_host_to_string. rewrite strip_prefix_app.
  change (strip_prefix "4!" ("6!" +:+ show (v6_bits ip))) with (@None string). cbn beta iota.
  unfold v6_wf in Hwf. rewrite parse_uint_show by lia. by destruct ip.
Qed.

#[global] Instance toy_host_laws : HostLaws.
Proof.
  split; [|exact toy_host_v4|exact toy_host_v6].
  intros s h Hs. cbn in Hs |- *. destruct h as [d|ip|ip].
  - cbn [toy_host_to_string]. unfold toy_host_parse in Hs.
    destruct (strip_prefix "4!" s) eqn:E4; [by destruct (parse_uint _ _)|].
    destruct (strip_prefix "6!" s) eqn:E; [by destruct (parse_uint _ _)|].
    destruct (String.eqb s "") eqn:Es; [done|]. simplify_eq.
    unfold toy_host_parse. by rewrite E4, E, Es.
  - apply toy_host_v4. unfold toy_host_parse in Hs. repeat case_match; simplify_eq.
    + destruct (parse_uint _ _) eqn:E; simplify_eq/=. apply parse_uint_range in E; [|done].
      by unfold v4_wf; simpl.
    + by destruct (parse_uint _ _).
  - apply toy_host_v6. unfold toy_host_parse in Hs. repeat case_match; simplify_eq.
    + by destruct (parse_uint _ _).
    + destruct (parse_uint _ _) eqn:E; simplify_eq/=. apply parse_uint_range in E; [|done].
      unfold v6_wf; simpl. lia.
Qed.

(** ** Headers as association lists, request targets as their text *)

Definition toy_hm_get (m : list (string * string)) (k : string) : option string :=
  snd <$> find (λ kv, bool_decide (fst kv = k)) m.
Definition toy_hm_remove (k : string) (m : list (string * string)) : list (string * string) :=
  List.filter (λ kv, negb (bool_decide (fst kv = k))) m.

Definition toy_uri_path (s : string) : string :=
  if starts_with "/" s then s
  else match split_once "://" s with
       | Some (_, r) => match split_once_char "/" r with
                        | Some (_, p) => "/" +:+ p
                        | None => "/"
                        end
       | None => ""
       end.

#[global] Instance toy_http_api : HttpApi :=
  {| HeaderValue := string;
     hv_from_str s := if visible s then Some s else None;
     hv_to_str v := if visible v then Some v else None;
     header_name_from_str s := Some s;
     HeaderMap := list (string * string);
     hm_empty := [];
     hm_get := toy_hm_get;
     hm_append k v m := m ++ [(k, v)];
     hm_insert k v m := (k, v) :: toy_hm_remove k m;
     hm_remove := toy_hm_remove;
     Uri := string;
     uri_parse s := Some s;
     uri_path := toy_uri_path |}.

Lemma toy_get_remove k m k' :
  toy_hm_get (toy_hm_remove k m) k' = if decide (k = k') then None else toy_hm_get m k'.
Proof.
  unfold toy_hm_get, toy_hm_remove. induction m as [|[a v] m IH]; simpl; [by case_decide|].
  repeat case_bool_decide; simpl; subst; rewrite ?IH; repeat case_bool_decide; simpl;
    subst; rewrite ?IH; repeat case_decide; naive_solver.
Qed.

Lemma toy_get_append k v m k' :
  toy_hm_get (m ++ [(k, v)]) k' =
  if decide (k = k') then Some (default v (toy_hm_get m k)) else toy_hm_get m k'.
Proof.
  unfold toy_hm_get. induction m as [|[a w] m IH]; simpl.
  - by case_bool_decide; case_decide.
  - repeat case_bool_decide; simpl; subst; repeat case_decide; naive_solver.
Qed.

Lemma toy_uri_absolute scheme authority p :
  (∀ c, c ∈ ["/"; "?"; "#"]%char → contains_char c authority = false) →
  scheme = "http" ∨ scheme = "https" →
  toy_uri_path (scheme +:+ "://" +:+ authority +:+ "/" +:+ p) = "/" +:+ p.
Proof.
  intros Hauth Hscheme. unfold toy_uri_path.
  assert (starts_with "/" (scheme +:+ "://" +:+ authority +:+ "/" +:+ p) = false) as ->
    by by destruct Hscheme as [->| ->].
  rewrite split_once_fresh by by destruct Hscheme as [->| ->]; repeat constructor.
  rewrite (proj2 (split_once_char_Some "/" _ authority p)); [done|].
  split; [done|]. apply Hauth. set_solver.
Qed.

#[global] Instance toy_http_laws : HttpLaws.
Proof.
  split; cbn.
  - intros s v E. rewrite E. intros [= <-]. by rewrite E.
  - intros s H. by rewrite H.
  - intros v s H. destruct (visible v) eqn:E; by simplify_eq.
  - done.
  - apply toy_get_append.
  - intros k v m k'. unfold toy_hm_get at 1. simpl. case_bool_decide; case_decide; try done.
    change (toy_hm_get (toy_hm_remove k m) k' = toy_hm_get m k').
    by rewrite toy_get_remove, decide_False.
  - apply toy_get_remove.
  - intros p _. eexists. split; [done|]. unfold toy_uri_path, starts_with.
    by rewrite strip_prefix_app.
  - intros scheme authority p u _ _ Hauth Hscheme [= <-]. by apply toy_uri_absolute.
Qed.

(** ** Locators: base and path segments *)

Record toy_url := mkToyUrlAuth {
  tu_scheme : string; tu_host : Host; tu_port : option Z; tu_path : string;
  tu_user : string; tu_pass : option string
}.
Definition mkToyUrl (scheme : string) (h : Host) (port : option Z) (path : string) : toy_url :=
  mkToyUrlAuth scheme h port path "" None.

(** [scheme://host:port?k=v&...]. *)
Definition toy_url_parse (s : string) : option toy_url :=
  match split_once "://" s with
  | None => None
  | Some (scheme, r) =>
      let '(authority, query) := match split_once_char "?" r with Some x => x | None => (r, "") end in
      match split_once_char ":" authority with
      | Some (h, p) =>
          port ← parse_u16 p; h ← toy_host_parse h;
          let port := if String.eqb scheme "https" && (port =? 443) then None else Some port in
          Some (mkToyUrl scheme h port query)
      | None => h ← toy_host_parse authority; Some (mkToyUrl scheme h None query)
      end
  end.
Definition toy_query (s : string) : list (string * string) :=
  match s with
  | "" => []
  | _ => (λ kv, match split_once_char "=" kv with Some x => x | None => (kv, "") end)
           <$> split_char "&" s
  end.

#[global] Instance toy_url_api : UrlApi :=
  {| Url := toy_url;
     url_scheme := tu_scheme;
     url_host u := Some (tu_host u);
     url_port := tu_port;
     url_port_or_known_default u := Some (default 80 (tu_port u));
     url_username := tu_user;
     url_password := tu_pass;
     url_as_str u := tu_scheme u +:+ "://" +:+ toy_host_to_string (tu_host u) +:+ tu_path u;
     url_push u s := Some (mkToyUrl (tu_scheme u) (tu_host u) (tu_port u)
                                    (tu_path u +:+ "/" +:+ s));
     url_parse := toy_url_parse;
     url_query_pairs u := toy_query (tu_path u);
     form_urlencoded_parse := toy_query;
     url_set_username u s :=
       Some (mkToyUrlAuth (tu_scheme u) (tu_host u) (tu_port u) (tu_path u) s (tu_pass u));
     url_set_password u s :=
       Some (mkToyUrlAuth (tu_scheme u) (tu_host u) (tu_port u) (tu_path u) (tu_user u) (Some s)) |}.

Lemma plain_host_no h c :
  plain_host h = true → c ∈ [":"; "/"; "?"; "#"; "@"; "\"]%char → contains_char c h = false.
Proof.
  unfold plain_host. rewrite andb_true_iff, all_true. intros [_ Hh] Hc%Hh.
  by apply negb_true_iff in Hc.
Qed.

Lemma toy_url_https h host p rest query :
  toy_host_parse h = Some host → plain_host h = true → 0 ≤ p ≤ U16_MAX →
  rest = "" ∧ query = "" ∨ rest = "?" +:+ query →
  toy_url_parse ("https://" +:+ h +:+ ":" +:+ show p +:+ rest) =
    Some (mkToyUrl "https" host (if p =? 443 then None else Some p) query).
Proof.
  intros Hh Hplain Hp Hrest. unfold toy_url_parse.
  change ("https://" +:+ h +:+ ":" +:+ show p +:+ rest)
    with ("https" +:+ "://" +:+ (h +:+ ":" +:+ show p +:+ rest)).
  rewrite split_once_fresh by (by repeat constructor).
  assert (contains_char "?" (h +:+ ":" +:+ show p) = false) as Hq.
  { unfold contains_char. rewrite bool_decide_eq_false, !bytes_app, !elem_of_app.
    pose proof (plain_host_no h "?" Hplain ltac:(set_solver)) as H1.
    pose proof (show_no_sep "?" p eq_refl) as H2.
    unfold contains_char in H1, H2. rewrite bool_decide_eq_false in H1, H2.
    intros [?|[?|?]]; try done. set_solver. }
  assert ((match split_once_char "?" (h +:+ ":" +:+ show p +:+ rest) with
           | Some x => x | None => (h +:+ ":" +:+ show p +:+ rest, "") end)
          = (h +:+ ":" +:+ show p, query)) as ->.
  { destruct Hrest as [[-> ->]| ->].
    - rewrite app_empty_r, (proj2 (split_once_char_None _ _)) by done. done.
    - rewrite (proj2 (split_once_char_Some "?" _ (h +:+ ":" +:+ show p) query)); [done|].
      split; [|done]. by rewrite !str_app_assoc. }
  rewrite (proj2 (split_once_char_Some ":" _ h (show p))).
  2:{ split; [done|]. apply plain_host_no; [done|set_solver]. }
  unfold parse_u16. rewrite parse_uint_show by done. cbn [mbind option_bind]. rewrite Hh.
  cbn [mbind option_bind]. by rewrite String.eqb_refl.
Qed.

#[global] Instance toy_url_laws : UrlLaws.
Proof.
  split.
  - intros h host p Hh Hplain Hp.
    exists (mkToyUrl "https" host (if p =? 443 then None else Some p) "").
    split; [|done]. cbn [url_parse toy_url_api].
    rewrite <-(app_empty_r (show p)). apply toy_url_https; [done..|by left].
  - intros h host p q Hh Hplain Hp _ _.
    exists (mkToyUrl "https" host (if p =? 443 then None else Some p) q).
    split; [|done]. cbn [url_parse toy_url_api].
    apply toy_url_https; [done..|by right].
Qed.

(** ** Base64: bytes in binary *)

Definition toy_b64_char (a : ascii) : string :=
  match a with
  | Ascii b0 b1 b2 b3 b4 b5 b6 b7 =>
      let d (b : bool) (s : string) := String (if b then "1" else "0")%char s in
      d b0 (d b1 (d b2 (d b3 (d b4 (d b5 (d b6 (d b7 "")))))))
  end.
Fixpoint toy_b64 (s : string) : string :=
  match s with "" => "" | String a s => toy_b64_char a +:+ toy_b64 s end.
Fixpoint toy_unb64 (s : string) : option string :=
  match s with
  | "" => Some ""
  | String c0 (String c1 (String c2 (String c3 (String c4 (String c5 (String c6 (String c7 s))))))) =>
      let b := Ascii.eqb "1" in
      String (Ascii (b c0) (b c1) (b c2) (b c3) (b c4) (b c5) (b c6) (b c7)) <$> toy_unb64 s
  | _ => None
  end.

#[global] Instance toy_base64 : Base64Api := {| b64_encode := toy_b64; b64_decode := toy_unb64 |}.
Lemma toy_unb64_cons a s : toy_unb64 (toy_b64_char a +:+ s) = String a <$> toy_unb64 s.
Proof. destruct a as [[] [] [] [] [] [] [] []]; cbn [toy_b64_char]; rewrite !app_String; reflexivity. Qed.
Lemma toy_b64_char_graphic a s : graphic (toy_b64_char a +:+ s) = graphic s.
Proof. destruct a as [[] [] [] [] [] [] [] []]; cbn [toy_b64_char]; rewrite !app_String; reflexivity. Qed.

#[global] Instance toy_base64_laws : Base64Laws.
Proof.
  split; intros s; cbn [b64_encode b64_decode toy_base64]; induction s as [|a s IH];
    cbn [toy_b64]; try done.
  - by rewrite toy_unb64_cons, IH.
  - by rewrite toy_b64_char_graphic.
  - intros _. by destruct a.
Qed.

(** ** Tokens: the claims as a number in binary *)

Fixpoint toy_bits (p : positive) : string :=
  match p with xH => "" | xO p => String "0" (toy_bits p) | xI p => String "1" (toy_bits p) end.
Fixpoint toy_unbits (s : string) : option positive :=
  match s with
  | "" => Some xH
  | String a s => match toy_unbits s with
                  | Some p => if Ascii.eqb a "0" then Some (xO p)
                              else if Ascii.eqb a "1" then Some (xI p) else None
                  | None => None
                  end
  end.

Definition toy_jwt_api (C : Type) `{Countable C} : JwtApi C :=
  {| jwt_encode c := Some (toy_bits (encode c));
     jwt_decode t := p ← toy_unbits t; decode p |}.

Lemma toy_unbits_bits p : toy_unbits (toy_bits p) = Some p.
Proof. induction p as [p IH|p IH|]; simpl; by rewrite ?IH. Qed.

Lemma toy_bits_visible p : visible (toy_bits p) = true.
Proof. induction p as [p IH|p IH|]; simpl; try done. Qed.

Lemma toy_jwt_laws (C : Type) `{Countable C} : JwtLaws C (H := toy_jwt_api C).
Proof.
  split; intros c t [= <-].
  - cbn. rewrite toy_unbits_bits. cbn. apply decode_encode.
  - apply toy_bits_visible.
Qed.
