(* ===== verification/Restrictions.v ===== *)
(** * Restrictions: the server's access rules

    Models [src/wstunnel/src/restrictions/types.rs] and [restrictions/mod.rs] (the
    rule data, its deserialisers, [from_path_prefix]) and the part of
    [src/wstunnel/src/tunnel/server/utils.rs] that evaluates the rules
    ([RestrictionConfig::filter], the three [is_allowed], [validate_tunnel],
    [find_mapped_port]).  [Policy] states what a rule permits according to the documentation,
    independently of the evaluation order, [Enforced] what the code lets pass; they agree but
    for the protocol list and Unix sockets. *)

From Stdlib Require Import ZArith Lia Ascii String.
From stdpp Require Import base gmap strings list.
From S2P Require Import Prelude Str Net Apis ApiModels.

#[local] Open Scope stdpp_scope.

(** [std::ops::RangeInclusive<u16>]. *)
Record RangeInclusive := mkRange { range_start : Z; range_end : Z }.
Definition range_contains (r : RangeInclusive) (x : Z) : bool :=
  (range_start r <=? x) && (x <=? range_end r).

Inductive TunnelConfigProtocol := TcpT | UdpT | UnknownT.
Inductive ReverseTunnelConfigProtocol := TcpR | UdpR | Socks5R | UnixR | HttpProxyR | UnknownR.

#[global] Instance TunnelConfigProtocol_eq : EqDecision TunnelConfigProtocol.
Proof. solve_decision. Defined.
#[global] Instance ReverseTunnelConfigProtocol_eq : EqDecision ReverseTunnelConfigProtocol.
Proof. solve_decision. Defined.

(** [impl From<&LocalProtocol> for ReverseTunnelConfigProtocol]. *)
Definition reverse_protocol_from (value : LocalProtocol) : ReverseTunnelConfigProtocol :=
  match value with
  | Tcp _ | Udp _ | Stdio _ | TunnelStdio _ _ | Socks5 _ _ | TProxyTcp | TProxyUdp _
  | HttpProxy _ _ _ | Unix _ _ => UnknownR
  | ReverseTcp => TcpR
  | ReverseUdp _ => UdpR
  | ReverseSocks5 _ _ => Socks5R
  | ReverseUnix _ => UnixR
  | ReverseHttpProxy _ _ => HttpProxyR
  end.

(** [impl From<&LocalProtocol> for TunnelConfigProtocol]. *)
Definition tunnel_protocol_from (value : LocalProtocol) : TunnelConfigProtocol :=
  match value with
  | ReverseTcp | ReverseUdp _ | ReverseSocks5 _ _ | ReverseUnix _ | Stdio _ | TunnelStdio _ _
  | Socks5 _ _ | TProxyTcp | TProxyUdp _ | HttpProxy _ _ _ | ReverseHttpProxy _ _
  | Unix _ _ => UnknownT
  | Tcp _ => TcpT
  | Udp _ => UdpT
  end.

Section Restrictions.
Context `{RegexApi, IpNetApi}.

Record AllowTunnelConfig := mkAllowTunnel {
  at_protocol : list TunnelConfigProtocol;
  at_port : list RangeInclusive;
  at_host : Regex;
  at_cidr : list IpNet
}.

Record AllowReverseTunnelConfig := mkAllowReverse {
  ar_protocol : list ReverseTunnelConfigProtocol;
  ar_port : list RangeInclusive;
  ar_port_mapping : gmap Z Z;
  ar_cidr : list IpNet;
  ar_unix_path : Regex
}.

Inductive AllowConfig :=
| ReverseTunnel (c : AllowReverseTunnelConfig)
| Tunnel (c : AllowTunnelConfig).

Inductive MatchConfig :=
| AnyMatch
| PathPrefix (r : Regex)
| Authorization (r : Regex).

Record RestrictionConfig := mkRestriction {
  rc_name : string;
  rc_match : list MatchConfig;
  rc_allow : list AllowConfig
}.

Record RestrictionsRules := mkRules { restrictions : list RestrictionConfig }.

(** ** Deserialisers *)

Definition default_host {E} : outcome E Regex := unwrap (regex_new "^.*$").
Definition default_cidr : list IpNet := [ipv4net_default; ipv6net_default].

Definition parse_port (s : string) : outcome string Z :=
  ok_or "invalid port" (parse_u16 s).

Definition deserialize_port_range : list string → outcome string (list RangeInclusive) :=
  collect (λ s, match split_once ".." s with
                | Some (l, r) => l ← parse_port l; r ← parse_port r; mret (mkRange l r)
                | None => port ← parse_port s; mret (mkRange port port)
                end).

(** [collect] into a [HashMap]: a later pair replaces an earlier one. *)
Definition deserialize_port_mapping (mappings : list string) : outcome string (gmap Z Z) :=
  kvs ← collect (λ port_mapping,
          match split_char ":"%char port_mapping with
          | [orig; target] =>
              orig_port ← parse_port orig; target_port ← parse_port target;
              mret (orig_port, target_port)
          | _ => Err ("Invalid port_mapping entry: " +:+ port_mapping)
          end) mappings;
  mret (fold_left (λ m kv, <[fst kv := snd kv]> m) kvs ∅).

Definition deserialize_non_empty_vec {T} (vec : list T) : outcome string (list T) :=
  match vec with [] => Err "List must not be empty" | _ => Ok vec end.

(** ** Rules built from the command line *)

(** The [Tunnel] rule of one [--restrict-to] target. *)
Definition restrict_to_rule (hp : string * Z) : outcome string (list AllowConfig) :=
  let '(host, port) := hp in
  match ipaddr_from_str host with
  | Some ip =>
      re ← ok_or "regex" (regex_new "^$");
      net ← ok_or "prefix length" (ipnet_new ip (if is_ipv4 ip then 32 else 128));
      mret [Tunnel (mkAllowTunnel [] [mkRange port port] re [net])]
  | None =>
      re ← ok_or "regex" (regex_new ("^" +:+ regex_escape host +:+ "$"));
      mret [Tunnel (mkAllowTunnel [] [mkRange port port] re [])]
  end.

(** The [allow] list shared by all the rules. *)
Definition tunnels_restrictions (restrict_to : list (string * Z))
    : outcome string (list AllowConfig) :=
  match restrict_to with
  | [] =>
      h ← default_host; p ← default_host;
      mret [Tunnel (mkAllowTunnel [] [] h default_cidr);
            ReverseTunnel (mkAllowReverse [] [] ∅ default_cidr p)]
  | _ => rules ← collect restrict_to_rule restrict_to; mret (concat rules)
  end.

Definition path_prefix_rules (path_prefixes : list string) (allow : list AllowConfig)
    : outcome string (list RestrictionConfig) :=
  match path_prefixes with
  | [] => mret [mkRestriction "Allow All" [AnyMatch] allow]
  | _ => collect (λ path_prefix,
           re ← ok_or "regex" (regex_new ("^" +:+ regex_escape path_prefix +:+ "$"));
           mret (mkRestriction ("Allow path prefix " +:+ path_prefix) [PathPrefix re] allow))
           path_prefixes
  end.

Definition from_path_prefix (path_prefixes : list string) (restrict_to : list (string * Z))
    : outcome string RestrictionsRules :=
  allow ← tunnels_restrictions restrict_to;
  rules ← path_prefix_rules path_prefixes allow;
  mret (mkRules rules).

(** ** Evaluation ([server/utils.rs]) *)

Definition filter_match (m : MatchConfig) (path_prefix : string)
    (authorization : option string) : bool :=
  match m with
  | AnyMatch => true
  | PathPrefix path => is_match path path_prefix
  | Authorization auth => match authorization with
                          | Some val => is_match auth val
                          | None => false
                          end
  end.

Definition restriction_filter (r : RestrictionConfig) (path_prefix : string)
    (authorization : option string) : bool :=
  forallb (λ m, filter_match m path_prefix authorization) (rc_match r).

Definition INVALID_UNIX_PATH : string := "####INVALID_UNIX_PATH####".

Definition cidr_allowed (cidr : list IpNet) (ip : IpAddr) : bool :=
  existsb (λ net, ipnet_contains net ip) cidr.

Definition reverse_is_allowed (c : AllowReverseTunnelConfig) (remote : RemoteAddr) : bool :=
  if negb (is_reverse_tunnel (protocol remote)) then false
  else match protocol remote with
       | ReverseUnix path =>
           is_match (ar_unix_path c)
             match to_str path with Some p => p | None => INVALID_UNIX_PATH end
       | p =>
           if negb (bool_decide (ar_port c = []))
              && negb (existsb (λ range, range_contains range (port remote)) (ar_port c))
           then false
           else if negb (bool_decide (ar_protocol c = []))
                   && negb (bool_decide (reverse_protocol_from p ∈ ar_protocol c))
           then false
           else match host remote with
                | Domain _ => false
                | Ipv4 ip => cidr_allowed (ar_cidr c) (IpV4 ip)
                | Ipv6 ip => cidr_allowed (ar_cidr c) (IpV6 ip)
                end
       end.

Definition tunnel_is_allowed (c : AllowTunnelConfig) (remote : RemoteAddr) : bool :=
  if is_reverse_tunnel (protocol remote) then false
  else if negb (bool_decide (at_port c = []))
          && negb (existsb (λ range, range_contains range (port remote)) (at_port c))
  then false
  else if negb (bool_decide (at_protocol c = []))
          && negb (bool_decide (tunnel_protocol_from (protocol remote) ∈ at_protocol c))
  then false
  else match host remote with
       | Domain host => is_match (at_host c) host
       | Ipv4 ip => cidr_allowed (at_cidr c) (IpV4 ip)
       | Ipv6 ip => cidr_allowed (at_cidr c) (IpV6 ip)
       end.

Definition is_allowed (a : AllowConfig) (remote : RemoteAddr) : bool :=
  match a with
  | ReverseTunnel c => reverse_is_allowed c remote
  | Tunnel c => tunnel_is_allowed c remote
  end.

Definition validate_tunnel (remote : RemoteAddr) (path_prefix : string)
    (authorization : option string) (rules : RestrictionsRules) : option RestrictionConfig :=
  find (λ r, existsb (λ allow, is_allowed allow remote) (rc_allow r))
    (List.filter (λ r, restriction_filter r path_prefix authorization) (restrictions rules)).

(** The port a reverse tunnel listens on. *)
Definition find_mapped_port (req_port : Z) (restriction : RestrictionConfig) : Z :=
  match find_map (λ allow, match allow with
                           | ReverseTunnel c => ar_port_mapping c !! req_port
                           | Tunnel _ => None
                           end) (rc_allow restriction) with
  | Some p => p
  | None => req_port
  end.
End Restrictions.

(** ** The policy the rules express *)

Module Policy.
Section Policy.
Context `{RegexApi, IpNetApi}.

Definition port_ok (ranges : list RangeInclusive) (port : Z) : Prop :=
  ranges = [] ∨ ∃ r, r ∈ ranges ∧ range_start r ≤ port ≤ range_end r.

(** An empty list stands for every protocol. *)
Definition listed {T} (l : list T) (x : T) : Prop := l = [] ∨ x ∈ l.

Definition host_ip (h : Host) : option IpAddr :=
  match h with Domain _ => None | Ipv4 ip => Some (IpV4 ip) | Ipv6 ip => Some (IpV6 ip) end.

Definition in_cidr (cidr : list IpNet) (h : Host) : Prop :=
  ∃ ip net, host_ip h = Some ip ∧ net ∈ cidr ∧ ipnet_contains net ip = true.

Definition tunnel_permits (c : AllowTunnelConfig) (r : RemoteAddr) : Prop :=
  is_reverse_tunnel (protocol r) = false
  ∧ port_ok (at_port c) (port r)
  ∧ listed (at_protocol c) (tunnel_protocol_from (protocol r))
  ∧ (in_cidr (at_cidr c) (host r) ∨ ∃ d, host r = Domain d ∧ is_match (at_host c) d = true).

(** A Unix socket has a path instead of a port and an address; the list of protocols holds
    for it as for the others ([restrictions.yaml] lists [Unix] among them). *)
Definition reverse_permits (c : AllowReverseTunnelConfig) (r : RemoteAddr) : Prop :=
  is_reverse_tunnel (protocol r) = true
  ∧ listed (ar_protocol c) (reverse_protocol_from (protocol r))
  ∧ match protocol r with
    | ReverseUnix path => is_match (ar_unix_path c) (default INVALID_UNIX_PATH (to_str path)) = true
    | _ => port_ok (ar_port c) (port r) ∧ in_cidr (ar_cidr c) (host r)
    end.

Definition allow_permits (a : AllowConfig) (r : RemoteAddr) : Prop :=
  match a with ReverseTunnel c => reverse_permits c r | Tunnel c => tunnel_permits c r end.

Definition match_holds (path_prefix : string) (auth : option string) (m : MatchConfig) : Prop :=
  match m with
  | AnyMatch => True
  | PathPrefix re => is_match re path_prefix = true
  | Authorization re => ∃ v, auth = Some v ∧ is_match re v = true
  end.

(** All the matchers hold and one of the [allow] entries permits the tunnel. *)
Definition admits (remote : RemoteAddr) (path_prefix : string) (auth : option string)
    (r : RestrictionConfig) : Prop :=
  Forall (match_holds path_prefix auth) (rc_match r)
  ∧ Exists (λ a, allow_permits a remote) (rc_allow r).

(** The rules that allow reverse tunnels allow Unix sockets among them. *)
Definition lists_unix (r : RestrictionConfig) : Prop :=
  ∀ c, ReverseTunnel c ∈ rc_allow r → listed (ar_protocol c) UnixR.
End Policy.
End Policy.

(** ** What the code enforces

    It differs from [Policy] in one case: for a Unix socket the list of protocols is not
    looked at. *)

Module Enforced.
Section Enforced.
Context `{RegexApi, IpNetApi}.
Import Policy.

Definition reverse_permits (c : AllowReverseTunnelConfig) (r : RemoteAddr) : Prop :=
  (∃ path, protocol r = ReverseUnix path ∧
     is_match (ar_unix_path c) (default INVALID_UNIX_PATH (to_str path)) = true)
  ∨ (is_reverse_tunnel (protocol r) = true
     ∧ (∀ path, protocol r ≠ ReverseUnix path)
     ∧ port_ok (ar_port c) (port r)
     ∧ listed (ar_protocol c) (reverse_protocol_from (protocol r))
     ∧ in_cidr (ar_cidr c) (host r)).

Definition allow_permits (a : AllowConfig) (r : RemoteAddr) : Prop :=
  match a with ReverseTunnel c => reverse_permits c r | Tunnel c => tunnel_permits c r end.

(** All the matchers hold and one of the [allow] entries permits the tunnel. *)
Definition admits (remote : RemoteAddr) (path_prefix : string) (auth : option string)
    (r : RestrictionConfig) : Prop :=
  Forall (match_holds path_prefix auth) (rc_match r)
  ∧ Exists (λ a, allow_permits a remote) (rc_allow r).
End Enforced.
End Enforced.

(** ** The evaluation decides the policy *)

Section Decides.
Context `{RegexApi, IpNetApi}.

(** The test [!l.is_empty() && !p] of the code, negated. *)
Lemma guard_iff {T} `{EqDecision T} (l : list T) (p : bool) :
  negb (bool_decide (l = [])) && negb p = false ↔ l = [] ∨ p = true.
Proof. destruct p; case_bool_decide; simpl; naive_solver. Qed.

Lemma range_contains_iff r x : range_contains r x = true ↔ range_start r ≤ x ≤ range_end r.
Proof. unfold range_contains. rewrite andb_true_iff, !Z.leb_le. done. Qed.

#[global] Instance RangeInclusive_eq : EqDecision RangeInclusive.
Proof. solve_decision. Defined.

Lemma port_guard_iff ranges p :
  negb (bool_decide (ranges = []))
    && negb (existsb (λ range, range_contains range p) ranges) = false
  ↔ Policy.port_ok ranges p.
Proof.
  rewrite guard_iff, any_true. unfold Policy.port_ok.
  by setoid_rewrite range_contains_iff.
Qed.

Lemma listed_guard_iff {T} `{EqDecision T} (l : list T) x :
  negb (bool_decide (l = [])) && negb (bool_decide (x ∈ l)) = false ↔ Policy.listed l x.
Proof. by rewrite guard_iff, bool_decide_eq_true. Qed.

Lemma cidr_allowed_iff cidr h ip :
  Policy.host_ip h = Some ip → cidr_allowed cidr ip = true ↔ Policy.in_cidr cidr h.
Proof.
  intros Hip. unfold cidr_allowed, Policy.in_cidr. rewrite any_true.
  split; [naive_solver|]. intros (ip'&net&?&?&?). simplify_eq. eauto.
Qed.

Lemma in_cidr_domain cidr d : ¬ Policy.in_cidr cidr (Domain d).
Proof. by intros (?&?&?&?). Qed.

Lemma if_false_iff (b c : bool) (P Q : Prop) :
  (b = false ↔ P) → (c = true ↔ Q) → (if b then false else c) = true ↔ P ∧ Q.
Proof. destruct b, c; naive_solver. Qed.

Lemma tunnel_is_allowed_iff c r :
  tunnel_is_allowed c r = true ↔ Policy.tunnel_permits c r.
Proof.
  unfold tunnel_is_allowed, Policy.tunnel_permits.
  apply if_false_iff; [done|].
  apply if_false_iff; [apply port_guard_iff|].
  apply if_false_iff; [apply listed_guard_iff|].
  destruct (host r) as [d|ip|ip].
  - split; [naive_solver|]. intros [[]%in_cidr_domain|(?&[= <-]&?)]; done.
  - rewrite (cidr_allowed_iff _ (Ipv4 ip)) by done. naive_solver.
  - rewrite (cidr_allowed_iff _ (Ipv6 ip)) by done. naive_solver.
Qed.

Lemma reverse_hosts_iff c r :
  match host r with
  | Domain _ => false
  | Ipv4 ip => cidr_allowed (ar_cidr c) (IpV4 ip)
  | Ipv6 ip => cidr_allowed (ar_cidr c) (IpV6 ip)
  end = true ↔ Policy.in_cidr (ar_cidr c) (host r).
Proof.
  destruct (host r) as [d|ip|ip].
  - split; [done|]. by intros []%in_cidr_domain.
  - by apply (cidr_allowed_iff _ (Ipv4 ip)).
  - by apply (cidr_allowed_iff _ (Ipv6 ip)).
Qed.

Lemma reverse_is_allowed_iff c r :
  reverse_is_allowed c r = true ↔ Enforced.reverse_permits c r.
Proof.
  unfold reverse_is_allowed, Enforced.reverse_permits.
  assert (∀ p, (if negb (bool_decide (ar_port c = []))
               && negb (existsb (λ range, range_contains range (port r)) (ar_port c))
            then false
            else if negb (bool_decide (ar_protocol c = []))
                    && negb (bool_decide (reverse_protocol_from p ∈ ar_protocol c))
            then false
            else match host r with
                 | Domain _ => false
                 | Ipv4 ip => cidr_allowed (ar_cidr c) (IpV4 ip)
                 | Ipv6 ip => cidr_allowed (ar_cidr c) (IpV6 ip)
                 end) = true ↔
          Policy.port_ok (ar_port c) (port r)
          ∧ Policy.listed (ar_protocol c) (reverse_protocol_from p)
          ∧ Policy.in_cidr (ar_cidr c) (host r)) as Hcommon.
  { intros p. apply if_false_iff; [apply port_guard_iff|].
    apply if_false_iff; [apply listed_guard_iff|]. apply reverse_hosts_iff. }
  destruct (protocol r) eqn:Hp; cbn [is_reverse_tunnel negb];
    try (split; [done|]; by intros [(?&[=]&_)|([=]&_)]);
    try (rewrite Hcommon; split; [by right|]; by intros [(?&[=]&_)|(_&_&?)]).
  split; [intros; left; exists path; by destruct (to_str path)|].
  intros [(?&[= <-]&?)|(_&Hn&_)]; [by destruct (to_str path)|by destruct (Hn path)].
Qed.

Lemma is_allowed_iff a r : is_allowed a r = true ↔ Enforced.allow_permits a r.
Proof. destruct a; [apply reverse_is_allowed_iff | apply tunnel_is_allowed_iff]. Qed.

Lemma filter_match_iff m pp auth :
  filter_match m pp auth = true ↔ Policy.match_holds pp auth m.
Proof. destruct m, auth; naive_solver. Qed.

Lemma restriction_filter_iff r pp auth :
  restriction_filter r pp auth = true ↔ Forall (Policy.match_holds pp auth) (rc_match r).
Proof.
  unfold restriction_filter. rewrite all_true, Forall_forall.
  by setoid_rewrite filter_match_iff.
Qed.

(** One boolean test per restriction. *)
Definition admits_b (remote : RemoteAddr) (pp : string) (auth : option string)
    (r : RestrictionConfig) : bool :=
  restriction_filter r pp auth && existsb (λ a, is_allowed a remote) (rc_allow r).

Lemma admits_b_iff remote pp auth r :
  admits_b remote pp auth r = true ↔ Enforced.admits remote pp auth r.
Proof.
  unfold admits_b, Enforced.admits. rewrite andb_true_iff, restriction_filter_iff, any_true.
  by rewrite Exists_exists; setoid_rewrite is_allowed_iff.
Qed.

(** Where Unix sockets are not concerned, or are among the protocols, the policy is enforced. *)
Lemma enforced_policy remote pp auth r :
  ((∃ path, protocol remote = ReverseUnix path) → Policy.lists_unix r) →
  Enforced.admits remote pp auth r ↔ Policy.admits remote pp auth r.
Proof.
  intros Hu. unfold Enforced.admits, Policy.admits. apply and_iff_compat_l.
  rewrite !Exists_exists. apply exist_proper. intros a. split; intros [Hin Hp]; (split; [done|]); revert Hp.
  all: destruct a as [c|c]; [|done]; unfold Enforced.reverse_permits, Policy.reverse_permits; cbn;
    unfold Enforced.reverse_permits, Policy.reverse_permits.
  - intros [(path&Hp&?)|(?&Hn&?&?&?)]; [|destruct (protocol remote); naive_solver].
    rewrite Hp. split_and!; [done|apply Hu; eauto|done].
  - destruct (protocol remote) eqn:Hp; naive_solver.
Qed.

Lemma find_filter {A} (p q : A → bool) l :
  find q (List.filter p l) = find (λ x, p x && q x) l.
Proof. induction l as [|x l IH]; simpl; [done|]. destruct (p x); simpl; by rewrite IH. Qed.

Lemma validate_tunnel_find remote pp auth rules :
  validate_tunnel remote pp auth rules = find (admits_b remote pp auth) (restrictions rules).
Proof. apply find_filter. Qed.
End Decides.

(** ** What the command line restrictions admit *)

Module Cli.
Section Cli.
Context `{RegexApi, IpNetApi}.

Definition prefix_ok (prefixes : list string) (pp : string) : Prop :=
  prefixes = [] ∨ pp ∈ prefixes.

Definition one_line (s : string) : Prop := contains_char NEWLINE s = false.

(** Without [--restrict-to]: everything the default patterns match. *)
Definition default_ok (r : RemoteAddr) : Prop :=
  (is_reverse_tunnel (protocol r) = false ∧ ∀ d, host r = Domain d → one_line d)
  ∨ (∃ path, protocol r = ReverseUnix path ∧ one_line (default INVALID_UNIX_PATH (to_str path)))
  ∨ (is_reverse_tunnel (protocol r) = true ∧ (∀ path, protocol r ≠ ReverseUnix path)
     ∧ is_Some (Policy.host_ip (host r))).

(** One target: the same port and, for an address target, that address (or an
    empty domain); for a name target, exactly that name. *)
Definition target_ok (r : RemoteAddr) (hp : string * Z) : Prop :=
  is_reverse_tunnel (protocol r) = false ∧ port r = snd hp ∧
  match ipaddr_from_str (fst hp) with
  | Some ip => Policy.host_ip (host r) = Some ip ∨ host r = Domain ""
  | None => host r = Domain (fst hp)
  end.

Definition targets_ok (restrict_to : list (string * Z)) (r : RemoteAddr) : Prop :=
  match restrict_to with [] => default_ok r | _ => Exists (target_ok r) restrict_to end.
End Cli.
End Cli.

Section CliProofs.
Context `{RegexLaws, IpNetLaws}.

Lemma validate_is_Some remote pp auth rules :
  is_Some (validate_tunnel remote pp auth rules) ↔
  Exists (Enforced.admits remote pp auth) (restrictions rules).
Proof.
  rewrite validate_tunnel_find, <-not_eq_None_Some, find_None, <-Exists_Forall_neg.
  - rewrite !Exists_exists. setoid_rewrite <-admits_b_iff. by setoid_rewrite not_false_iff_true.
  - intros x. destruct (admits_b remote pp auth x); auto.
Qed.

Lemma port_ok_single p q : Policy.port_ok [mkRange p p] q ↔ q = p.
Proof.
  unfold Policy.port_ok. split.
  - intros [[=]|(r&->%list_elem_of_singleton&?)]. simpl in *. lia.
  - intros ->. right. exists (mkRange p p). simpl. split; [by left|lia].
Qed.

Lemma listed_nil {T} (x : T) : Policy.listed [] x.
Proof. by left. Qed.

Lemma in_cidr_nil h : ¬ Policy.in_cidr [] h.
Proof. intros (?&?&?&?%elem_of_nil&?). done. Qed.

Lemma in_cidr_single n ip h :
  (∀ x, ipnet_contains n x = bool_decide (x = ip)) →
  Policy.in_cidr [n] h ↔ Policy.host_ip h = Some ip.
Proof.
  intros Hn. unfold Policy.in_cidr. split.
  - intros (ip'&net&Hip&->%list_elem_of_singleton&Hc).
    rewrite Hn, bool_decide_eq_true in Hc. congruence.
  - intros Hip. exists ip, n. rewrite Hn, bool_decide_eq_true.
    split_and!; [done|by left|done].
Qed.

Lemma in_cidr_default h : Policy.in_cidr default_cidr h ↔ is_Some (Policy.host_ip h).
Proof.
  split; [by intros (ip&?&->&_)|]. intros [ip Hip].
  exists ip, (if is_ipv4 ip then ipv4net_default else ipv6net_default).
  split_and!; [done|destruct (is_ipv4 ip); unfold default_cidr; set_solver|].
  destruct (is_ipv4 ip) eqn:E; [by rewrite ipnet_default_v4|by rewrite ipnet_default_v6, E].
Qed.

Lemma restrict_to_rule_permits hp l r :
  restrict_to_rule hp = Ok l → Exists (λ a, Enforced.allow_permits a r) l ↔ Cli.target_ok r hp.
Proof.
  destruct hp as [h p]. unfold restrict_to_rule, Cli.target_ok. cbn [fst snd].
  destruct (ipaddr_from_str h) as [ip|] eqn:Hip; intros Hok.
  - apply bind_ok_inv in Hok as (re&Hre%ok_or_ok&Hok).
    apply bind_ok_inv in Hok as (net&Hnet%ok_or_ok&[= <-]).
    destruct regex_empty as (re'&Hre'&Hmatch). destruct (ipnet_single ip) as (n&Hn&Hc).
    simplify_eq. rewrite Exists_cons, Exists_nil. cbn. unfold Policy.tunnel_permits. simpl.
    rewrite port_ok_single, (in_cidr_single _ _ _ Hc). setoid_rewrite Hmatch.
    setoid_rewrite bool_decide_eq_true. pose proof (listed_nil (tunnel_protocol_from (protocol r))).
    naive_solver.
  - apply bind_ok_inv in Hok as (re&Hre%ok_or_ok&[= <-]).
    pose proof (regex_exact _ _ Hre) as Hmatch.
    rewrite Exists_cons, Exists_nil. cbn. unfold Policy.tunnel_permits. simpl.
    rewrite port_ok_single. setoid_rewrite Hmatch. setoid_rewrite bool_decide_eq_true.
    pose proof (listed_nil (tunnel_protocol_from (protocol r))).
    pose proof (in_cidr_nil (host r)). naive_solver.
Qed.

Lemma default_rules_permit re r :
  regex_new "^.*$" = Some re →
  Exists (λ a, Enforced.allow_permits a r)
    [Tunnel (mkAllowTunnel [] [] re default_cidr);
     ReverseTunnel (mkAllowReverse [] [] ∅ default_cidr re)] ↔ Cli.default_ok r.
Proof.
  intros Hre. destruct regex_any as (re'&Hre'&Hm). simplify_eq.
  assert (∀ s, is_match re s = true ↔ Cli.one_line s) as Hone.
  { intros s. rewrite Hm. unfold Cli.one_line. by destruct (contains_char _ s). }
  rewrite !Exists_cons, Exists_nil. cbn.
  unfold Policy.tunnel_permits, Enforced.reverse_permits, Cli.default_ok. simpl.
  rewrite in_cidr_default. setoid_rewrite Hone.
  assert (Policy.port_ok [] (port r)) by by left.
  pose proof (listed_nil (tunnel_protocol_from (protocol r))).
  pose proof (listed_nil (reverse_protocol_from (protocol r))).
  assert (is_Some (Policy.host_ip (host r)) ∨ (∃ d, host r = Domain d ∧ Cli.one_line d) ↔
          ∀ d, host r = Domain d → Cli.one_line d) as Hhost.
  { destruct (host r); simpl; naive_solver. }
  rewrite Hhost. tauto.
Qed.

Lemma Exists_concat_Forall2 {A B} (P : A → Prop) (Q : B → Prop) (ls : list (list A)) bs :
  Forall2 (λ b l, Exists P l ↔ Q b) bs ls → Exists P (concat ls) ↔ Exists Q bs.
Proof.
  induction 1 as [|b l bs ls Hbl _ IH]; simpl; [by rewrite !Exists_nil|].
  by rewrite Exists_app, Exists_cons, Hbl, IH.
Qed.

Lemma tunnels_restrictions_permit (restrict_to : list (string * Z)) allow r :
  tunnels_restrictions restrict_to = Ok allow →
  Exists (λ a, Enforced.allow_permits a r) allow ↔ Cli.targets_ok restrict_to r.
Proof.
  unfold tunnels_restrictions, Cli.targets_ok. destruct restrict_to as [|hp hps].
  - unfold default_host. destruct (regex_new "^.*$") as [re|] eqn:Hre; [|done].
    intros [= <-]. by apply default_rules_permit.
  - intros (rules&Hrules%collect_ok&[= <-])%bind_ok_inv.
    apply Exists_concat_Forall2. eapply Forall2_impl; [exact Hrules|].
    intros; by apply restrict_to_rule_permits.
Qed.

Lemma path_prefix_rules_admit prefixes allow rules remote pp auth :
  path_prefix_rules prefixes allow = Ok rules →
  Exists (Enforced.admits remote pp auth) rules ↔
  Cli.prefix_ok prefixes pp ∧ Exists (λ a, Enforced.allow_permits a remote) allow.
Proof.
  unfold path_prefix_rules, Cli.prefix_ok. destruct prefixes as [|p ps].
  - intros [= <-]. unfold Enforced.admits. rewrite Exists_cons, Exists_nil. simpl.
    rewrite Forall_cons, Forall_nil. simpl. naive_solver.
  - intros Hrules%collect_ok.
    assert (∀ l, p :: ps = l → (p :: ps = [] ∨ pp ∈ p :: ps) ↔ pp ∈ l) as Hl.
    { intros l <-. naive_solver. }
    rewrite (Hl _ eq_refl). clear Hl.
    induction Hrules as [|q rule qs rules Hrule _ IH]; [by rewrite Exists_nil, elem_of_nil; naive_solver|].
    apply bind_ok_inv in Hrule as (re&Hre%ok_or_ok&[= <-]).
    pose proof (regex_exact _ _ Hre) as Hmatch.
    rewrite Exists_cons, IH, elem_of_cons. unfold Enforced.admits. simpl.
    rewrite Forall_cons, Forall_nil. simpl. rewrite Hmatch, bool_decide_eq_true. tauto.
Qed.

Lemma from_path_prefix_admits prefixes restrict_to rules remote pp auth :
  from_path_prefix prefixes restrict_to = Ok rules →
  is_Some (validate_tunnel remote pp auth rules) ↔
  Cli.prefix_ok prefixes pp ∧ Cli.targets_ok restrict_to remote.
Proof.
  unfold from_path_prefix. intros (allow&Hallow&Hrest)%bind_ok_inv.
  apply bind_ok_inv in Hrest as (rs&Hrs&[= <-]).
  rewrite validate_is_Some. cbn [restrictions].
  rewrite (path_prefix_rules_admit _ _ _ _ _ _ Hrs).
  by rewrite (tunnels_restrictions_permit _ _ _ Hallow).
Qed.
End CliProofs.

(** ** Deserialisation round trips *)

Section RoundTrips.
Definition u16 (x : Z) : Prop := 0 ≤ x ≤ U16_MAX.

Definition show_range (r : RangeInclusive) : string :=
  show (range_start r) +:+ ".." +:+ show (range_end r).

Definition show_mapping (kv : Z * Z) : string :=
  show (fst kv) +:+ ":" +:+ show (snd kv).

Lemma parse_port_show p : u16 p → parse_port (show p) = Ok p.
Proof. intros Hp. unfold parse_port, parse_u16. by rewrite parse_uint_show. Qed.

Lemma collect_fmap {E A B} (f : A → outcome E B) (g : B → A) l :
  Forall (λ x, f (g x) = Ok x) l → collect f (g <$> l) = Ok l.
Proof. induction 1 as [|x l Hx _ IH]; [done|]. rewrite fmap_cons. cbn [collect]. by rewrite Hx, IH. Qed.

End RoundTrips.

(** ** Properties *)

Section Evaluation.
Context `{RegexApi, IpNetApi}.

(** C6: [validate_tunnel] implements the documented access policy: it returns a restriction
    exactly when that restriction is the first of the list, in order, whose matchers
    all hold and one of whose [allow] entries permits the requested tunnel.  This is for
    every request but those for a Unix socket under rules that restrict the protocols of
    reverse tunnels without listing [Unix] ([unix_escapes_protocol_list]). *)
Theorem validate_tunnel_refines_policy remote pp auth rules r :
  ((∃ path, protocol remote = ReverseUnix path) → Forall Policy.lists_unix (restrictions rules)) →
  validate_tunnel remote pp auth rules = Some r ↔
  ∃ l1 l2, restrictions rules = l1 ++ r :: l2
    ∧ Policy.admits remote pp auth r
    ∧ Forall (λ r', ¬ Policy.admits remote pp auth r') l1.
Proof.
  intros Hu. rewrite validate_tunnel_find, find_Some.
  setoid_rewrite admits_b_iff. setoid_rewrite <-not_true_iff_false.
  setoid_rewrite admits_b_iff. apply exist_proper. intros l1. apply exist_proper. intros l2.
  split; intros (Hl&Ha&Hn); (split; [done|]); rewrite Hl, Forall_app, Forall_cons in Hu.
  all: split; [apply enforced_policy in Ha; naive_solver|].
  all: rewrite !Forall_forall in *; intros r' Hr' Ha'; apply (Hn r' Hr');
    apply enforced_policy in Ha'; naive_solver.
Qed.

(** Unix sockets escape the list of protocols: a rule that allows some other kinds of
    reverse tunnels only is applied to a request for a socket whose path its [unix_path]
    matches (by default every path), and the server admits what the policy forbids. *)
Theorem unix_escapes_protocol_list path h p pp auth name ms c :
  Forall (Policy.match_holds pp auth) ms →
  is_match (ar_unix_path c) (default INVALID_UNIX_PATH (to_str path)) = true →
  ¬ Policy.listed (ar_protocol c) UnixR →
  let remote := mkRemote (ReverseUnix path) h p in
  let rule := mkRestriction name ms [ReverseTunnel c] in
  validate_tunnel remote pp auth (mkRules [rule]) = Some rule
  ∧ ¬ Policy.admits remote pp auth rule.
Proof.
  intros Hm Hp Hn remote rule. split.
  - rewrite validate_tunnel_find. cbn [restrictions find]. replace (admits_b remote pp auth rule) with true; [done|].
    symmetry. apply admits_b_iff. split; [done|]. left. left. by exists path.
  - intros [_ Ha]. apply Exists_cons in Ha as [(_&Hl&_)|Ha]; [done|by apply Exists_nil in Ha].
Qed.

(** The listening port of a reverse tunnel: the target that the first [allow] entry
    mapping the requested port gives it, and the requested port if none maps it. *)
Theorem find_mapped_port_spec req_port restriction p :
  find_mapped_port req_port restriction = p ↔
  (∃ l1 c l2, rc_allow restriction = l1 ++ ReverseTunnel c :: l2
     ∧ ar_port_mapping c !! req_port = Some p
     ∧ ∀ c', ReverseTunnel c' ∈ l1 → ar_port_mapping c' !! req_port = None)
  ∨ (p = req_port
     ∧ ∀ c', ReverseTunnel c' ∈ rc_allow restriction → ar_port_mapping c' !! req_port = None).
Proof.
  unfold find_mapped_port. set (f := λ a, match a with ReverseTunnel c => _ | _ => _ end).
  assert (∀ l, Forall (λ a, f a = None) l ↔
            ∀ c, ReverseTunnel c ∈ l → ar_port_mapping c !! req_port = None) as Hall.
  { intros l. rewrite Forall_forall. split; [intros Hf c Hc; by apply Hf in Hc|].
    intros Hc [c|c]; [apply Hc|done]. }
  destruct (find_map f (rc_allow restriction)) as [q|] eqn:E.
  - apply find_map_Some in E as (l1&[c|c]&l2&Heq&Hf&Hl1); [|done]. rewrite Hall in Hl1.
    split; [intros <-; left; by eauto 10|].
    intros [(l1'&c'&l2'&Heq'&Hf'&Hl1')|[-> Hn]].
    + assert (find_map f (rc_allow restriction) = Some p) as Hp.
      { apply find_map_Some. exists l1', (ReverseTunnel c'), l2'. by rewrite Hall. }
      assert (find_map f (rc_allow restriction) = Some q) as Hq.
      { apply find_map_Some. exists l1, (ReverseTunnel c), l2. by rewrite Hall. }
      congruence.
    + exfalso. assert (f (ReverseTunnel c) = None) by (apply Hn; rewrite Heq; set_solver).
      congruence.
  - apply find_map_None in E. rewrite Hall in E. split; [intros <-; by right|].
    intros [(l1&c&l2&Heq&Hf&_)|[-> _]]; [|done].
    rewrite (E c) in Hf; [done|]. rewrite Heq. set_solver.
Qed.

End Evaluation.

Section Properties.
Context `{RegexLaws, IpNetLaws}.

(** C7: The rules made from [--restrict-http-upgrade-path-prefix] and [--restrict-to]
    admit exactly the requests with one of the path prefixes (any, if none is given)
    and one of the targets (without targets: what the default patterns match). *)
Theorem from_path_prefix_exact prefixes restrict_to rules remote pp auth :
  from_path_prefix prefixes restrict_to = Ok rules →
  is_Some (validate_tunnel remote pp auth rules) ↔
  Cli.prefix_ok prefixes pp ∧ Cli.targets_ok restrict_to remote.
Proof. apply from_path_prefix_admits. Qed.

(** With at least one [--restrict-to] target, no reverse tunnel is admitted,
    whatever the path and the credentials. *)
Theorem restrict_to_forbids_reverse prefixes restrict_to rules remote pp auth :
  from_path_prefix prefixes restrict_to = Ok rules →
  restrict_to ≠ [] →
  is_reverse_tunnel (protocol remote) = true →
  validate_tunnel remote pp auth rules = None.
Proof.
  intros Hrules Hne Hrev. destruct (validate_tunnel _ _ _ _) eqn:Hv; [|done]. exfalso.
  assert (is_Some (validate_tunnel remote pp auth rules)) as [_ Ht]%(from_path_prefix_admits _ _ _ _ _ _ Hrules)
    by by rewrite Hv.
  unfold Cli.targets_ok in Ht. destruct restrict_to; [done|].
  apply Exists_exists in Ht as (hp&_&Hf&_). congruence.
Qed.

(** Port ranges: every list of ranges written as [start..end] is read back as is. *)
Theorem port_range_roundtrip ranges :
  Forall (λ r, u16 (range_start r) ∧ u16 (range_end r)) ranges →
  deserialize_port_range (show_range <$> ranges) = Ok ranges.
Proof.
  intros Hr. apply collect_fmap. eapply Forall_impl; [exact Hr|]. intros [l r] [Hl Hrr].
  unfold show_range. simpl range_start in *. simpl range_end in *.
  rewrite split_once_fresh by by apply no_char_bytes, show_no_sep.
  by rewrite !parse_port_show.
Qed.

(** Port mappings: a list written as [orig:target] is read back as the map in which
    the last entry of a port decides. *)
Theorem port_mapping_roundtrip kvs k :
  Forall (λ kv, u16 (fst kv) ∧ u16 (snd kv)) kvs →
  (λ m, m !! k) <$> deserialize_port_mapping (show_mapping <$> kvs) =
  Ok (snd <$> find (λ kv, bool_decide (fst kv = k)) (rev kvs)).
Proof.
  intros Hkvs. unfold deserialize_port_mapping. rewrite collect_fmap; cbn.
  - rewrite (fold_update_get (λ (m : gmap Z Z) k, m !! k) _
               (λ kv k, bool_decide (fst kv = k)) (λ kv, Some (snd kv))).
    + rewrite lookup_empty. by destruct (find _ _).
    + intros m [a b] x. cbn. rewrite lookup_insert. by case_decide; case_bool_decide.
  - eapply Forall_impl; [exact Hkvs|]. intros [a b] [Ha Hb]. unfold show_mapping. cbn [fst snd].
    rewrite app_String, app_Empty.
    rewrite split_char_app by by apply show_no_sep.
    rewrite split_char_none by by apply show_no_sep. by rewrite !parse_port_show.
Qed.
End Properties.

(** ** Witnesses *)

Definition tcp_to (h : string) (p : Z) : RemoteAddr := mkRemote (Tcp false) (Domain h) p.

Lemma from_path_prefix_exact_witness :
  ∃ rules, from_path_prefix ["app"] [("example.com", 443)] = Ok rules
    ∧ is_Some (validate_tunnel (tcp_to "example.com" 443) "app" None rules)
    ∧ ¬ is_Some (validate_tunnel (tcp_to "example.com" 80) "app" None rules).
Proof.
  eexists. split; [reflexivity|].
  split; rewrite (from_path_prefix_exact ["app"] [("example.com", 443)]) by reflexivity.
  - split; [by right; left|]. left. by repeat split.
  - intros [_ H]. apply Exists_cons in H as [(_&[=]&_)|H]. by apply Exists_nil in H.
Defined.

Lemma restrict_to_forbids_reverse_witness :
  ∃ rules, from_path_prefix [] [("example.com", 443)] = Ok rules
    ∧ validate_tunnel (mkRemote ReverseTcp (Domain "example.com") 443) "app" None rules = None.
Proof.
  eexists. split; [reflexivity|].
  by apply (restrict_to_forbids_reverse [] [("example.com", 443)]).
Defined.

(** The first rule is for another port, the second admits the request. *)
Definition toy_rule (p : Z) : RestrictionConfig :=
  mkRestriction "toy" [AnyMatch]
    [Tunnel (mkAllowTunnel [TcpT] [mkRange p p] (ToyAny : @Regex toy_regex_api) [])].

Lemma validate_tunnel_refines_policy_witness :
  ∃ l1 l2, [toy_rule 80; toy_rule 443] = l1 ++ toy_rule 443 :: l2
    ∧ Policy.admits (tcp_to "example.com" 443) "v1" None (toy_rule 443)
    ∧ Forall (λ r', ¬ Policy.admits (tcp_to "example.com" 443) "v1" None r') l1.
Proof.
  apply (validate_tunnel_refines_policy (tcp_to "example.com" 443) "v1" None
           (mkRules [toy_rule 80; toy_rule 443]) (toy_rule 443)).
  - intros [? [=]].
  - vm_compute. reflexivity.
Defined.

(** Example 3 of [restrictions.yaml]: socks5 only. *)
Definition socks5_only : AllowReverseTunnelConfig :=
  mkAllowReverse [Socks5R] [mkRange 1080 1443] ∅ [] (ToyAny : @Regex toy_regex_api).

Lemma unix_escapes_protocol_list_witness :
  validate_tunnel (mkRemote (ReverseUnix "/var/run/x.sock") (Domain "h") 1) "v1" None
    (mkRules [mkRestriction "example 3" [AnyMatch] [ReverseTunnel socks5_only]])
  = Some (mkRestriction "example 3" [AnyMatch] [ReverseTunnel socks5_only]).
Proof.
  apply (unix_escapes_protocol_list "/var/run/x.sock" (Domain "h") 1 "v1" None "example 3" [AnyMatch]
           socks5_only).
  - by repeat constructor.
  - vm_compute. reflexivity.
  - intros [[=]|[=]%list_elem_of_singleton].
Defined.

Lemma port_range_roundtrip_witness :
  deserialize_port_range ["80..443"; "8080..8080"] = Ok [mkRange 80 443; mkRange 8080 8080].
Proof.
  apply (port_range_roundtrip [mkRange 80 443; mkRange 8080 8080]).
  repeat constructor; vm_compute; discriminate.
Defined.

Lemma port_mapping_roundtrip_witness :
  (λ m, m !! 10001) <$> deserialize_port_mapping ["10001:8080"; "10001:8081"] = Ok (Some 8081).
Proof.
  apply (port_mapping_roundtrip [(10001, 8080); (10001, 8081)] 10001).
  repeat constructor; vm_compute; discriminate.
Defined.
