(* ===== verification/Jwt.v ===== *)
(** * Jwt: tunnel descriptors on the wire, transport addresses

    Models [src/wstunnel/src/tunnel/transport/jwt.rs] (the claims, their construction
    from a [RemoteAddr], encoding, decoding and the way back) and
    [src/wstunnel/src/tunnel/transport/types.rs] (schemes and transport addresses). *)

From Stdlib Require Import ZArith Lia Ascii String.
From stdpp Require Import base gmap strings list countable.
From S2P Require Import Prelude Str Net Apis ApiModels.

#[local] Open Scope stdpp_scope.

Definition JWT_HEADER_PREFIX : string := "authorization.bearer.".

Record JwtTunnelConfig := mkJwt {
  jwt_id : string;
  jwt_p : LocalProtocol;
  jwt_r : string;
  jwt_rp : Z
}.

#[global] Instance JwtTunnelConfig_eq : EqDecision JwtTunnelConfig.
Proof. solve_decision. Defined.

Section Jwt.
Context `{UuidApi, HostApi, JwtApi JwtTunnelConfig}.

(** [JwtTunnelConfig::new]: the protocols that only exist on the client's side are
    [unreachable!]. *)
Definition jwt_config_new {E} (request_id : Uuid) (dest : RemoteAddr)
    : outcome E JwtTunnelConfig :=
  p ← match protocol dest with
      | Tcp _ => mret (protocol dest)
      | Udp _ => mret (protocol dest)
      | ReverseTcp => mret (protocol dest)
      | ReverseUdp _ => mret (protocol dest)
      | ReverseSocks5 _ _ => mret (protocol dest)
      | ReverseUnix _ => mret (protocol dest)
      | ReverseHttpProxy _ _ => mret (protocol dest)
      | TProxyTcp => Panic
      | TProxyUdp _ => Panic
      | Stdio _ => Panic
      | TunnelStdio _ _ => mret (protocol dest)
      | Unix _ _ => Panic
      | Socks5 _ _ => Panic
      | HttpProxy _ _ _ => Panic
      end;
  mret (mkJwt (uuid_to_string request_id) p (host_to_string (host dest)) (port dest)).

(** [encode(..).unwrap_or_default()]. *)
Definition tunnel_to_jwt_token {E} (request_id : Uuid) (tunnel : RemoteAddr)
    : outcome E string :=
  cfg ← jwt_config_new request_id tunnel;
  mret (default "" (jwt_encode cfg)).

Definition jwt_token_to_tunnel (token : string) : outcome string JwtTunnelConfig :=
  ok_or "jwt" (jwt_decode token).

(** [RemoteAddr::try_from(JwtTunnelConfig)]. *)
Definition remote_try_from (jwt : JwtTunnelConfig) : outcome string RemoteAddr :=
  h ← ok_or "host" (host_parse (jwt_r jwt));
  mret (mkRemote (jwt_p jwt) h (jwt_rp jwt)).
End Jwt.

(** ** Schemes and transport addresses *)

Inductive TransportScheme := Ws | Wss | Http | Https.

#[global] Instance TransportScheme_eq : EqDecision TransportScheme.
Proof. solve_decision. Defined.

Definition scheme_values : list TransportScheme := [Ws; Wss; Http; Https].

Definition scheme_to_str (s : TransportScheme) : string :=
  match s with Ws => "ws" | Wss => "wss" | Http => "http" | Https => "https" end.

Definition alpn_protocols (s : TransportScheme) : list string :=
  match s with Ws => [] | Wss => ["http/1.1"] | Http => [] | Https => ["h2"] end.

Definition scheme_from_str (s : string) : outcome unit TransportScheme :=
  if String.eqb s "https" then Ok Https
  else if String.eqb s "http" then Ok Http
  else if String.eqb s "wss" then Ok Wss
  else if String.eqb s "ws" then Ok Ws
  else Err tt.

(** [T] is the TLS client configuration. *)
Inductive TransportAddr (T : Type) :=
| AddrWss (tls : T) (scheme : TransportScheme) (host : Host) (port : Z)
| AddrWs (scheme : TransportScheme) (host : Host) (port : Z)
| AddrHttps (scheme : TransportScheme) (tls : T) (host : Host) (port : Z)
| AddrHttp (scheme : TransportScheme) (host : Host) (port : Z).
Arguments AddrWss {T}.
Arguments AddrWs {T}.
Arguments AddrHttps {T}.
Arguments AddrHttp {T}.

Section TransportAddr.
Context {T : Type}.

Definition transport_addr_new (scheme : TransportScheme) (host : Host) (port : Z)
    (tls : option T) : option (TransportAddr T) :=
  match scheme with
  | Https => tls ← tls; Some (AddrHttps Https tls host port)
  | Http => Some (AddrHttp Http host port)
  | Wss => tls ← tls; Some (AddrWss tls Wss host port)
  | Ws => Some (AddrWs Ws host port)
  end.

Definition addr_tls (a : TransportAddr T) : option T :=
  match a with
  | AddrWss tls _ _ _ => Some tls
  | AddrHttps _ tls _ _ => Some tls
  | AddrWs _ _ _ => None
  | AddrHttp _ _ _ => None
  end.

Definition addr_host (a : TransportAddr T) : Host :=
  match a with
  | AddrWss _ _ host _ | AddrWs _ host _ | AddrHttps _ _ host _ | AddrHttp _ host _ => host
  end.

Definition addr_port (a : TransportAddr T) : Z :=
  match a with
  | AddrWss _ _ _ port | AddrWs _ _ port | AddrHttps _ _ _ port | AddrHttp _ _ port => port
  end.

Definition addr_scheme (a : TransportAddr T) : TransportScheme :=
  match a with
  | AddrWss _ scheme _ _ | AddrWs scheme _ _ | AddrHttps scheme _ _ _ | AddrHttp scheme _ _ =>
      scheme
  end.

(** Whether the scheme runs over TLS. *)
Definition scheme_is_tls (s : TransportScheme) : bool :=
  match s with Wss | Https => true | Ws | Http => false end.

Lemma scheme_roundtrip s : scheme_from_str (scheme_to_str s) = Ok s.
Proof. by destruct s. Qed.

Lemma transport_addr_new_Some scheme host port tls a :
  transport_addr_new scheme host port tls = Some a →
  addr_scheme a = scheme ∧ addr_host a = host ∧ addr_port a = port
  ∧ addr_tls a = if scheme_is_tls scheme then tls else None.
Proof. destruct scheme, tls; naive_solver. Qed.

Lemma transport_addr_new_None scheme host port tls :
  transport_addr_new scheme host port tls = None ↔ scheme_is_tls scheme = true ∧ tls = None.
Proof. destruct scheme, tls; naive_solver. Qed.
End TransportAddr.

(** ** Lemmas on tokens *)

(** The protocols a tunnel request can carry. *)
Definition wire_protocol (p : LocalProtocol) : bool :=
  match p with
  | TProxyTcp | TProxyUdp _ | Stdio _ | Unix _ _ | Socks5 _ _ | HttpProxy _ _ _ => false
  | _ => true
  end.

Section JwtLemmas.
Context `{UuidApi, HostApi, JwtApi JwtTunnelConfig}.

Lemma jwt_config_new_eq {E} id dest :
  jwt_config_new (E := E) id dest =
  if wire_protocol (protocol dest)
  then Ok (mkJwt (uuid_to_string id) (protocol dest) (host_to_string (host dest)) (port dest))
  else Panic.
Proof. unfold jwt_config_new. by destruct (protocol dest). Qed.

Lemma wire_protocol_reverse p : is_reverse_tunnel p = true → wire_protocol p = true.
Proof. by destruct p. Qed.
End JwtLemmas.

Section JwtProperties.
Context `{UuidApi, HostLaws, JwtLaws JwtTunnelConfig}.

(** The claims of a destination decode to it, provided its host is one that parsing
    produces. *)
Lemma remote_try_from_claims id dest s :
  host_parse s = Some (host dest) →
  remote_try_from (mkJwt id (protocol dest) (host_to_string (host dest)) (port dest)) = Ok dest.
Proof.
  intros Hh. unfold remote_try_from. cbn. rewrite (host_reparse _ _ Hh). by destruct dest.
Qed.

(** Building a token aborts the process exactly for the protocols that only exist on
    the client's side (tproxy, stdio, unix, socks5, http proxy); for every other
    protocol it returns a string. *)
Theorem tunnel_to_jwt_token_panics_iff {E} id dest :
  tunnel_to_jwt_token (E := E) id dest = Panic ↔ wire_protocol (protocol dest) = false.
Proof.
  unfold tunnel_to_jwt_token. rewrite jwt_config_new_eq. by destruct (wire_protocol _).
Qed.
End JwtProperties.

(** ** A concrete token format, for evaluation *)

Definition protocol_code (p : LocalProtocol)
    : Z * bool * option Duration * option (string * string) * string :=
  match p with
  | Tcp b => (0, b, None, None, "")
  | Udp t => (1, false, t, None, "")
  | Stdio b => (2, b, None, None, "")
  | TunnelStdio b t => (3, b, t, None, "")
  | Socks5 t c => (4, false, t, c, "")
  | TProxyTcp => (5, false, None, None, "")
  | TProxyUdp t => (6, false, t, None, "")
  | HttpProxy t c b => (7, b, t, c, "")
  | ReverseTcp => (8, false, None, None, "")
  | ReverseUdp t => (9, false, t, None, "")
  | ReverseSocks5 t c => (10, false, t, c, "")
  | ReverseHttpProxy t c => (11, false, t, c, "")
  | ReverseUnix p => (12, false, None, None, p)
  | Unix p b => (13, b, None, None, p)
  end.

Definition protocol_uncode (x : Z * bool * option Duration * option (string * string) * string)
    : LocalProtocol :=
  let '(n, b, t, c, p) := x in
  nth (Z.to_nat n)
    [Tcp b; Udp t; Stdio b; TunnelStdio b t; Socks5 t c; TProxyTcp; TProxyUdp t;
     HttpProxy t c b; ReverseTcp; ReverseUdp t; ReverseSocks5 t c; ReverseHttpProxy t c;
     ReverseUnix p; Unix p b] TProxyTcp.

#[global] Instance LocalProtocol_countable : Countable LocalProtocol.
Proof. apply (inj_countable' protocol_code protocol_uncode). by intros []. Defined.

#[global] Instance JwtTunnelConfig_countable : Countable JwtTunnelConfig.
Proof.
  apply (inj_countable' (λ c, (jwt_id c, jwt_p c, jwt_r c, jwt_rp c))
                        (λ '(a, b, c, d), mkJwt a b c d)).
  by intros [].
Defined.

#[global] Instance toy_jwt : JwtApi JwtTunnelConfig := toy_jwt_api JwtTunnelConfig.
#[global] Instance toy_jwt_ok : JwtLaws JwtTunnelConfig := toy_jwt_laws JwtTunnelConfig.
