(* ===== verification/Request.v ===== *)
(** * Request: the tunnel request, from the client to the server

    The client's side: [headers_from_file] ([tunnel/transport/mod.rs]) and the upgrade
    requests built by [connect] in [tunnel/transport/websocket.rs] and
    [tunnel/transport/http2.rs].  The server's side: the extractors of
    [tunnel/server/utils.rs] ([extract_path_prefix], [extract_tunnel_info],
    [extract_authorization], [extract_x_forwarded_for], [inject_cookie]).  The theorems
    show that the server reads back what the client asked for. *)

From Stdlib Require Import ZArith Lia Ascii String.
From stdpp Require Import base gmap strings list.
From S2P Require Import Prelude Str Net Apis ApiModels Jwt.

#[local] Open Scope stdpp_scope.

Definition AUTHORIZATION : HeaderName := "authorization".
Definition COOKIE : HeaderName := "cookie".
Definition HOST : HeaderName := "host".
Definition UPGRADE : HeaderName := "upgrade".
Definition CONNECTION : HeaderName := "connection".
Definition CONTENT_TYPE : HeaderName := "content-type".
Definition SEC_WEBSOCKET_KEY : HeaderName := "sec-websocket-key".
Definition SEC_WEBSOCKET_VERSION : HeaderName := "sec-websocket-version".
Definition SEC_WEBSOCKET_PROTOCOL : HeaderName := "sec-websocket-protocol".
Definition X_FORWARDED_FOR : HeaderName := "x-forwarded-for".

Inductive Version := HTTP_10 | HTTP_11 | HTTP_2.

Section Data.
Context `{HttpApi}.

Record Request := mkRequest {
  req_method : string;
  req_uri : Uri;
  req_version : Version;
  req_headers : HeaderMap
}.

(** [WsClientConfig], less the resolver and the socket options that only the
    connection code uses.  [http_headers] lists the hash map in iteration order. *)
Record WsClientConfig {T : Type} := mkClientConfig {
  remote_addr : TransportAddr T;
  http_upgrade_path_prefix : string;
  http_upgrade_credentials : option HeaderValue;
  http_headers : list (HeaderName * HeaderValue);
  http_headers_file : option PathBuf;
  http_header_host : HeaderValue;
  timeout_connect : Duration;
  websocket_ping_frequency : option Duration;
  websocket_mask_frame : bool
}.
End Data.
Arguments WsClientConfig {_} T.
Arguments mkClientConfig {_ T}.

(** ** Client *)

Section Client.
Context `{UuidApi, HostApi, HttpApi, JwtApi JwtTunnelConfig}.
Context {T : Type}.

(** What [File::open] and [BufRead::lines] give for a path: [None] if it cannot be
    opened, otherwise its lines, each possibly unreadable. *)
Context (files : PathBuf → option (list (option string))).

(** The body of the [filter_map]: [inl] is the host header, [inr] another header. *)
Definition header_line (line : option string)
    : option (HeaderName * HeaderValue) :=
  line ← line;
  '(header, value) ← split_once_char ":" line;
  header ← header_name_from_str (trim header);
  value ← hv_from_str (trim value);
  Some (header, value).

(** The last host header of the file and the other headers in order. *)
Fixpoint scan_headers (lines : list (option string))
    : option (HeaderName * HeaderValue) * list (HeaderName * HeaderValue) :=
  match lines with
  | [] => (None, [])
  | line :: lines =>
      let '(host, headers) := scan_headers lines in
      match header_line line with
      | None => (host, headers)
      | Some (h, v) =>
          if String.eqb h HOST
          then (match host with Some x => Some x | None => Some (h, v) end, headers)
          else (host, (h, v) :: headers)
      end
  end.

Definition headers_from_file (path : PathBuf)
    : option (HeaderName * HeaderValue) * list (HeaderName * HeaderValue) :=
  match files path with
  | None => (None, [])
  | Some lines => scan_headers lines
  end.

(** [headers.remove(k); headers.append(k, v)]. *)
Definition set_header (m : HeaderMap) (kv : HeaderName * HeaderValue) : HeaderMap :=
  hm_append (fst kv) (snd kv) (hm_remove (fst kv) m).
Definition set_headers (kvs : list (HeaderName * HeaderValue)) (m : HeaderMap) : HeaderMap :=
  fold_left set_header kvs m.

(** [request::Builder]: a bad part makes [headers_mut] return [None]. *)
Definition builder_header (k : HeaderName) (v : option HeaderValue) (b : option HeaderMap)
    : option HeaderMap :=
  m ← b; v ← v; Some (hm_append k v m).

Definition credentials_header (cfg : WsClientConfig T) : list (HeaderName * HeaderValue) :=
  match http_upgrade_credentials cfg with Some auth => [(AUTHORIZATION, auth)] | None => [] end.

Definition host_header (host : option (HeaderName * HeaderValue))
    : list (HeaderName * HeaderValue) :=
  match host with Some hv => [hv] | None => [] end.

(** The headers set over the ones of the builder, in the order of the websocket
    [connect]. *)
Definition ws_custom_headers (cfg : WsClientConfig T) : list (HeaderName * HeaderValue) :=
  http_headers cfg ++ credentials_header cfg ++
  match http_headers_file cfg with
  | None => []
  | Some path => let '(host, headers) := headers_from_file path in headers ++ host_header host
  end.

(** The request of [websocket::connect]; [key] is the generated handshake key. *)
Definition ws_upgrade_request (cfg : WsClientConfig T) (key : string) (request_id : Uuid)
    (dest_addr : RemoteAddr) : outcome string Request :=
  token ← tunnel_to_jwt_token request_id dest_addr;
  let headers :=
    builder_header SEC_WEBSOCKET_PROTOCOL
      (hv_from_str ("v1, " +:+ JWT_HEADER_PREFIX +:+ token))
    (builder_header SEC_WEBSOCKET_VERSION (hv_from_str "13")
    (builder_header SEC_WEBSOCKET_KEY (hv_from_str key)
    (builder_header CONNECTION (hv_from_str "upgrade")
    (builder_header UPGRADE (hv_from_str "websocket")
    (builder_header HOST (Some (http_header_host cfg)) (Some hm_empty)))))) in
  match uri_parse ("/" +:+ http_upgrade_path_prefix cfg +:+ "/events"), headers with
  | Some uri, Some headers =>
      Ok (mkRequest "GET" uri HTTP_11 (set_headers (ws_custom_headers cfg) headers))
  | _, _ => Err "failed to build HTTP request to contact the server"
  end.

(** The authority that a host header of the file gives the http2 request. *)
Definition http2_authority (cfg : WsClientConfig T) (host : option (HeaderName * HeaderValue))
    : option string :=
  match host with
  | None => None
  | Some (_, v) =>
      let v := default "" (hv_to_str v) in
      if (bool_decide (addr_scheme (remote_addr cfg) = Http) && (addr_port (remote_addr cfg) =? 80))
         || (bool_decide (addr_scheme (remote_addr cfg) = Https)
             && (addr_port (remote_addr cfg) =? 443))
      then Some v
      else Some (v +:+ ":" +:+ show (addr_port (remote_addr cfg)))
  end.

(** The headers of the file and the authority of the request's target. *)
Definition http2_file_headers (cfg : WsClientConfig T) : list (HeaderName * HeaderValue) :=
  match http_headers_file cfg with
  | None => []
  | Some path => snd (headers_from_file path)
  end.

Definition http2_target (cfg : WsClientConfig T) : string :=
  default (default "" (hv_to_str (http_header_host cfg)))
    match http_headers_file cfg with
    | None => None
    | Some path => http2_authority cfg (fst (headers_from_file path))
    end.

Definition http2_custom_headers (cfg : WsClientConfig T) : list (HeaderName * HeaderValue) :=
  http_headers cfg ++ credentials_header cfg ++ http2_file_headers cfg.

(** The request of [http2::connect]: the host header of the file is the authority. *)
Definition http2_request (cfg : WsClientConfig T) (request_id : Uuid) (dest_addr : RemoteAddr)
    : outcome string Request :=
  token ← tunnel_to_jwt_token request_id dest_addr;
  let uri := scheme_to_str (addr_scheme (remote_addr cfg)) +:+ "://" +:+ http2_target cfg +:+
    "/" +:+ http_upgrade_path_prefix cfg +:+ "/events" in
  let headers :=
    builder_header CONTENT_TYPE (hv_from_str "application/json")
    (builder_header COOKIE (hv_from_str token) (Some hm_empty)) in
  match uri_parse uri, headers with
  | Some uri, Some headers =>
      Ok (mkRequest "POST" uri HTTP_2 (set_headers (http2_custom_headers cfg) headers))
  | _, _ => Err "failed to build HTTP request to contact the server"
  end.
End Client.

(** ** Server *)

Inductive PathPrefixErr := BadPathPrefix | BadUpgradeRequest.

(** [path[1..]] after a test that the path starts with a slash. *)
Definition extract_path_prefix (path : string) : outcome PathPrefixErr string :=
  match strip_prefix "/" path with
  | None => Err BadPathPrefix
  | Some rest =>
      match split_once_char "/" rest with
      | None => Err BadUpgradeRequest
      | Some (l, r) => if ends_with "events" r then Ok l else Err BadUpgradeRequest
      end
  end.

Section Server.
Context `{UuidApi, HostApi, HttpApi, JwtApi JwtTunnelConfig}.

Definition extract_authorization (req : Request) : option string :=
  v ← hm_get (req_headers req) AUTHORIZATION; hv_to_str v.

Definition extract_x_forwarded_for (req : Request) : option (IpAddr * string) :=
  v ← hm_get (req_headers req) X_FORWARDED_FOR;
  let v := default "" (hv_to_str v) in
  let v := match split_once_char "," v with Some (l, _) => l | None => v end in
  ip ← ipaddr_from_str v;
  Some (ip, v).

Definition extract_tunnel_info (req : Request) : outcome string JwtTunnelConfig :=
  let jwt := default ""
    match (header ← hm_get (req_headers req) SEC_WEBSOCKET_PROTOCOL;
           header ← hv_to_str header;
           '(_, jwt) ← split_once JWT_HEADER_PREFIX header;
           Some jwt) with
    | Some jwt => Some jwt
    | None => header ← hm_get (req_headers req) COOKIE; hv_to_str header
    end in
  jwt_token_to_tunnel jwt.

(** The response headers after [inject_cookie]. *)
Definition inject_cookie (headers : HeaderMap) (remote_addr : RemoteAddr)
    : outcome unit HeaderMap :=
  token ← tunnel_to_jwt_token (uuid_from_u128 0) remote_addr;
  match hv_from_str token with
  | None => Err tt
  | Some v => Ok (hm_insert COOKIE v headers)
  end.
End Server.

(** ** Lemmas *)

Section Lemmas.
Context `{UuidApi, HostLaws, HttpLaws, JwtLaws JwtTunnelConfig}.

Lemma hm_get_set_headers kvs m k :
  hm_get (set_headers kvs m) k =
  match find (λ kv, bool_decide (fst kv = k)) (rev kvs) with
  | Some kv => Some (snd kv)
  | None => hm_get m k
  end.
Proof.
  pose (hit := λ (kv : HeaderName * HeaderValue) (k : HeaderName), bool_decide (fst kv = k)).
  apply (fold_update_get hm_get _ hit (λ kv, Some (snd kv))). unfold hit. intros m' [a v] k'. unfold set_header. cbn.
  rewrite hm_get_append, !hm_get_remove. rewrite (decide_True (P := a = a)) by done.
  by case_decide; case_bool_decide.
Qed.

Lemma hm_get_set_headers_ne kvs m k :
  k ∉ kvs.*1 → hm_get (set_headers kvs m) k = hm_get m k.
Proof.
  intros Hk. rewrite hm_get_set_headers.
  destruct (find _ (rev kvs)) as [kv|] eqn:E; [|done]. exfalso.
  apply find_Some in E as (l1&l2&Heq&Hp&_). apply bool_decide_eq_true in Hp.
  apply Hk. rewrite <-Hp. apply list_elem_of_fmap_2. apply list_elem_of_In, in_rev.
  rewrite Heq. apply list_elem_of_In. set_solver.
Qed.

Lemma builder_header_Some k v b m :
  builder_header k v b = Some m →
  ∃ m0 v0, b = Some m0 ∧ v = Some v0 ∧ m = hm_append k v0 m0.
Proof. unfold builder_header. destruct b, v; naive_solver. Qed.

Lemma token_Ok {E} id dest t :
  tunnel_to_jwt_token (E := E) id dest = Ok t → t ≠ "" →
  jwt_decode t =
    Some (mkJwt (uuid_to_string id) (protocol dest) (host_to_string (host dest)) (port dest)).
Proof.
  unfold tunnel_to_jwt_token. rewrite jwt_config_new_eq.
  destruct (wire_protocol _); [|done]. cbn. intros [= <-] Hne.
  destruct (jwt_encode _) eqn:He; [|done]. by apply jwt_decode_encode.
Qed.

Lemma token_visible {E} id dest t :
  tunnel_to_jwt_token (E := E) id dest = Ok t → visible t = true.
Proof.
  unfold tunnel_to_jwt_token. rewrite jwt_config_new_eq.
  destruct (wire_protocol _); [|done]. cbn. intros [= <-].
  destruct (jwt_encode _) eqn:He; [|done]. by eapply jwt_visible.
Qed.

Lemma visible_app s t : visible (s +:+ t) = visible s && visible t.
Proof. unfold visible. by rewrite bytes_app, forallb_app. Qed.

Lemma extract_path_prefix_Ok path l :
  extract_path_prefix path = Ok l ↔
  ∃ r, path = "/" +:+ l +:+ "/" +:+ r +:+ "events" ∧ contains_char "/" l = false.
Proof.
  unfold extract_path_prefix. split.
  - destruct (strip_prefix "/" path) as [rest|] eqn:E1; [|done].
    apply strip_prefix_Some in E1 as ->.
    destruct (split_once_char "/" rest) as [[a b]|] eqn:E2; [|done].
    apply split_once_char_Some in E2 as [-> Ha].
    destruct (ends_with "events" b) eqn:E3; [|done].
    apply ends_with_true in E3 as [r ->]. intros [= <-]. by exists r.
  - intros (r&->&Hl). rewrite strip_prefix_app.
    rewrite (proj2 (split_once_char_Some "/" _ l (r +:+ "events"))) by done.
    by rewrite (proj2 (ends_with_true _ _)) by eauto.
Qed.
End Lemmas.

(** ** Properties *)

Section Properties.

(** [extract_path_prefix] accepts exactly the paths [/<prefix>/...events], and the
    prefix it returns is the first segment: it never contains a slash. *)
Theorem extract_path_prefix_spec path l :
  extract_path_prefix path = Ok l ↔
  ∃ r, path = "/" +:+ l +:+ "/" +:+ r +:+ "events" ∧ contains_char "/" l = false.
Proof. apply extract_path_prefix_Ok. Qed.

Context `{UuidApi, HostLaws, HttpLaws, JwtLaws JwtTunnelConfig}.
Context {T : Type} (files : PathBuf → option (list (option string))).
Implicit Types (cfg : WsClientConfig T).

Lemma events_path_extract p :
  contains_char "/" p = false → extract_path_prefix ("/" +:+ p +:+ "/events") = Ok p.
Proof. intros Hp. apply extract_path_prefix_Ok. by exists "". Qed.

Lemma path_safe_app p q : path_safe (p +:+ q) = path_safe p && path_safe q.
Proof. unfold path_safe. by rewrite bytes_app, forallb_app. Qed.

(** What the server reads from the upgrade request of a client. *)
Lemma ws_request_reads cfg key id dest s req token :
  path_safe (http_upgrade_path_prefix cfg) = true →
  contains_char "/" (http_upgrade_path_prefix cfg) = false →
  SEC_WEBSOCKET_PROTOCOL ∉ (ws_custom_headers files cfg).*1 →
  host_parse s = Some (host dest) →
  tunnel_to_jwt_token (E := string) id dest = Ok token → token ≠ "" →
  ws_upgrade_request files cfg key id dest = Ok req →
  extract_path_prefix (uri_path (req_uri req)) = Ok (http_upgrade_path_prefix cfg) ∧
  ∃ claims, extract_tunnel_info req = Ok claims ∧ jwt_id claims = uuid_to_string id
    ∧ remote_try_from claims = Ok dest.
Proof.
  intros Hsafe Hslash Hfresh Hhost Htok Hne. unfold ws_upgrade_request. rewrite Htok. cbn [mbind outcome_bind].
  destruct (uri_origin (http_upgrade_path_prefix cfg +:+ "/events")) as (u&Hu&Hpath).
  { by rewrite path_safe_app, Hsafe. }
  rewrite Hu. destruct (builder_header SEC_WEBSOCKET_PROTOCOL _ _) as [m|] eqn:Hm; [|done].
  intros [= <-]. split; [by cbn [req_uri]; rewrite Hpath; apply events_path_extract|].
  apply builder_header_Some in Hm as (m0&v&Hm0&Hv&->).
  apply hv_str in Hv; [|by rewrite !visible_app, (token_visible _ _ _ Htok)].
  assert (hm_get m0 SEC_WEBSOCKET_PROTOCOL = None) as Hnone.
  { repeat (apply builder_header_Some in Hm0 as (?&?&Hm0&_&->);
      rewrite hm_get_append, decide_False by done). simplify_eq. apply hm_get_empty. }
  unfold extract_tunnel_info. cbn [req_headers]. rewrite hm_get_set_headers_ne by done.
  rewrite hm_get_append, decide_True, Hnone by done. cbn -[String.append]. rewrite Hv.
  cbn -[String.append split_once]. unfold JWT_HEADER_PREFIX.
  rewrite split_once_fresh by by repeat constructor. cbn.
  unfold jwt_token_to_tunnel. rewrite (token_Ok _ _ _ Htok Hne). cbn.
  eexists. split; [done|]. split; [done|]. by apply (remote_try_from_claims _ _ s).
Qed.

(** C8: Websocket handshake, end to end: the server reads from the client's upgrade
    request the path prefix of the client's configuration, the request identifier and
    the destination, whatever the custom headers are, as long as none of them replaces
    [Sec-WebSocket-Protocol]. *)
Theorem ws_handshake_roundtrip cfg key id dest s req token :
  path_safe (http_upgrade_path_prefix cfg) = true →
  contains_char "/" (http_upgrade_path_prefix cfg) = false →
  SEC_WEBSOCKET_PROTOCOL ∉ (ws_custom_headers files cfg).*1 →
  host_parse s = Some (host dest) →
  tunnel_to_jwt_token (E := string) id dest = Ok token → token ≠ "" →
  ws_upgrade_request files cfg key id dest = Ok req →
  extract_path_prefix (uri_path (req_uri req)) = Ok (http_upgrade_path_prefix cfg) ∧
  ∃ claims, extract_tunnel_info req = Ok claims ∧ jwt_id claims = uuid_to_string id
    ∧ remote_try_from claims = Ok dest.
Proof. apply ws_request_reads. Qed.

Lemma http2_request_reads cfg id dest s req token :
  addr_scheme (remote_addr cfg) = Http ∨ addr_scheme (remote_addr cfg) = Https →
  path_safe (http_upgrade_path_prefix cfg) = true →
  contains_char "/" (http_upgrade_path_prefix cfg) = false →
  http2_target files cfg ≠ "" →
  (∀ c, c ∈ ["/"; "?"; "#"]%char → contains_char c (http2_target files cfg) = false) →
  COOKIE ∉ (http2_custom_headers files cfg).*1 →
  SEC_WEBSOCKET_PROTOCOL ∉ (http2_custom_headers files cfg).*1 →
  host_parse s = Some (host dest) →
  tunnel_to_jwt_token (E := string) id dest = Ok token → token ≠ "" →
  http2_request files cfg id dest = Ok req →
  extract_path_prefix (uri_path (req_uri req)) = Ok (http_upgrade_path_prefix cfg) ∧
  ∃ claims, extract_tunnel_info req = Ok claims ∧ jwt_id claims = uuid_to_string id
    ∧ remote_try_from claims = Ok dest.
Proof.
  intros Hscheme Hsafe Hslash Hauth Hchars Hfresh Hfresh2 Hhost Htok Hne.
  unfold http2_request. rewrite Htok. cbn [mbind outcome_bind].
  destruct (uri_parse _) as [u|] eqn:Hu; [|done].
  apply uri_absolute in Hu; [|by rewrite path_safe_app, Hsafe|done|done|].
  2: { by destruct Hscheme as [-> | ->]; [left|right]. }
  destruct (builder_header CONTENT_TYPE _ _) as [m|] eqn:Hm; [|done].
  intros [= <-]. split; [by cbn [req_uri]; rewrite Hu; apply events_path_extract|].
  apply builder_header_Some in Hm as (m0&ct&Hm0&_&->).
  apply builder_header_Some in Hm0 as (m1&v&[= <-]&Hv&->).
  apply hv_str in Hv; [|by apply (token_visible _ _ _ Htok)].
  unfold extract_tunnel_info. cbn [req_headers]. rewrite !hm_get_set_headers_ne by done.
  rewrite !hm_get_append, !hm_get_empty.
  repeat first [rewrite decide_False by done | rewrite decide_True by done].
  cbn. rewrite Hv. cbn.
  unfold jwt_token_to_tunnel. rewrite (token_Ok _ _ _ Htok Hne). cbn.
  eexists. split; [done|]. split; [done|]. by apply (remote_try_from_claims _ _ s).
Qed.

(** Http2 handshake, end to end: the same through the [Cookie] header, as long as no
    custom header replaces it or adds a [Sec-WebSocket-Protocol]. *)
Theorem http2_handshake_roundtrip cfg id dest s req token :
  addr_scheme (remote_addr cfg) = Http ∨ addr_scheme (remote_addr cfg) = Https →
  path_safe (http_upgrade_path_prefix cfg) = true →
  contains_char "/" (http_upgrade_path_prefix cfg) = false →
  http2_target files cfg ≠ "" →
  (∀ c, c ∈ ["/"; "?"; "#"]%char → contains_char c (http2_target files cfg) = false) →
  COOKIE ∉ (http2_custom_headers files cfg).*1 →
  SEC_WEBSOCKET_PROTOCOL ∉ (http2_custom_headers files cfg).*1 →
  host_parse s = Some (host dest) →
  tunnel_to_jwt_token (E := string) id dest = Ok token → token ≠ "" →
  http2_request files cfg id dest = Ok req →
  extract_path_prefix (uri_path (req_uri req)) = Ok (http_upgrade_path_prefix cfg) ∧
  ∃ claims, extract_tunnel_info req = Ok claims ∧ jwt_id claims = uuid_to_string id
    ∧ remote_try_from claims = Ok dest.
Proof. apply http2_request_reads. Qed.

(** The credentials header of the configuration reaches the server's
    [extract_authorization] over both transports, unless the headers file sets one. *)
Theorem authorization_reaches_server cfg key id dest auth req :
  http_upgrade_credentials cfg = Some auth →
  http_headers_file cfg = None →
  ws_upgrade_request files cfg key id dest = Ok req ∨ http2_request files cfg id dest = Ok req →
  extract_authorization req = hv_to_str auth.
Proof.
  intros Hauth Hfile Hreq.
  assert (∃ m, req_headers req = set_headers (http_headers cfg ++ [(AUTHORIZATION, auth)]) m)
    as [m Hm].
  { destruct Hreq as [Hreq|Hreq]; apply bind_ok_inv in Hreq as (t&_&Hreq); cbv zeta in Hreq;
      (destruct (uri_parse _); [|done]); destruct (builder_header _ _ _) as [m|]; simplify_eq;
      exists m; cbn [req_headers];
      unfold ws_custom_headers, http2_custom_headers, http2_file_headers, credentials_header;
      by rewrite Hauth, Hfile. }
  unfold extract_authorization. rewrite Hm, hm_get_set_headers, rev_app_distr. cbn.
  by rewrite bool_decide_eq_true_2.
Qed.
End Properties.

(** ** Witnesses *)

Definition toy_cfg (scheme : TransportScheme) : WsClientConfig unit :=
  mkClientConfig
    match scheme with
    | Ws | Wss => AddrWs Ws (Domain "server") 80
    | Http | Https => AddrHttp Http (Domain "server") 80
    end
    "v1" (Some ("Basic dTpw" : HeaderValue)) [("x-a", "b" : HeaderValue)] None ("server" : HeaderValue)
    (from_secs 10) None false.

Definition toy_id : @Uuid toy_uuid_api := 7.
Definition toy_dest : RemoteAddr := mkRemote (Tcp false) (Domain "google.com") 443.
Definition toy_files : PathBuf → option (list (option string)) := λ _, None.

Lemma ws_handshake_roundtrip_witness :
  ∃ req, ws_upgrade_request toy_files (toy_cfg Ws) "key" toy_id toy_dest = Ok req ∧
    extract_path_prefix (uri_path (req_uri req)) = Ok "v1".
Proof.
  eexists. split; [reflexivity|].
  eapply (ws_handshake_roundtrip toy_files (toy_cfg Ws) "key" toy_id toy_dest "google.com");
    try reflexivity; [|discriminate].
  cbn. set_solver by discriminate.
Defined.

Lemma http2_handshake_roundtrip_witness :
  ∃ req, http2_request toy_files (toy_cfg Http) toy_id toy_dest = Ok req ∧
    extract_path_prefix (uri_path (req_uri req)) = Ok "v1".
Proof.
  eexists. split; [reflexivity|].
  eapply (http2_handshake_roundtrip toy_files (toy_cfg Http) toy_id toy_dest "google.com");
    try reflexivity; try discriminate.
  - by left.
  - intros c Hc. cbn in Hc |- *. repeat (apply elem_of_cons in Hc as [->|Hc]; [reflexivity|]).
    by apply elem_of_nil in Hc.
  - cbn. set_solver by discriminate.
  - cbn. set_solver by discriminate.
Defined.

Lemma authorization_reaches_server_witness :
  ∃ req, http2_request toy_files (toy_cfg Http) toy_id toy_dest = Ok req ∧
    extract_authorization req = Some "Basic dTpw".
Proof.
  eexists. split; [reflexivity|].
  rewrite (authorization_reaches_server toy_files (toy_cfg Http) "k" toy_id toy_dest
             ("Basic dTpw" : @HeaderValue toy_http_api)); [reflexivity|reflexivity|reflexivity|].
  by right.
Defined.
