(* ===== verification/RateLimiter.v ===== *)
(** * RateLimiter: bandwidth limits shared by the connections of a tunnel

    Models [src/wstunnel/src/tunnel/rate_limiter.rs]: the pool of limiters, the jittered
    chunk size and the limited reader and writer.  The [governor] crate is the class
    [GovernorApi]; its law is the guarantee of the algorithm it documents (GCRA): from the
    start to any later time it grants at most the burst and one cell per replenishment
    interval, which [Quota::per_second] rounds down to whole nanoseconds.

    The pool keeps shared limiters ([Arc]): they are modelled by identifiers into a
    store, so that two connections with the same identifier spend the same quota. *)

From Stdlib Require Import ZArith Lia Ascii String SpecFloat.
From stdpp Require Import base gmap strings list.
From S2P Require Import Prelude Str Net Apis ApiModels.

#[local] Open Scope stdpp_scope.

(** [Quota::per_second(bps).allow_burst(burst)]. *)
Record Quota := mkQuota { quota_bps : Z; quota_burst : Z }.

#[global] Instance Quota_eq : EqDecision Quota.
Proof. solve_decision. Defined.

(** [Quota::replenish_interval]: a second divided by the rate, in whole nanoseconds. *)
Definition replenish_interval (q : Quota) : Duration := NANOS / quota_bps q.

(** [check_n]: not enough capacity ever, not yet (with the time to wait), granted. *)
Inductive CheckResult := InsufficientCapacity | NotUntil (wait : Duration) | Granted.

Class GovernorApi := {
  Limiter : Type;
  limiter_direct : Quota → Z → Limiter;
  check_n : Limiter → Z → Z → CheckResult * Limiter;
}.

(** The amount granted to a sequence of requests (time and amount). *)
Fixpoint granted `{GovernorApi} (l : Limiter) (reqs : list (Z * Z)) : Z :=
  match reqs with
  | [] => 0
  | (now, n) :: reqs =>
      let '(r, l) := check_n l now n in
      match r with Granted => n | _ => 0 end + granted l reqs
  end.

(** The requests are in the order of time, from [t0] to [t]. *)
Fixpoint timed (t0 t : Z) (reqs : list (Z * Z)) : Prop :=
  match reqs with
  | [] => t0 ≤ t
  | (now, n) :: reqs => t0 ≤ now ∧ 0 < n ∧ timed now t reqs
  end.

Class GovernorLaws `{GovernorApi} : Prop := {
  governor_rate q t0 t reqs :
    0 < quota_bps q → 0 < quota_burst q → timed t0 t reqs →
    granted (limiter_direct q t0) reqs * replenish_interval q
      ≤ quota_burst q * replenish_interval q + (t - t0);
}.

(** ** Quotas *)

Definition CHUNK : Z := 16384.
Definition REQUEST_JITTER_PERCENT : Z := 10.

(** Binary64 arithmetic for the burst: [x as f64 * 1.2] and [as u32], which truncates
    and saturates. *)
Definition f64_of_Z (x : Z) : spec_float := binary_normalize 53 1024 x 0 false.
Definition f64_mul : spec_float → spec_float → spec_float := SFmul 53 1024.
Definition F64_1_2 : spec_float := S754_finite false 5404319552844595 (-52).
Definition f64_as_u32 (f : spec_float) : Z :=
  match f with
  | S754_zero _ | S754_nan | S754_infinity true => 0
  | S754_infinity false => U32_MAX
  | S754_finite true _ _ => 0
  | S754_finite false m e => Z.min U32_MAX (Z.shiftl (Zpos m) e)
  end.

(** [build_limiter] for a rate in MiB/s; [NonZeroU32::new(..).unwrap()] cannot fail. *)
Definition build_quota (v : Z) : Quota :=
  let bytes_per_sec := v * 1024 * 1024 in
  let bps := Z.max (wrap 32 bytes_per_sec) 1 in
  let burst := Z.max (f64_as_u32 (f64_mul (f64_of_Z bytes_per_sec) F64_1_2)) 1 in
  mkQuota bps burst.

(** ** The pool *)

Record DirectionalLimiters := mkLimiters { dl_read : option nat; dl_write : option nat }.

Section Pool.
Context `{UuidApi, GovernorApi}.

(** [store] holds the shared limiters, [next] is above every identifier in use. *)
Record RateLimiterPool := mkPool {
  limiters : gmap Uuid DirectionalLimiters;
  store : gmap nat (Quota * Limiter);
  next : nat
}.

Definition pool_new : RateLimiterPool := mkPool ∅ ∅ 0.

Definition build_limiter (now : Z) (m : option Z) (p : RateLimiterPool)
    : option nat * RateLimiterPool :=
  match m with
  | None => (None, p)
  | Some v =>
      let q := build_quota v in
      (Some (next p),
       mkPool (limiters p) (<[next p := (q, limiter_direct q now)]> (store p)) (S (next p)))
  end.

(** [wrap]: the limiters of the reader and of the writer.  The reader's path carries
    the download. *)
Definition pool_wrap (now : Z) (tunnel_id : Uuid) (upload_m download_m : option Z)
    (p : RateLimiterPool) : (option nat * option nat) * RateLimiterPool :=
  match limiters p !! tunnel_id with
  | Some d => ((dl_read d, dl_write d), p)
  | None =>
      let '(read, p) := build_limiter now download_m p in
      let '(write, p) := build_limiter now upload_m p in
      ((read, write),
       mkPool (<[tunnel_id := mkLimiters read write]> (limiters p)) (store p) (next p))
  end.
End Pool.

(** ** Jitter *)

(** [next_jitter_roll]: the new state of the generator and the roll. *)
Definition next_jitter_roll (cur : Z) : Z * Z :=
  let x := cur in
  let x := Z.lxor x (wrap 64 (Z.shiftl x 13)) in
  let x := Z.lxor x (Z.shiftr x 7) in
  let x := Z.lxor x (wrap 64 (Z.shiftl x 17)) in
  (x, wrap 32 x).

Definition jittered_chunk (base : Z) (jitter : Z) : Z * Z :=
  let base := clamp 1 CHUNK base in
  let span := REQUEST_JITTER_PERCENT * 2 + 1 in
  let '(jitter, roll) := next_jitter_roll jitter in
  let pct := 100 - REQUEST_JITTER_PERCENT + roll mod span in
  let n := wrap 32 (base * pct / 100) in
  (jitter, clamp 1 CHUNK n).

(** The chunk of a poll with [len] bytes of room: [jittered_chunk((len as
    u32).min(CHUNK).max(1)).min(len as u32)]. *)
Definition poll_chunk (len : Z) (jitter : Z) : Z * Z :=
  let '(jitter, n) := jittered_chunk (Z.max (Z.min (wrap 32 len) CHUNK) 1) jitter in
  (jitter, Z.min n (wrap 32 len)).

(** ** The limited reader and writer *)

Section Limited.
Context `{GovernorApi}.

(** What one poll finds: the state of the pending sleep and the time. *)
Record PollEnv := mkEnv { sleep_elapsed : bool; now : Z }.

(** Choose the chunk and ask the limiter: [inl] is the time to sleep, [inr] the number
    of bytes that may go through.  [check_n] takes a [NonZeroU32], hence the panic on a
    chunk of zero bytes. *)
Definition poll_ask (limiter : option Limiter) (env : PollEnv) (jitter len : Z)
    : outcome string (option Limiter * Z * (option Duration + Z)) :=
  let '(jitter, n) := poll_chunk len jitter in
  match limiter with
  | None => Ok (None, jitter, inr n)
  | Some l =>
      if n =? 0 then Panic
      else let '(r, l) := check_n l (now env) n in
           match r with
           | InsufficientCapacity => Ok (Some l, jitter, inl (Some (from_millis 10)))
           | NotUntil wait => Ok (Some l, jitter, inl (Some wait))
           | Granted => Ok (Some l, jitter, inr n)
           end
  end.

(** The common head of [poll_read] and [poll_write]: a sleep that has not elapsed is
    kept, otherwise the limiter is asked. *)
Definition poll_admit (limiter : option Limiter) (sleep : option Duration) (env : PollEnv)
    (jitter len : Z) : outcome string (option Limiter * Z * (option Duration + Z)) :=
  match sleep with
  | Some d => if sleep_elapsed env then poll_ask limiter env jitter len
              else Ok (limiter, jitter, inl (Some d))
  | None => poll_ask limiter env jitter len
  end.

(** [inner.poll_read] on a buffer of [n] bytes: what it filled and its result. *)
Definition InnerRead : Type := Z → string * Poll (outcome string unit).

(** The results: limiter, jitter state, sleep, bytes added to the caller's buffer. *)
Definition limited_poll_read (limiter : option Limiter) (sleep : option Duration)
    (env : PollEnv) (jitter remaining : Z) (inner : InnerRead)
    : outcome string (option Limiter * Z * option Duration * string * Poll (outcome string unit)) :=
  '(limiter, jitter, r) ← poll_admit limiter sleep env jitter remaining;
  match r with
  | inl sleep => Ok (limiter, jitter, sleep, "", Pending)
  | inr n => let '(filled, result) := inner n in Ok (limiter, jitter, None, filled, result)
  end.

(** [inner.poll_write] on a slice: the number of bytes taken. *)
Definition InnerWrite : Type := string → Poll (outcome string Z).

Definition limited_poll_write (limiter : option Limiter) (sleep : option Duration)
    (env : PollEnv) (jitter : Z) (buf : string) (inner : InnerWrite)
    : outcome string (option Limiter * Z * option Duration * Poll (outcome string Z)) :=
  '(limiter, jitter, r) ← poll_admit limiter sleep env jitter (Z.of_nat (String.length buf));
  match r with
  | inl sleep => Ok (limiter, jitter, sleep, Pending)
  | inr n => Ok (limiter, jitter, None, inner (take_str (Z.to_nat n) buf))
  end.
End Limited.

(** ** Chunk sizes *)

Lemma wrap_nonneg_le w x : 0 ≤ w → 0 ≤ x → 0 ≤ wrap w x ≤ x.
Proof.
  intros Hw Hx. unfold wrap. split; [apply Z.mod_pos_bound; by apply Z.pow_pos_nonneg|].
  apply Z.mod_le; [done|by apply Z.pow_pos_nonneg].
Qed.

Lemma jittered_chunk_range base j : 1 ≤ snd (jittered_chunk base j) ≤ CHUNK.
Proof.
  unfold jittered_chunk. destruct (next_jitter_roll j). cbn -[clamp].
  by apply clamp_range.
Qed.

Lemma poll_chunk_range len j :
  0 ≤ len →
  0 ≤ snd (poll_chunk len j) ≤ len ∧ snd (poll_chunk len j) ≤ CHUNK
  ∧ (snd (poll_chunk len j) = 0 ↔ wrap 32 len = 0).
Proof.
  intros Hlen. unfold poll_chunk.
  pose proof (jittered_chunk_range (Z.max (Z.min (wrap 32 len) CHUNK) 1) j) as Hj.
  destruct (jittered_chunk _ j) as [j' n]. cbn in *.
  pose proof (wrap_nonneg_le 32 len ltac:(lia) Hlen). lia.
Qed.

Section Polls.
Context `{GovernorApi}.

(** The poll asks the limiter when it is not waiting for its sleep. *)
Definition waiting (sleep : option Duration) (env : PollEnv) : bool :=
  match sleep with Some _ => negb (sleep_elapsed env) | None => false end.

(** One limited poll: at most one request to the limiter, for a positive amount of at
    most the room of the buffer; what goes through is covered by the grant. *)
Lemma poll_admit_cases l sleep env j len :
  0 ≤ len → wrap 32 len ≠ 0 →
  (waiting sleep env = true ∧ poll_admit (Some l) sleep env j len = Ok (Some l, j, inl sleep))
  ∨ (waiting sleep env = false ∧
     ∃ n j', poll_chunk len j = (j', n) ∧ 0 < n ≤ len ∧ n ≤ CHUNK ∧
       ∃ r, poll_admit (Some l) sleep env j len = Ok (Some (snd (check_n l (now env) n)), j', r)
         ∧ match r with
           | inl s => is_Some s ∧ fst (check_n l (now env) n) ≠ Granted
           | inr n' => n' = n ∧ fst (check_n l (now env) n) = Granted
           end).
Proof.
  intros Hlen Hw.
  pose proof (poll_chunk_range len j Hlen) as (Hn&Hc&H0).
  destruct (poll_chunk len j) as [j' n] eqn:Hpc. cbn in Hn, Hc, H0.
  assert (n ≠ 0) as Hn0 by by rewrite H0. assert ((n =? 0) = false) as Hz by lia.
  assert (∃ r, poll_ask (Some l) env j len = Ok (Some (snd (check_n l (now env) n)), j', r)
         ∧ match r with
           | inl s => is_Some s ∧ fst (check_n l (now env) n) ≠ Granted
           | inr n' => n' = n ∧ fst (check_n l (now env) n) = Granted
           end) as Hask.
  { unfold poll_ask. rewrite Hpc, Hz.
    destruct (check_n l (now env) n) as [[|w|] l']; eexists; (split; [reflexivity|]); by cbn. }
  unfold poll_admit, waiting.
  destruct sleep as [d|]; [destruct (sleep_elapsed env)|]; [right|by left|right];
    (split; [done|]); exists n, j'; (split; [done|]); (split; [lia|]); (split; [done|exact Hask]).
Qed.

Lemma poll_ask_panic l env j len :
  0 ≤ len → poll_ask l env j len = Panic ↔ l ≠ None ∧ wrap 32 len = 0.
Proof.
  intros Hlen. unfold poll_ask. pose proof (poll_chunk_range len j Hlen) as (_&_&Hz).
  destruct (poll_chunk len j) as [j' n]. cbn in Hz. rewrite <-Hz.
  destruct l as [l|]; [|by split; [|intros [[] _]]].
  destruct (Z.eqb_spec n 0) as [->|Hn]; [by split|].
  destruct (check_n l (now env) n) as [[]]; by split; [|intros [_ ?]].
Qed.

Lemma poll_ask_ok l env j len l' j' r :
  0 ≤ len → poll_ask l env j len = Ok (l', j', r) →
  match r with inl s => is_Some s | inr n => 0 ≤ n ≤ Z.min len CHUNK end.
Proof.
  intros Hlen. unfold poll_ask. pose proof (poll_chunk_range len j Hlen) as (Hn&Hc&_).
  destruct (poll_chunk len j) as [j1 n]. cbn in Hn, Hc.
  destruct l as [l|]; [|intros [= <- <- <-]; lia].
  destruct (n =? 0); [done|].
  destruct (check_n l (now env) n) as [[]]; intros [= <- <- <-]; try done; lia.
Qed.
End Polls.

(** ** Sequences of polls on one limiter *)

Section Shared.
Context `{GovernorLaws}.

(** A poll of the reader or of the writer of the connection [conn]. *)
Inductive LimitedPoll :=
| PollRead (conn : nat) (env : PollEnv) (remaining : Z) (inner : InnerRead)
| PollWrite (conn : nat) (env : PollEnv) (buf : string) (inner : InnerWrite).

Definition lp_conn (p : LimitedPoll) : nat :=
  match p with PollRead c _ _ _ | PollWrite c _ _ _ => c end.
Definition lp_env (p : LimitedPoll) : PollEnv :=
  match p with PollRead _ e _ _ | PollWrite _ e _ _ => e end.
(** The length of the caller's buffer. *)
Definition lp_len (p : LimitedPoll) : Z :=
  match p with PollRead _ _ remaining _ => remaining | PollWrite _ _ buf _ => Z.of_nat (String.length buf) end.

(** The bytes an inner write took. *)
Definition taken (r : Poll (outcome string Z)) : Z := match r with Ready (Ok n) => n | _ => 0 end.

(** One poll, with the number of bytes that went through. *)
Definition limited_poll (l : option Limiter) (sleep : option Duration) (jitter : Z) (p : LimitedPoll)
    : outcome string (option Limiter * Z * option Duration * Z) :=
  match p with
  | PollRead _ env remaining inner =>
      '(l, jitter, sleep, filled, _) ← limited_poll_read l sleep env jitter remaining inner;
      mret (l, jitter, sleep, Z.of_nat (String.length filled))
  | PollWrite _ env buf inner =>
      '(l, jitter, sleep, r) ← limited_poll_write l sleep env jitter buf inner;
      mret (l, jitter, sleep, taken r)
  end.

(** The bytes that go through in a sequence of polls of readers and writers that share [l];
    each has its own sleep. *)
Fixpoint run_polls (l : option Limiter) (jitter : Z) (sleeps : nat → option Duration)
    (polls : list LimitedPoll) : outcome string Z :=
  match polls with
  | [] => Ok 0
  | p :: polls =>
      '(l, jitter, sleep, moved) ← limited_poll l (sleeps (lp_conn p)) jitter p;
      total ← run_polls l jitter (λ c, if Nat.eqb c (lp_conn p) then sleep else sleeps c) polls;
      mret (moved + total)
  end.

(** [AsyncRead] fills at most the buffer it is given and [AsyncWrite] takes at most the slice
    it is given; the buffers are not empty and hold less than 4 GiB. *)
Definition poll_wf (p : LimitedPoll) : Prop :=
  0 < lp_len p < 2 ^ 32
  ∧ match p with
    | PollRead _ _ _ inner => ∀ n, 0 ≤ n → Z.of_nat (String.length (fst (inner n))) ≤ n
    | PollWrite _ _ _ inner => ∀ slice, taken (inner slice) ≤ Z.of_nat (String.length slice)
    end.

Fixpoint polls_timed (t0 t : Z) (polls : list LimitedPoll) : Prop :=
  match polls with
  | [] => t0 ≤ t
  | p :: polls => t0 ≤ now (lp_env p) ∧ polls_timed (now (lp_env p)) t polls
  end.

(** One poll: a request that is granted covers what goes through, and nothing does without. *)
Lemma limited_poll_cases l sleep j p :
  poll_wf p →
  limited_poll (Some l) sleep j p = Ok (Some l, j, sleep, 0)
  ∨ ∃ n j' s moved, 0 < n
      ∧ limited_poll (Some l) sleep j p = Ok (Some (snd (check_n l (now (lp_env p)) n)), j', s, moved)
      ∧ moved ≤ match fst (check_n l (now (lp_env p)) n) with Granted => n | _ => 0 end.
Proof.
  intros [Hlen Hinner]. assert (wrap 32 (lp_len p) ≠ 0) as Hw by (rewrite wrap_small; lia).
  destruct (poll_admit_cases l sleep (lp_env p) j (lp_len p) ltac:(lia) Hw)
    as [[_ Ha]|(_&n&j'&_&Hn&_&r&Ha&Hr)].
  - left. destruct p; cbn [limited_poll lp_env lp_len] in *; unfold limited_poll_read, limited_poll_write;
      by rewrite Ha.
  - right. destruct r as [s|n'].
    + exists n, j', s, 0. split; [lia|]. split; [|repeat case_match; lia].
      destruct p; cbn [limited_poll lp_env lp_len] in *; unfold limited_poll_read, limited_poll_write;
        by rewrite Ha.
    + destruct Hr as [-> Hg]. destruct p as [c env remaining inner|c env buf inner]; cbn [limited_poll lp_env lp_len] in *.
      * exists n, j', None, (Z.of_nat (String.length (fst (inner n)))). split; [lia|]. split.
        { unfold limited_poll_read. rewrite Ha. cbn. by destruct (inner n). }
        rewrite Hg. apply Hinner. lia.
      * exists n, j', None, (taken (inner (take_str (Z.to_nat n) buf))). split; [lia|]. split.
        { unfold limited_poll_write. by rewrite Ha. }
        rewrite Hg. etrans; [apply Hinner|]. rewrite length_take_str. lia.
Qed.

Lemma timed_weaken t0 t0' t reqs : t0' ≤ t0 → timed t0 t reqs → timed t0' t reqs.
Proof. intros Hle. destruct reqs as [|[a n] reqs]; simpl; [lia|]. intros (?&?&?). split_and!; [lia|done|done]. Qed.

Lemma run_polls_granted l j sleeps t0 t polls :
  Forall poll_wf polls → polls_timed t0 t polls →
  ∃ total reqs, run_polls (Some l) j sleeps polls = Ok total
    ∧ timed t0 t reqs ∧ total ≤ granted l reqs.
Proof.
  intros Hwf. revert l j sleeps t0.
  induction Hwf as [|p polls Hp _ IH]; intros l j sleeps t0 Ht; simpl in Ht.
  { exists 0, []. simpl. auto with lia. }
  destruct Ht as [Hnow Ht]. cbn [run_polls].
  destruct (limited_poll_cases l (sleeps (lp_conn p)) j p Hp) as [->|(n&j'&s&moved&Hn&->&Hm)];
    cbn [mbind outcome_bind].
  - destruct (IH l j (λ c, if Nat.eqb c (lp_conn p) then sleeps (lp_conn p) else sleeps c)
                _ Ht) as (total&reqs&->&Hreqs&Hle).
    exists (0 + total), reqs. split; [done|]. split; [by eapply timed_weaken|lia].
  - destruct (check_n l (now (lp_env p)) n) as [res l'] eqn:Hchk. cbn [fst snd] in *.
    destruct (IH l' j' (λ c, if Nat.eqb c (lp_conn p) then s else sleeps c) _ Ht)
      as (total&reqs&->&Hreqs&Hle).
    exists (moved + total), ((now (lp_env p), n) :: reqs). split; [done|]. cbn [timed granted].
    rewrite Hchk. split; [done|lia].
Qed.
End Shared.

(** ** The pool: one limiter per tunnel and direction *)

Section PoolInvariant.
Context `{UuidApi, GovernorApi}.

(** A call of [wrap]: time, tunnel, upload rate, download rate. *)
Record WrapCall := mkCall { wc_now : Z; wc_id : Uuid; wc_up : option Z; wc_down : option Z }.

Definition pool_step (p : RateLimiterPool) (c : WrapCall) : RateLimiterPool :=
  snd (pool_wrap (wc_now c) (wc_id c) (wc_up c) (wc_down c) p).
Definition pool_run (calls : list WrapCall) : RateLimiterPool :=
  fold_left pool_step calls pool_new.

(** The limiters of a direction record. *)
Definition lids (d : DirectionalLimiters) : list nat :=
  match dl_read d with Some i => [i] | None => [] end
  ++ match dl_write d with Some i => [i] | None => [] end.

(** The quota behind a limiter reference. *)
Definition quota_of (p : RateLimiterPool) (i : option nat) : option Quota :=
  i ← i; fst <$> store p !! i.

(** The state the calls describe: every tunnel has the quotas of its first call. *)
Definition first_call (calls : list WrapCall) (id : Uuid) : option WrapCall :=
  find (λ c, bool_decide (wc_id c = id)) calls.

Record pool_inv (calls : list WrapCall) (p : RateLimiterPool) : Prop := {
  inv_domain id : is_Some (limiters p !! id) ↔ is_Some (first_call calls id);
  inv_quota id d c : limiters p !! id = Some d → first_call calls id = Some c →
    quota_of p (dl_read d) = build_quota <$> wc_down c
    ∧ quota_of p (dl_write d) = build_quota <$> wc_up c;
  inv_next id d i : limiters p !! id = Some d → i ∈ lids d → (i < next p)%nat;
  inv_nodup id d : limiters p !! id = Some d → NoDup (lids d);
  inv_disjoint id1 id2 d1 d2 i : limiters p !! id1 = Some d1 → limiters p !! id2 = Some d2 →
    i ∈ lids d1 → i ∈ lids d2 → id1 = id2;
}.

Lemma build_limiter_spec now m p r p' :
  build_limiter now m p = (r, p') →
  limiters p' = limiters p
  ∧ (next p ≤ next p')%nat
  ∧ quota_of p' r = build_quota <$> m
  ∧ (∀ i, r = Some i → (next p ≤ i < next p')%nat)
  ∧ ∀ i, (i < next p)%nat → store p' !! i = store p !! i.
Proof.
  destruct m as [v|]; simpl; intros [= <- <-]; cbn.
  - rewrite lookup_insert_eq. cbn. split_and!; [done|lia|done|naive_solver lia|].
    intros i Hi. rewrite lookup_insert_ne by lia. done.
  - split_and!; [done|lia|done|naive_solver lia|done].
Qed.

Lemma quota_of_mono p p' i :
  (∀ j, (j < next p)%nat → store p' !! j = store p !! j) →
  (∀ j, i = Some j → (j < next p)%nat) → quota_of p' i = quota_of p i.
Proof. intros Hs Hi. destruct i as [j|]; cbn; [|done]. rewrite Hs by auto. done. Qed.

Lemma elem_of_lids d i : i ∈ lids d ↔ dl_read d = Some i ∨ dl_write d = Some i.
Proof.
  unfold lids. rewrite elem_of_app.
  destruct (dl_read d), (dl_write d); rewrite ?list_elem_of_singleton, ?elem_of_nil; naive_solver.
Qed.

Lemma first_call_snoc calls c id :
  first_call (calls ++ [c]) id =
  match first_call calls id with
  | Some x => Some x
  | None => if decide (wc_id c = id) then Some c else None
  end.
Proof.
  unfold first_call. induction calls as [|a l IH]; simpl.
  - by case_bool_decide; case_decide.
  - by case_bool_decide.
Qed.

(** A fresh tunnel: the new record is made of fresh limiters. *)
(** The two limiters of a tunnel differ when the second is made after the first. *)
Lemma lids_nodup rd wr m :
  (∀ i, rd = Some i → (i < m)%nat) → (∀ i, wr = Some i → (m ≤ i)%nat) →
  NoDup (lids (mkLimiters rd wr)).
Proof.
  intros Hr Hw. unfold lids. cbn. destruct rd as [r|], wr as [w|]; cbn;
    try first [by apply NoDup_nil_2 | by apply NoDup_singleton].
  apply NoDup_cons; split; [|apply NoDup_singleton].
  intros ->%list_elem_of_singleton. specialize (Hr _ eq_refl). specialize (Hw _ eq_refl). lia.
Qed.

Lemma pool_step_fresh calls p c :
  pool_inv calls p → limiters p !! wc_id c = None → pool_inv (calls ++ [c]) (pool_step p c).
Proof.
  intros Hinv Hnone. unfold pool_step, pool_wrap. rewrite Hnone.
  destruct (build_limiter _ (wc_down c) p) as [rd p1] eqn:E1.
  destruct (build_limiter _ (wc_up c) p1) as [wr p2] eqn:E2.
  apply build_limiter_spec in E1 as (Hl1&Hn1&Hq1&Hr1&Hs1).
  apply build_limiter_spec in E2 as (Hl2&Hn2&Hq2&Hr2&Hs2). cbn.
  rewrite Hl2, Hl1.
  assert (first_call calls (wc_id c) = None) as Hfirst.
  { destruct (first_call calls (wc_id c)) eqn:E; [|done].
    destruct (proj2 (inv_domain _ _ Hinv (wc_id c))) as [? ?]; [by rewrite E|congruence]. }
  assert (∀ id d, limiters p !! id = Some d → ∀ i, i ∈ lids d → (i < next p)%nat) as Hold.
  { intros. eapply inv_next; eauto. }
  assert (∀ i, i ∈ lids (mkLimiters rd wr) → (next p ≤ i < next p2)%nat) as Hnew.
  { intros i [Hi|Hi]%elem_of_lids; cbn in Hi; [apply Hr1 in Hi|apply Hr2 in Hi]; lia. }
  split; cbn.
  - intros id. rewrite first_call_snoc. destruct (decide (wc_id c = id)) as [<-|Hne].
    + rewrite lookup_insert_eq, Hfirst. split; by eexists.
    + rewrite lookup_insert_ne by done. rewrite (inv_domain _ _ Hinv id).
      by destruct (first_call calls id).
  - intros id d c' Hd Hc. rewrite first_call_snoc in Hc.
    destruct (decide (wc_id c = id)) as [<-|Hne].
    + rewrite lookup_insert_eq in Hd. rewrite Hfirst in Hc. simplify_eq/=. split; [|done].
      rewrite <-Hq1. apply quota_of_mono; [done|]. intros j Hj. apply Hr1 in Hj. lia.
    + rewrite lookup_insert_ne in Hd by done.
      assert (first_call calls id = Some c') as Hc' by by destruct (first_call calls id).
      destruct (inv_quota _ _ Hinv _ _ _ Hd Hc') as [<- <-].
      split; (apply (quota_of_mono p); [intros j Hj; cbn; rewrite Hs2, Hs1 by lia; done|];
        intros j Hj; eapply Hold; [done|apply elem_of_lids; auto]).
  - intros id d i Hd Hi. destruct (decide (wc_id c = id)) as [<-|Hne].
    + rewrite lookup_insert_eq in Hd. simplify_eq. apply Hnew in Hi. lia.
    + rewrite lookup_insert_ne in Hd by done. specialize (Hold _ _ Hd _ Hi). lia.
  - intros id d Hd. destruct (decide (wc_id c = id)) as [<-|Hne].
    + rewrite lookup_insert_eq in Hd. simplify_eq.
      apply (lids_nodup _ _ (next p1)); [intros i Hi; apply Hr1 in Hi|intros i Hi; apply Hr2 in Hi]; lia.
    + rewrite lookup_insert_ne in Hd by done. by eapply inv_nodup.
  - intros id1 id2 d1 d2 i. rewrite !lookup_insert.
    repeat case_decide; subst; intros Hd1 Hd2 Hi1 Hi2; simplify_eq; try done.
    + apply Hnew in Hi1. specialize (Hold _ _ Hd2 _ Hi2). lia.
    + apply Hnew in Hi2. specialize (Hold _ _ Hd1 _ Hi1). lia.
    + by eapply inv_disjoint.
Qed.

Lemma pool_step_known calls p c d :
  pool_inv calls p → limiters p !! wc_id c = Some d → pool_inv (calls ++ [c]) (pool_step p c).
Proof.
  intros Hinv Hd. unfold pool_step, pool_wrap. rewrite Hd. cbn.
  assert (∀ id, first_call (calls ++ [c]) id = first_call calls id) as Hfirst.
  { intros id. rewrite first_call_snoc. destruct (first_call calls id) eqn:E; [done|].
    case_decide; [subst|done]. assert (is_Some (first_call calls (wc_id c))) as [? ?].
    { apply (inv_domain _ _ Hinv). by rewrite Hd. } congruence. }
  destruct Hinv. split; intros *; rewrite ?Hfirst; eauto.
Qed.

Lemma pool_run_inv calls : pool_inv calls (pool_run calls).
Proof.
  induction calls as [|c calls IH] using rev_ind.
  - split; cbn; intros *; by rewrite lookup_empty.
  - unfold pool_run. rewrite fold_left_app. cbn. fold (pool_run calls).
    destruct (limiters (pool_run calls) !! wc_id c) eqn:E;
      eauto using pool_step_known, pool_step_fresh.
Qed.

Lemma pool_step_keeps p c id d :
  limiters p !! id = Some d → limiters (pool_step p c) !! id = Some d.
Proof.
  intros Hd. unfold pool_step, pool_wrap. destruct (limiters p !! wc_id c) eqn:E; [done|].
  destruct (build_limiter _ (wc_down c) p) as [rd p1] eqn:E1.
  destruct (build_limiter _ (wc_up c) p1) as [wr p2] eqn:E2.
  apply build_limiter_spec in E1 as (Hl1&_). apply build_limiter_spec in E2 as (Hl2&_). cbn.
  rewrite Hl2, Hl1, lookup_insert_ne; [done|]. intros <-. congruence.
Qed.
End PoolInvariant.

(** ** Properties *)

(** Rates the server can ask for (the resolver caps them at 10 MiB/s) give the exact
    quota: that many MiB per second with a burst of 20% more, and one byte for a rate of
    zero; no 32-bit truncation and no rounding of the floating-point product occurs. *)
Theorem build_quota_exact v :
  0 ≤ v ≤ 10 →
  build_quota v = mkQuota (Z.max (v * 2 ^ 20) 1) (Z.max (v * 2 ^ 20 * 12 / 10) 1).
Proof.
  intros Hv.
  assert (v = 0 ∨ v = 1 ∨ v = 2 ∨ v = 3 ∨ v = 4 ∨ v = 5 ∨ v = 6 ∨ v = 7 ∨ v = 8 ∨ v = 9 ∨ v = 10)
    as H by lia.
  repeat destruct H as [->|H]; subst; by vm_compute.
Qed.

(** The jittered chunk is within one percent-step of plus or minus ten percent of the
    request, at least one byte and at most 16 KiB. *)
Theorem jittered_chunk_bounds base j :
  1 ≤ base ≤ CHUNK →
  Z.max 1 (base * 90 / 100) ≤ snd (jittered_chunk base j) ≤ Z.min CHUNK (Z.max 1 (base * 110 / 100)).
Proof.
  intros Hb. unfold jittered_chunk, CHUNK in *. rewrite (clamp_id 1 16384 base) by lia.
  destruct (next_jitter_roll j) as [j' roll]. cbn [snd]. cbv zeta.
  change (REQUEST_JITTER_PERCENT * 2 + 1) with 21. change (100 - REQUEST_JITTER_PERCENT) with 90.
  pose proof (Z.mod_pos_bound roll 21 ltac:(lia)) as Hr. set (pct := 90 + roll mod 21).
  assert (90 ≤ pct ≤ 110) as Hp by lia. clearbody pct. clear Hr.
  assert (base * 90 / 100 ≤ base * pct / 100 ≤ base * 110 / 100) as Hd
    by (split; apply Z.div_le_mono; nia).
  assert (base * 110 / 100 ≤ 16384 * 110 / 100) as Hm by (apply Z.div_le_mono; lia).
  change (16384 * 110 / 100) with 18022 in Hm.
  assert (0 ≤ base * 90 / 100) by (apply Z.div_pos; lia).
  assert (base * 90 / 100 ≤ base) by (apply Z.div_le_upper_bound; lia).
  rewrite wrap_small by (change (2 ^ 32) with 4294967296; lia).
  unfold clamp. repeat case_match; lia.
Qed.

(** The rounding of the interval costs less than one percent for those rates. *)
Lemma interval_close v :
  0 ≤ v ≤ 10 →
  100 * NANOS ≤ 101 * (quota_bps (build_quota v) * replenish_interval (build_quota v)).
Proof.
  intros Hv.
  assert (v = 0 ∨ v = 1 ∨ v = 2 ∨ v = 3 ∨ v = 4 ∨ v = 5 ∨ v = 6 ∨ v = 7 ∨ v = 8 ∨ v = 9 ∨ v = 10)
    as H by lia.
  repeat destruct H as [->|H]; subst; by vm_compute.
Qed.

Section PoolProperties.
Context `{UuidApi, GovernorApi}.

(** After any sequence of connections, a further connection of a known tunnel gets the
    limiters the tunnel already has, with the quotas its first connection asked for,
    whatever rates it asks for itself. *)
Theorem pool_first_rates_win calls id c now up down :
  first_call calls id = Some c →
  ∃ rd wr, fst (pool_wrap now id up down (pool_run calls)) = (rd, wr)
    ∧ snd (pool_wrap now id up down (pool_run calls)) = pool_run calls
    ∧ quota_of (pool_run calls) rd = build_quota <$> wc_down c
    ∧ quota_of (pool_run calls) wr = build_quota <$> wc_up c.
Proof.
  intros Hc. pose proof (pool_run_inv calls) as Hinv.
  destruct (proj2 (inv_domain _ _ Hinv id)) as [d Hd]; [by rewrite Hc|].
  exists (dl_read d), (dl_write d). unfold pool_wrap. rewrite Hd.
  split_and!; [done|done|..]; by eapply inv_quota.
Qed.

(** Two tunnels never share a limiter, and the two directions of a tunnel do not
    either: no connection can spend the quota of another tunnel or direction. *)
Theorem pool_isolation calls id1 id2 d1 d2 i :
  limiters (pool_run calls) !! id1 = Some d1 → limiters (pool_run calls) !! id2 = Some d2 →
  i ∈ lids d1 → i ∈ lids d2 →
  id1 = id2 ∧ d1 = d2 ∧ (dl_read d1 = Some i → dl_write d1 ≠ Some i).
Proof.
  intros H1 H2 Hi1 Hi2. pose proof (pool_run_inv calls) as Hinv.
  assert (id1 = id2) as <- by by eapply inv_disjoint. simplify_eq. split_and!; [done|done|].
  intros Hr Hw. pose proof (inv_nodup _ _ Hinv _ _ H1) as Hnd. unfold lids in Hnd.
  rewrite Hr, Hw in Hnd. apply NoDup_cons in Hnd as [Hn _]. by apply Hn; left.
Qed.
End PoolProperties.

Section RateProperties.
Context `{GovernorLaws}.

(** C17: The connections of a tunnel together never get more than its rate: whatever the
    number of readers or writers on a limiter, the interleaving of their polls, the jitter and
    the sizes of their buffers (not empty, below 4 GiB, for which no poll panics), the bytes
    that go through from the creation of the limiter to [t] are at most the burst and one byte
    per replenishment interval; for the rates the server can be asked for, that is at most
    one percent above the rate times the elapsed time. *)
Theorem shared_rate_bound v j sleeps t0 t polls :
  Forall poll_wf polls → polls_timed t0 t polls →
  let q := build_quota v in
  ∃ total, run_polls (Some (limiter_direct q t0)) j sleeps polls = Ok total
    ∧ (total - quota_burst q) * replenish_interval q ≤ t - t0
    ∧ (0 ≤ v ≤ 10 → 100 * (total - quota_burst q) * NANOS ≤ 101 * quota_bps q * (t - t0)).
Proof.
  intros Hwf Ht q.
  destruct (run_polls_granted (limiter_direct q t0) j sleeps t0 t polls Hwf Ht)
    as (total&reqs&Hrun&Hreqs&Hle).
  exists total. split; [done|].
  assert (0 < quota_bps q ∧ 0 < quota_burst q) as [Hbps Hburst]
    by (unfold q, build_quota; cbn -[f64_as_u32]; lia).
  pose proof (governor_rate q t0 t reqs Hbps Hburst Hreqs) as Hg.
  assert (0 ≤ replenish_interval q) as Hi by (apply Z.div_pos; unfold NANOS; lia).
  assert ((total - quota_burst q) * replenish_interval q ≤ t - t0) as Hb by nia.
  split; [done|]. intros Hv. pose proof (interval_close v Hv) as Hc. fold q in Hc.
  assert (t0 ≤ t) by (clear -Hreqs; revert t0 Hreqs; induction reqs as [|[a n] reqs IH]; intros t0; cbn;
    [done|intros (?&_&?%IH); lia]).
  destruct (Z.le_gt_cases total (quota_burst q)); unfold NANOS in *; nia.
Qed.

(** A poll aborts the process exactly when a limiter is set, the previous wait is over
    and the buffer's length is zero modulo [2^32] ([NonZeroU32::new(0).unwrap()]). *)
Theorem limited_poll_read_panics_iff l sleep env j remaining inner :
  0 ≤ remaining →
  limited_poll_read l sleep env j remaining inner = Panic ↔
  l ≠ None ∧ waiting sleep env = false ∧ remaining mod 2 ^ 32 = 0.
Proof.
  intros Hr. change (remaining mod 2 ^ 32) with (wrap 32 remaining).
  assert (limited_poll_read l sleep env j remaining inner = Panic ↔
          poll_admit l sleep env j remaining = Panic) as ->.
  { unfold limited_poll_read.
    destruct (poll_admit _ _ _ _ _) as [[[? ?] [s|n]]| |]; cbn; try done.
    by destruct (inner n). }
  unfold poll_admit, waiting. destruct sleep as [d|]; [destruct (sleep_elapsed env)|];
    cbn [negb]; rewrite ?poll_ask_panic by done; [|by split; [|intros (_&[=]&_)]|]; tauto.
Qed.

(** Transparency: the bytes a limited read delivers are the bytes the inner reader
    gave, at most as many as fit, and a pending wait reads nothing. *)
Theorem limited_poll_read_transparent l sleep env j remaining inner l' j' s' filled res :
  0 ≤ remaining →
  (∀ n, 0 ≤ n → Z.of_nat (String.length (fst (inner n))) ≤ n) →
  limited_poll_read l sleep env j remaining inner = Ok (l', j', s', filled, res) →
  (filled = "" ∧ res = Pending ∧ is_Some s')
  ∨ ∃ n, 0 ≤ n ≤ Z.min remaining CHUNK ∧ inner n = (filled, res) ∧ s' = None
      ∧ Z.of_nat (String.length filled) ≤ n.
Proof.
  intros Hr Hinner. unfold limited_poll_read. intros ([[l1 j1] r]&Hadm&Hres)%bind_ok_inv.
  assert (match r with inl s => is_Some s | inr n => 0 ≤ n ≤ Z.min remaining CHUNK end) as Hn.
  { unfold poll_admit in Hadm. destruct sleep as [d|]; [destruct (sleep_elapsed env)|];
      simplify_eq; first [done | by eapply poll_ask_ok]. }
  destruct r as [s|n]; [left; naive_solver|]. right. exists n.
  specialize (Hinner n ltac:(lia)). destruct (inner n) as [f r]. by simplify_eq/=.
Qed.
End RateProperties.

(** ** The generic cell rate algorithm, for evaluation *)

(** The theoretical arrival time of the next cell, once there was a request. *)
Record Gcra := mkGcra { g_quota : Quota; g_tat : option Z }.

Definition gcra_check (g : Gcra) (now n : Z) : CheckResult * Gcra :=
  let interval := replenish_interval (g_quota g) in
  let tau := interval * quota_burst (g_quota g) in
  if tau <? interval * n then (InsufficientCapacity, g)
  else
    let tat := default (now + interval) (g_tat g) in
    let earliest := tat + interval * (n - 1) - tau in
    if now <? earliest then (NotUntil (earliest - now), g)
    else (Granted, mkGcra (g_quota g) (Some (Z.max tat now + interval * n))).

#[global] Instance gcra_api : GovernorApi :=
  {| Limiter := Gcra; limiter_direct q _ := mkGcra q None; check_n := gcra_check |}.

Lemma timed_le t0 t reqs : timed t0 t reqs → t0 ≤ t.
Proof.
  revert t0. induction reqs as [|[now n] reqs IH]; intros t0; cbn; [done|]. intros (?&_&?%IH). lia.
Qed.

(** What is left to grant until [t]: from [t0] on, and not before the arrival time. *)
Lemma gcra_granted g t0 t reqs :
  0 < quota_bps (g_quota g) → timed t0 t reqs →
  let interval := replenish_interval (g_quota g) in
  granted g reqs * interval
    ≤ Z.max 0 (t + interval * quota_burst (g_quota g) + interval
               - Z.max t0 (default (t0 + interval) (g_tat g))).
Proof.
  revert g t0. induction reqs as [|[now n] reqs IH]; intros g t0 Hbps Ht; cbn [timed granted] in *; [lia|].
  destruct Ht as (Hnow&Hn&Ht). pose proof (timed_le _ _ _ Ht) as Hle.
  assert (0 ≤ replenish_interval (g_quota g)) as Hi by (apply Z.div_pos; unfold NANOS; lia).
  pose proof (IH g now Hbps Ht) as Hsame. cbn [check_n gcra_api]. unfold gcra_check.
  set (interval := replenish_interval (g_quota g)) in *.
  set (tau := interval * quota_burst (g_quota g)) in *.
  destruct (Z.ltb_spec tau (interval * n)); [destruct (g_tat g); cbn in *; lia|].
  destruct (Z.ltb_spec now (default (now + interval) (g_tat g) + interval * (n - 1) - tau)).
  { destruct (g_tat g); cbn in *; lia. }
  specialize (IH (mkGcra (g_quota g) (Some (Z.max (default (now + interval) (g_tat g)) now + interval * n))) now
    Hbps Ht).
  cbn [g_quota g_tat default from_option] in IH. fold interval in IH. fold tau in IH.
  assert (0 ≤ interval * n) by nia. clearbody tau interval.
  destruct (g_tat g) as [tat|]; cbn in *; nia.
Qed.

#[global] Instance gcra_laws : GovernorLaws.
Proof.
  split. intros q t0 t reqs Hbps Hburst Ht.
  pose proof (gcra_granted (mkGcra q None) t0 t reqs Hbps Ht) as Hg. cbn in Hg.
  assert (0 ≤ replenish_interval q) by (apply Z.div_pos; unfold NANOS; lia).
  pose proof (timed_le _ _ _ Ht). cbn [limiter_direct gcra_api]. nia.
Qed.

(** ** Witnesses *)

Lemma build_quota_exact_witness : build_quota 10 = mkQuota 10485760 12582912.
Proof. apply (build_quota_exact 10). lia. Defined.

Lemma jittered_chunk_bounds_witness : 900 ≤ snd (jittered_chunk 1000 1) ≤ 1100.
Proof. apply (jittered_chunk_bounds 1000 1). unfold CHUNK. lia. Defined.

Definition toy_uuid : @Uuid toy_uuid_api := 42.
Definition toy_calls : list WrapCall := [mkCall 0 toy_uuid (Some 1) (Some 2)].

Lemma pool_first_rates_win_witness :
  quota_of (pool_run toy_calls) (snd (fst (pool_wrap 5 toy_uuid (Some 9) None (pool_run toy_calls))))
  = Some (build_quota 1).
Proof.
  destruct (pool_first_rates_win toy_calls toy_uuid (mkCall 0 toy_uuid (Some 1) (Some 2)) 5
              (Some 9) None eq_refl) as (rd&wr&->&_&_&Hw).
  exact Hw.
Defined.

Lemma pool_isolation_witness :
  ∃ d, limiters (pool_run toy_calls) !! toy_uuid = Some d ∧ lids d = [0; 1]%nat
    ∧ dl_write d ≠ Some 0%nat.
Proof.
  eexists. split; [reflexivity|]. split; [reflexivity|].
  eapply (pool_isolation toy_calls toy_uuid toy_uuid); try reflexivity; by left.
Defined.

(** A reader that always has data, and a writer that takes everything. *)
Definition small_inner : InnerRead := λ n, (take_str (Z.to_nat n) "abcd", Ready (Ok ())).
Definition small_polls : list LimitedPoll :=
  [PollRead 0 (mkEnv true 1) 4 small_inner;
   PollWrite 1 (mkEnv true 2) "xyz" (λ slice, Ready (Ok (Z.of_nat (String.length slice))))].

Lemma shared_rate_bound_witness :
  ∃ total, run_polls (Some (limiter_direct (build_quota 1) 0)) 1 (λ _, None) small_polls = Ok total
    ∧ 100 * (total - quota_burst (build_quota 1)) * NANOS ≤ 101 * quota_bps (build_quota 1) * (3 - 0).
Proof.
  destruct (shared_rate_bound 1 1 (λ _, None) 0 3 small_polls) as (total&Hrun&_&Hb).
  - constructor; [|constructor; [|constructor]]; (split; [cbn; lia|]).
    + intros n Hn. unfold small_inner. cbn -[take_str]. rewrite length_take_str. lia.
    + intros slice. cbn. lia.
  - cbn. lia.
  - exists total. split; [exact Hrun|]. apply Hb. lia.
Defined.

Lemma limited_poll_read_panics_iff_witness :
  limited_poll_read (Some (limiter_direct (build_quota 1) 0)) None (mkEnv true 0) 1 0
    (λ _, ("", Pending)) = Panic.
Proof. apply (limited_poll_read_panics_iff _ None (mkEnv true 0) 1 0); [lia|]. by split. Defined.

Lemma limited_poll_read_transparent_witness :
  ∃ l j s f r, limited_poll_read (None : option (@Limiter gcra_api)) None (mkEnv true 0) 1 4
      (small_inner) = Ok (l, j, s, f, r)
    ∧ ((f = "" ∧ r = Pending ∧ is_Some s)
       ∨ ∃ n, 0 ≤ n ≤ Z.min 4 CHUNK ∧ small_inner n = (f, r) ∧ s = None
          ∧ Z.of_nat (String.length f) ≤ n).
Proof.
  do 5 eexists. split; [reflexivity|].
  eapply (limited_poll_read_transparent (None : option (@Limiter gcra_api)) None (mkEnv true 0) 1 4
            (small_inner)); [lia| |reflexivity].
  intros n Hn. cbn -[take_str]. rewrite length_take_str. lia.
Defined.
