(* ===== verification/Resolver.v ===== *)
(** * Resolver: from pods to tunnel endpoints

    The [tunnel-server] crate ([src/tunnel-server/src/state.rs], [watcher.rs],
    [api.rs]) keeps a registry of tunnels from the pods it watches and serves it over
    HTTP; [src/wstunnel/src/tunnel/server/tunnel_resolver.rs] queries it.  The HTTP
    exchange is an argument of the resolver; reading YAML text into a mapping is the class
    [YamlApi]. *)

From Stdlib Require Import ZArith Lia Ascii String.
From stdpp Require Import base gmap strings list.
From S2P Require Import Prelude Str Net Apis ApiModels Jwt Request.

#[local] Open Scope stdpp_scope.

(** ** Registry ([state.rs], [watcher.rs]) *)

Record TunnelEntry := mkEntry {
  te_host : string;
  te_port : Z;
  te_rate_limit_upload_m : option Z;
  te_rate_limit_download_m : option Z
}.

Definition ANN_TUNNEL_ID : string := "wstunnel.io/tunnel-id".
Definition ANN_TUNNEL_PORT : string := "wstunnel.io/tunnel-port".
Definition ANN_TUNNEL_RATE_LIMIT : string := "wstunnel.io/tunnel-rate-limit".
Definition ANN_TUNNEL_RATE_LIMIT_UPLOAD : string := "wstunnel.io/tunnel-rate-limit-upload".
Definition ANN_TUNNEL_RATE_LIMIT_DOWNLOAD : string := "wstunnel.io/tunnel-rate-limit-download".
Definition DEFAULT_TUNNEL_PORT : Z := 22.
Definition MAX_RATE_LIMIT_M : Z := 10.

(** The fields of a pod the watcher reads. *)
Record PodStatus := mkPodStatus { pod_ip : option string; phase : option string }.
Record Pod := mkPod {
  annotations : option (gmap string string);
  status : option PodStatus;
  deletion_timestamp : option Z
}.

(** The events of [kube::runtime::watcher]; [applied_objects] passes the pods of
    [Apply] and [InitApply] on and drops the others. *)
Inductive WatchEvent :=
| WApply (p : Pod) | WDelete (p : Pod) | WInit | WInitApply (p : Pod) | WInitDone.
Definition applied_object (e : WatchEvent) : option Pod :=
  match e with WApply p | WInitApply p => Some p | WDelete _ | WInit | WInitDone => None end.

Definition parse_rate_limit (v : option string) : option Z :=
  (λ n, Z.min n MAX_RATE_LIMIT_M) <$> (s ← v; parse_u16 (trim s)).

(** [Option::or]. *)
Definition opt_or {A} (x y : option A) : option A :=
  match x with Some a => Some a | None => y end.

Section Registry.
Context `{UuidApi}.

(** [AppState]: the map behind the lock. *)
Definition app_state_new : gmap Uuid TunnelEntry := ∅.

Definition handle_pod_event (state : gmap Uuid TunnelEntry) (pod : Pod)
    : gmap Uuid TunnelEntry :=
  match annotations pod with
  | None => state
  | Some annotations =>
      match annotations !! ANN_TUNNEL_ID with
      | None => state
      | Some tunnel_id_str =>
          match uuid_parse_str tunnel_id_str with
          | None => state
          | Some tunnel_id =>
              let ip := default "" (s ← status pod; pod_ip s) in
              let is_running :=
                match (s ← status pod; phase s) with
                | Some p => String.eqb p "Running"
                | None => false
                end in
              let deletion_ts :=
                match deletion_timestamp pod with Some _ => true | None => false end in
              if String.eqb ip "" || negb is_running || deletion_ts
              then delete tunnel_id state
              else
                let port := default DEFAULT_TUNNEL_PORT
                              (v ← annotations !! ANN_TUNNEL_PORT; parse_u16 v) in
                let legacy := parse_rate_limit (annotations !! ANN_TUNNEL_RATE_LIMIT) in
                let up := opt_or (parse_rate_limit (annotations !! ANN_TUNNEL_RATE_LIMIT_UPLOAD))
                            legacy in
                let down := opt_or
                  (parse_rate_limit (annotations !! ANN_TUNNEL_RATE_LIMIT_DOWNLOAD)) legacy in
                <[tunnel_id := mkEntry ip port up down]> state
          end
      end
  end.

(** [watch_pods] on the stream's items; an error only logs a warning. *)
Fixpoint watch_pods (state : gmap Uuid TunnelEntry) (events : list (outcome string WatchEvent))
    : gmap Uuid TunnelEntry :=
  match events with
  | [] => state
  | Ok e :: events =>
      match applied_object e with
      | Some pod => watch_pods (handle_pod_event state pod) events
      | None => watch_pods state events
      end
  | _ :: events => watch_pods state events
  end.

(** ** HTTP endpoint ([api.rs]) *)

Definition LF : string := String NEWLINE "".

Record HttpReply := mkReply { reply_status : Z; reply_body : option string }.

Definition entry_body (e : TunnelEntry) : string :=
  "host: " +:+ te_host e +:+ LF +:+ "port: " +:+ show (te_port e) +:+ LF
  +:+ match te_rate_limit_upload_m e with
      | Some m => "rate_limit_upload_m: " +:+ show m +:+ LF
      | None => ""
      end
  +:+ match te_rate_limit_download_m e with
      | Some m => "rate_limit_download_m: " +:+ show m +:+ LF
      | None => ""
      end.

Definition get_tunnel (state : gmap Uuid TunnelEntry) (uuid : Uuid) : HttpReply :=
  match state !! uuid with
  | None => mkReply 404 (Some "")
  | Some entry => mkReply 200 (Some (entry_body entry))
  end.
End Registry.

(** ** Resolver ([tunnel_resolver.rs]) *)

Record TunnelEndpoint := mkEndpoint {
  ep_host : Host;
  ep_port : Z;
  ep_rate_limit_upload_m : option Z;
  ep_rate_limit_download_m : option Z
}.

Record TunnelEndpointResponse := mkEndpointResponse {
  tr_host : string;
  tr_port : Z;
  tr_rate_limit_upload_m : option Z;
  tr_rate_limit_download_m : option Z;
  tr_rate_limit_m : option Z
}.

(** A YAML document that is a mapping, its keys and the scalars they have. *)
Inductive YamlValue := YNull | YInt (n : Z) | YStr (s : string).
Class YamlApi := { yaml_mapping : string → option (list (string * YamlValue)) }.

(** A line of a block mapping with a plain scalar. *)
Definition yaml_text (v : YamlValue) : string :=
  match v with YNull => "null" | YInt n => show n | YStr s => s end.
Definition yaml_line (kv : string * YamlValue) : string :=
  fst kv +:+ ": " +:+ yaml_text (snd kv) +:+ LF.
Fixpoint yaml_lines (kvs : list (string * YamlValue)) : string :=
  match kvs with [] => "" | kv :: kvs => yaml_line kv +:+ yaml_lines kvs end.

(** Keys of letters and underscores that are not a word of YAML, values that are decimal
    integers or dotted quads. *)
Definition key_char (a : ascii) : bool :=
  ((97 <=? nat_of_ascii a) && (nat_of_ascii a <=? 122))%nat || Ascii.eqb a "_"%char.
Definition plain_key (k : string) : bool :=
  negb (String.eqb k "") && forallb key_char (bytes k)
  && negb (bool_decide (k ∈ ["null"; "true"; "false"])).
Definition plain_value (v : YamlValue) : Prop :=
  match v with
  | YNull => False
  | YInt n => 0 ≤ n ≤ U64_MAX
  | YStr s => ∃ ip, ipaddr_from_str s = Some (IpV4 ip)
  end.

(** A block mapping of such lines is read as such. *)
Class YamlLaws `{YamlApi} : Prop := {
  yaml_mapping_lines kvs :
    kvs ≠ [] → Forall (λ kv, plain_key (fst kv) = true ∧ plain_value (snd kv)) kvs →
    NoDup (fst <$> kvs) → yaml_mapping (yaml_lines kvs) = Some kvs;
}.

(** [serde_yaml::from_str] into the record: [host] and [port] must be there, an absent or null
    option is [None], and numbers must fit. *)
Definition yaml_get (k : string) (m : list (string * YamlValue)) : option YamlValue :=
  snd <$> find (λ kv, String.eqb (fst kv) k) m.
Definition yaml_u16 (v : YamlValue) : option Z :=
  match v with YInt n => if (0 <=? n) && (n <=? U16_MAX) then Some n else None | _ => None end.
Definition yaml_opt_u16 (v : option YamlValue) : option (option Z) :=
  match v with None | Some YNull => Some None | Some v => Some <$> yaml_u16 v end.

Definition yaml_endpoint `{YamlApi} (payload : string) : option TunnelEndpointResponse :=
  m ← yaml_mapping payload;
  host ← match yaml_get "host" m with Some (YStr s) => Some s | _ => None end;
  port ← yaml_get "port" m; port ← yaml_u16 port;
  rate_limit_upload_m ← yaml_opt_u16 (yaml_get "rate_limit_upload_m" m);
  rate_limit_download_m ← yaml_opt_u16 (yaml_get "rate_limit_download_m" m);
  rate_limit_m ← yaml_opt_u16 (yaml_get "rate_limit_m" m);
  Some (mkEndpointResponse host port rate_limit_upload_m rate_limit_download_m rate_limit_m).

Definition parse_host (host : string) : outcome string Host :=
  let host := trim host in
  if String.eqb host "" then Err "host is empty"
  else match ipaddr_from_str host with
       | Some (IpV4 v4) => Ok (Ipv4 v4)
       | Some (IpV6 v6) => Ok (Ipv6 v6)
       | None => Ok (Domain host)
       end.

Definition cap (v : option Z) : option Z := (λ n, Z.min n 10) <$> v.

Section Resolve.
Context `{UuidApi, HttpApi, UrlApi, YamlApi}.

(** [client.request]: the exchange with the resolver. *)
Context (exchange : Request → outcome string HttpReply).

Definition is_success (status : Z) : bool := (200 <=? status) && (status <? 300).

Definition resolve_tunnel_over_http (base : Url) (id : Uuid) (authorization : option string)
    : outcome string TunnelEndpoint :=
  if negb (String.eqb (url_scheme base) "http")
  then Err "tunnel resolver only supports http:// for now"
  else
    url ← ok_or "cannot append path" (url_push base (uuid_to_string id));
    uri ← ok_or "invalid resolver uri" (uri_parse (url_as_str url));
    headers ← match authorization with
              | Some auth =>
                  if String.eqb auth "" then mret hm_empty
                  else v ← unwrap (hv_from_str auth); mret (hm_append AUTHORIZATION v hm_empty)
              | None => mret hm_empty
              end;
    resp ← exchange (mkRequest "GET" uri HTTP_11 headers);
    body ← ok_or "body" (reply_body resp);
    if negb (is_success (reply_status resp)) then Err "resolver rejected tunnel"
    else
      let payload := default "" (from_utf8 body) in
      parsed ← ok_or "cannot parse resolver response" (yaml_endpoint payload);
      host ← parse_host (tr_host parsed);
      mret (mkEndpoint host (tr_port parsed)
              (cap (opt_or (tr_rate_limit_upload_m parsed) (tr_rate_limit_m parsed)))
              (cap (opt_or (tr_rate_limit_download_m parsed) (tr_rate_limit_m parsed)))).
End Resolve.

(** ** What a pod says about its tunnel *)

Section Spec.
Context `{UuidApi}.

Definition pod_tunnel_id (pod : Pod) : option Uuid :=
  a ← annotations pod; s ← a !! ANN_TUNNEL_ID; uuid_parse_str s.

(** A pod that can take connections: it has an address, runs, is not being deleted. *)
Definition routable (pod : Pod) : bool :=
  negb (String.eqb (default "" (s ← status pod; pod_ip s)) "")
  && bool_decide ((s ← status pod; phase s) = Some "Running")
  && bool_decide (deletion_timestamp pod = None).

Definition pod_rate (pod : Pod) (annotation : string) : option Z :=
  a ← annotations pod;
  opt_or (parse_rate_limit (a !! annotation)) (parse_rate_limit (a !! ANN_TUNNEL_RATE_LIMIT)).

Definition pod_port (pod : Pod) : Z :=
  default DEFAULT_TUNNEL_PORT (a ← annotations pod; v ← a !! ANN_TUNNEL_PORT; parse_u16 v).

Definition pod_entry (pod : Pod) : option TunnelEntry :=
  if routable pod
  then Some (mkEntry (default "" (s ← status pod; pod_ip s)) (pod_port pod)
               (pod_rate pod ANN_TUNNEL_RATE_LIMIT_UPLOAD)
               (pod_rate pod ANN_TUNNEL_RATE_LIMIT_DOWNLOAD))
  else None.

Definition applied (events : list (outcome string WatchEvent)) : list Pod :=
  omap (λ e, e ← ok e; applied_object e) events.

Lemma handle_pod_event_lookup state pod id :
  handle_pod_event state pod !! id =
  if bool_decide (pod_tunnel_id pod = Some id) then pod_entry pod else state !! id.
Proof.
  unfold handle_pod_event, pod_tunnel_id, pod_entry, routable, pod_rate, pod_port.
  destruct (annotations pod) as [a|]; cbn; [|done].
  destruct (a !! ANN_TUNNEL_ID) as [s|]; cbn; [|done].
  destruct (uuid_parse_str s) as [tid|]; cbn; [|done].
  set (ip := default "" _). generalize ip. clear ip. intros ip.
  set (ph := status pod ≫= phase). generalize ph. clear ph. intros ph.
  assert (match ph with Some p => String.eqb p "Running" | None => false end
          = bool_decide (ph = Some "Running")) as ->.
  { destruct ph as [p|]; [|done]. destruct (String.eqb_spec p "Running") as [->|Hne].
    - by rewrite bool_decide_eq_true_2.
    - by rewrite bool_decide_eq_false_2 by congruence. }
  destruct (String.eqb ip ""), (bool_decide (ph = Some "Running")),
    (deletion_timestamp pod); cbn; rewrite ?lookup_delete, ?lookup_insert;
    case_bool_decide; simplify_eq; repeat case_decide; try done; congruence.
Qed.

Lemma watch_pods_fold state events :
  watch_pods state events = fold_left handle_pod_event (applied events) state.
Proof.
  revert state. induction events as [|[e| |] events IH]; intros state; cbn; [done| |done..].
  destruct (applied_object e); cbn; by rewrite IH.
Qed.

Lemma watch_pods_lookup events id :
  watch_pods app_state_new events !! id =
  match find (λ p, bool_decide (pod_tunnel_id p = Some id)) (rev (applied events)) with
  | Some p => pod_entry p
  | None => None
  end.
Proof.
  rewrite watch_pods_fold.
  pose (hit := λ (p : Pod) (k : Uuid), bool_decide (pod_tunnel_id p = Some k)).
  rewrite (fold_update_get (λ (m : gmap Uuid TunnelEntry) k, m !! k) handle_pod_event hit pod_entry).
  - unfold app_state_new. rewrite lookup_empty. done.
  - intros. apply handle_pod_event_lookup.
Qed.

Lemma parse_rate_limit_range v m : parse_rate_limit v = Some m → 0 ≤ m ≤ MAX_RATE_LIMIT_M.
Proof.
  unfold parse_rate_limit. destruct v as [s|]; cbn; [|done].
  destruct (parse_u16 (trim s)) eqn:E; cbn; [|done]. intros [= <-].
  apply parse_uint_range in E; [|done]. unfold MAX_RATE_LIMIT_M. lia.
Qed.

(** The entries the registry can hold. *)
Definition entry_wf (e : TunnelEntry) : Prop :=
  te_host e ≠ "" ∧ 0 ≤ te_port e ≤ U16_MAX
  ∧ (∀ m, te_rate_limit_upload_m e = Some m → 0 ≤ m ≤ 10)
  ∧ ∀ m, te_rate_limit_download_m e = Some m → 0 ≤ m ≤ 10.

Lemma pod_entry_wf pod e : pod_entry pod = Some e → entry_wf e.
Proof.
  unfold pod_entry. destruct (routable pod) eqn:Hr; [|done]. intros [= <-].
  unfold routable in Hr. rewrite !andb_true_iff, negb_true_iff, String.eqb_neq in Hr.
  assert (∀ ann m, pod_rate pod ann = Some m → 0 ≤ m ≤ 10) as Hrate.
  { intros ann m. unfold pod_rate. destruct (annotations pod) as [a|]; cbn; [|done].
    unfold opt_or. destruct (parse_rate_limit (a !! ann)) eqn:E; [intros [= <-]|intros E'];
      by eapply parse_rate_limit_range. }
  split; [naive_solver|]. split; [|split; cbn; apply Hrate]. cbn.
  assert (0 ≤ DEFAULT_TUNNEL_PORT ≤ U16_MAX) by done.
  unfold pod_port. destruct (annotations pod) as [a|]; cbn; [|done].
  destruct (a !! ANN_TUNNEL_PORT) as [v|]; cbn; [|done].
  unfold parse_u16. destruct (parse_uint U16_MAX v) eqn:E; cbn; [|done].
  apply parse_uint_range in E; [|done]. lia.
Qed.

(** ** Properties of the registry *)

(** The registry after any sequence of watch events: a tunnel is what the last applied
    pod with its identifier says, an entry if that pod can take connections and nothing
    otherwise; a tunnel no pod ever named is absent. *)
Theorem registry_last_event events id :
  watch_pods app_state_new events !! id =
  match find (λ p, bool_decide (pod_tunnel_id p = Some id)) (rev (applied events)) with
  | Some p => pod_entry p
  | None => None
  end.
Proof. apply watch_pods_lookup. Qed.

(** C33: Every entry the registry serves has a host, a 16-bit port and rates of at most 10. *)
Theorem registry_entries_wf events id e :
  watch_pods app_state_new events !! id = Some e → entry_wf e.
Proof. rewrite watch_pods_lookup. case_match; [apply pod_entry_wf|done]. Qed.

(** A deletion never reaches the registry: the stream only carries applied objects, so
    an entry whose pod is deleted without a last update stays. *)
Theorem registry_ignores_deletions state events pod :
  watch_pods state (events ++ [Ok (WDelete pod)]) = watch_pods state events.
Proof.
  rewrite !watch_pods_fold. unfold applied. rewrite omap_app. cbn. by rewrite app_nil_r.
Qed.

(** C35: The end of a replaced pod removes the entry of its replacement: entries are removed
    by tunnel identifier whatever their host is. *)
Theorem registry_replacement_lost events fresh stale id :
  pod_tunnel_id fresh = Some id → is_Some (pod_entry fresh) →
  pod_tunnel_id stale = Some id → routable stale = false →
  watch_pods app_state_new (events ++ [Ok (WApply fresh); Ok (WApply stale)]) !! id = None.
Proof.
  intros Hf _ Hs Hr. rewrite watch_pods_lookup. unfold applied. rewrite omap_app. cbn.
  rewrite rev_app_distr. cbn. rewrite bool_decide_eq_true_2 by done.
  unfold pod_entry. by rewrite Hr.
Qed.
End Spec.

(** ** Properties of the resolver *)

Section ResolverProperties.
Context `{UuidApi, HttpLaws, UrlApi, YamlLaws}.

Lemma cap_range v m :
  (∀ n, v = Some n → 0 ≤ n) → cap v = Some m → 0 ≤ m ≤ 10.
Proof. destruct v as [n|]; cbn; [|done]. intros Hn [= <-]. specialize (Hn n eq_refl). lia. Qed.

Lemma cap_le v m : cap v = Some m → m ≤ 10.
Proof. destruct v as [n|]; cbn; [|done]. intros [= <-]. lia. Qed.

(** Whatever the resolver service answers, the rates of a resolved endpoint are at most
    10 MiB/s. *)
Theorem resolve_caps_rates exchange base id auth ep :
  resolve_tunnel_over_http exchange base id auth = Ok ep →
  (∀ m, ep_rate_limit_upload_m ep = Some m → m ≤ 10)
  ∧ (∀ m, ep_rate_limit_download_m ep = Some m → m ≤ 10).
Proof.
  unfold resolve_tunnel_over_http. destruct (negb (String.eqb _ _)); [done|].
  intros (?&_&Hres)%bind_ok_inv. apply bind_ok_inv in Hres as (?&_&Hres).
  apply bind_ok_inv in Hres as (?&_&Hres). apply bind_ok_inv in Hres as (?&_&Hres).
  apply bind_ok_inv in Hres as (?&_&Hres). destruct (negb (is_success _)); [done|].
  apply bind_ok_inv in Hres as (?&_&Hres). apply bind_ok_inv in Hres as (?&_&[= <-]).
  cbn. eauto using cap_le.
Qed.

Lemma graphic_utf8 s : forallb (λ a, graphic_char a || Ascii.eqb a " " || Ascii.eqb a NEWLINE)
    (bytes s) = true → utf8_valid s = true.
Proof.
  induction s as [|a s IH]; cbn [bytes forallb utf8_valid]; [done|].
  rewrite andb_true_iff. intros [Ha Hs].
  assert (in_range 0 127 a = true) as ->; [|by apply IH].
  unfold in_range. unfold graphic_char in Ha. cbv zeta in *.
  destruct (Ascii.eqb_spec a " ") as [->|_]; [done|].
  destruct (Ascii.eqb_spec a NEWLINE) as [->|_]; [done|].
  rewrite !orb_false_r in Ha. lia.
Qed.

Definition body_char (a : ascii) : bool := graphic_char a || Ascii.eqb a " " || Ascii.eqb a NEWLINE.
Definition body_text (s : string) : bool := forallb body_char (bytes s).

Lemma body_text_app s t : body_text (s +:+ t) = body_text s && body_text t.
Proof. unfold body_text. by rewrite bytes_app, forallb_app. Qed.

Lemma body_text_graphic s : graphic s = true → body_text s = true.
Proof.
  unfold graphic, body_text. rewrite !forallb_forall. intros Hs a Ha. unfold body_char.
  by rewrite (Hs a Ha).
Qed.

Lemma entry_body_utf8 e : graphic (te_host e) = true → utf8_valid (entry_body e) = true.
Proof.
  intros Hh. apply graphic_utf8. change (body_text (entry_body e) = true). unfold entry_body.
  rewrite !body_text_app, (body_text_graphic (te_host e) Hh), (body_text_graphic (show _) (show_graphic _)).
  destruct (te_rate_limit_upload_m e), (te_rate_limit_download_m e);
    rewrite ?body_text_app, ?(body_text_graphic (show _) (show_graphic _)); done.
Qed.

(** The body of an entry is such a mapping, with the keys the resolver looks for. *)
Definition entry_mapping (e : TunnelEntry) : list (string * YamlValue) :=
  [("host", YStr (te_host e)); ("port", YInt (te_port e))]
  ++ match te_rate_limit_upload_m e with Some m => [("rate_limit_upload_m", YInt m)] | None => [] end
  ++ match te_rate_limit_download_m e with Some m => [("rate_limit_download_m", YInt m)] | None => [] end.

Lemma entry_body_lines e : entry_body e = yaml_lines (entry_mapping e).
Proof.
  unfold entry_body, entry_mapping, yaml_line.
  destruct (te_rate_limit_upload_m e), (te_rate_limit_download_m e);
    cbn [app yaml_lines yaml_line fst snd yaml_text]; unfold yaml_line; cbn [fst snd yaml_text];
    rewrite ?app_empty_r, ?str_app_assoc, ?app_Empty; by rewrite ?app_String, ?app_Empty.
Qed.

Lemma yaml_entry e ip :
  ipaddr_from_str (te_host e) = Some (IpV4 ip) →
  0 ≤ te_port e ≤ U16_MAX →
  (∀ m, te_rate_limit_upload_m e = Some m → 0 ≤ m ≤ U16_MAX) →
  (∀ m, te_rate_limit_download_m e = Some m → 0 ≤ m ≤ U16_MAX) →
  yaml_endpoint (entry_body e) =
  Some (mkEndpointResponse (te_host e) (te_port e) (te_rate_limit_upload_m e)
          (te_rate_limit_download_m e) None).
Proof.
  intros Hip Hport Hup Hdown. unfold yaml_endpoint. rewrite entry_body_lines, yaml_mapping_lines.
  - assert (∀ n, 0 ≤ n ≤ U16_MAX → (0 <=? n) && (n <=? U16_MAX) = true) as Hfits by (intros; lia).
    unfold entry_mapping, yaml_get, yaml_opt_u16, yaml_u16.
    destruct (te_rate_limit_upload_m e) as [u|], (te_rate_limit_download_m e) as [d|]; cbn -[Z.leb];
      by rewrite ?(Hfits (te_port e) Hport), ?(Hfits u (Hup u eq_refl)), ?(Hfits d (Hdown d eq_refl)).
  - done.
  - assert (U16_MAX ≤ U64_MAX) as Hmax by (vm_compute; discriminate). unfold entry_mapping.
    destruct (te_rate_limit_upload_m e) as [u|], (te_rate_limit_download_m e) as [d|];
      repeat constructor; cbn; try specialize (Hup u eq_refl); try specialize (Hdown d eq_refl);
      try lia; by exists ip.
  - unfold entry_mapping. destruct (te_rate_limit_upload_m e), (te_rate_limit_download_m e);
      apply (bool_decide_unpack _); by vm_compute.
Qed.

(** From the registry to the endpoint: if the resolver answers with what [get_tunnel]
    serves, a registered tunnel with an IPv4 host resolves to that address, its port and
    its rates. *)
Theorem resolve_registered exchange base id auth events e ip uri url :
  url_scheme base = "http" →
  url_push base (uuid_to_string id) = Some url → uri_parse (url_as_str url) = Some uri →
  (∀ s, auth = Some s → visible s = true) →
  (∀ h, exchange (mkRequest "GET" uri HTTP_11 h)
        = Ok (get_tunnel (watch_pods app_state_new events) id)) →
  watch_pods app_state_new events !! id = Some e →
  ipaddr_from_str (te_host e) = Some (IpV4 ip) →
  resolve_tunnel_over_http exchange base id auth =
  Ok (mkEndpoint (Ipv4 ip) (te_port e) (te_rate_limit_upload_m e) (te_rate_limit_download_m e)).
Proof.
  intros Hscheme Hurl Huri Hauth Hex He Hip.
  pose proof (dotted_graphic _ (ipaddr_from_str_v4_dotted _ _ Hip)) as Hg.
  assert (entry_wf e) as (Hhost&Hport&Hup&Hdown).
  { rewrite watch_pods_lookup in He. destruct (find _ _); [|done]. by eapply pod_entry_wf. }
  unfold resolve_tunnel_over_http. rewrite Hscheme, Hurl. cbn -[String.append]. rewrite Huri. cbn -[String.append].
  assert (∃ h, match auth with
              | Some auth => if String.eqb auth "" then mret hm_empty
                  else v ← unwrap (hv_from_str auth); mret (hm_append AUTHORIZATION v hm_empty)
              | None => mret hm_empty
              end = (Ok h : outcome string HeaderMap)) as [h ->].
  { destruct auth as [s|]; [|by eexists]. destruct (String.eqb s ""); [by eexists|].
    destruct (hv_visible s) as [v ->]; [by apply Hauth|]. by eexists. }
  cbn -[String.append]. rewrite Hex. unfold get_tunnel. rewrite He. cbn -[entry_body].
  unfold from_utf8. rewrite (entry_body_utf8 e Hg). cbn -[entry_body].
  rewrite (yaml_entry e ip); [|done|done|..].
  2: { intros m Hm. apply Hup in Hm. unfold U16_MAX. lia. }
  2: { intros m Hm. apply Hdown in Hm. unfold U16_MAX. lia. }
  cbn. unfold parse_host. rewrite trim_graphic by done.
  rewrite (proj2 (String.eqb_neq _ _)) by done. rewrite Hip. cbn. do 3 f_equal.
  - destruct (te_rate_limit_upload_m e) as [m|] eqn:E; cbn; [|done]. f_equal.
    specialize (Hup m eq_refl). lia.
  - destruct (te_rate_limit_download_m e) as [m|] eqn:E; cbn; [|done]. f_equal.
    specialize (Hdown m eq_refl). lia.
Qed.
End ResolverProperties.

(** ** A line-based reader of the body, for evaluation *)

Definition toy_yaml_value (v : string) : YamlValue :=
  if contains_char "." v then YStr v
  else match parse_u64 v with Some n => YInt n | None => YStr v end.
Definition toy_yaml_line (line : string) : option (string * YamlValue) :=
  '(k, v) ← split_once_char ":" line;
  match v with String " " v => Some (k, toy_yaml_value v) | _ => None end.
Fixpoint toy_yaml_lines (lines : list string) : option (list (string * YamlValue)) :=
  match lines with
  | [] => None
  | [line] => if String.eqb line "" then Some [] else None
  | line :: lines => kv ← toy_yaml_line line; rest ← toy_yaml_lines lines; Some (kv :: rest)
  end.

#[global] Instance toy_yaml : YamlApi :=
  {| yaml_mapping s := toy_yaml_lines (split_char NEWLINE s) |}.

Lemma graphic_no_newline s : graphic s = true → contains_char NEWLINE s = false.
Proof.
  unfold graphic. rewrite forallb_forall. intros Hs. apply not_true_iff_false.
  intros Hc%contains_char_spec%list_elem_of_In. by apply Hs in Hc.
Qed.

Lemma plain_key_no k c : plain_key k = true → key_char c = false → contains_char c k = false.
Proof.
  intros [[_ Hk]%andb_true_iff _]%andb_true_iff Hc. rewrite forallb_forall in Hk.
  apply not_true_iff_false. intros Hin%contains_char_spec%list_elem_of_In. apply Hk in Hin. congruence.
Qed.

Lemma plain_value_no_newline v : plain_value v → contains_char NEWLINE (yaml_text v) = false.
Proof.
  destruct v as [|n|t]; cbn; [done|intros _; by apply show_no_sep|].
  intros [ip Hip]. by eapply graphic_no_newline, dotted_graphic, ipaddr_from_str_v4_dotted.
Qed.

Lemma toy_yaml_value_text v : plain_value v → toy_yaml_value (yaml_text v) = v.
Proof.
  unfold toy_yaml_value. destruct v as [|n|t]; cbn [yaml_text plain_value]; [done| |].
  - intros Hn. rewrite show_no_sep by done. unfold parse_u64. by rewrite parse_uint_show.
  - intros [ip ->%ipaddr_from_str_v4_dot]. done.
Qed.

Lemma toy_yaml_line_line k v :
  plain_key k = true → plain_value v → toy_yaml_line (k +:+ ": " +:+ yaml_text v) = Some (k, v).
Proof.
  intros Hk Hv. unfold toy_yaml_line.
  rewrite (proj2 (split_once_char_Some ":" _ k (" " +:+ yaml_text v))).
  - cbn -[toy_yaml_value yaml_text]. rewrite app_String, app_Empty. by rewrite toy_yaml_value_text.
  - split; [by rewrite !app_String|by apply plain_key_no].
Qed.

#[global] Instance toy_yaml_laws : YamlLaws.
Proof.
  split. intros kvs _ Hall _. cbn [yaml_mapping toy_yaml].
  induction Hall as [|[k v] kvs [Hk Hv] _ IH]; [done|]. cbn [fst snd] in Hk, Hv.
  cbn [yaml_lines]. unfold yaml_line. cbn [fst snd]. unfold LF.
  assert (contains_char NEWLINE (k +:+ ": " +:+ yaml_text v) = false) as Hno.
  { pose proof (plain_key_no k NEWLINE Hk eq_refl) as H1. pose proof (plain_value_no_newline v Hv) as H2.
    rewrite <-no_char_bytes in *. rewrite !bytes_app, !Forall_app. split_and!; [done| |done].
    by repeat constructor. }
  replace ((k +:+ ": " +:+ yaml_text v +:+ String NEWLINE "") +:+ yaml_lines kvs)
    with ((k +:+ ": " +:+ yaml_text v) +:+ String NEWLINE (yaml_lines kvs)) by (by rewrite !str_app_assoc).
  rewrite split_char_app by done.
  cbn [toy_yaml_lines]. destruct (split_char NEWLINE (yaml_lines kvs)) as [|line lines] eqn:El.
  { by destruct (yaml_lines kvs). }
  rewrite toy_yaml_line_line by done. cbn [mbind option_bind]. by rewrite IH.
Qed.

(** ** Witnesses *)

Definition toy_pod (id : string) (ip : string) (ph : string) : Pod :=
  mkPod (Some (<[ANN_TUNNEL_ID := id]> (<[ANN_TUNNEL_RATE_LIMIT := "7"]> ∅)))
    (Some (mkPodStatus (Some ip) (Some ph))) None.
Definition toy_tunnel_id : @Uuid toy_uuid_api := 5.
Definition toy_events : list (outcome string WatchEvent) :=
  [Ok WInit; Ok (WInitApply (toy_pod "5" "10.0.0.7" "Running")); Ok WInitDone; Err "timeout"].

Lemma registry_entries_wf_witness :
  entry_wf (mkEntry "10.0.0.7" 22 (Some 7) (Some 7)).
Proof.
  apply (registry_entries_wf toy_events toy_tunnel_id). vm_compute. reflexivity.
Defined.

Lemma registry_replacement_lost_witness :
  watch_pods app_state_new
    ([] ++ [Ok (WApply (toy_pod "5" "10.0.0.8" "Running"));
            Ok (WApply (toy_pod "5" "10.0.0.7" "Succeeded"))]) !! toy_tunnel_id = None.
Proof.
  apply (registry_replacement_lost [] (toy_pod "5" "10.0.0.8" "Running")
           (toy_pod "5" "10.0.0.7" "Succeeded") toy_tunnel_id);
    try (vm_compute; reflexivity).
  eexists. vm_compute. reflexivity.
Defined.

Definition toy_base : @Url toy_url_api := mkToyUrl "http" (Domain "resolver") None "/tunnels".

Definition greedy_resolver : @Request toy_http_api → outcome string HttpReply := λ _,
  Ok (mkReply 200 (Some ("host: 10.0.0.7" +:+ LF +:+ "port: 22" +:+ LF
                         +:+ "rate_limit_m: 99" +:+ LF))).
Definition greedy_endpoint : TunnelEndpoint :=
  mkEndpoint (Ipv4 (mkIpv4 167772167)) 22 (Some 10) (Some 10).

Lemma resolve_caps_rates_witness :
  resolve_tunnel_over_http greedy_resolver toy_base toy_tunnel_id None = Ok greedy_endpoint
  ∧ 10 ≤ 10.
Proof.
  assert (resolve_tunnel_over_http greedy_resolver toy_base toy_tunnel_id None
          = Ok greedy_endpoint) as H by (vm_compute; reflexivity).
  split; [exact H|].
  exact (proj1 (resolve_caps_rates greedy_resolver toy_base toy_tunnel_id None greedy_endpoint H)
           10 eq_refl).
Defined.

Lemma resolve_registered_witness :
  resolve_tunnel_over_http
    (λ _, Ok (get_tunnel (watch_pods app_state_new toy_events) toy_tunnel_id))
    toy_base toy_tunnel_id (Some "Basic x")
  = Ok (mkEndpoint (Ipv4 (mkIpv4 167772167)) 22 (Some 7) (Some 7)).
Proof.
  apply (resolve_registered _ toy_base toy_tunnel_id (Some "Basic x") toy_events
           (mkEntry "10.0.0.7" 22 (Some 7) (Some 7)) (mkIpv4 167772167)
           ("http://resolver/tunnels/5" : @Uri toy_http_api) (mkToyUrl "http" (Domain "resolver") None "/tunnels/5")).
  - reflexivity.
  - vm_compute. reflexivity.
  - vm_compute. reflexivity.
  - intros s [= <-]. reflexivity.
  - intros h. reflexivity.
  - vm_compute. reflexivity.
  - vm_compute. reflexivity.
Defined.
