(* ===== verification/TunnelServer.v ===== *)
(** * TunnelServer: the program that serves the registry of tunnels

    Models [src/tunnel-server/src/main.rs]: start-up, the watcher task and the http server
    that share the registry of [Resolver], and the graceful shutdown.  The two tasks run
    concurrently; a run is a sequence of events in any order, and an event is one atomic part
    of the code (a pod handled, a request accepted, a request answered under the read lock).
    The stream of pods is [kube]'s, accepting and draining connections is [axum]'s. *)

From Stdlib Require Import ZArith Lia Ascii String.
From stdpp Require Import base gmap strings list.
From S2P Require Import Prelude Str Net Apis ApiModels Jwt Request Resolver.

#[local] Open Scope stdpp_scope.

(** ** Start-up *)

Record Args := mkArgs { args_bind : SocketAddr; args_namespace : string }.

(** The defaults of the command line, 127.0.0.1:9000 and every namespace. *)
Definition default_args : Args := mkArgs (SockV4 (mkIpv4 2130706433) 9000) "".

(** What the watcher asks the cluster for: [Api::all] or [Api::namespaced]. *)
Inductive WatchScope := AllNamespaces | Namespace (ns : string).
Definition watch_scope (namespace : string) : WatchScope :=
  if String.eqb namespace "" then AllNamespaces else Namespace namespace.

(** How far [axum::serve] is: serving, draining after the signal, or [main] has returned. *)
Inductive Phase := Accepting | Draining | Exited (result : outcome string ()).

Section Program.
Context `{UuidApi}.

(** The registry, whether the watcher task runs, and the requests accepted but not yet
    answered, numbered in the order of their arrival. *)
Record Program := mkProgram {
  pg_map : gmap Uuid TunnelEntry;
  pg_watching : option WatchScope;
  pg_pending : gmap nat Uuid;
  pg_next : nat;
  pg_phase : Phase
}.

(** [main] up to [axum::serve]: the client of the cluster, the watcher, the listener.  The
    context of an error replaces its text (the address is left out of the second). *)
Definition program_start (client : outcome string ()) (bind : SocketAddr → outcome string ())
    (args : Args) : outcome string Program :=
  _ ← map_err (λ _, "failed to create kubernetes client (is KUBECONFIG / in-cluster config available?)")
        client;
  let watcher := watch_scope (args_namespace args) in
  _ ← map_err (λ _, "cannot bind") (bind (args_bind args));
  mret (mkProgram app_state_new (Some watcher) ∅ 0 Accepting).

(** ** Events *)

Inductive Event :=
| WatchItem (item : outcome string WatchEvent)  (** the stream of pods yields *)
| WatchEnd                                      (** the stream of pods ends *)
| Accept (uuid : Uuid)                          (** a GET for a tunnel is accepted *)
| Answer (n : nat)                              (** its handler runs *)
| Hangup (n : nat)                              (** or its client goes away first *)
| Signal                     (** [shutdown_signal] returns, also if it cannot be installed *)
| Drained                                       (** [axum::serve] returns *)
| ServeError (e : string).                      (** or fails *)

Definition set_phase (p : Phase) (st : Program) : Program :=
  mkProgram (pg_map st) (pg_watching st) (pg_pending st) (pg_next st) p.
Definition set_pending (pending : gmap nat Uuid) (st : Program) : Program :=
  mkProgram (pg_map st) (pg_watching st) pending (pg_next st) (pg_phase st).

(** [main] returns: the watcher is aborted, and the tasks of the requests end with the
    runtime. *)
Definition program_exit (result : outcome string ()) (st : Program) : Program :=
  mkProgram (pg_map st) None ∅ (pg_next st) (Exited result).

(** One event and the answer it sends, with the number of the request it is for; [None] if it
    cannot happen in this state. *)
Definition program_step (st : Program) (e : Event) : option (Program * list (nat * HttpReply)) :=
  match pg_phase st with
  | Exited _ => None
  | phase =>
      match e with
      | WatchItem item =>
          scope ← pg_watching st;
          Some (mkProgram (watch_pods (pg_map st) [item]) (Some scope) (pg_pending st)
                  (pg_next st) phase, [])
      | WatchEnd =>
          _ ← pg_watching st;
          Some (mkProgram (pg_map st) None (pg_pending st) (pg_next st) phase, [])
      | Accept uuid =>
          match phase with
          | Accepting => Some (mkProgram (pg_map st) (pg_watching st)
                                 (<[pg_next st := uuid]> (pg_pending st)) (S (pg_next st)) phase, [])
          | _ => None
          end
      | Answer n =>
          uuid ← pg_pending st !! n;
          Some (set_pending (delete n (pg_pending st)) st, [(n, get_tunnel (pg_map st) uuid)])
      | Hangup n =>
          _ ← pg_pending st !! n; Some (set_pending (delete n (pg_pending st)) st, [])
      | Signal =>
          match phase with Accepting => Some (set_phase Draining st, []) | _ => None end
      | Drained =>
          match phase with
          | Draining => if decide (pg_pending st = ∅) then Some (program_exit (Ok ()) st, []) else None
          | _ => None
          end
      | ServeError e => Some (program_exit (Err ("server error: " +:+ e)) st, [])
      end
  end.

Fixpoint program_run (st : Program) (es : list Event) : option (Program * list (nat * HttpReply)) :=
  match es with
  | [] => Some (st, [])
  | e :: es =>
      '(st, out) ← program_step st e; '(st, out') ← program_run st es; Some (st, out ++ out')
  end.

(** ** Specification *)

(** The items the watcher handled. *)
Definition watch_item (e : Event) : option (outcome string WatchEvent) :=
  match e with WatchItem item => Some item | _ => None end.
Definition watch_items : list Event → list (outcome string WatchEvent) := omap watch_item.

(** The tunnels the requests ask for, in the order in which they were accepted. *)
Definition asked (e : Event) : option Uuid := match e with Accept uuid => Some uuid | _ => None end.
Definition requests : list Event → list Uuid := omap asked.

(** What the registry has to answer after these items: the last pod that names the tunnel
    decides. *)
Definition expected_reply (items : list (outcome string WatchEvent)) (uuid : Uuid) : HttpReply :=
  match find (λ p, bool_decide (pod_tunnel_id p = Some uuid)) (rev (applied items)) ≫= pod_entry with
  | Some e => mkReply 200 (Some (entry_body e))
  | None => mkReply 404 (Some "")
  end.

(** ** Invariants of a run *)

Lemma program_run_app st es es' :
  program_run st (es ++ es') =
  ('(st', out) ← program_run st es; '(st'', out') ← program_run st' es'; Some (st'', out ++ out')).
Proof.
  revert st. induction es as [|e es IH]; intros st; cbn.
  - by destruct (program_run st es') as [[]|].
  - destruct (program_step st e) as [[st1 o1]|]; cbn; [|done]. rewrite IH.
    destruct (program_run st1 es) as [[st2 o2]|]; cbn; [|done].
    destruct (program_run st2 es') as [[]|]; cbn; [|done]. by rewrite app_assoc.
Qed.

(** The registry is what the watcher made of the items so far, whatever else happened. *)
Lemma program_step_map st e st' out :
  program_step st e = Some (st', out) →
  pg_map st' = watch_pods (pg_map st) (option_list (watch_item e)).
Proof.
  unfold program_step. intros Hs.
  destruct (pg_phase st), e; cbn in Hs |- *; repeat (case_match; cbn in Hs);
    destruct (pg_watching st); cbn in Hs; simplify_option_eq; done.
Qed.

Lemma watch_pods_app state es es' :
  watch_pods state (es ++ es') = watch_pods (watch_pods state es) es'.
Proof. rewrite !watch_pods_fold. unfold applied. by rewrite omap_app, fold_left_app. Qed.

Lemma program_run_map st es st' out :
  program_run st es = Some (st', out) → pg_map st' = watch_pods (pg_map st) (watch_items es).
Proof.
  revert st out. induction es as [|e es IH]; intros st out; cbn; [by intros [= <- <-]|].
  destruct (program_step st e) as [[st1 o1]|] eqn:E; cbn; [|done].
  destruct (program_run st1 es) as [[st2 o2]|] eqn:E'; cbn; [|done]. intros [= <- <-].
  rewrite (IH _ _ E'), (program_step_map _ _ _ _ E), <- watch_pods_app.
  by destruct (watch_item e).
Qed.

(** Requests are pending, answered or given up by their clients, unless the server failed. *)
Definition accounted (st : Program) (es : list Event) : Prop :=
  ∀ n, (n < pg_next st)%nat →
  is_Some (pg_pending st !! n) ∨ Answer n ∈ es ∨ Hangup n ∈ es ∨ ∃ e, ServeError e ∈ es.

Lemma accounted_step st es e st' out :
  accounted st es → program_step st e = Some (st', out) → accounted st' (es ++ [e]).
Proof.
  intros Ha Hs n Hn. setoid_rewrite elem_of_app. setoid_rewrite list_elem_of_singleton.
  assert (∀ u, pg_pending st !! n = Some u → is_Some (pg_pending st' !! n)
          ∨ e = Answer n ∨ e = Hangup n ∨ ∃ x, e = ServeError x) as Hkept.
  { intros u Hu. unfold program_step in Hs.
    destruct (pg_phase st), e as [| | |m|m| | |]; cbn in Hs; try discriminate;
      destruct (pg_watching st) eqn:?; cbn in Hs; simplify_option_eq; eauto 6;
      try (destruct (decide (m = n)) as [->|]; [by eauto|left; rewrite lookup_delete_ne; by eauto]);
      try (left; destruct (decide (pg_next st = n)) as [->|];
           [by rewrite lookup_insert_eq; eauto|by rewrite lookup_insert_ne; eauto]);
      match goal with He : pg_pending st = ∅ |- _ => rewrite He in Hu; by rewrite lookup_empty in Hu end. }
  destruct (decide (n < pg_next st)%nat) as [Hlt|Hge].
  - destruct (Ha n Hlt) as [[u Hu]|[?|[?|[? ?]]]]; [|by eauto 8..].
    destruct (Hkept u Hu) as [?|[->|[->|[? ->]]]]; eauto 8.
  - left. unfold program_step in Hs.
    destruct (pg_phase st), e; cbn in Hs; try discriminate;
      destruct (pg_watching st) eqn:?; cbn in Hs; simplify_option_eq; cbn in Hn |- *; try lia;
      (assert (n = pg_next st) as -> by lia; rewrite lookup_insert_eq; by eauto).
Qed.

Lemma accounted_run st es es' st' out :
  accounted st es → program_run st es' = Some (st', out) → accounted st' (es ++ es').
Proof.
  revert st es out. induction es' as [|e es' IH]; intros st es out Ha; cbn.
  - intros [= <- <-]. by rewrite app_nil_r.
  - destruct (program_step st e) as [[st1 o1]|] eqn:E; cbn; [|done].
    destruct (program_run st1 es') as [[st2 o2]|] eqn:E'; cbn; [|done]. intros [= <- <-].
    rewrite cons_middle, app_assoc. eapply IH; [|done]. by eapply accounted_step.
Qed.

Lemma program_start_inv client bind args st :
  program_start client bind args = Ok st →
  st = mkProgram app_state_new (Some (watch_scope (args_namespace args))) ∅ 0 Accepting.
Proof.
  unfold program_start. destruct client; cbn; [|done..]. by destruct (bind _); cbn; [intros [= <-]|..].
Qed.

Lemma get_tunnel_expected items uuid :
  get_tunnel (watch_pods app_state_new items) uuid = expected_reply items uuid.
Proof.
  unfold get_tunnel, expected_reply. rewrite watch_pods_lookup. by destruct (find _ _).
Qed.

(** What is pending is what was asked for. *)
Definition pending_inv (st : Program) (es : list Event) : Prop :=
  pg_next st = length (requests es)
  ∧ ∀ n u, pg_pending st !! n = Some u → requests es !! n = Some u.

Lemma pending_step st es e st' out :
  pending_inv st es → program_step st e = Some (st', out) → pending_inv st' (es ++ [e]).
Proof.
  intros [Hn Hp] Hs. unfold pending_inv, requests in *. rewrite omap_app.
  assert (∀ n u l, requests es !! n = Some u → (requests es ++ l) !! n = Some u) as Hold.
  { intros n u l Hu. by apply lookup_app_l_Some. }
  assert (∀ n u m, delete m (pg_pending st) !! n = Some u → requests es !! n = Some u) as Hdel.
  { intros n u m [_ Hu]%lookup_delete_Some. by apply Hp. }
  unfold program_step in Hs.
  destruct (pg_phase st), e as [| |uuid|m|m| | |]; cbn in Hs; try discriminate;
    destruct (pg_watching st) eqn:?; cbn in Hs; simplify_option_eq; cbn; rewrite ?app_nil_r;
    try (split; [done|]; by eauto).
  all: rewrite length_app; cbn; split; [lia|]; intros n u [[<- <-]|[_ Hu]]%lookup_insert_Some; [|by eauto];
    rewrite Hn; by apply list_lookup_middle.
Qed.

Lemma pending_run st es es' st' out :
  pending_inv st es → program_run st es' = Some (st', out) → pending_inv st' (es ++ es').
Proof.
  revert st es out. induction es' as [|e es' IH]; intros st es out Ha; cbn.
  - intros [= <- <-]. by rewrite app_nil_r.
  - destruct (program_step st e) as [[st1 o1]|] eqn:E; cbn; [|done].
    destruct (program_run st1 es') as [[st2 o2]|] eqn:E'; cbn; [|done]. intros [= <- <-].
    rewrite cons_middle, app_assoc. eapply IH; [|done]. by eapply pending_step.
Qed.

Lemma answer_last client bind args st es n st' out :
  program_start client bind args = Ok st →
  program_run st (es ++ [Answer n]) = Some (st', out) →
  ∃ uuid out', requests es !! n = Some uuid
    ∧ out = out' ++ [(n, expected_reply (watch_items es) uuid)].
Proof.
  intros ->%program_start_inv. rewrite program_run_app.
  destruct (program_run _ es) as [[st1 o1]|] eqn:E; cbn; [|done].
  apply (pending_run _ []) in E as Hp; [|by split]. destruct Hp as [_ Hp].
  apply program_run_map in E. cbn in E. unfold program_step.
  destruct (pg_phase st1); cbn; try done;
    (destruct (pg_pending st1 !! n) as [uuid|] eqn:Hu; cbn; [|done]); intros [= <- <-];
    exists uuid, o1; (split; [by apply Hp|]); by rewrite E, get_tunnel_expected.
Qed.

(** The program ends only through the signal or a failure of the server, and a run ends
    there. *)
Lemma exited_final st r es st' out :
  pg_phase st = Exited r → program_run st es = Some (st', out) → es = [] ∧ st' = st ∧ out = [].
Proof.
  intros Hp. destruct es as [|e es]; cbn; [by intros [= <- <-]|].
  unfold program_step. by rewrite Hp.
Qed.

(** In an exit without error nothing is pending. *)
Lemma clean_exit_step st e st' out :
  program_step st e = Some (st', out) → pg_phase st' = Exited (Ok ()) → pg_pending st' = ∅.
Proof.
  unfold program_step. intros Hs Hp.
  destruct (pg_phase st) eqn:?, e; cbn in Hs; try discriminate;
    destruct (pg_watching st) eqn:?; cbn in Hs; simplify_option_eq; try done; congruence.
Qed.

(** A failure of the server ends the run with an error. *)
Lemma no_error_in_clean_exit st es st' out e :
  program_run st es = Some (st', out) → pg_phase st' = Exited (Ok ()) → ServeError e ∉ es.
Proof.
  intros Hrun Hexit (l1&l2&->)%list_elem_of_split. rewrite program_run_app in Hrun.
  destruct (program_run st l1) as [[st1 o1]|]; cbn -[program_step] in Hrun; [|done].
  destruct (program_step st1 (ServeError e)) as [[st2 o2]|] eqn:E; cbn in Hrun; [|done].
  destruct (program_run st2 l2) as [[st3 o3]|] eqn:E'; cbn in Hrun; [|done].
  injection Hrun as -> _.
  assert (pg_phase st2 = Exited (Err ("server error: " +:+ e))) as Hp.
  { unfold program_step in E. destruct (pg_phase st1); by simplify_eq. }
  destruct (exited_final _ _ _ _ _ Hp E') as (_&->&_). congruence.
Qed.

(** ** Properties *)

(** C27: Whatever the interleaving of the watcher, the clients and the shutdown, the [n]-th
    request is answered, for the tunnel it asked for, with what the last pod that names the tunnel says among the pods
    handled up to that moment: its address, port and rates if it can take connections, and
    404 otherwise or if no pod names it. *)
Theorem answers_reflect_pods client bind args st es n st' out :
  program_start client bind args = Ok st →
  program_run st (es ++ [Answer n]) = Some (st', out) →
  ∃ uuid out', requests es !! n = Some uuid
    ∧ out = out' ++ [(n, expected_reply (watch_items es) uuid)].
Proof. apply answer_last. Qed.

(** A graceful shutdown loses no request: when the program ends without error, every request
    that was accepted has been answered, or its client has gone away. *)
Theorem shutdown_answers_all client bind args st es st' out n :
  program_start client bind args = Ok st →
  program_run st es = Some (st', out) →
  pg_phase st' = Exited (Ok ()) → (n < pg_next st')%nat →
  Answer n ∈ es ∨ Hangup n ∈ es.
Proof.
  intros ->%program_start_inv Hrun Hexit Hn.
  assert (pg_pending st' = ∅) as Hempty.
  { destruct es as [|e es _] using rev_ind; [by injection Hrun as <- <-|].
    rewrite program_run_app in Hrun.
    destruct (program_run _ es) as [[st1 o1]|]; cbn in Hrun; [|done].
    destruct (program_step st1 e) as [[st2 o2]|] eqn:E; cbn in Hrun; [|done].
    injection Hrun as -> <-. by eapply clean_exit_step. }
  eapply (accounted_run _ []) in Hrun as Ha; [|intros m Hm; cbn in Hm; lia].
  destruct (Ha n Hn) as [[u Hu]|[?|[?|[e He]]]]; [|by eauto..|].
  - by rewrite Hempty, lookup_empty in Hu.
  - by edestruct no_error_in_clean_exit.
Qed.

(** When the watch ends the program goes on answering from what it has. *)
Theorem registry_outlives_watch st st1 es st' out :
  program_step st WatchEnd = Some (st1, []) →
  program_run st1 es = Some (st', out) →
  pg_map st' = pg_map st.
Proof.
  intros Hs.
  assert (pg_watching st1 = None ∧ pg_map st1 = pg_map st) as [Hw <-].
  { unfold program_step in Hs. destruct (pg_phase st), (pg_watching st); cbn in Hs; by simplify_eq. }
  clear Hs. revert st1 Hw out. induction es as [|e es IH]; intros st1 Hw out; cbn;
    [by intros [= <- <-]|].
  destruct (program_step st1 e) as [[st2 o2]|] eqn:E; cbn; [|done].
  destruct (program_run st2 es) as [[st3 o3]|] eqn:E'; cbn; [|done]. intros [= <- <-].
  assert (pg_watching st2 = None ∧ pg_map st2 = pg_map st1) as [Hw2 <-].
  { unfold program_step in E. destruct (pg_phase st1), e; cbn in E; rewrite ?Hw in E;
      cbn in E; simplify_option_eq; done. }
  by eapply IH.
Qed.
End Program.

(** ** The program and the server that asks it *)

Section Resolved.
Context `{UuidApi, HttpLaws, UrlApi, YamlLaws}.

(** The server that asks a running program gets the endpoint of the last pod of the tunnel. *)
Theorem program_resolves client bind args st es n st' out uuid out' reply exchange base auth
    pod e ip uri url :
  program_start client bind args = Ok st →
  program_run st (es ++ [Answer n]) = Some (st', out) → out = out' ++ [(n, reply)] →
  requests es !! n = Some uuid →
  (∀ h, exchange (mkRequest "GET" uri HTTP_11 h) = Ok reply) →
  url_scheme base = "http" →
  url_push base (uuid_to_string uuid) = Some url → uri_parse (url_as_str url) = Some uri →
  (∀ s, auth = Some s → visible s = true) →
  find (λ p, bool_decide (pod_tunnel_id p = Some uuid)) (rev (applied (watch_items es))) = Some pod →
  pod_entry pod = Some e → ipaddr_from_str (te_host e) = Some (IpV4 ip) →
  resolve_tunnel_over_http exchange base uuid auth =
  Ok (mkEndpoint (Ipv4 ip) (pod_port pod) (pod_rate pod ANN_TUNNEL_RATE_LIMIT_UPLOAD)
        (pod_rate pod ANN_TUNNEL_RATE_LIMIT_DOWNLOAD)).
Proof.
  intros Hst Hrun -> Hreq Hex Hscheme Hurl Huri Hauth Hpod He Hip.
  assert (e = mkEntry (te_host e) (pod_port pod) (pod_rate pod ANN_TUNNEL_RATE_LIMIT_UPLOAD)
            (pod_rate pod ANN_TUNNEL_RATE_LIMIT_DOWNLOAD)) as Heq.
  { unfold pod_entry in He. destruct (routable pod); by simplify_eq. }
  rewrite (resolve_registered exchange base uuid auth (watch_items es) e ip uri url); try done.
  - by rewrite Heq.
  - intros h. rewrite Hex, get_tunnel_expected. f_equal.
    destruct (answer_last _ _ _ _ _ _ _ _ Hst Hrun) as (u&o&Hu&Hout).
    rewrite Hreq in Hu. injection Hu as <-. by apply app_inj_tail in Hout as [_ [= ->]].
  - rewrite watch_pods_lookup, Hpod. done.
Qed.
End Resolved.

(** ** Witnesses *)

Definition toy_program : @Program toy_uuid_api :=
  mkProgram app_state_new (Some AllNamespaces) ∅ 0 Accepting.

(** A request that waits while its pod is registered is answered from the new registry, also
    after the signal. *)
Definition toy_run : list (@Event toy_uuid_api) :=
  [Accept toy_tunnel_id; WatchItem (Ok (WInitApply (toy_pod "5" "10.0.0.7" "Running")));
   WatchItem (Err "timeout"); Accept 6; Signal; Hangup 1].

Definition toy_result (es : list (@Event toy_uuid_api)) : Program * list (nat * HttpReply) :=
  default (toy_program, []) (program_run toy_program es).

Lemma toy_result_run es :
  match program_run toy_program es with Some _ => true | None => false end = true →
  program_run toy_program es = Some (fst (toy_result es), snd (toy_result es)).
Proof. unfold toy_result. by destruct (program_run toy_program es) as [[]|]. Qed.

Lemma answers_reflect_pods_witness :
  snd (toy_result (toy_run ++ [Answer 0]))
  = [(0%nat, mkReply 200 (Some (entry_body (mkEntry "10.0.0.7" 22 (Some 7) (Some 7)))))]
  ∧ ∃ uuid out', requests toy_run !! 0%nat = Some uuid
      ∧ snd (toy_result (toy_run ++ [Answer 0])) = out' ++ [(0%nat, expected_reply (watch_items toy_run) uuid)].
Proof.
  split; [vm_compute; reflexivity|].
  apply (answers_reflect_pods (Ok ()) (λ _, Ok ()) default_args toy_program toy_run 0
           (fst (toy_result (toy_run ++ [Answer 0])))).
  - reflexivity.
  - apply toy_result_run. vm_compute. reflexivity.
Defined.

Lemma shutdown_answers_all_witness :
  Answer 1 ∈ toy_run ++ [Answer 0; Drained] ∨ Hangup 1 ∈ toy_run ++ [Answer 0; Drained].
Proof.
  apply (shutdown_answers_all (Ok ()) (λ _, Ok ()) default_args toy_program
           (toy_run ++ [Answer 0; Drained]) (fst (toy_result (toy_run ++ [Answer 0; Drained])))
           (snd (toy_result (toy_run ++ [Answer 0; Drained])))).
  - reflexivity.
  - apply toy_result_run. vm_compute. reflexivity.
  - vm_compute. reflexivity.
  - vm_compute. lia.
Defined.
