(* ===== verification/ReverseTunnel.v ===== *)
(** * ReverseTunnel: the listening servers of reverse tunnels

    Models [src/wstunnel/src/tunnel/server/reverse_tunnel.rs].  Requests, listener tasks
    and the table of servers interleave; a step of the model is one of the atomic parts
    of the code: a section under the lock, a channel operation, an atomic counter
    access, an exit of the task.  [receiver_count] is the size of the set of receiver
    handles; [ls_sent] and [ls_taken] are history variables. *)

From Stdlib Require Import ZArith Lia.
From stdpp Require Import base gmap list.
From S2P Require Import Prelude Net.

#[local] Open Scope stdpp_scope.

(** The owners of a receiver handle: the item of the table, or a waiting request. *)
Inductive Holder := HItem | HReq (r : nat).

#[global] Instance Holder_eq : EqDecision Holder.
Proof. solve_decision. Defined.
#[global] Instance Holder_countable : Countable Holder.
Proof.
  apply (inj_countable' (λ h, match h with HItem => None | HReq r => Some r end)
                        (λ o, match o with None => HItem | Some r => HReq r end)).
  by intros [].
Defined.

Definition CHANNEL_BOUND : nat := 10.

Section ReverseTunnel.
(** The connections a listener produces. *)
Context {C : Type}.

(** A listener with its task and channel: [ReverseTunnelItem], the counter and the
    sender captured by the task. *)
Record Listener := mkListener {
  ls_addr : SocketAddr;
  ls_seen : nat;
  ls_queue : list C;
  ls_receivers : gset Holder;
  ls_alive : bool;
  ls_sent : list C;
  ls_taken : list C
}.

(** The progress of one call of [run_listening_server]. *)
Inductive Req :=
| Looking (addr : SocketAddr)
| Generating (addr : SocketAddr)
| Spawned (addr : SocketAddr) (l : nat)
| Awaiting (l : nat)
| Delivered (c : C)
| FailedReq.

Record State := mkState {
  servers : gmap SocketAddr nat;
  listeners : gmap nat Listener;
  reqs : gmap nat Req;
  next_listener : nat
}.

Definition initial : State := mkState ∅ ∅ ∅ 0.

Definition set_req (r : nat) (q : Req) (st : State) : State :=
  mkState (servers st) (listeners st) (<[r := q]> (reqs st)) (next_listener st).
Definition update_listener (l : nat) (f : Listener → Listener) (st : State) : State :=
  mkState (servers st) (alter f l (listeners st)) (reqs st) (next_listener st).
Definition set_servers (m : gmap SocketAddr nat) (st : State) : State :=
  mkState m (listeners st) (reqs st) (next_listener st).

(** [get_cnx_awaiter]: counts the client and clones the receiver. *)
Definition get_cnx_awaiter (r : nat) (x : Listener) : Listener :=
  mkListener (ls_addr x) (S (ls_seen x)) (ls_queue x) ({[HReq r]} ∪ ls_receivers x)
    (ls_alive x) (ls_sent x) (ls_taken x).
Definition drop_receiver (h : Holder) (x : Listener) : Listener :=
  mkListener (ls_addr x) (ls_seen x) (ls_queue x) (ls_receivers x ∖ {[h]})
    (ls_alive x) (ls_sent x) (ls_taken x).
Definition reset_seen (x : Listener) : Listener :=
  mkListener (ls_addr x) 0 (ls_queue x) (ls_receivers x) (ls_alive x) (ls_sent x) (ls_taken x).
Definition push (c : C) (x : Listener) : Listener :=
  mkListener (ls_addr x) (ls_seen x) (ls_queue x ++ [c]) (ls_receivers x) (ls_alive x)
    (ls_sent x ++ [c]) (ls_taken x).
Definition pop (c : C) (q : list C) (x : Listener) : Listener :=
  mkListener (ls_addr x) (ls_seen x) q (ls_receivers x) (ls_alive x) (ls_sent x)
    (ls_taken x ++ [c]).
Definition kill (x : Listener) : Listener :=
  mkListener (ls_addr x) (ls_seen x) (ls_queue x) (ls_receivers x) false (ls_sent x) (ls_taken x).

(** [map.remove(&addr)] and [map.insert(addr, item)]: the item that leaves the table is
    dropped with its receiver (and its task is told to stop, see [AStop]). *)
Definition drop_item (addr : SocketAddr) (st : State) : State :=
  match servers st !! addr with
  | Some l => update_listener l (drop_receiver HItem) st
  | None => st
  end.
Definition remove_server (addr : SocketAddr) (st : State) : State :=
  set_servers (delete addr (servers st)) (drop_item addr st).
Definition insert_server (addr : SocketAddr) (l : nat) (st : State) : State :=
  set_servers (<[addr := l]> (servers st)) (drop_item addr st).

(** The end of the task: the sender is dropped and the deferred closure removes
    whatever the table holds for the address.  A task that is aborted before its first poll
    has not deferred the closure yet ([AUnstarted]); only the drop of its item aborts it. *)
Definition exit_task (l : nat) (x : Listener) (st : State) : State :=
  remove_server (ls_addr x) (update_listener l kill st).

Inductive Action :=
| ANew (r : nat) (addr : SocketAddr)   (** a client asks for a reverse tunnel *)
| ALookup (r : nat)                    (** the first critical section *)
| AGenErr (r : nat)                    (** [gen_listening_server] fails *)
| ASpawn (r : nat)                     (** the listener is made and its task spawned *)
| AInsert (r : nat)                    (** [get_cnx_awaiter] and the second section *)
| AConn (l : nat) (c : C)              (** an incoming connection is sent *)
| ATick (l : nat)                      (** the idle timer *)
| AStop (l : nat)                      (** end of listener, send timeout or abort *)
| AUnstarted (l : nat)                 (** abort before the task has first run *)
| ARecv (r : nat)                      (** [recv] returns a connection *)
| ARecvClosed (r : nat)                (** [recv] fails: closed and empty *)
| ACancel (r : nat).                   (** the request is dropped while it waits *)

Definition step (st : State) (a : Action) : option State :=
  match a with
  | ANew r addr =>
      match reqs st !! r with None => Some (set_req r (Looking addr) st) | Some _ => None end
  | ALookup r =>
      match reqs st !! r with
      | Some (Looking addr) =>
          match servers st !! addr with
          | Some l => Some (set_req r (Awaiting l) (update_listener l (get_cnx_awaiter r) st))
          | None => Some (set_req r (Generating addr) st)
          end
      | _ => None
      end
  | AGenErr r =>
      match reqs st !! r with
      | Some (Generating _) => Some (set_req r FailedReq st)
      | _ => None
      end
  | ASpawn r =>
      match reqs st !! r with
      | Some (Generating addr) =>
          let l := next_listener st in
          let x := mkListener addr 0 [] {[HItem]} true [] [] in
          Some (mkState (servers st) (<[l := x]> (listeners st))
                  (<[r := Spawned addr l]> (reqs st)) (S l))
      | _ => None
      end
  | AInsert r =>
      match reqs st !! r with
      | Some (Spawned addr l) =>
          Some (set_req r (Awaiting l)
                  (insert_server addr l (update_listener l (get_cnx_awaiter r) st)))
      | _ => None
      end
  | AConn l c =>
      match listeners st !! l with
      | Some x =>
          if ls_alive x
          then if bool_decide (ls_receivers x = ∅) then Some st
               else if Nat.ltb (List.length (ls_queue x)) CHANNEL_BOUND
               then Some (update_listener l (push c) st) else None
          else None
      | None => None
      end
  | ATick l =>
      match listeners st !! l with
      | Some x =>
          if ls_alive x
          then if Nat.eqb (ls_seen x) 0 && Nat.leb (size (ls_receivers x)) 1
               then Some (exit_task l x st)
               else Some (update_listener l reset_seen st)
          else None
      | None => None
      end
  | AStop l =>
      match listeners st !! l with
      | Some x => if ls_alive x then Some (exit_task l x st) else None
      | None => None
      end
  | AUnstarted l =>
      match listeners st !! l with
      | Some x => if ls_alive x && bool_decide (HItem ∉ ls_receivers x)
                  then Some (update_listener l kill st) else None
      | None => None
      end
  | ARecv r =>
      match reqs st !! r with
      | Some (Awaiting l) =>
          match listeners st !! l with
          | Some x =>
              match ls_queue x with
              | c :: q => Some (set_req r (Delivered c)
                            (update_listener l (λ x, drop_receiver (HReq r) (pop c q x)) st))
              | [] => None
              end
          | None => None
          end
      | _ => None
      end
  | ARecvClosed r =>
      match reqs st !! r with
      | Some (Awaiting l) =>
          match listeners st !! l with
          | Some x => if negb (ls_alive x) && bool_decide (List.length (ls_queue x) = 0%nat)
                      then Some (set_req r FailedReq
                                   (update_listener l (drop_receiver (HReq r)) st))
                      else None
          | None => None
          end
      | _ => None
      end
  | ACancel r =>
      match reqs st !! r with
      | Some (Awaiting l) =>
          Some (set_req r FailedReq (update_listener l (drop_receiver (HReq r)) st))
      | _ => None
      end
  end.

Fixpoint run (st : State) (acts : list Action) : option State :=
  match acts with
  | [] => Some st
  | a :: acts => st ← step st a; run st acts
  end.

Definition reachable (st : State) : Prop := ∃ acts, run initial acts = Some st.
End ReverseTunnel.

Arguments Listener : clear implicits.
Arguments Req : clear implicits.
Arguments State : clear implicits.
Arguments Action : clear implicits.

(** ** The invariant *)

Section Invariant.
Context {C : Type}.
Implicit Types (st : State C) (x : Listener C) (f : Listener C → Listener C).

(** What the channel carried is what was taken followed by what waits, in order. *)
Definition history_ok (x : Listener C) : Prop :=
  ls_sent x = ls_taken x ++ ls_queue x ∧ (List.length (ls_queue x) ≤ CHANNEL_BOUND)%nat.

(** The listener [l] of [addr] exists and [h] holds a receiver of it. *)
Definition holds st (l : nat) (addr : option SocketAddr) (h : Holder) : Prop :=
  ∃ x, listeners st !! l = Some x ∧ h ∈ ls_receivers x
    ∧ match addr with Some a => ls_addr x = a | None => True end.

Record Inv st : Prop := {
  inv_server addr l : servers st !! addr = Some l → holds st l (Some addr) HItem;
  inv_waiting r l : reqs st !! r = Some (Awaiting l) → holds st l None (HReq r);
  inv_spawned r addr l : reqs st !! r = Some (Spawned addr l) → holds st l (Some addr) HItem;
  inv_unregistered r addr l addr' : reqs st !! r = Some (Spawned addr l) →
    servers st !! addr' ≠ Some l;
  inv_unique r r' addr addr' l : reqs st !! r = Some (Spawned addr l) →
    reqs st !! r' = Some (Spawned addr' l) → r = r';
  inv_listener l x : listeners st !! l = Some x → (l < next_listener st)%nat ∧ history_ok x
}.

(** On the listener [l], [f] keeps the address, the history and the handles other than
    those in [D]. *)
Definition keeps st (l : nat) (D : Holder → Prop) f : Prop :=
  ∀ x, listeners st !! l = Some x → ls_addr (f x) = ls_addr x
    ∧ (∀ h, h ∈ ls_receivers x → D h ∨ h ∈ ls_receivers (f x))
    ∧ (history_ok x → history_ok (f x)).

Lemma holds_update st l f D l' a h :
  keeps st l D f → (D h → l' ≠ l) → holds st l' a h → holds (update_listener l f st) l' a h.
Proof.
  intros Hk HD (x&Hx&Hh&Ha). unfold holds, update_listener. cbn.
  destruct (decide (l' = l)) as [->|Hne].
  - exists (f x). rewrite lookup_alter_eq, Hx. destruct (Hk x Hx) as (Hka&Hkh&_).
    split; [done|]. split; [|by destruct a; rewrite ?Hka].
    destruct (Hkh h Hh) as [Hd|?]; [by destruct (HD Hd)|done].
  - exists x. by rewrite lookup_alter_ne.
Qed.

Lemma listener_update st l f D l' x :
  keeps st l D f →
  (∀ l x, listeners st !! l = Some x → (l < next_listener st)%nat ∧ history_ok x) →
  listeners (update_listener l f st) !! l' = Some x →
  (l' < next_listener st)%nat ∧ history_ok x.
Proof.
  intros Hk Hinv. cbn. rewrite lookup_alter. case_decide; [|apply Hinv].
  subst. destruct (listeners st !! l') as [y|] eqn:Hy; [|done]. intros [= <-].
  destruct (Hinv _ _ Hy). split; [done|]. by apply (Hk y Hy).
Qed.

(** Updates that release no handle. *)
Lemma inv_update st l f : keeps st l (λ _, False) f → Inv st → Inv (update_listener l f st).
Proof.
  intros Hk []. split; cbn.
  - intros a l' Hs. eapply (holds_update _ _ _ _ _ _ _ Hk); [done|]. by apply inv_server0.
  - intros r l' Hr. eapply (holds_update _ _ _ _ _ _ _ Hk); [done|]. by apply inv_waiting0.
  - intros r a l' Hr. eapply (holds_update _ _ _ _ _ _ _ Hk); [done|]. by eapply inv_spawned0.
  - done.
  - done.
  - intros l' x. by eapply listener_update.
Qed.

(** A request moves to a state that needs no handle. *)
Lemma inv_set_req st r q :
  (∀ l, q ≠ Awaiting l) → (∀ a l, q ≠ Spawned a l) → Inv st → Inv (set_req r q st).
Proof.
  intros Hq1 Hq2 []. split; cbn; eauto.
  - intros r' l. rewrite lookup_insert. case_decide; [naive_solver|].
    intros Hr. destruct (inv_waiting0 _ _ Hr) as (x&?&?&?). by exists x.
  - intros r' a l. rewrite lookup_insert. case_decide; [naive_solver|].
    intros Hr. destruct (inv_spawned0 _ _ _ Hr) as (x&?&?&?). by exists x.
  - intros r' a l a'. rewrite lookup_insert. case_decide; naive_solver.
  - intros r1 r2 a a' l. rewrite !lookup_insert. repeat case_decide; naive_solver.
Qed.

(** A waiting request leaves with its handle. *)
Lemma inv_leave st r l q f :
  reqs st !! r = Some (Awaiting l) → keeps st l (λ h, h = HReq r) f →
  (∀ l, q ≠ Awaiting l) → (∀ a l, q ≠ Spawned a l) →
  Inv st → Inv (set_req r q (update_listener l f st)).
Proof.
  intros Hr Hk Hq1 Hq2 []. split; cbn.
  - intros a l' Hs. eapply (holds_update _ _ _ _ _ _ _ Hk); [done|]. by apply inv_server0.
  - intros r' l'. rewrite lookup_insert. case_decide; [naive_solver|]. intros Hr'.
    eapply (holds_update _ _ _ _ _ _ _ Hk); [naive_solver|]. by apply inv_waiting0.
  - intros r' a l'. rewrite lookup_insert. case_decide; [naive_solver|]. intros Hr'.
    eapply (holds_update _ _ _ _ _ _ _ Hk); [done|]. by eapply inv_spawned0.
  - intros r' a l' a'. rewrite lookup_insert. case_decide; naive_solver.
  - intros r1 r2 a a' l'. rewrite !lookup_insert. repeat case_decide; naive_solver.
  - intros l' x. by eapply listener_update.
Qed.

Lemma keeps_awaiter st l r : keeps st l (λ _, False) (get_cnx_awaiter r).
Proof. intros x _. cbn. split; [done|]. split; [set_solver|done]. Qed.
Lemma keeps_drop st l h : keeps st l (λ h', h' = h) (drop_receiver h).
Proof.
  intros x _. cbn. split; [done|]. split; [|done]. intros h' Hh'.
  destruct (decide (h' = h)); [by left|right; set_solver].
Qed.
Lemma keeps_reset st l : keeps st l (λ _, False) reset_seen.
Proof. intros x _. cbn. split; [done|]. split; [auto|done]. Qed.
Lemma keeps_kill st l : keeps st l (λ _, False) kill.
Proof. intros x _. cbn. split; [done|]. split; [auto|done]. Qed.

Lemma keeps_push st l c x :
  listeners st !! l = Some x → (List.length (ls_queue x) < CHANNEL_BOUND)%nat →
  keeps st l (λ _, False) (push c).
Proof.
  intros Hx Hlen y Hy. simplify_eq. cbn. split; [done|]. split; [auto|].
  intros [Hs _]. split; cbn; [by rewrite Hs, app_assoc|]. rewrite length_app. cbn. lia.
Qed.
Lemma keeps_pop st l r c q x :
  listeners st !! l = Some x → ls_queue x = c :: q →
  keeps st l (λ h, h = HReq r) (λ x, drop_receiver (HReq r) (pop c q x)).
Proof.
  intros Hx Hq y Hy. simplify_eq. cbn. split; [done|]. split.
  - intros h Hh. destruct (decide (h = HReq r)); [by left|right; set_solver].
  - intros [Hs Hl]. rewrite Hq in Hs, Hl. split; cbn in *; [by rewrite Hs, <-app_assoc|lia].
Qed.

(** The table forgets an address: the item's handle goes with it. *)
Lemma inv_remove_server st addr : Inv st → Inv (remove_server addr st).
Proof.
  intros Hinv. unfold remove_server, drop_item.
  destruct (servers st !! addr) as [l|] eqn:Hl.
  - pose proof (keeps_drop st l HItem) as Hk. destruct (inv_server _ Hinv _ _ Hl) as (x&Hx&_&Hax).
    destruct Hinv. split; cbn.
    + intros a l'. rewrite lookup_delete. case_decide; [done|]. intros Ha.
      eapply (holds_update _ _ _ _ _ _ _ Hk); [|by apply inv_server0].
      intros _ ->. destruct (inv_server0 _ _ Ha) as (y&Hy&_&Hay). naive_solver.
    + intros r l' Hr. eapply (holds_update _ _ _ _ _ _ _ Hk); [done|]. by apply inv_waiting0.
    + intros r a l' Hr. eapply (holds_update _ _ _ _ _ _ _ Hk); [|by eapply inv_spawned0].
      intros _ ->. by eapply inv_unregistered0.
    + intros r a l' a' Hr. rewrite lookup_delete. case_decide; naive_solver.
    + naive_solver.
    + intros l' y. by eapply listener_update.
  - destruct Hinv. split; cbn; eauto.
    + intros a l'. rewrite lookup_delete. case_decide; [done|]. eauto.
    + intros r a l' a' Hr. rewrite lookup_delete. case_decide; naive_solver.
Qed.

Lemma inv_exit st l x : Inv st → Inv (exit_task l x st).
Proof. intros Hinv. by apply inv_remove_server, inv_update; [apply keeps_kill|]. Qed.

Lemma insert_server_remove addr l st :
  insert_server addr l st = set_servers (<[addr := l]> (servers (remove_server addr st)))
                              (remove_server addr st).
Proof.
  unfold insert_server, remove_server, set_servers. cbn. by rewrite insert_delete_eq.
Qed.

(** A spawned request registers its listener and waits. *)
Lemma inv_register st r addr l :
  Inv st → reqs st !! r = Some (Spawned addr l) → holds st l None (HReq r) →
  Inv (set_req r (Awaiting l) (set_servers (<[addr := l]> (servers st)) st)).
Proof.
  intros [] Hr Hw. split; cbn.
  - intros a l'. rewrite lookup_insert. case_decide; [|apply inv_server0].
    intros [= <-]. subst. by eapply inv_spawned0.
  - intros r' l'. rewrite lookup_insert. case_decide; [naive_solver|apply inv_waiting0].
  - intros r' a l'. rewrite lookup_insert. case_decide; [done|apply inv_spawned0].
  - intros r' a l' a'. rewrite !lookup_insert. repeat case_decide; naive_solver.
  - intros r1 r2 a a' l'. rewrite !lookup_insert. repeat case_decide; naive_solver.
  - apply inv_listener0.
Qed.

Lemma inv_spawn st r addr :
  Inv st →
  Inv (mkState (servers st)
         (<[next_listener st := mkListener addr 0 [] {[HItem]} true [] []]> (listeners st))
         (<[r := Spawned addr (next_listener st)]> (reqs st)) (S (next_listener st))).
Proof.
  intros [].
  assert (∀ l a h, holds st l a h → l ≠ next_listener st) as Hne.
  { intros l a h (x&Hx&_). apply inv_listener0 in Hx as [? _]. lia. }
  assert (∀ l a h, holds st l a h →
    holds (mkState (servers st)
         (<[next_listener st := mkListener addr 0 [] {[HItem]} true [] []]> (listeners st))
         (<[r := Spawned addr (next_listener st)]> (reqs st)) (S (next_listener st))) l a h) as Hh.
  { intros l a h Hl. pose proof (Hne _ _ _ Hl). destruct Hl as (x&?&?&?). exists x.
    cbn. by rewrite lookup_insert_ne by done. }
  split; cbn.
  - intros a l Ha. by apply Hh, inv_server0.
  - intros r' l. rewrite lookup_insert. case_decide; [done|]. intros Hr. by apply Hh, inv_waiting0.
  - intros r' a l. rewrite lookup_insert. case_decide.
    + intros [= <- <-]. eexists. cbn. rewrite lookup_insert_eq. split; [done|].
      split; [set_solver|done].
    + intros Hr. by eapply Hh, inv_spawned0.
  - intros r' a l a'. rewrite lookup_insert. case_decide; [|apply inv_unregistered0].
    intros [= <- <-] Hs. by destruct (Hne _ _ _ (inv_server0 _ _ Hs)).
  - intros r1 r2 a a' l. rewrite !lookup_insert. repeat case_decide; subst; try done;
      [| |apply inv_unique0]; intros Hr1 Hr2; simplify_eq; exfalso.
    + by destruct (Hne _ _ _ (inv_spawned0 _ _ _ Hr2)).
    + by destruct (Hne _ _ _ (inv_spawned0 _ _ _ Hr1)).
  - intros l x. rewrite lookup_insert. case_decide.
    + intros [= <-]. split; [lia|]. by split; cbn; [|unfold CHANNEL_BOUND; lia].
    + intros Hx. apply inv_listener0 in Hx as [? ?]. split; [lia|done].
Qed.

Lemma reqs_update l f st : reqs (update_listener l f st) = reqs st.
Proof. done. Qed.
Lemma reqs_remove_server addr st : reqs (remove_server addr st) = reqs st.
Proof. unfold remove_server, drop_item. by case_match. Qed.
Lemma servers_remove_server addr st : servers (remove_server addr st) = delete addr (servers st).
Proof. done. Qed.

Lemma holds_remove_server addr st l a h :
  h ≠ HItem → holds st l a h → holds (remove_server addr st) l a h.
Proof.
  intros Hh Hl. unfold remove_server, drop_item. case_match; [|done].
  change (holds (update_listener n (drop_receiver HItem) st) l a h).
  eapply holds_update; [apply keeps_drop|done|done].
Qed.

Lemma inv_insert st r addr l :
  Inv st → reqs st !! r = Some (Spawned addr l) →
  Inv (set_req r (Awaiting l)
         (insert_server addr l (update_listener l (get_cnx_awaiter r) st))).
Proof.
  intros Hinv Hr. rewrite insert_server_remove.
  destruct (inv_spawned _ Hinv _ _ _ Hr) as (x&Hx&_).
  apply inv_register.
  - apply inv_remove_server, inv_update; [apply keeps_awaiter|done].
  - by rewrite reqs_remove_server, reqs_update.
  - apply holds_remove_server; [done|]. exists (get_cnx_awaiter r x). cbn.
    rewrite lookup_alter_eq, Hx. split; [done|]. split; [set_solver|done].
Qed.

Lemma inv_lookup st r l :
  Inv st → (∃ addr, servers st !! addr = Some l) →
  (∀ a l, reqs st !! r ≠ Some (Spawned a l)) →
  Inv (set_req r (Awaiting l) (update_listener l (get_cnx_awaiter r) st)).
Proof.
  intros Hinv [addr Ha] Hr. destruct (inv_server _ Hinv _ _ Ha) as (x&Hx&_).
  pose proof (inv_update st l _ (keeps_awaiter st l r) Hinv) as []. split; cbn in *.
  - done.
  - intros r' l'. rewrite lookup_insert. case_decide; [|apply inv_waiting0].
    intros [= <-]. subst. exists (get_cnx_awaiter r' x). cbn. rewrite lookup_alter_eq, Hx.
    split; [done|]. split; [set_solver|done].
  - intros r' a l'. rewrite lookup_insert. case_decide; [done|apply inv_spawned0].
  - intros r' a l' a'. rewrite lookup_insert. case_decide; [done|apply inv_unregistered0].
  - intros r1 r2 a a' l'. rewrite !lookup_insert. repeat case_decide; naive_solver.
  - done.
Qed.

Lemma step_inv st act st' : Inv st → step st act = Some st' → Inv st'.
Proof.
  intros Hinv. destruct act; cbn [step].
  - destruct (reqs st !! r); intros; simplify_eq. by apply inv_set_req.
  - destruct (reqs st !! r) as [[]|] eqn:Hr; try done.
    destruct (servers st !! addr) eqn:Hs; intros; simplify_eq; [|by apply inv_set_req].
    apply inv_lookup; [done|by eauto|]. intros ??. by rewrite Hr.
  - destruct (reqs st !! r) as [[]|]; intros; simplify_eq. by apply inv_set_req.
  - destruct (reqs st !! r) as [[]|]; intros; simplify_eq. by apply inv_spawn.
  - destruct (reqs st !! r) as [[]|] eqn:Hr; intros; simplify_eq. by apply inv_insert.
  - destruct (listeners st !! l) as [x|] eqn:Hx; [|done]. destruct (ls_alive x); [|done].
    destruct (bool_decide _); [by intros [= <-]|].
    destruct (Nat.ltb_spec (List.length (ls_queue x)) CHANNEL_BOUND) as [Hb|]; [|done].
    intros [= <-]. apply inv_update; [by eapply keeps_push|done].
  - destruct (listeners st !! l) as [x|]; [|done]. destruct (ls_alive x); [|done].
    destruct (_ && _); intros [= <-]; [by apply inv_exit|].
    by apply inv_update; [apply keeps_reset|].
  - destruct (listeners st !! l) as [x|]; [|done]. destruct (ls_alive x); [|done].
    intros [= <-]. by apply inv_exit.
  - destruct (listeners st !! l) as [x|]; [|done]. destruct (_ && _); [|done].
    intros [= <-]. by apply inv_update; [apply keeps_kill|].
  - destruct (reqs st !! r) as [[]|] eqn:Hr; try done.
    destruct (listeners st !! l) as [x|] eqn:Hx; [|done].
    destruct (ls_queue x) as [|c q] eqn:Hq; [done|]. intros [= <-].
    eapply inv_leave; [done|by eapply keeps_pop|done..].
  - destruct (reqs st !! r) as [[]|] eqn:Hr; try done.
    destruct (listeners st !! l) as [x|] eqn:Hx; [|done]. destruct (_ && _); [|done].
    intros [= <-]. by eapply inv_leave; [done|apply keeps_drop|..].
  - destruct (reqs st !! r) as [[]|] eqn:Hr; try done.
    intros [= <-]. by eapply inv_leave; [done|apply keeps_drop|..].
Qed.
End Invariant.

Section Runs.
Context {C : Type}.
Implicit Types (st : State C) (x : Listener C) (acts : list (Action C)).

Lemma initial_inv : Inv (initial (C := C)).
Proof. split; cbn; intros *; by rewrite !lookup_empty. Qed.

Lemma run_preserves (P : State C → Prop) st acts st' :
  (∀ st a st', P st → step st a = Some st' → P st') → P st → run st acts = Some st' → P st'.
Proof.
  intros Hstep. revert st. induction acts as [|a acts IH]; intros st HP; cbn.
  - by intros [= <-].
  - destruct (step st a) as [st1|] eqn:E; cbn; [|done]. eauto.
Qed.

Lemma reachable_inv st : reachable st → Inv st.
Proof. intros [acts Hrun]. eapply run_preserves; [apply step_inv|apply initial_inv|done]. Qed.

(** ** Live registrations *)

(** Every address of the table has a running listener. *)
Definition all_live st : Prop :=
  ∀ addr l, servers st !! addr = Some l →
    ∃ x, listeners st !! l = Some x ∧ ls_alive x = true.

Lemma listeners_remove_server st addr l x :
  listeners st !! l = Some x →
  ∃ y, listeners (remove_server addr st) !! l = Some y
    ∧ ls_alive y = ls_alive x ∧ ls_addr y = ls_addr x ∧ ls_queue y = ls_queue x
    ∧ ls_taken y = ls_taken x.
Proof.
  intros Hx. unfold remove_server, drop_item. case_match; [|by exists x].
  cbn. rewrite lookup_alter. case_decide; [subst|by exists x].
  rewrite Hx. eexists. by split.
Qed.

Lemma exit_live st l x :
  Inv st → listeners st !! l = Some x → all_live st → all_live (exit_task l x st).
Proof.
  intros Hinv Hx Hlive addr l' Hs. unfold exit_task in Hs.
  rewrite servers_remove_server, lookup_delete in Hs. case_decide; [done|]. cbn in Hs.
  destruct (Hlive _ _ Hs) as (y&Hy&Ha).
  assert (l' ≠ l) as Hne.
  { intros ->. destruct (inv_server _ Hinv _ _ Hs) as (z&Hz&_&?). simplify_eq. }
  assert (listeners (update_listener l kill st) !! l' = Some y) as Hy'
    by by cbn; rewrite lookup_alter_ne.
  destruct (listeners_remove_server _ (ls_addr x) _ _ Hy') as (z&Hz&Hza&_).
  exists z. by rewrite Hza.
Qed.

Lemma update_live st l f :
  (∀ x, ls_alive (f x) = ls_alive x) → all_live st → all_live (update_listener l f st).
Proof.
  intros Hf Hlive addr l' Hs. destruct (Hlive _ _ Hs) as (x&Hx&Ha). cbn.
  rewrite lookup_alter. case_decide; [subst|by eauto]. rewrite Hx. eexists.
  split; [done|]. by rewrite Hf.
Qed.

Lemma insert_live st r addr l x :
  listeners st !! l = Some x → ls_alive x = true → all_live st →
  all_live (set_req r (Awaiting l)
              (insert_server addr l (update_listener l (get_cnx_awaiter r) st))).
Proof.
  intros Hx Hal Hlive. rewrite insert_server_remove. intros addr' l'. cbn.
  assert (∀ l' y, listeners st !! l' = Some y → ls_alive y = true →
    ∃ z, listeners (remove_server addr (update_listener l (get_cnx_awaiter r) st)) !! l' = Some z
      ∧ ls_alive z = true) as Hkeep.
  { intros l1 y Hy Hya.
    assert (∃ y', listeners (update_listener l (get_cnx_awaiter r) st) !! l1 = Some y'
                  ∧ ls_alive y' = true) as (y'&Hy'&Hya').
    { cbn. rewrite lookup_alter. case_decide; [subst|by eauto]. rewrite Hy. by eexists. }
    destruct (listeners_remove_server _ addr _ _ Hy') as (z&Hz&Hza&_). exists z. by rewrite Hza. }
  rewrite insert_delete_eq, lookup_insert. case_decide; [intros [= <-]; by eapply Hkeep|].
  intros Hs. destruct (Hlive _ _ Hs) as (y&Hy&Hya). by eapply Hkeep.
Qed.

(** Steps other than the registration of a spawned listener keep the table live. *)
Lemma step_live st act st' :
  Inv st → all_live st → (∀ r, act ≠ AInsert r) → step st act = Some st' → all_live st'.
Proof.
  intros Hinv Hlive Hact. destruct act; cbn [step]; [..|].
  - destruct (reqs st !! r); intros; by simplify_eq.
  - destruct (reqs st !! r) as [[]|]; try done.
    destruct (servers st !! addr); intros; simplify_eq; [|done].
    by apply (update_live st).
  - destruct (reqs st !! r) as [[]|]; intros; by simplify_eq.
  - destruct (reqs st !! r) as [[]|]; intros; simplify_eq. intros a l Hs. cbn in *.
    destruct (inv_server _ Hinv _ _ Hs) as (x&Hx&_).
    destruct (inv_listener _ Hinv _ _ Hx) as [Hlt _].
    rewrite lookup_insert_ne by lia. by apply (Hlive a).
  - by destruct (Hact r).
  - destruct (listeners st !! l) as [x|]; [|done]. destruct (ls_alive x); [|done].
    destruct (bool_decide _); [by intros [= <-]|]. destruct (Nat.ltb _ _); [|done].
    intros [= <-]. by apply update_live.
  - destruct (listeners st !! l) as [x|] eqn:Hx; [|done]. destruct (ls_alive x); [|done].
    destruct (_ && _); intros [= <-]; [by apply exit_live|by apply update_live].
  - destruct (listeners st !! l) as [x|] eqn:Hx; [|done]. destruct (ls_alive x); [|done].
    intros [= <-]. by apply exit_live.
  - destruct (listeners st !! l) as [x|] eqn:Hx; [|done].
    destruct (_ && bool_decide _) eqn:Hb; [|done].
    apply andb_true_iff in Hb as [_ Hb%bool_decide_eq_true]. intros [= <-] a l' Hs. cbn in *.
    destruct (inv_server _ Hinv _ _ Hs) as (y&Hy&Hi&_).
    destruct (decide (l = l')) as [->|Hne]; [|rewrite lookup_alter_ne by done; by apply (Hlive a)].
    simplify_eq. set_solver.
  - destruct (reqs st !! r) as [[]|]; try done.
    destruct (listeners st !! l) as [x|]; [|done]. destruct (ls_queue x); [done|].
    intros [= <-]. by apply (update_live st).
  - destruct (reqs st !! r) as [[]|]; try done.
    destruct (listeners st !! l) as [x|]; [|done]. destruct (_ && _); [|done].
    intros [= <-]. by apply (update_live st).
  - destruct (reqs st !! r) as [[]|]; try done. intros [= <-]. by apply (update_live st).
Qed.

(** Schedules in which a listener is registered before its task runs. *)
Fixpoint prompt (acts : list (Action C)) : bool :=
  match acts with
  | ASpawn r :: AInsert r' :: acts => Nat.eqb r r' && prompt acts
  | ASpawn _ :: _ | AInsert _ :: _ => false
  | _ :: acts => prompt acts
  | [] => true
  end.

Lemma prompt_live st acts st' :
  Inv st → all_live st → prompt acts = true → run st acts = Some st' → all_live st'.
Proof.
  revert st. remember (List.length acts) as n eqn:Hn. revert acts Hn.
  induction (lt_wf n) as [n _ IH]. intros acts -> st Hinv Hlive Hp Hrun.
  destruct acts as [|a acts]; [by simplify_eq/=|]. cbn in Hrun.
  destruct (step st a) as [st1|] eqn:Hs; cbn in Hrun; [|done].
  assert (Inv st1) by by eapply step_inv.
  assert ((∃ r, a = ASpawn r) ∨ ∀ r, a ≠ ASpawn r) as [[r ->]|Hns]
    by (destruct a; naive_solver).
  - destruct acts as [|[] acts]; cbn in Hp; try done.
    apply andb_true_iff in Hp as [->%Nat.eqb_eq Hp]. cbn [run] in Hrun.
    destruct (step st1 (AInsert r0)) as [st2|] eqn:Hs2; cbn in Hrun; [|done].
    refine (IH _ _ acts eq_refl st2 _ _ Hp Hrun); [cbn; lia|by eapply step_inv; [|exact Hs2]|].
    assert (all_live st1) as Hl1 by by eapply step_live; [| | |exact Hs].
    cbn in Hs. destruct (reqs st !! r0) as [[]|]; try done. simplify_eq.
    cbn [step reqs] in Hs2. rewrite lookup_insert_eq in Hs2. simplify_eq.
    eapply insert_live; [by cbn; rewrite lookup_insert_eq|done|done].
  - refine (IH _ _ acts eq_refl st1 _ _ _ Hrun); [cbn; lia|done| |].
    + eapply (step_live st); [done|done| |done]. intros r ->. by destruct acts.
    + destruct a; try done. by destruct (Hns r).
Qed.

(** ** Addresses that have become unusable *)

(** The table has an entry for the address, all its listeners are dead and drained, and
    no request is about to make a new one. *)
Definition unusable (addr : SocketAddr) st : Prop :=
  Inv st
  ∧ is_Some (servers st !! addr)
  ∧ (∀ l x, listeners st !! l = Some x → ls_addr x = addr →
       ls_alive x = false ∧ ls_queue x = [] ∧ ls_taken x = [])
  ∧ ∀ r q, reqs st !! r = Some q → q ≠ Generating addr ∧ ∀ l, q ≠ Spawned addr l.

Lemma unusable_update addr st l f r q :
  (∀ x, ls_addr (f x) = ls_addr x) →
  (∀ x, listeners st !! l = Some x → ls_addr x = addr →
     ls_alive (f x) = ls_alive x ∧ ls_queue (f x) = ls_queue x ∧ ls_taken (f x) = ls_taken x) →
  q ≠ Generating addr → (∀ l, q ≠ Spawned addr l) →
  unusable addr st → Inv (set_req r q (update_listener l f st)) →
  unusable addr (set_req r q (update_listener l f st)).
Proof.
  intros Hfa Hf Hq1 Hq2 (_&Hs&Hl&Hr) Hinv. split; [done|]. split; [done|]. split; cbn.
  - intros l' y. rewrite lookup_alter. case_decide; [|apply Hl]. subst.
    destruct (listeners st !! l') as [x|] eqn:Hx; [|done]. intros [= <-] Ha.
    rewrite Hfa in Ha. destruct (Hf x eq_refl Ha) as (->&->&->). by eapply Hl.
  - intros r' q'. rewrite lookup_insert. case_decide; [naive_solver|apply Hr].
Qed.

Lemma unusable_set_req addr st r q :
  q ≠ Generating addr → (∀ l, q ≠ Spawned addr l) →
  unusable addr st → Inv (set_req r q st) → unusable addr (set_req r q st).
Proof.
  intros Hq1 Hq2 (_&Hs&Hl&Hr) Hinv. split; [done|]. split; [done|]. split; [done|]. cbn.
  intros r' q'. rewrite lookup_insert. case_decide; [naive_solver|apply Hr].
Qed.

Lemma unusable_listener_update addr st l f :
  (∀ x, ls_addr (f x) = ls_addr x) →
  (∀ x, listeners st !! l = Some x → ls_addr x = addr →
     ls_alive (f x) = ls_alive x ∧ ls_queue (f x) = ls_queue x ∧ ls_taken (f x) = ls_taken x) →
  unusable addr st → Inv (update_listener l f st) → unusable addr (update_listener l f st).
Proof.
  intros Hfa Hf (_&Hs&Hl&Hr) Hinv. split; [done|]. split; [done|]. split; [|done]. cbn.
  intros l' y. rewrite lookup_alter. case_decide; [|apply Hl]. subst.
  destruct (listeners st !! l') as [x|] eqn:Hx; [|done]. intros [= <-] Ha.
  rewrite Hfa in Ha. destruct (Hf x eq_refl Ha) as (->&->&->). by eapply Hl.
Qed.

(** Another address leaves the table. *)
Lemma unusable_remove_server addr addr' st :
  addr' ≠ addr → unusable addr st → unusable addr (remove_server addr' st).
Proof.
  intros Hne (Hinv&Hs&Hl&Hr). split; [by apply inv_remove_server|].
  rewrite servers_remove_server, reqs_remove_server, lookup_delete_ne by done.
  split; [done|]. split; [|done]. unfold remove_server, drop_item.
  intros l x. case_match; [|apply Hl]. cbn. rewrite lookup_alter. case_decide; [|apply Hl].
  subst. destruct (listeners st !! l) as [y|] eqn:Hy; [|done]. intros [= <-] Ha.
  exact (Hl _ _ Hy Ha).
Qed.

Lemma unusable_exit addr st l x :
  listeners st !! l = Some x → ls_alive x = true → unusable addr st →
  unusable addr (exit_task l x st).
Proof.
  intros Hx Hal Hu. assert (ls_addr x ≠ addr) as Hne.
  { destruct Hu as (_&_&Hl&_). intros Ha. destruct (Hl _ _ Hx Ha). congruence. }
  apply unusable_remove_server; [done|]. pose proof Hu as (Hinv&_).
  apply unusable_listener_update; [done| |done|by apply inv_update; [apply keeps_kill|]].
  intros y Hy Ha. simplify_eq.
Qed.

Lemma unusable_insert addr st r addr' l :
  reqs st !! r = Some (Spawned addr' l) → unusable addr st →
  unusable addr (set_req r (Awaiting l)
    (insert_server addr' l (update_listener l (get_cnx_awaiter r) st))).
Proof.
  intros Hr Hu. pose proof Hu as (Hinv&_&_&Hreqs).
  assert (addr' ≠ addr) as Hne by (intros ->; destruct (Hreqs _ _ Hr) as [_ Hsp]; by apply (Hsp l)).
  pose proof (inv_insert _ _ _ _ Hinv Hr) as Hinv'.
  assert (unusable addr (remove_server addr' (update_listener l (get_cnx_awaiter r) st)))
    as (_&Hs&Hl&Hq).
  { apply unusable_remove_server; [done|].
    apply unusable_listener_update; [done|done|done|by apply inv_update; [apply keeps_awaiter|]]. }
  split; [done|]. rewrite insert_server_remove.
  cbn [set_req set_servers servers listeners reqs].
  split; [rewrite lookup_insert_ne by done; done|]. split; [done|].
  intros r' q. rewrite lookup_insert. case_decide; [naive_solver|].
  apply Hq.
Qed.

Lemma unusable_step addr st act st' :
  unusable addr st → step st act = Some st' → unusable addr st'.
Proof.
  intros Hu Hstep. pose proof Hu as (Hinv&[l0 Hs]&Hl&Hreqs).
  pose proof (step_inv _ _ _ Hinv Hstep) as Hinv'. revert Hstep.
  destruct act; cbn [step].
  - destruct (reqs st !! r); intros; simplify_eq. by apply unusable_set_req.
  - destruct (reqs st !! r) as [[]|]; try done.
    destruct (servers st !! addr0) eqn:Hs0; intros; simplify_eq.
    + by apply unusable_update.
    + apply unusable_set_req; [|done..]. intros [= ->]. congruence.
  - destruct (reqs st !! r) as [[]|]; intros; simplify_eq. by apply unusable_set_req.
  - destruct (reqs st !! r) as [[]|] eqn:Hr; intros; simplify_eq.
    assert (addr0 ≠ addr) as Hne by (intros ->; by destruct (Hreqs _ _ Hr)).
    split; [done|]. cbn. split; [by eexists|]. split.
    + intros l x. rewrite lookup_insert. case_decide; [intros [= <-]; naive_solver|apply Hl].
    + intros r' q. rewrite lookup_insert. case_decide; [intros [= <-]; naive_solver|apply Hreqs].
  - destruct (reqs st !! r) as [[]|] eqn:Hr; intros; simplify_eq. by apply unusable_insert.
  - destruct (listeners st !! l) as [x|] eqn:Hx; [|done]. destruct (ls_alive x) eqn:Hb; [|done].
    destruct (bool_decide _); [by intros [= <-]|]. destruct (Nat.ltb _ _); [|done].
    intros [= <-]. apply unusable_listener_update; [done| |done..].
    intros y Hy Ha. simplify_eq. destruct (Hl _ _ Hx eq_refl) as [Hd _]. congruence.
  - destruct (listeners st !! l) as [x|] eqn:Hx; [|done]. destruct (ls_alive x) eqn:Ha; [|done].
    destruct (_ && _); intros [= <-]; [by apply unusable_exit|].
    by apply unusable_listener_update.
  - destruct (listeners st !! l) as [x|] eqn:Hx; [|done]. destruct (ls_alive x) eqn:Ha; [|done].
    intros [= <-]. by apply unusable_exit.
  - destruct (listeners st !! l) as [x|] eqn:Hx; [|done]. destruct (_ && _); [|done].
    intros [= <-]. apply unusable_listener_update; try done.
    intros y Hy Ha. cbn. by destruct (Hl _ _ Hy Ha) as [-> _].
  - destruct (reqs st !! r) as [[]|]; try done.
    destruct (listeners st !! l) as [x|] eqn:Hx; [|done].
    destruct (ls_queue x) as [|c q] eqn:Hq; [done|]. intros [= <-].
    apply unusable_update; try done. intros y Hy Ha. simplify_eq.
    destruct (Hl _ _ Hx eq_refl) as (_&?&_). congruence.
  - destruct (reqs st !! r) as [[]|]; try done.
    destruct (listeners st !! l) as [x|] eqn:Hx; [|done]. destruct (_ && _); [|done].
    intros [= <-]. by apply unusable_update.
  - destruct (reqs st !! r) as [[]|]; try done. intros [= <-]. by apply unusable_update.
Qed.

Definition race (addr : SocketAddr) : list (Action C) :=
  [ANew 0 addr; ALookup 0; ASpawn 0; ATick 0; AInsert 0].

Definition race_state (addr : SocketAddr) : State C :=
  mkState (<[addr := 0%nat]> ∅)
    (<[0%nat := mkListener addr 1 [] ({[HReq 0]} ∪ {[HItem]}) false [] []]> ∅)
    (<[0%nat := Awaiting 0]> ∅) 1.

Lemma race_run addr : run initial (race addr) = Some (race_state addr).
Proof.
  set (x := mkListener addr 0 [] {[HItem]} true [] [] : Listener C).
  assert (step initial (ANew 0 addr)
          = Some (mkState ∅ ∅ (<[0%nat := Looking addr : Req C]> ∅) 0)) as H1.
  { done. }
  assert (step (mkState ∅ ∅ (<[0%nat := Looking addr : Req C]> ∅) 0) (ALookup 0)
          = Some (mkState ∅ ∅ (<[0%nat := Generating addr : Req C]> ∅) 0)) as H2.
  { done. }
  assert (step (mkState ∅ ∅ (<[0%nat := Generating addr : Req C]> ∅) 0) (ASpawn 0)
          = Some (mkState ∅ (<[0%nat := x]> ∅) (<[0%nat := Spawned addr 0 : Req C]> ∅) 1)) as H3.
  { done. }
  assert (step (mkState ∅ (<[0%nat := x]> ∅) (<[0%nat := Spawned addr 0 : Req C]> ∅) 1) (ATick 0)
          = Some (mkState ∅ (<[0%nat := kill x]> ∅) (<[0%nat := Spawned addr 0]> ∅) 1)) as H4.
  { unfold step. cbn [listeners]. rewrite lookup_insert_eq. cbn [ls_alive x ls_seen ls_receivers].
    rewrite size_singleton. cbn [Nat.eqb Nat.leb andb]. unfold exit_task, remove_server, drop_item.
    unfold update_listener, set_servers. cbn [servers listeners reqs next_listener].
    by rewrite alter_insert_eq, lookup_empty, delete_empty. }
  unfold race. cbn [run]. rewrite H1. cbn [mbind option_bind]. rewrite H2.
  cbn [mbind option_bind]. rewrite H3. cbn [mbind option_bind]. rewrite H4.
  cbn [mbind option_bind step reqs]. rewrite lookup_insert_eq. cbn [mbind option_bind].
  unfold insert_server, drop_item, update_listener, set_servers, set_req.
  cbn [servers listeners reqs next_listener].
  rewrite alter_insert_eq, lookup_empty. cbn [servers listeners reqs next_listener].
  by rewrite insert_insert_eq.
Qed.

Lemma race_state_unusable addr : unusable addr (race_state addr).
Proof.
  split; [eapply run_preserves; [apply step_inv|apply initial_inv|apply race_run]|].
  cbn. rewrite lookup_insert_eq. split; [done|]. split.
  - intros l x. rewrite lookup_insert, lookup_empty. case_decide; [|done]. by intros [= <-].
  - intros r q. rewrite lookup_insert, lookup_empty. case_decide; naive_solver.
Qed.

(** ** What goes in and what comes out

    Read off the actions of a run and the results of the requests. *)

(** The connection an action puts into the channel of [l]: nothing if no receiver is left. *)
Definition accepted_at (l : nat) st (a : Action C) : list C :=
  match a with
  | AConn l' c =>
      if decide (l' = l)
      then match listeners st !! l with
           | Some x => if bool_decide (ls_receivers x = ∅) then [] else [c]
           | None => []
           end
      else []
  | _ => []
  end.

(** The listener, the request and the connection of a call that returns one. *)
Definition handed_at st (a : Action C) st' : list (nat * nat * C) :=
  match a with
  | ARecv r =>
      match reqs st !! r, reqs st' !! r with
      | Some (Awaiting l), Some (Delivered c) => [(l, r, c)]
      | _, _ => []
      end
  | _ => []
  end.

Fixpoint accepted (l : nat) st acts : list C :=
  match acts with
  | [] => []
  | a :: acts =>
      match step st a with
      | Some st' => accepted_at l st a ++ accepted l st' acts
      | None => []
      end
  end.
Fixpoint handed st acts : list (nat * nat * C) :=
  match acts with
  | [] => []
  | a :: acts =>
      match step st a with
      | Some st' => handed_at st a st' ++ handed st' acts
      | None => []
      end
  end.

(** The connections of [l] among those handed over. *)
Definition of_listener (l : nat) (hs : list (nat * nat * C)) : list C :=
  (filter (λ h, fst (fst h) = l) hs).*2.

Definition history st (l : nat) : list C * list C :=
  match listeners st !! l with Some x => (ls_sent x, ls_taken x) | None => ([], []) end.

Lemma history_update st l f l' :
  (∀ x, ls_sent (f x) = ls_sent x ∧ ls_taken (f x) = ls_taken x) →
  history (update_listener l f st) l' = history st l'.
Proof.
  intros Hf. unfold history. cbn. rewrite lookup_alter. case_decide; [subst|done].
  destruct (listeners st !! l') as [x|]; [|done]. cbn. by destruct (Hf x) as [-> ->].
Qed.

Lemma history_remove_server st addr l : history (remove_server addr st) l = history st l.
Proof.
  unfold remove_server, drop_item. case_match; [|done].
  by apply (history_update st _ (drop_receiver HItem)).
Qed.

Lemma history_exit st l x l' : history (exit_task l x st) l' = history st l'.
Proof. unfold exit_task. by rewrite history_remove_server, history_update. Qed.

Lemma step_history st a st' l :
  Inv st → step st a = Some st' →
  history st' l = (fst (history st l) ++ accepted_at l st a,
                   snd (history st l) ++ of_listener l (handed_at st a st')).
Proof.
  intros Hinv.
  assert (∀ h : list C * list C, h = (fst h ++ [], snd h ++ [])) as Hsame.
  { intros []. cbn. by rewrite !app_nil_r. }
  destruct a as [r addr|r|r|r|r|l0 c|l0|l0|l0|r|r|r]; cbn [step accepted_at handed_at].
  - destruct (reqs st !! r); intros [= <-]. apply Hsame.
  - destruct (reqs st !! r) as [[]|]; try done. destruct (servers st !! addr); intros [= <-];
      [|apply Hsame]. etrans; [|apply Hsame]. by apply (history_update st).
  - destruct (reqs st !! r) as [[]|]; intros [= <-]. apply Hsame.
  - destruct (reqs st !! r) as [[]|]; intros [= <-]. etrans; [|apply Hsame].
    unfold history. cbn. rewrite lookup_insert. case_decide; [subst|done].
    destruct (listeners st !! next_listener st) as [x|] eqn:Hx; [|done].
    apply (inv_listener _ Hinv) in Hx as [? _]. lia.
  - destruct (reqs st !! r) as [[]|]; intros [= <-]. etrans; [|apply Hsame].
    rewrite insert_server_remove. etrans; [apply history_remove_server|]. by apply history_update.
  - destruct (listeners st !! l0) as [x|] eqn:Hx; [|done]. destruct (ls_alive x); [|done].
    destruct (bool_decide _) eqn:Hr.
    + intros [= <-]. etrans; [apply Hsame|].
      destruct (decide (l0 = l)) as [<-|]; [|done]. by rewrite Hx, Hr.
    + destruct (_ <? _)%nat; [|done]. intros [= <-]. unfold history. cbn. rewrite lookup_alter.
      destruct (decide (l0 = l)) as [<-|]; [|by apply Hsame]. rewrite Hx, Hr. cbn. by rewrite app_nil_r.
  - destruct (listeners st !! l0) as [x|]; [|done]. destruct (ls_alive x); [|done].
    destruct (_ && _); intros [= <-]; (etrans; [|apply Hsame]); [apply history_exit|by apply history_update].
  - destruct (listeners st !! l0) as [x|]; [|done]. destruct (ls_alive x); [|done].
    intros [= <-]. etrans; [|apply Hsame]. apply history_exit.
  - destruct (listeners st !! l0) as [x|]; [|done]. destruct (_ && _); [|done].
    intros [= <-]. etrans; [|apply Hsame]. by apply history_update.
  - destruct (reqs st !! r) as [[| | |l0| |]|] eqn:Hr; try done.
    destruct (listeners st !! l0) as [x|] eqn:Hx; [|done].
    destruct (ls_queue x) as [|c q]; [done|]. intros [= <-]. cbn. rewrite lookup_insert_eq.
    unfold history, of_listener. cbn. rewrite lookup_alter.
    destruct (decide (l0 = l)) as [->|Hne]; [|by apply Hsame].
    rewrite Hx. cbn. by rewrite app_nil_r.
  - destruct (reqs st !! r) as [[| | |l0| |]|]; try done. destruct (listeners st !! l0) as [x|]; [|done].
    destruct (_ && _); [|done]. intros [= <-]. etrans; [|apply Hsame]. by apply (history_update st).
  - destruct (reqs st !! r) as [[]|]; try done. intros [= <-]. etrans; [|apply Hsame].
    by apply (history_update st).
Qed.

Lemma accepted_snoc l st acts a st' :
  run st acts = Some st' → is_Some (step st' a) →
  accepted l st (acts ++ [a]) = accepted l st acts ++ accepted_at l st' a.
Proof.
  intros Hrun [st2 Ha]. revert st Hrun. induction acts as [|b acts IH]; intros st; cbn.
  - intros [= ->]. by rewrite Ha, app_nil_r.
  - destruct (step st b) as [st1|]; cbn; [|done]. intros Hr. by rewrite IH, app_assoc.
Qed.
Lemma handed_snoc st acts a st' st2 :
  run st acts = Some st' → step st' a = Some st2 →
  handed st (acts ++ [a]) = handed st acts ++ handed_at st' a st2.
Proof.
  intros Hrun Ha. revert st Hrun. induction acts as [|b acts IH]; intros st; cbn.
  - intros [= ->]. by rewrite Ha, app_nil_r.
  - destruct (step st b) as [st1|]; cbn; [|done]. intros Hr. by rewrite IH, app_assoc.
Qed.

Lemma run_snoc st acts a : run st (acts ++ [a]) = (st' ← run st acts; step st' a).
Proof.
  revert st. induction acts as [|b acts IH]; intros st; cbn.
  - by destruct (step st a).
  - destruct (step st b); cbn; [apply IH|done].
Qed.

Lemma run_history acts st l :
  run initial acts = Some st →
  history st l = (accepted l initial acts, of_listener l (handed initial acts)).
Proof.
  revert st. induction acts as [|a acts IH] using rev_ind; intros st.
  { intros [= <-]. unfold history. cbn. by rewrite lookup_empty. }
  rewrite run_snoc. destruct (run initial acts) as [st1|] eqn:Hrun; [|done]. cbn. intros Ha.
  assert (Inv st1) as Hinv by (apply reachable_inv; by exists acts).
  rewrite (step_history _ _ _ _ Hinv Ha), (IH _ eq_refl). cbn.
  rewrite (accepted_snoc _ _ _ _ _ Hrun), (handed_snoc _ _ _ _ _ Hrun Ha) by done.
  unfold of_listener. by rewrite filter_app, fmap_app.
Qed.

(** A request ends with a connection exactly when it is handed one, which happens once. *)
Lemma step_delivered st a st' r c :
  step st a = Some st' →
  reqs st' !! r = Some (Delivered c) ↔
    reqs st !! r = Some (Delivered c) ∨ ∃ l, (l, r, c) ∈ handed_at st a st'.
Proof.
  assert (∀ P : Prop, P ↔ P ∨ ∃ l : nat, (l, r, c) ∈ []) as Hno.
  { intros P. split; [by left|]. intros [?|[? []%elem_of_nil]]. done. }
  assert (∀ r' q q', reqs st !! r' = q → (∀ c, q ≠ Some (Delivered c)) → (∀ c, q' ≠ Delivered c) →
    <[r' := q']> (reqs st) !! r = Some (Delivered c) ↔ reqs st !! r = Some (Delivered c)) as Hset.
  { intros r' q q' <- Hq Hq'. rewrite lookup_insert. case_decide; naive_solver. }
  destruct a as [r' addr|r'|r'|r'|r'|l0 d|l0|l0|l0|r'|r'|r']; cbn [step handed_at]; intros Hs;
    try rewrite <-Hno.
  - destruct (reqs st !! r') eqn:Hr; simplify_eq/=. by apply (Hset _ _ _ Hr).
  - destruct (reqs st !! r') as [[]|] eqn:Hr; try done. destruct (servers st !! addr); simplify_eq/=;
      by apply (Hset _ _ _ Hr).
  - destruct (reqs st !! r') as [[]|] eqn:Hr; simplify_eq/=. by apply (Hset _ _ _ Hr).
  - destruct (reqs st !! r') as [[]|] eqn:Hr; simplify_eq/=. by apply (Hset _ _ _ Hr).
  - destruct (reqs st !! r') as [[]|] eqn:Hr; try done. injection Hs as <-.
    rewrite insert_server_remove. unfold set_req, set_servers. cbn [reqs].
    rewrite reqs_remove_server, reqs_update. by apply (Hset _ _ _ Hr).
  - repeat (case_match; try done); by simplify_eq/=.
  - repeat (case_match; try done); injection Hs as <-; [|done].
    unfold exit_task. by rewrite reqs_remove_server, reqs_update.
  - repeat (case_match; try done); injection Hs as <-.
    unfold exit_task. by rewrite reqs_remove_server, reqs_update.
  - repeat (case_match; try done); by simplify_eq/=.
  - destruct (reqs st !! r') as [[| | |l0| |]|] eqn:Hr; try done.
    destruct (listeners st !! l0) as [x|]; [|done]. destruct (ls_queue x) as [|d q]; [done|].
    injection Hs as <-. cbn. rewrite lookup_insert_eq, lookup_insert.
    setoid_rewrite list_elem_of_singleton. case_decide; naive_solver.
  - destruct (reqs st !! r') as [[| | |l0| |]|] eqn:Hr; try done.
    destruct (listeners st !! l0) as [x|]; [|done]. destruct (_ && _); [|done].
    simplify_eq/=. by apply (Hset _ _ _ Hr).
  - destruct (reqs st !! r') as [[| | |l0| |]|] eqn:Hr; try done. simplify_eq/=. by apply (Hset _ _ _ Hr).
Qed.

Lemma handed_at_once st a st' h : h ∈ handed_at st a st' → handed_at st a st' = [h]
  ∧ ∀ c, reqs st !! snd (fst h) ≠ Some (Delivered c).
Proof.
  unfold handed_at. destruct a; try by intros []%elem_of_nil.
  destruct (reqs st !! r) as [[]|] eqn:Hr; try by intros []%elem_of_nil.
  destruct (reqs st' !! r) as [[]|]; try by intros []%elem_of_nil.
  intros ->%list_elem_of_singleton. cbn. by rewrite Hr.
Qed.

Lemma run_delivered acts st :
  run initial acts = Some st →
  (∀ r c, reqs st !! r = Some (Delivered c) ↔ ∃ l, (l, r, c) ∈ handed initial acts)
  ∧ NoDup ((λ h, snd (fst h)) <$> handed initial acts).
Proof.
  revert st. induction acts as [|a acts IH] using rev_ind; intros st.
  { intros [= <-]. split; [|constructor]. intros r c. cbn. rewrite lookup_empty.
    split; [done|]. by intros [? []%elem_of_nil]. }
  rewrite run_snoc. destruct (run initial acts) as [st1|] eqn:Hrun; [|done]. cbn. intros Ha.
  destruct (IH _ eq_refl) as [Hd Hn]. rewrite (handed_snoc _ _ _ _ _ Hrun Ha). split.
  - intros r c. rewrite (step_delivered _ _ _ _ _ Ha), Hd. setoid_rewrite elem_of_app. naive_solver.
  - rewrite fmap_app. destruct (handed_at st1 a st) as [|h hs] eqn:E; [by rewrite app_nil_r|].
    destruct (handed_at_once st1 a st h) as [E' Hfresh]; [rewrite E; by left|].
    rewrite E in E'. rewrite E'. apply NoDup_app. split; [done|]. split; [|apply NoDup_singleton].
    intros r Hr ->%list_elem_of_singleton. apply list_elem_of_fmap in Hr as ([[l r] c]&Hr&Hin).
    cbn in Hr. subst. apply (Hfresh c), Hd. by exists l.
Qed.

(** ** Properties *)

(** C25: Connections are handed over exactly once and in order: over every run, what a
    listener accepted (while anybody could receive it) is what the requests waiting on it
    got, in the order in which they got it, followed by the at most ten connections that
    wait; a request ends with a connection exactly when it was handed that one, and no
    request is handed two. *)
Theorem connections_fifo acts st :
  run initial acts = Some st →
  (∀ l x, listeners st !! l = Some x →
     accepted l initial acts = of_listener l (handed initial acts) ++ ls_queue x
     ∧ (List.length (ls_queue x) ≤ CHANNEL_BOUND)%nat)
  ∧ (∀ r c, reqs st !! r = Some (Delivered c) ↔ ∃ l, (l, r, c) ∈ handed initial acts)
  ∧ NoDup ((λ h, snd (fst h)) <$> handed initial acts).
Proof.
  intros Hrun. split; [|by apply run_delivered]. intros l x Hx.
  pose proof (run_history _ _ l Hrun) as Hh. unfold history in Hh. rewrite Hx in Hh.
  injection Hh as <- <-. assert (Inv st) as Hinv by (apply reachable_inv; by exists acts).
  exact (proj2 (inv_listener _ Hinv _ _ Hx)).
Qed.

(** The idle timer never stops a registered listener that a request is waiting on. *)
Theorem tick_spares_waiting st st' addr l r :
  reachable st → servers st !! addr = Some l → reqs st !! r = Some (Awaiting l) →
  step st (ATick l) = Some st' →
  ∃ x, listeners st' !! l = Some x ∧ ls_alive x = true ∧ servers st' !! addr = Some l.
Proof.
  intros Hst%reachable_inv Hs Hr. cbn.
  destruct (inv_server _ Hst _ _ Hs) as (x&Hx&Hi&_).
  destruct (inv_waiting _ Hst _ _ Hr) as (y&Hy&Hw&_). simplify_eq. rewrite Hx.
  destruct (ls_alive x) eqn:Ha; [|done].
  assert (Nat.leb (size (ls_receivers x)) 1 = false) as ->.
  { apply Nat.leb_gt. assert ({[HItem; HReq r]} ⊆ ls_receivers x) as Hsub by set_solver.
    apply subseteq_size in Hsub. rewrite size_union, !size_singleton in Hsub by set_solver.
    lia. }
  rewrite andb_false_r. intros [= <-]. exists (reset_seen x). cbn.
  by rewrite lookup_alter_eq, Hx.
Qed.

(** If every spawned listener is registered before its task runs, the table only ever
    holds running listeners. *)
Theorem prompt_runs_have_no_stale_entry acts st :
  prompt acts = true → run initial acts = Some st → all_live st.
Proof.
  apply prompt_live; [apply initial_inv|]. intros addr l. cbn. by rewrite lookup_empty.
Qed.

(** C31: The first tick of the idle timer is immediate; if the task runs before the request
    has taken its own receiver, it stops, and the entry inserted afterwards stays
    behind: from then on, whatever happens, no listener of that address is ever alive
    again and no connection is ever delivered for it. *)
Theorem race_makes_address_unusable addr :
  ∃ st, run initial (race addr) = Some st ∧
  ∀ acts st', run st acts = Some st' →
    is_Some (servers st' !! addr)
    ∧ ∀ l x, listeners st' !! l = Some x → ls_addr x = addr →
        ls_alive x = false ∧ ls_taken x = [].
Proof.
  exists (race_state addr). split; [apply race_run|]. intros acts st' Hrun'.
  pose proof (race_state_unusable addr) as Hu.
  pose proof (run_preserves _ _ _ _ (unusable_step addr) Hu Hrun') as (_&?&Hl&_).
  split; [done|]. intros l x Hx Ha. destruct (Hl _ _ Hx Ha) as (?&_&?). done.
Qed.
End Runs.

(** ** Witnesses *)

Definition toy_addr : SocketAddr := SockV4 LOCALHOST_V4 8080.

(** Two clients share the listener of an address and one connection arrives. *)
Definition toy_acts : list (Action nat) :=
  [ANew 0 toy_addr; ALookup 0; ASpawn 0; AInsert 0; ANew 1 toy_addr; ALookup 1; AConn 0 7%nat].
Definition toy_state : State nat := default initial (run initial toy_acts).

Lemma toy_run : run initial toy_acts = Some toy_state.
Proof. vm_compute. reflexivity. Qed.

(** The first client takes the connection, a second one waits. *)
Lemma connections_fifo_witness :
  ∃ st x, run initial (toy_acts ++ [AConn 0 8%nat; ARecv 1]) = Some st
    ∧ listeners st !! 0%nat = Some x
    ∧ accepted 0 initial (toy_acts ++ [AConn 0 8%nat; ARecv 1])
      = of_listener 0 (handed initial (toy_acts ++ [AConn 0 8%nat; ARecv 1])) ++ ls_queue x
    ∧ ls_queue x = [8%nat].
Proof.
  do 2 eexists. split; [vm_compute; reflexivity|]. split; [vm_compute; reflexivity|].
  split; [|reflexivity].
  eapply (connections_fifo (toy_acts ++ [AConn 0 8%nat; ARecv 1])); vm_compute; reflexivity.
Defined.

Lemma tick_spares_waiting_witness :
  ∃ st' x, step toy_state (ATick 0) = Some st' ∧ listeners st' !! 0%nat = Some x
    ∧ ls_alive x = true.
Proof.
  destruct (step toy_state (ATick 0)) as [st'|] eqn:E; [|vm_compute in E; discriminate].
  destruct (tick_spares_waiting toy_state st' toy_addr 0 1) as (x&Hx&Ha&_).
  - exists toy_acts. exact toy_run.
  - vm_compute. reflexivity.
  - vm_compute. reflexivity.
  - exact E.
  - exists st', x. split; [reflexivity|]. split; assumption.
Defined.

Lemma prompt_runs_have_no_stale_entry_witness : all_live toy_state.
Proof.
  apply (prompt_runs_have_no_stale_entry toy_acts); [reflexivity|exact toy_run].
Defined.
