(* ===== verification/Server.v ===== *)
(** * Server: admission and execution of tunnel requests

    Models [src/wstunnel/src/tunnel/server/server.rs] ([handle_tunnel_request],
    [exec_tunnel], the dispatch of [serve]) and the two upgrade handlers
    [handler_websocket.rs] and [handler_http2.rs].

    The network is the record [Net]: what each connection attempt, listener or
    resolution returns.  The functions are in a writer-and-error monad that logs every
    attempt as an [Effect], so that a theorem can speak of what the server does to the
    outside and not only of what it returns. *)

From Stdlib Require Import ZArith Lia Ascii String.
From stdpp Require Import base gmap strings list.
From S2P Require Import Prelude Str Net Apis ApiModels Restrictions Jwt Request.
From S2P Require Import RateLimiter Resolver.

#[local] Open Scope stdpp_scope.

(** ** Effects *)

(** What [run_listening_server] is asked to listen with. *)
Inductive ListenerKind :=
| LkTcp (dest : Host * Z)
| LkUdp (dest : Host * Z) (timeout : option Duration)
| LkSocks5 (timeout : option Duration) (credentials : option (string * string))
| LkHttpProxy (timeout : option Duration) (credentials : option (string * string))
| LkUnix (path : PathBuf).

Inductive Effect {U : Type} :=
| EResolve (id : U)
| EUdpConnect (host : Host) (port : Z)
| ETcpConnect (host : Host) (port : Z)
| ETcpConnectProxy (host : Host) (port : Z)
| EProxyHeader (client : SocketAddr)
| EListen (kind : ListenerKind) (bind : SocketAddr).
Arguments Effect U : clear implicits.

(** The writer-and-error monad. *)
Definition W (U E A : Type) : Type := list (Effect U) * outcome E A.

#[global] Instance W_ret {U E} : MRet (W U E) := λ A a, ([], Ok a).
#[global] Instance W_bind {U E} : MBind (W U E) := λ A B f m,
  match m with
  | (l, Ok a) => let '(l', r) := f a in (l ++ l', r)
  | (l, Err e) => (l, Err e)
  | (l, Panic) => (l, Panic)
  end.
Definition emit {U E} (e : Effect U) : W U E () := ([e], Ok ()).
Definition lift {U E A} (m : outcome E A) : W U E A := ([], m).
Definition W_map_err {U E F A} (f : E → F) (m : W U E A) : W U F A :=
  (fst m, map_err f (snd m)).

Section Server.
Context `{UuidApi, HostApi, HttpApi, UrlApi, YamlApi, JwtApi JwtTunnelConfig}.
Context `{RegexApi, IpNetApi, GovernorApi}.
(** The reader and writer halves of a connection. *)
Context {Io : Type}.

Record WsServerConfig := mkServerConfig {
  srv_websocket_ping_frequency : option Duration;
  srv_timeout_connect : Duration;
  srv_websocket_mask_frame : bool;
  srv_restriction_config : option PathBuf;
  srv_http_proxy : option Url;
  srv_remote_server_idle_timeout : Duration;
  srv_tunnel_resolver : option Url
}.

Record NetEnv := mkNet {
  (** [protocols::udp::connect], [protocols::tcp::connect] with the result of
      [local_addr], [connect_with_http_proxy]. *)
  net_udp_connect : Host → Z → Duration → outcome string Io;
  net_tcp_connect : Host → Z → Duration → outcome string (Io * outcome string SocketAddr);
  net_tcp_connect_proxy :
    Url → Host → Z → Duration → outcome string (Io * outcome string SocketAddr);
  (** [ppp::v2::Builder::build]. *)
  net_ppp : SocketAddr → SocketAddr → outcome string string;
  (** [run_listening_server]: the next connection and the destination it asks for. *)
  net_listen : ListenerKind → SocketAddr → Duration → outcome string (Io * RemoteAddr);
  (** The hash of a path ([AHasher]) and the HTTP exchange with the resolver. *)
  net_hash : PathBuf → Z;
  net_exchange : Request → outcome string HttpReply;
  net_now : Z
}.

(** ** [exec_tunnel] *)

(** The common part of the reverse arms on an address. *)
Definition exec_reverse (cfg : WsServerConfig) (net : NetEnv) (restriction : RestrictionConfig)
    (remote : RemoteAddr) (kind : Host * Z → ListenerKind)
    : W Uuid string (RemoteAddr * Io) :=
  let remote_port := find_mapped_port (port remote) restriction in
  let local_srv := (host remote, remote_port) in
  bind ← lift (try_to_sock_addr local_srv);
  _ ← emit (EListen (kind local_srv) bind);
  '(io, remote) ← lift (net_listen net (kind local_srv) bind (srv_remote_server_idle_timeout cfg));
  mret (remote, io).

Definition exec_tunnel (cfg : WsServerConfig) (net : NetEnv) (restriction : RestrictionConfig)
    (remote : RemoteAddr) (client_address : SocketAddr) : W Uuid string (RemoteAddr * Io) :=
  match protocol remote with
  | Udp timeout =>
      match srv_http_proxy cfg with
      | None =>
          _ ← emit (EUdpConnect (host remote) (port remote));
          io ← lift (net_udp_connect net (host remote) (port remote)
                       (default (from_secs 10) timeout));
          mret (remote, io)
      | Some _ => lift (Err "UDP tunneling is not supported with HTTP proxy")
      end
  | Tcp proxy_protocol =>
      '(io, local_addr) ←
        match srv_http_proxy cfg with
        | None =>
            _ ← emit (ETcpConnect (host remote) (port remote));
            lift (net_tcp_connect net (host remote) (port remote) (from_secs 10))
        | Some proxy_url =>
            _ ← emit (ETcpConnectProxy (host remote) (port remote));
            lift (net_tcp_connect_proxy net proxy_url (host remote) (port remote) (from_secs 10))
        end;
      if proxy_protocol
      then local ← lift local_addr;
           _ ← lift (net_ppp net client_address local);
           _ ← emit (EProxyHeader client_address);
           mret (remote, io)
      else mret (remote, io)
  | ReverseTcp => exec_reverse cfg net restriction remote LkTcp
  | ReverseUdp timeout => exec_reverse cfg net restriction remote (λ d, LkUdp d timeout)
  | ReverseSocks5 timeout credentials =>
      exec_reverse cfg net restriction remote (λ _, LkSocks5 timeout credentials)
  | ReverseHttpProxy timeout credentials =>
      exec_reverse cfg net restriction remote (λ _, LkHttpProxy timeout credentials)
  | ReverseUnix path =>
      let host := Ipv6 (mkIpv6 (net_hash net path)) in
      bind ← lift (try_to_sock_addr (host, 0));
      _ ← emit (EListen (LkUnix path) bind);
      '(io, remote) ← lift (net_listen net (LkUnix path) bind
                              (srv_remote_server_idle_timeout cfg));
      mret (remote, io)
  | Stdio _ | TunnelStdio _ _ | Socks5 _ _ | TProxyTcp | TProxyUdp _ | HttpProxy _ _ _
  | Unix _ _ => lift (Err "Invalid upgrade request")
  end.

(** ** [handle_tunnel_request] *)

(** A response: status, text of the body (a tunnel has none), headers. *)
Record HttpResponse := mkResponse {
  resp_status : Z;
  resp_text : string;
  resp_headers : HeaderMap
}.
Definition bad_request : HttpResponse := mkResponse 400 "Invalid request" hm_empty.

(** An accepted tunnel: destination, connection, limiters of its two directions,
    whether the response carries the destination. *)
Record Accepted := mkAccepted {
  acc_remote : RemoteAddr;
  acc_io : Io;
  acc_limiters : option (option nat * option nat);
  acc_inject_cookie : bool
}.

(** The tunnel identifier of a [TunnelStdio] request resolved to a TCP destination. *)
Definition resolve_tunnel (cfg : WsServerConfig) (net : NetEnv) (remote : RemoteAddr)
    (authorization : option string)
    : W Uuid HttpResponse (RemoteAddr * option (Uuid * option Z * option Z)) :=
  match protocol remote with
  | TunnelStdio proxy_protocol _ =>
      tunnel_id ← match host remote with
                  | Domain s => mret s
                  | _ => lift (Err bad_request)
                  end;
      tunnel_uuid ← lift (ok_or bad_request (uuid_parse_str tunnel_id));
      resolver ← lift (ok_or bad_request (srv_tunnel_resolver cfg));
      _ ← emit (EResolve tunnel_uuid);
      endpoint ← lift (map_err (λ _, bad_request)
        (resolve_tunnel_over_http (net_exchange net) resolver tunnel_uuid authorization));
      mret (mkRemote (Tcp proxy_protocol) (ep_host endpoint) (ep_port endpoint),
            Some (tunnel_uuid, ep_rate_limit_upload_m endpoint,
                  ep_rate_limit_download_m endpoint))
  | _ => mret (remote, None)
  end.

(** The limiters of the accepted tunnel and the new pool. *)
Definition apply_rate_limit (net : NetEnv) (pool : RateLimiterPool)
    (info : option (Uuid * option Z * option Z))
    : option (option nat * option nat) * RateLimiterPool :=
  match info with
  | Some (tid, upload_m, download_m) =>
      if bool_decide (is_Some upload_m) || bool_decide (is_Some download_m)
      then let '(limiters, pool) := pool_wrap (net_now net) tid upload_m download_m pool in
           (Some limiters, pool)
      else (None, pool)
  | None => (None, pool)
  end.

Definition handle_tunnel_request (cfg : WsServerConfig) (net : NetEnv) (pool : RateLimiterPool)
    (restrictions : RestrictionsRules) (restrict_path_prefix : option string)
    (client_addr : SocketAddr) (req : Request)
    : W Uuid HttpResponse (Accepted * RateLimiterPool) :=
  let client_addr := match extract_x_forwarded_for req with
                     | Some (ip, _) => set_ip client_addr ip
                     | None => client_addr
                     end in
  path_prefix ← lift (map_err (λ _, bad_request) (extract_path_prefix (uri_path (req_uri req))));
  _ ← match restrict_path_prefix with
      | Some restrict_path =>
          if negb (String.eqb path_prefix restrict_path) then lift (Err bad_request) else mret ()
      | None => mret ()
      end;
  jwt ← lift (map_err (λ _, bad_request) (extract_tunnel_info req));
  remote ← lift (map_err (λ _, bad_request) (remote_try_from jwt));
  let authorization := extract_authorization req in
  '(remote, tunnel_rate_info) ← resolve_tunnel cfg net remote authorization;
  restriction ← lift (ok_or bad_request
    (validate_tunnel remote path_prefix authorization restrictions));
  let inject_cookie := is_dynamic_reverse_tunnel (protocol remote) in
  '(remote_addr, io) ← W_map_err (λ _, bad_request)
                         (exec_tunnel cfg net restriction remote client_addr);
  let '(limiters, pool) := apply_rate_limit net pool tunnel_rate_info in
  mret (mkAccepted remote_addr io limiters inject_cookie, pool).
End Server.

(** ** Certificates ([protocols/tls/utils.rs]) *)

(** [x509_parser]: parsing, the CA flag, the common names as far as they are text. *)
Class X509Api := {
  Cert : Type;
  X509 : Type;
  x509_parse : Cert → option X509;
  x509_is_ca : X509 → bool;
  x509_common_names : X509 → list (option string);
}.

Section Certificates.
Context `{X509Api}.

Fixpoint find_leaf_certificate (certs : list Cert) : option X509 :=
  match certs with
  | [] => None
  | c :: certs =>
      match x509_parse c with
      | Some x => if negb (x509_is_ca x) then Some x else find_leaf_certificate certs
      | None => find_leaf_certificate certs
      end
  end.

Definition cn_from_certificate (x : X509) : option string := find_map id (x509_common_names x).
End Certificates.

(** ** Upgrade handlers and dispatch *)

Section Upgrade.
Context `{UuidApi, HostApi, HttpApi, UrlApi, YamlApi, JwtApi JwtTunnelConfig}.
Context `{RegexApi, IpNetApi, GovernorApi, X509Api}.
Context {Io : Type}.

(** [fastwebsockets::upgrade]: the test and the headers of the 101 response. *)
Context (is_upgrade_request : Request → bool) (upgrade : Request → option HeaderMap).

(** The response, the tunnel whose two copy tasks are spawned, the pool. *)
Definition Upgraded : Type := HttpResponse * option (Accepted (Io := Io)) * RateLimiterPool.

Definition with_cookie (acc : Accepted (Io := Io)) (headers : HeaderMap)
    : outcome unit HeaderMap :=
  if acc_inject_cookie acc then inject_cookie headers (acc_remote acc) else Ok headers.

Definition ws_server_upgrade (cfg : WsServerConfig) (net : NetEnv (Io := Io))
    (pool : RateLimiterPool) (restrictions : RestrictionsRules)
    (restrict_path_prefix : option string) (client_addr : SocketAddr) (req : Request)
    : list (Effect Uuid) * outcome string Upgraded :=
  if negb (is_upgrade_request req) then ([], Ok (bad_request, None, pool))
  else
    match handle_tunnel_request cfg net pool restrictions restrict_path_prefix client_addr req with
    | (l, Err resp) => (l, Ok (resp, None, pool))
    | (l, Panic) => (l, Panic)
    | (l, Ok (acc, pool)) =>
        match upgrade req with
        | None => (l, Ok (bad_request, None, pool))
        | Some headers =>
            match with_cookie acc headers, hv_from_str "v1" with
            | Err _, _ => (l, Ok (bad_request, Some acc, pool))
            | Ok headers, Some v1 =>
                (l, Ok (mkResponse 101 "" (hm_insert SEC_WEBSOCKET_PROTOCOL v1 headers),
                        Some acc, pool))
            | Panic, _ | _, None => (l, Panic)
            end
        end
    end.

Definition http_server_upgrade (cfg : WsServerConfig) (net : NetEnv (Io := Io))
    (pool : RateLimiterPool) (restrictions : RestrictionsRules)
    (restrict_path_prefix : option string) (client_addr : SocketAddr) (req : Request)
    : list (Effect Uuid) * outcome string Upgraded :=
  match handle_tunnel_request cfg net pool restrictions restrict_path_prefix client_addr req with
  | (l, Err resp) => (l, Ok (resp, None, pool))
  | (l, Panic) => (l, Panic)
  | (l, Ok (acc, pool)) =>
      match with_cookie acc hm_empty with
      | Err _ => (l, Ok (bad_request, Some acc, pool))
      | Panic => (l, Panic)
      | Ok headers =>
          let headers := match hm_get (req_headers req) CONTENT_TYPE with
                         | Some content_type => hm_insert CONTENT_TYPE content_type headers
                         | None => headers
                         end in
          (l, Ok (mkResponse 200 "" headers, Some acc, pool))
      end
  end.

(** A connection the server accepted: in the clear, or over TLS with the negotiated
    protocol and the client's certificates. *)
Inductive Conn := Plain | TlsConn (alpn : option string) (peer_certificates : option (list Cert)).

Definition restrict_path_of (peer_certificates : option (list Cert)) : option string :=
  certs ← peer_certificates; leaf ← find_leaf_certificate certs; cn_from_certificate leaf.

(** The service function [serve] installs on a connection. *)
Definition serve_request (cfg : WsServerConfig) (net : NetEnv (Io := Io))
    (pool : RateLimiterPool) (restrictions : RestrictionsRules) (conn : Conn)
    (peer_addr : SocketAddr) (req : Request) : list (Effect Uuid) * outcome string Upgraded :=
  match conn with
  | TlsConn alpn certs =>
      let restrict_path := restrict_path_of certs in
      if bool_decide (alpn = Some "h2")
      then http_server_upgrade cfg net pool restrictions restrict_path peer_addr req
      else ws_server_upgrade cfg net pool restrictions restrict_path peer_addr req
  | Plain =>
      if is_upgrade_request req
      then ws_server_upgrade cfg net pool restrictions None peer_addr req
      else match req_version req with
           | HTTP_2 => http_server_upgrade cfg net pool restrictions None peer_addr req
           | _ => ([], Ok (mkResponse 400 "Invalid protocol request" hm_empty, None, pool))
           end
  end.
End Upgrade.

(** ** Lemmas on the monad *)

Section Monad.
Context {U E A B : Type}.
Implicit Types (m : W U E A) (f : A → W U E B).

Lemma W_bind_ok m f l b :
  m ≫= f = (l, Ok b) ↔
  ∃ l1 a l2, m = (l1, Ok a) ∧ f a = (l2, Ok b) ∧ l = l1 ++ l2.
Proof.
  destruct m as [l1 [a|e|]]; cbn; [|naive_solver..].
  destruct (f a) as [l2 r] eqn:Hf. split; [intros [= <- ->]; eauto 10|].
  intros (?&?&?&[= <- <-]&Hf'&->). by rewrite Hf in Hf'; simplify_eq.
Qed.

Lemma W_bind_effect m f e :
  e ∈ fst (m ≫= f) ↔ e ∈ fst m ∨ ∃ a, snd m = Ok a ∧ e ∈ fst (f a).
Proof.
  destruct m as [l1 [a|e'|]]; cbn; [|naive_solver..].
  destruct (f a) as [l2 r] eqn:Hf. cbn. rewrite elem_of_app.
  split; [intros [?|?]; [by left|right]; exists a; by rewrite Hf|].
  intros [?|(?&[= <-]&Hf')]; [by left|right]. by rewrite Hf in Hf'.
Qed.

Lemma W_bind_err m f l e :
  m ≫= f = (l, Err e) →
  m = (l, Err e) ∨ ∃ l1 a l2, m = (l1, Ok a) ∧ f a = (l2, Err e).
Proof.
  destruct m as [l1 [a|e'|]]; cbn; [|naive_solver..].
  destruct (f a) as [l2 r] eqn:Hf. intros [= <- ->]. eauto 10.
Qed.
End Monad.

(** ** What a request may make the server do *)

Section Admission.
Context `{UuidApi, HostApi, HttpApi, UrlApi, YamlApi, JwtApi JwtTunnelConfig}.
Context `{RegexApi, IpNetApi, GovernorApi}.
Context {Io : Type}.
Implicit Types (cfg : WsServerConfig) (net : NetEnv (Io := Io)) (e : Effect Uuid).

(** The effect [e] is one that executing [remote] under [restriction] may have. *)
Definition effect_of (restriction : RestrictionConfig) (remote : RemoteAddr) (e : Effect Uuid)
    : Prop :=
  match e with
  | EResolve _ => False
  | EUdpConnect h p => (∃ t, protocol remote = Udp t) ∧ h = host remote ∧ p = port remote
  | ETcpConnect h p | ETcpConnectProxy h p =>
      (∃ b, protocol remote = Tcp b) ∧ h = host remote ∧ p = port remote
  | EProxyHeader _ => protocol remote = Tcp true
  | EListen kind bind =>
      is_reverse_tunnel (protocol remote) = true ∧
      match kind with
      | LkUnix path => protocol remote = ReverseUnix path
      | _ => try_to_sock_addr (host remote, find_mapped_port (port remote) restriction) = Ok bind
      end
  end.

Lemma exec_reverse_effect cfg net restriction remote kind e :
  is_reverse_tunnel (protocol remote) = true →
  (∀ d path, kind d ≠ LkUnix path) →
  e ∈ fst (exec_reverse cfg net restriction remote kind) → effect_of restriction remote e.
Proof.
  intros Hrev Hkind. unfold exec_reverse. rewrite W_bind_effect.
  intros [Hin|(bind&Hb&Hin)]; [by apply elem_of_nil in Hin|]. cbn [snd lift] in Hb.
  rewrite W_bind_effect in Hin. destruct Hin as [Hin|(?&_&Hin)].
  - apply list_elem_of_singleton in Hin as ->. cbn. split; [done|].
    destruct (kind _) eqn:Hk; try done. by apply Hkind in Hk.
  - rewrite W_bind_effect in Hin. destruct Hin as [Hin|([]&_&Hin)]; by apply elem_of_nil in Hin.
Qed.

Lemma exec_tunnel_effect cfg net restriction remote client e :
  e ∈ fst (exec_tunnel cfg net restriction remote client) → effect_of restriction remote e.
Proof.
  unfold exec_tunnel. destruct (protocol remote) eqn:Hp;
    try (by intros Hin; apply elem_of_nil in Hin);
    try (apply exec_reverse_effect; [by rewrite Hp|done]).
  - rewrite W_bind_effect. intros [Hin|([io la]&_&Hin)].
    + destruct (srv_http_proxy cfg); rewrite W_bind_effect in Hin;
        (destruct Hin as [->%list_elem_of_singleton|(?&_&[]%elem_of_nil)]); cbn; eauto.
    + destruct proxy_protocol; [|by apply elem_of_nil in Hin].
      rewrite W_bind_effect in Hin. destruct Hin as [[]%elem_of_nil|(?&_&Hin)].
      rewrite W_bind_effect in Hin. destruct Hin as [[]%elem_of_nil|(?&_&Hin)].
      rewrite W_bind_effect in Hin.
      destruct Hin as [->%list_elem_of_singleton|(?&_&[]%elem_of_nil)]. by cbn.
  - destruct (srv_http_proxy cfg); [by intros []%elem_of_nil|].
    rewrite W_bind_effect. intros [->%list_elem_of_singleton|(?&_&Hin)]; [cbn; eauto|].
    rewrite W_bind_effect in Hin. destruct Hin as [[]%elem_of_nil|(?&_&[]%elem_of_nil)].
  - rewrite W_bind_effect. intros [[]%elem_of_nil|(bind&_&Hin)].
    rewrite W_bind_effect in Hin. destruct Hin as [->%list_elem_of_singleton|(?&_&Hin)].
    + cbn. by rewrite Hp.
    + rewrite W_bind_effect in Hin. destruct Hin as [[]%elem_of_nil|([]&_&[]%elem_of_nil)].
Qed.

Lemma resolve_tunnel_effect cfg net remote auth e :
  e ∈ fst (resolve_tunnel cfg net remote auth) →
  ∃ id, e = EResolve id ∧ ∃ b t d, protocol remote = TunnelStdio b t ∧ host remote = Domain d
    ∧ uuid_parse_str d = Some id.
Proof.
  unfold resolve_tunnel. destruct (protocol remote); try by intros []%elem_of_nil.
  rewrite W_bind_effect. intros [Hin|(d&Hd&Hin)].
  { destruct (host remote); by apply elem_of_nil in Hin. }
  destruct (host remote) as [s|?|?]; try done. cbn in Hd. simplify_eq.
  rewrite W_bind_effect in Hin. destruct Hin as [[]%elem_of_nil|(id&Hid%ok_or_ok&Hin)].
  rewrite W_bind_effect in Hin. destruct Hin as [[]%elem_of_nil|(?&_&Hin)].
  rewrite W_bind_effect in Hin. destruct Hin as [->%list_elem_of_singleton|(?&_&Hin)].
  - exists id. split; [done|]. by do 3 eexists.
  - rewrite W_bind_effect in Hin. destruct Hin as [[]%elem_of_nil|(?&_&[]%elem_of_nil)].
Qed.

(** The request passed the path checks and carries [remote], resolved to [dest]. *)
Definition request_for cfg net (restrict_path_prefix : option string) (req : Request)
    (prefix : string) (remote dest : RemoteAddr) info : Prop :=
  extract_path_prefix (uri_path (req_uri req)) = Ok prefix
  ∧ (∀ p, restrict_path_prefix = Some p → prefix = p)
  ∧ (∃ jwt, extract_tunnel_info req = Ok jwt ∧ remote_try_from jwt = Ok remote)
  ∧ snd (resolve_tunnel cfg net remote (extract_authorization req)) = Ok (dest, info).

Lemma path_check_ok (restrict : option string) (prefix : string) l u :
  match restrict with
  | Some restrict_path =>
      if negb (String.eqb prefix restrict_path) then lift (Err bad_request) else mret ()
  | None => mret ()
  end = ((l, Ok u) : W Uuid HttpResponse unit) →
  ∀ p, restrict = Some p → prefix = p.
Proof.
  intros Hm p ->. by destruct (String.eqb_spec prefix p).
Qed.

Lemma handle_effect cfg net pool rules restrict client req e :
  e ∈ fst (handle_tunnel_request cfg net pool rules restrict client req) →
  ∃ prefix remote,
    extract_path_prefix (uri_path (req_uri req)) = Ok prefix
    ∧ (∀ p, restrict = Some p → prefix = p)
    ∧ (∃ jwt, extract_tunnel_info req = Ok jwt ∧ remote_try_from jwt = Ok remote)
    ∧ (e ∈ fst (resolve_tunnel cfg net remote (extract_authorization req))
       ∨ ∃ dest info restriction,
           snd (resolve_tunnel cfg net remote (extract_authorization req)) = Ok (dest, info)
           ∧ validate_tunnel dest prefix (extract_authorization req) rules = Some restriction
           ∧ effect_of restriction dest e).
Proof.
  unfold handle_tunnel_request.
  rewrite W_bind_effect. intros [[]%elem_of_nil|(prefix&Hprefix&Hin)].
  cbn [snd lift] in Hprefix. apply map_err_ok in Hprefix.
  rewrite W_bind_effect in Hin. destruct Hin as [Hin|([]&Hpath&Hin)].
  { destruct restrict as [p|]; [destruct (negb _)|]; by apply elem_of_nil in Hin. }
  assert (∀ p, restrict = Some p → prefix = p) as Hrestrict.
  { destruct restrict as [p|]; [|done]. intros ? [= <-].
    by destruct (String.eqb_spec prefix p). }
  rewrite W_bind_effect in Hin. destruct Hin as [[]%elem_of_nil|(jwt&Hjwt&Hin)].
  cbn [snd lift] in Hjwt. apply map_err_ok in Hjwt.
  rewrite W_bind_effect in Hin. destruct Hin as [[]%elem_of_nil|(remote&Hremote&Hin)].
  cbn [snd lift] in Hremote. apply map_err_ok in Hremote.
  exists prefix, remote. split; [done|]. split; [done|]. split; [by eauto|].
  rewrite W_bind_effect in Hin. destruct Hin as [Hin|([dest info]&Hdest&Hin)]; [by left|right].
  rewrite W_bind_effect in Hin. destruct Hin as [[]%elem_of_nil|(restriction&Hv%ok_or_ok&Hin)].
  exists dest, info, restriction. split; [done|]. split; [done|].
  rewrite W_bind_effect in Hin. destruct Hin as [Hin|([ra io]&_&Hin)].
  - by apply exec_tunnel_effect in Hin.
  - destruct (apply_rate_limit net pool info). by apply elem_of_nil in Hin.
Qed.

Lemma handle_ok cfg net pool rules restrict client req l acc pool' :
  handle_tunnel_request cfg net pool rules restrict client req = (l, Ok (acc, pool')) →
  ∃ prefix remote dest info restriction,
    request_for cfg net restrict req prefix remote dest info
    ∧ validate_tunnel dest prefix (extract_authorization req) rules = Some restriction
    ∧ acc_inject_cookie acc = is_dynamic_reverse_tunnel (protocol dest)
    ∧ (acc_limiters acc, pool') = apply_rate_limit net pool info
    ∧ ∃ l' client', exec_tunnel cfg net restriction dest client' = (l', Ok (acc_remote acc, acc_io acc))
        ∧ ∀ e, e ∈ l' → e ∈ l.
Proof.
  unfold handle_tunnel_request.
  intros (l1&prefix&l2&[= <- Hprefix%map_err_ok]&Hrun&->)%W_bind_ok.
  apply W_bind_ok in Hrun as (l3&[]&l4&Hcheck&Hrun&->).
  pose proof (path_check_ok _ _ _ _ Hcheck) as Hpath.
  apply W_bind_ok in Hrun as (?&jwt&?&[= <- Hjwt%map_err_ok]&Hrun&->).
  apply W_bind_ok in Hrun as (?&remote&?&[= <- Hremote%map_err_ok]&Hrun&->).
  apply W_bind_ok in Hrun as (?&[dest info]&?&Hdest&Hrun&->).
  apply W_bind_ok in Hrun as (?&restriction&?&[= <- Hv%ok_or_ok]&Hrun&->).
  apply W_bind_ok in Hrun as (?&[ra io]&?&Hexec&Hrun&->).
  exists prefix, remote, dest, info, restriction.
  split; [split_and!; [done|done|by eauto|by rewrite Hdest]|]. split; [done|].
  destruct (apply_rate_limit net pool info) as [limiters pool1] eqn:Hl.
  injection Hrun as <- <- <-. cbn. split; [done|]. split; [done|].
  unfold W_map_err in Hexec. destruct (exec_tunnel _ _ _ _ _) as [l' r] eqn:Hr in Hexec.
  destruct r; cbn in Hexec; simplify_eq. do 2 eexists. split; [done|]. intros e He. cbn. set_solver.
Qed.

Lemma lift_bind_err {A B} (m : outcome HttpResponse A) (f : A → W Uuid HttpResponse B) l r :
  (∀ x, m = Err x → x = bad_request) → lift m ≫= f = (l, Err r) →
  r = bad_request ∨ ∃ a l1, f a = (l1, Err r).
Proof. intros Hm [[= _ ->]|(?&a&?&_&?)]%W_bind_err; [left; auto|right; eauto]. Qed.

Lemma map_err_bad {E A} (m : outcome E A) x :
  map_err (λ _, bad_request) m = Err x → x = bad_request.
Proof. destruct m; naive_solver. Qed.

Lemma ok_or_bad {A} (o : option A) x : ok_or bad_request o = Err x → x = bad_request.
Proof. destruct o; naive_solver. Qed.

Lemma resolve_err cfg net remote auth l r :
  resolve_tunnel cfg net remote auth = (l, Err r) → r = bad_request.
Proof.
  unfold resolve_tunnel. destruct (protocol remote); try done.
  intros [Hh|(?&?&?&_&Hh)]%W_bind_err; [destruct (host remote); by inversion Hh|].
  apply lift_bind_err in Hh as [->|(?&?&Hh)]; [done| |apply ok_or_bad].
  apply lift_bind_err in Hh as [->|(?&?&Hh)]; [done| |apply ok_or_bad].
  apply W_bind_err in Hh as [[=]|(?&?&?&_&Hh)].
  apply lift_bind_err in Hh as [->|(?&?&Hh)]; [done|done|apply map_err_bad].
Qed.

Lemma handle_err cfg net pool rules restrict client req l r :
  handle_tunnel_request cfg net pool rules restrict client req = (l, Err r) → r = bad_request.
Proof.
  unfold handle_tunnel_request. intros Hh.
  apply lift_bind_err in Hh as [->|(prefix&?&Hh)]; [done| |apply map_err_bad].
  apply W_bind_err in Hh as [Hh|(?&?&?&_&Hh)].
  { destruct restrict; [destruct (negb _)|]; by inversion Hh. }
  apply lift_bind_err in Hh as [->|(jwt&?&Hh)]; [done| |apply map_err_bad].
  apply lift_bind_err in Hh as [->|(remote&?&Hh)]; [done| |apply map_err_bad].
  apply W_bind_err in Hh as [Hh%resolve_err|(?&[dest info]&?&_&Hh)]; [done|].
  apply lift_bind_err in Hh as [->|(?&?&Hh)]; [done| |apply ok_or_bad].
  apply W_bind_err in Hh as [Hh|(?&[? ?]&?&_&Hh)].
  { unfold W_map_err in Hh. injection Hh as _ Hh. by apply map_err_bad in Hh. }
  by destruct (apply_rate_limit net pool info).
Qed.
End Admission.

(** ** Properties *)

Section Properties.
Context `{UuidApi, HostApi, HttpApi, UrlApi, YamlApi, JwtApi JwtTunnelConfig}.
Context `{RegexApi, IpNetApi, GovernorApi, X509Api}.
Context {Io : Type}.
Context (is_upgrade_request : Request → bool) (upgrade : Request → option HeaderMap).
Implicit Types (cfg : WsServerConfig) (net : NetEnv (Io := Io)) (e : Effect Uuid).

(** The path restriction a connection imposes. *)
Definition conn_restrict (conn : Conn) : option string :=
  match conn with Plain => None | TlsConn _ certs => restrict_path_of certs end.

(** Whatever [serve_request] does, it does by [handle_tunnel_request] with the
    restriction of the connection, or it does nothing and answers 400. *)
Lemma serve_request_handle cfg net pool rules conn peer req :
  let r := serve_request is_upgrade_request upgrade cfg net pool rules conn peer req in
  (fst r = [] ∧ ∃ resp, snd r = Ok (resp, None, pool) ∧ resp_status resp = 400)
  ∨ fst r = fst (handle_tunnel_request cfg net pool rules (conn_restrict conn) peer req)
    ∧ match snd (handle_tunnel_request cfg net pool rules (conn_restrict conn) peer req), snd r with
      | Ok (acc, pool1), Ok (resp, acc', pool') =>
          pool' = pool1 ∧ (acc' = Some acc ∨ (acc' = None ∧ resp = bad_request))
      | Err resp, Ok (resp', acc', pool') => resp' = resp ∧ acc' = None ∧ pool' = pool
      | Ok (acc, _), Panic =>
          hv_from_str "v1" = None ∨ ∃ h, with_cookie acc h = Panic
      | Panic, Panic => True
      | _, _ => False
      end.
Proof.
  assert (∀ restrict,
    let r := http_server_upgrade cfg net pool rules restrict peer req in
    let h := handle_tunnel_request cfg net pool rules restrict peer req in
    fst r = fst h ∧ match snd h, snd r with
      | Ok (acc, pool1), Ok (resp, acc', pool') =>
          pool' = pool1 ∧ (acc' = Some acc ∨ (acc' = None ∧ resp = bad_request))
      | Err resp, Ok (resp', acc', pool') => resp' = resp ∧ acc' = None ∧ pool' = pool
      | Ok (acc, _), Panic => hv_from_str "v1" = None ∨ ∃ h, with_cookie acc h = Panic
      | Panic, Panic => True
      | _, _ => False
      end) as Hhttp.
  { intros restrict. unfold http_server_upgrade.
    destruct (handle_tunnel_request _ _ _ _ _ _ _) as [l [[acc pool1]|resp|]]; cbn; try done.
    destruct (with_cookie acc hm_empty) eqn:Hc; cbn; naive_solver. }
  assert (∀ restrict,
    let r := ws_server_upgrade is_upgrade_request upgrade cfg net pool rules restrict peer req in
    let h := handle_tunnel_request cfg net pool rules restrict peer req in
    r = ([], Ok (bad_request, None, pool)) ∨
    fst r = fst h ∧ match snd h, snd r with
      | Ok (acc, pool1), Ok (resp, acc', pool') =>
          pool' = pool1 ∧ (acc' = Some acc ∨ (acc' = None ∧ resp = bad_request))
      | Err resp, Ok (resp', acc', pool') => resp' = resp ∧ acc' = None ∧ pool' = pool
      | Ok (acc, _), Panic => hv_from_str "v1" = None ∨ ∃ h, with_cookie acc h = Panic
      | Panic, Panic => True
      | _, _ => False
      end) as Hws.
  { intros restrict. unfold ws_server_upgrade. destruct (negb _); [by left|right].
    destruct (handle_tunnel_request _ _ _ _ _ _ _) as [l [[acc pool1]|resp|]]; cbn; try done.
    destruct (upgrade req) as [h|]; cbn; [|naive_solver].
    destruct (with_cookie acc h) eqn:Hc; destruct (hv_from_str "v1"); cbn; naive_solver. }
  unfold serve_request. destruct conn as [|alpn certs]; cbn [conn_restrict].
  - destruct (is_upgrade_request req).
    + destruct (Hws None) as [->|?]; [left; cbn; eauto|by right].
    + destruct (req_version req); [left; cbn; eauto..|]. right. apply Hhttp.
  - case_bool_decide; [right; apply Hhttp|].
    destruct (Hws (restrict_path_of certs)) as [->|?]; [left; cbn; eauto|by right].
Qed.

(** What a request on a connection may cause under some rules. *)
Definition lawful cfg net (rules : RestrictionsRules) (conn : Conn) (req : Request) e : Prop :=
  ∃ prefix remote,
    extract_path_prefix (uri_path (req_uri req)) = Ok prefix
    ∧ (∀ cn, conn_restrict conn = Some cn → prefix = cn)
    ∧ (∃ jwt, extract_tunnel_info req = Ok jwt ∧ remote_try_from jwt = Ok remote)
    ∧ ((∃ id b t d, e = EResolve id ∧ protocol remote = TunnelStdio b t
         ∧ host remote = Domain d ∧ uuid_parse_str d = Some id)
       ∨ ∃ dest info restriction,
           snd (resolve_tunnel cfg net remote (extract_authorization req)) = Ok (dest, info)
           ∧ restriction ∈ restrictions rules
           ∧ Enforced.admits dest prefix (extract_authorization req) restriction
           ∧ effect_of restriction dest e).

Lemma serve_request_effect cfg net pool rules conn peer req e :
  e ∈ fst (serve_request is_upgrade_request upgrade cfg net pool rules conn peer req) →
  lawful cfg net rules conn req e.
Proof.
  destruct (serve_request_handle cfg net pool rules conn peer req) as [[-> _]|[-> _]].
  { by intros []%elem_of_nil. }
  intros (prefix&remote&Hp&Hr&Hj&Hcase)%handle_effect. exists prefix, remote.
  split_and!; [done..|]. destruct Hcase as [Hin|(dest&info&restriction&Hd&Hv&He)].
  - left. apply resolve_tunnel_effect in Hin as (id&->&b&t&d&?&?&?). eauto 10.
  - right. exists dest, info, restriction. split; [done|].
    rewrite validate_tunnel_find in Hv. apply find_Some in Hv as (l1&l2&Hl&Ha&_).
    split; [rewrite Hl; set_solver|]. split; [by apply admits_b_iff|done].
Qed.

(** C4: Admission: everything the server does on behalf of a request (a connection, a
    listener, a proxy header) is for a destination that one of the rules admits under
    the path prefix and the credentials of that request, and, on a TLS connection with a
    client certificate, under the prefix named by that certificate.  The destination is
    the one the request carries, or, for a tunnel identifier, the one the resolver
    returned for it; the only other thing a request can cause is that resolution. *)
Theorem effects_are_admitted cfg net pool rules conn peer req e :
  e ∈ fst (serve_request is_upgrade_request upgrade cfg net pool rules conn peer req) →
  ∃ prefix remote,
    extract_path_prefix (uri_path (req_uri req)) = Ok prefix
    ∧ (∀ cn, conn_restrict conn = Some cn → prefix = cn)
    ∧ (∃ jwt, extract_tunnel_info req = Ok jwt ∧ remote_try_from jwt = Ok remote)
    ∧ ((∃ id b t d, e = EResolve id ∧ protocol remote = TunnelStdio b t
         ∧ host remote = Domain d ∧ uuid_parse_str d = Some id)
       ∨ ∃ dest info restriction,
           snd (resolve_tunnel cfg net remote (extract_authorization req)) = Ok (dest, info)
           ∧ restriction ∈ restrictions rules
           ∧ Enforced.admits dest prefix (extract_authorization req) restriction
           ∧ effect_of restriction dest e).
Proof. apply serve_request_effect. Qed.

(** A request that opens no tunnel is answered with status 400. *)
Theorem rejections_are_400 cfg net pool rules conn peer req l resp pool' :
  serve_request is_upgrade_request upgrade cfg net pool rules conn peer req
    = (l, Ok (resp, None, pool')) →
  resp_status resp = 400.
Proof.
  intros Hs. pose proof (serve_request_handle cfg net pool rules conn peer req) as Hcase.
  rewrite Hs in Hcase. cbn [fst snd] in Hcase.
  destruct Hcase as [[_ (r&[= <- _]&?)]|[_ Hcase]]; [done|].
  destruct (handle_tunnel_request cfg net _ _ _ _ _) as [l' [[acc pool1]|r|]] eqn:Hh;
    cbn [fst snd] in Hcase; [by destruct Hcase as (_&[[=]|[_ ->]])| |done].
  destruct Hcase as (->&_). apply handle_err in Hh. by subst.
Qed.

(** Rate limits apply to tunnel identifiers only: an accepted tunnel has limiters
    exactly when the request named a tunnel identifier for which the resolver returned a
    rate, and they are the ones the pool holds for that identifier; any other tunnel
    leaves the pool as it was. *)
Theorem rate_limits_only_for_tunnel_ids cfg net pool rules restrict client req l acc pool' :
  handle_tunnel_request cfg net pool rules restrict client req = (l, Ok (acc, pool')) →
  (acc_limiters acc = None ∧ pool' = pool)
  ∨ ∃ prefix remote dest id up down b t,
      request_for cfg net restrict req prefix remote dest (Some (id, up, down))
      ∧ protocol remote = TunnelStdio b t
      ∧ (is_Some up ∨ is_Some down)
      ∧ acc_limiters acc = Some (fst (pool_wrap (net_now net) id up down pool))
      ∧ pool' = snd (pool_wrap (net_now net) id up down pool).
Proof.
  intros (prefix&remote&dest&info&restriction&Hreq&_&_&Hrate&_)%handle_ok.
  unfold apply_rate_limit in Hrate.
  destruct info as [[[id up] down]|]; [|left; by simplify_eq].
  destruct (bool_decide (is_Some up) || bool_decide (is_Some down)) eqn:Hb;
    [|left; by simplify_eq].
  right. destruct (pool_wrap (net_now net) id up down pool) as [lim p1] eqn:Hw. simplify_eq.
  assert (∃ b t, protocol remote = TunnelStdio b t) as (b&t&Hp).
  { destruct Hreq as (_&_&_&Hres). unfold resolve_tunnel in Hres.
    destruct (protocol remote); try done. by do 2 eexists. }
  exists prefix, remote, dest, id, up, down, b, t.
  split; [exact Hreq|]. split; [done|]. split; [|by rewrite Hw].
  apply orb_true_iff in Hb. rewrite !bool_decide_eq_true in Hb. done.
Qed.

Context `{!HttpLaws}.

(** A connection aborts the process: to connect, to ask for its local address, or to make the
    proxy header. *)
Definition connect_panics net (r : outcome string (Io * outcome string SocketAddr)) : Prop :=
  r = Panic ∨ ∃ io la, r = Ok (io, la) ∧ (la = Panic ∨ ∃ client a, net_ppp net client a = Panic).

(** The operation on the network an effect stands for aborts the process, or the listener
    announces a destination that cannot be put in a token. *)
Definition effect_panics net e : Prop :=
  match e with
  | EResolve _ => ∃ req, net_exchange net req = Panic
  | EUdpConnect h p => ∃ t, net_udp_connect net h p t = Panic
  | ETcpConnect h p => ∃ t, connect_panics net (net_tcp_connect net h p t)
  | ETcpConnectProxy h p => ∃ url t, connect_panics net (net_tcp_connect_proxy net url h p t)
  | EProxyHeader _ => False
  | EListen k b => ∃ t, net_listen net k b t = Panic
      ∨ ∃ io r, net_listen net k b t = Ok (io, r) ∧ wire_protocol (protocol r) = false
  end.

(** If [m], run after the effects [l], panics, then one of the effects so far did. *)
Definition blames {E A} net (l : list (Effect Uuid)) (m : W Uuid E A) : Prop :=
  snd m = Panic → ∃ e, e ∈ l ++ fst m ∧ effect_panics net e.

Lemma blames_bind {E A B} net l (m : W Uuid E A) (f : A → W Uuid E B) :
  blames net l m → (∀ a, snd m = Ok a → blames net (l ++ fst m) (f a)) → blames net l (m ≫= f).
Proof.
  unfold blames. destruct m as [l1 [a|e|]]; cbn; intros Hm Hf; [|done|intros _; by apply Hm].
  specialize (Hf a eq_refl). destruct (f a) as [l2 r]. cbn in *. by rewrite app_assoc.
Qed.
Lemma blames_lift {E A} net l (r : outcome E A) : r ≠ Panic → blames net l (lift r).
Proof. intros Hr Hp. by destruct (Hr Hp). Qed.
Lemma blames_blamed {E A} net l (m : W Uuid E A) e :
  e ∈ l → (snd m = Panic → effect_panics net e) → blames net l m.
Proof. intros He Hp Hm. exists e. split; [apply elem_of_app; by left|auto]. Qed.
Lemma blames_emit {E} net l e : blames net l (emit e : W Uuid E unit).
Proof. done. Qed.
Lemma blames_map_err {E F A} net l (f : E → F) (m : W Uuid E A) :
  blames net l m → blames net l (W_map_err f m).
Proof. unfold blames, W_map_err. destruct m as [l1 []]; naive_solver. Qed.

Lemma map_err_panic {E F A} (f : E → F) (m : outcome E A) : map_err f m = Panic ↔ m = Panic.
Proof. by destruct m. Qed.
Lemma ok_or_panic {E A} (e : E) (o : option A) : ok_or e o ≠ Panic.
Proof. by destruct o. Qed.

(** An operation on the network right after the effect that stands for it. *)
Lemma blames_effect {E A B} net l e (r : outcome E A) (f : A → W Uuid E B) :
  (r = Panic → effect_panics net e) →
  (∀ a, r = Ok a → blames net (l ++ [e]) (f a)) →
  blames net l (emit e ≫= λ _, lift r ≫= f).
Proof.
  intros Hr Hf. apply blames_bind; [apply blames_emit|]. intros _ _. cbn [emit fst].
  apply blames_bind.
  - apply (blames_blamed _ _ _ e); [set_solver|done].
  - intros a [= ->]. cbn [lift fst]. rewrite app_nil_r. by apply Hf.
Qed.

Lemma try_to_sock_addr_panic x : try_to_sock_addr x ≠ Panic.
Proof. destruct x as [h p]. by destruct h. Qed.

Lemma exec_reverse_blames cfg net restriction remote kind l :
  blames net l (exec_reverse cfg net restriction remote kind).
Proof.
  unfold exec_reverse. apply blames_bind; [apply blames_lift, try_to_sock_addr_panic|].
  intros bind _. apply blames_effect; [intros ?; eexists; by left|]. by intros [].
Qed.

(** The tcp arm: the connection, then the proxy header. *)
Lemma connect_blames net (proxy_protocol : bool) remote (client : SocketAddr) l e r :
  (connect_panics net r → effect_panics net e) →
  blames net l ('(io, la) ← (_ ← emit e; lift r);
                if proxy_protocol
                then local ← lift la; _ ← lift (net_ppp net client local);
                     _ ← emit (EProxyHeader client); mret (remote, io)
                else mret (remote, io) : W Uuid string (RemoteAddr * Io)).
Proof.
  intros Hp. apply blames_bind.
  { apply blames_bind; [apply blames_emit|]. intros _ _.
    apply (blames_blamed _ _ _ e); [cbn; set_solver|]. intros Hr. apply Hp. by left. }
  intros [io la] Hr. cbn in Hr. destruct proxy_protocol; [|done]. apply blames_bind.
  { apply (blames_blamed _ _ _ e); [cbn; set_solver|]. intros Hla. apply Hp. right. exists io, la. auto. }
  intros local _. apply blames_bind; [|by intros _ _ [=]].
  apply (blames_blamed _ _ _ e); [cbn; set_solver|]. intros Hpp. apply Hp. right. exists io, la.
  split; [done|right]. by exists client, local.
Qed.

Lemma exec_tunnel_blames cfg net restriction remote client l :
  blames net l (exec_tunnel cfg net restriction remote client).
Proof.
  unfold exec_tunnel. destruct (protocol remote) eqn:Hprot; try (by apply blames_lift);
    try by apply exec_reverse_blames.
  - destruct (srv_http_proxy cfg) as [url|]; apply connect_blames; cbn; eauto.
  - destruct (srv_http_proxy cfg); [by apply blames_lift|].
    apply blames_effect; [intros ?; by eexists|]. by intros.
  - apply blames_bind; [by apply blames_lift|]. intros bind _.
    apply blames_effect; [intros ?; eexists; by left|]. by intros [].
Qed.

Lemma outcome_bind_panic {E A B} (m : outcome E A) (f : A → outcome E B) :
  m ≫= f = Panic → m = Panic ∨ ∃ a, m = Ok a ∧ f a = Panic.
Proof. destruct m; naive_solver. Qed.

Lemma resolve_over_http_panic net base id req :
  resolve_tunnel_over_http (net_exchange net) base id (extract_authorization req) = Panic →
  ∃ r, net_exchange net r = Panic.
Proof.
  unfold resolve_tunnel_over_http. destruct (negb _); [done|].
  intros [Hp|(?&_&Hp)]%outcome_bind_panic; [by apply ok_or_panic in Hp|].
  apply outcome_bind_panic in Hp as [Hp|(?&_&Hp)]; [by apply ok_or_panic in Hp|].
  apply outcome_bind_panic in Hp as [Hp|(?&_&Hp)].
  { destruct (extract_authorization req) as [auth|] eqn:Ha; [|done].
    destruct (String.eqb auth ""); [done|].
    destruct (hv_visible auth) as [v Hv]; [|by rewrite Hv in Hp].
    unfold extract_authorization in Ha. destruct (hm_get _ _) as [h|]; [|done].
    by eapply hv_to_str_visible. }
  apply outcome_bind_panic in Hp as [Hp|(?&_&Hp)]; [by eexists|exfalso].
  apply outcome_bind_panic in Hp as [Hp|(?&_&Hp)]; [by apply ok_or_panic in Hp|].
  destruct (negb _); [done|].
  apply outcome_bind_panic in Hp as [Hp|(?&_&Hp)]; [by apply ok_or_panic in Hp|].
  apply outcome_bind_panic in Hp as [Hp|(?&_&[=])]. unfold parse_host in Hp.
  by destruct (String.eqb _ _); [|destruct (ipaddr_from_str _) as [[]|]].
Qed.

Lemma resolve_tunnel_blames cfg net remote req l :
  blames net l (resolve_tunnel cfg net remote (extract_authorization req)).
Proof.
  unfold resolve_tunnel. destruct (protocol remote); try done.
  apply blames_bind; [by destruct (host remote)|]. intros tunnel_id _.
  apply blames_bind; [apply blames_lift, ok_or_panic|]. intros id _.
  apply blames_bind; [apply blames_lift, ok_or_panic|]. intros base _.
  apply blames_effect; [|by intros].
  intros Hp%map_err_panic. by apply resolve_over_http_panic in Hp.
Qed.

Lemma handle_blames cfg net pool rules restrict client req :
  blames net [] (handle_tunnel_request cfg net pool rules restrict client req).
Proof.
  unfold handle_tunnel_request. cbv zeta.
  apply blames_bind.
  { apply blames_lift. intros Hp%map_err_panic. unfold extract_path_prefix in Hp.
    repeat case_match; done. }
  intros prefix _. apply blames_bind.
  { destruct restrict; [destruct (negb _)|]; by intros [=]. }
  intros _ _. apply blames_bind.
  { apply blames_lift. intros Hp%map_err_panic. by apply ok_or_panic in Hp. }
  intros jwt _. apply blames_bind.
  { apply blames_lift. intros [Hp|(?&_&[=])]%map_err_panic%outcome_bind_panic.
    by apply ok_or_panic in Hp. }
  intros remote _. apply blames_bind; [apply resolve_tunnel_blames|].
  intros [dest info] _. apply blames_bind; [apply blames_lift, ok_or_panic|].
  intros restriction _. apply blames_bind; [apply blames_map_err, exec_tunnel_blames|].
  intros [r io] _. by destruct (apply_rate_limit net pool info).
Qed.

(** The destination announced by a dynamic reverse tunnel comes from its listener. *)
Lemma exec_dynamic_remote cfg net restriction remote client l r io :
  is_dynamic_reverse_tunnel (protocol remote) = true →
  exec_tunnel cfg net restriction remote client = (l, Ok (r, io)) →
  ∃ kind bind t, EListen kind bind ∈ l ∧ net_listen net kind bind t = Ok (io, r).
Proof.
  intros Hdyn. unfold exec_tunnel. destruct (protocol remote); try done.
  all: unfold exec_reverse; intros (?&b&?&_&Hx&->)%W_bind_ok;
    apply W_bind_ok in Hx as (?&?&?&[= <- _]&Hx&->);
    apply W_bind_ok in Hx as (?&[io' r']&?&[= <- Hl]&[= <- <- <-]&->);
    (do 3 eexists; split; [|exact Hl]); set_solver.
Qed.

(** C16: A request can only abort the server through an operation on the network that the
    rules admitted: if serving a request panics, then one of the effects it had caused (a
    connection, a listener, the exchange with the resolver) did, or the listener announced
    a destination that cannot be put in a token; and every effect is lawful.  Reading the
    request, checking it and answering never panic, whatever the request holds. *)
Theorem panics_only_in_network cfg net pool rules conn peer req :
  let r := serve_request is_upgrade_request upgrade cfg net pool rules conn peer req in
  snd r = Panic →
  ∃ e, e ∈ fst r ∧ effect_panics net e ∧ lawful cfg net rules conn req e.
Proof.
  intros r Hpanic. cut (∃ e, e ∈ fst r ∧ effect_panics net e).
  { intros (e&He&Hp). exists e. split_and!; [done..|]. by eapply serve_request_effect. }
  destruct (serve_request_handle cfg net pool rules conn peer req) as [[_ (x&Hx&_)]|[Hfst Hcase]].
  { unfold r in Hpanic. congruence. }
  fold r in Hcase, Hfst. rewrite Hfst. rewrite Hpanic in Hcase.
  pose proof (handle_blames cfg net pool rules (conn_restrict conn) peer req) as Hb.
  destruct (handle_tunnel_request cfg net _ _ _ _ _) as [l [[acc pool1]|?|]] eqn:Hh;
    cbn [fst snd] in *; [|done|by apply Hb].
  destruct Hcase as [Hv1|[h Hc]]; [destruct (hv_visible "v1" eq_refl); congruence|].
  unfold with_cookie in Hc. destruct (acc_inject_cookie acc) eqn:Hi; [|done].
  apply handle_ok in Hh as (prefix&remote&dest&info&restriction&_&_&Hd&_&l'&c'&He&Hl).
  destruct (exec_dynamic_remote _ _ _ _ _ _ _ _ ltac:(by rewrite <-Hd) He) as (kind&b&t&Hin&Hli).
  exists (EListen kind b). split; [by apply Hl|]. exists t. right. eexists _, _. split; [exact Hli|].
  apply not_true_is_false. intros Hw.
  unfold inject_cookie, tunnel_to_jwt_token in Hc. rewrite jwt_config_new_eq, Hw in Hc.
  cbn in Hc. by destruct (hv_from_str _).
Qed.
End Properties.

(** ** Witnesses *)

#[global] Instance toy_x509 : X509Api :=
  {| Cert := string; X509 := string; x509_parse := Some; x509_is_ca _ := false;
     x509_common_names c := [Some c] |}.

(** A network where every connection succeeds. *)
Definition toy_net : NetEnv (Io := unit) :=
  mkNet (λ _ _ _, Ok ()) (λ _ _ _, Ok ((), Ok (SockV4 LOCALHOST_V4 1)))
    (λ _ _ _ _, Ok ((), Ok (SockV4 LOCALHOST_V4 1))) (λ _ _, Ok "PROXY")
    (λ _ _ _, Ok ((), toy_dest)) (λ _, 7)
    (λ _, Ok (mkReply 200 (Some ("host: 10.0.0.7" +:+ LF +:+ "port: 22" +:+ LF
                                 +:+ "rate_limit_m: 3" +:+ LF)))) 0.

Definition toy_server : WsServerConfig :=
  mkServerConfig None (from_secs 5) false None None (from_secs 60) (Some toy_base).
Definition toy_request (dest : RemoteAddr) : Request :=
  match ws_upgrade_request toy_files (toy_cfg Ws) "key" toy_id dest with
  | Ok r => r
  | _ => mkRequest "GET" ("/" : @Uri toy_http_api) HTTP_11 hm_empty
  end.
Definition toy_rules : RestrictionsRules :=
  match from_path_prefix ["v1"] [] with Ok r => r | _ => mkRules [] end.
Definition toy_peer : SocketAddr := SockV4 LOCALHOST_V4 5555.
Definition toy_conn (cn : @Cert toy_x509) : Conn := TlsConn None (Some [cn]).
Definition toy_serve (conn : Conn) (dest : RemoteAddr) :=
  serve_request (λ _, true) (λ _, Some hm_empty) toy_server toy_net pool_new toy_rules conn
    toy_peer (toy_request dest).
Definition toy_tunnel : RemoteAddr := mkRemote (TunnelStdio false None) (Domain "5") 0.

Lemma effects_are_admitted_witness :
  ∃ prefix, extract_path_prefix (uri_path (req_uri (toy_request toy_dest))) = Ok prefix
    ∧ ∀ cn, conn_restrict (toy_conn "v1") = Some cn → prefix = cn.
Proof.
  assert (ETcpConnect (Domain "google.com") 443 ∈ fst (toy_serve (toy_conn "v1") toy_dest))
    as Hin by (vm_compute; left).
  destruct (effects_are_admitted (λ _, true) (λ _, Some hm_empty) toy_server toy_net pool_new
              toy_rules (toy_conn "v1") toy_peer (toy_request toy_dest) _ Hin)
    as (prefix&_&Hp&Hcn&_).
  exists prefix. split; [exact Hp|exact Hcn].
Defined.

(** A certificate for another prefix: the request is rejected. *)
Lemma rejections_are_400_witness :
  toy_serve (toy_conn "v2") toy_dest = ([], Ok (bad_request, None, pool_new))
  ∧ resp_status bad_request = 400.
Proof.
  assert (toy_serve (toy_conn "v2") toy_dest = ([], Ok (bad_request, None, pool_new))) as E
    by vm_cast_no_check (@eq_refl _ (toy_serve (toy_conn "v2") toy_dest)).
  split; [exact E|]. exact (rejections_are_400 _ _ _ _ _ _ _ _ _ _ _ _ E).
Defined.

Definition toy_handle :=
  handle_tunnel_request toy_server toy_net pool_new toy_rules None toy_peer
    (toy_request toy_tunnel).

Lemma rate_limits_only_for_tunnel_ids_witness :
  ∃ l acc pool', toy_handle = (l, Ok (acc, pool'))
    ∧ ((acc_limiters acc = None ∧ pool' = pool_new) ∨ acc_limiters acc ≠ None).
Proof.
  assert (is_ok (snd toy_handle) = true) as Hok by (vm_compute; reflexivity).
  destruct toy_handle as [l [[acc pool']|r|]] eqn:E; [|discriminate..].
  exists l, acc, pool'. split; [reflexivity|].
  destruct (rate_limits_only_for_tunnel_ids toy_server toy_net pool_new toy_rules None toy_peer
              (toy_request toy_tunnel) l acc pool' E)
    as [H|(?&?&?&?&?&?&?&?&_&_&_&H&_)]; [left; exact H|right; by rewrite H].
Defined.

(** A listener that panics. *)
Definition panicking_net : NetEnv (Io := unit) :=
  mkNet (net_udp_connect toy_net) (net_tcp_connect toy_net) (net_tcp_connect_proxy toy_net)
    (net_ppp toy_net) (λ _ _ _, Panic) (net_hash toy_net) (net_exchange toy_net) 0.
Definition toy_panic :=
  serve_request (λ _, true) (λ _, Some hm_empty) toy_server panicking_net pool_new toy_rules Plain toy_peer
    (toy_request (mkRemote (ReverseSocks5 None None) (Ipv4 (mkIpv4 0)) 1)).

Lemma panics_only_in_network_witness :
  snd toy_panic = Panic ∧ ∃ e, e ∈ fst toy_panic ∧ effect_panics panicking_net e.
Proof.
  assert (snd toy_panic = Panic) as E.
  { assert (match snd toy_panic with Panic => true | _ => false end = true) as Hp by (vm_compute; reflexivity).
    by destruct (snd toy_panic). }
  split; [exact E|].
  destruct (panics_only_in_network (λ _, true) (λ _, Some hm_empty) toy_server panicking_net pool_new
    toy_rules Plain toy_peer (toy_request (mkRemote (ReverseSocks5 None None) (Ipv4 (mkIpv4 0)) 1)) E)
    as (e&He&Hp&_).
  by exists e.
Defined.
