(* ===== verification/Transport.v ===== *)
(** * Transport: moving bytes between a local connection and the tunnel

    Models [src/wstunnel/src/tunnel/transport/io.rs] (the traits [TunnelWrite] and
    [TunnelRead] and the two copy loops) and their implementations in
    [tunnel/transport/websocket.rs] and [tunnel/transport/http2.rs].

    The traits are classes.  The copy loops are functions on the sequence of events the
    [select!] picks, with the outcome of each I/O operation in the event; their theorems
    are proved against the class laws, and each transport has an instance of them. *)

From Stdlib Require Import ZArith Lia Ascii String.
From stdpp Require Import base list strings.
From S2P Require Import Prelude Str.

#[local] Open Scope stdpp_scope.

Definition MAX_PACKET_LENGTH : Z := 64 * 1024.

Inductive ErrorKind := NotConnected | BrokenPipe | ConnectionAborted | OtherKind.

(** Frames of the websocket; for http2 a [FBinary] is one data frame of the body. *)
Inductive Frame :=
| FContinuation (payload : string)
| FText (payload : string)
| FBinary (payload : string)
| FClose
| FPing (payload : string)
| FPong (payload : string).

(** The bytes of the tunnel a sequence of frames carries. *)
Definition frame_data (f : Frame) : string :=
  match f with FContinuation p | FText p | FBinary p => p | FClose | FPing _ | FPong _ => "" end.
Fixpoint frames_data (fs : list Frame) : string :=
  match fs with [] => "" | f :: fs => frame_data f +:+ frames_data fs end.

(** [bytes::BytesMut::reserve]: at least the asked capacity, never less than before. *)
Class BytesApi := { bytes_reserve : Z → Z → Z → Z }.
Class BytesLaws `{BytesApi} : Prop := {
  bytes_reserve_enough cap len add : len + add ≤ bytes_reserve cap len add;
  bytes_reserve_mono cap len add : cap ≤ bytes_reserve cap len add;
}.

(** ** The writing side of a tunnel *)

(** The outcome of writing and flushing a data frame. *)
Inductive WriteIo := WOk | WFailed | WFlushFailed.

(** [tw_write], [tw_ping], [tw_close] take the outcome of the underlying write;
    [tw_pending] takes the frames in the channel with the outcome of each write.
    [tw_sent] is what has been handed to the wire. *)
Class TunnelWrite (T : Type) := {
  tw_buf : T → string;
  tw_room : T → Z;
  tw_fill : T → string → T;
  tw_write : T → WriteIo → T * outcome ErrorKind unit;
  tw_ping : T → bool → T * outcome ErrorKind unit;
  tw_close : T → bool → T * outcome ErrorKind unit;
  tw_pending : T → list (Frame * bool) → T * outcome ErrorKind unit;
  tw_sent : T → list Frame;
}.

Definition tw_data {T} `{TunnelWrite T} (t : T) : string := frames_data (tw_sent t).

(** Control operations leave the buffer and the data alone. *)
Definition control {T} `{TunnelWrite T} (t t' : T) : Prop :=
  tw_buf t' = tw_buf t ∧ tw_room t' = tw_room t ∧ tw_data t' = tw_data t.

Class TunnelWriteLaws (T : Type) `{TunnelWrite T} : Prop := {
  tw_fill_buf t s : tw_buf (tw_fill t s) = tw_buf t +:+ s;
  tw_fill_data t s : tw_data (tw_fill t s) = tw_data t;
  tw_fill_room t s : tw_room (tw_fill t s) = tw_room t - Z.of_nat (String.length s);
  (** A successful write hands the whole buffer over, empties it and leaves room for a
      packet; a failed one may have handed it over. *)
  tw_write_ok t t' io : tw_write t io = (t', Ok ()) →
    tw_data t' = tw_data t +:+ tw_buf t ∧ tw_buf t' = ""
    ∧ (MAX_PACKET_LENGTH ≤ tw_room t + Z.of_nat (String.length (tw_buf t)) →
       MAX_PACKET_LENGTH ≤ tw_room t');
  tw_write_err t t' io : snd (tw_write t io) ≠ Ok () → t' = fst (tw_write t io) →
    tw_data t' = tw_data t ∨ tw_data t' = tw_data t +:+ tw_buf t;
  tw_write_io t io : is_ok (snd (tw_write t io)) = true ↔ io = WOk;
  tw_ping_control t b : control t (fst (tw_ping t b));
  tw_close_control t b : control t (fst (tw_close t b));
  tw_pending_control t fs : control t (fst (tw_pending t fs));
}.

(** What the [select!] of [propagate_local_to_remote] can pick. *)
Inductive LocalEvent :=
| EvPending (fs : list (Frame * bool))
| EvRead (r : outcome ErrorKind string) (io : WriteIo)
| EvShouldClose
| EvTick (ping_ok : bool).

(** The loop: [inl] is the end of the loop by [break] (then [close] is called), [inr] an
    error returned at once by a failed ping.  Without events left the loop waits. *)
Inductive LoopEnd := Waiting | Broke | Returned (e : ErrorKind) | Crashed.

Fixpoint local_loop {T} `{TunnelWrite T} (ping_frequency : option Duration) (t : T)
    (evs : list LocalEvent) : T * LoopEnd :=
  match evs with
  | [] => (t, Waiting)
  | EvPending fs :: evs =>
      let '(t, r) := tw_pending t fs in
      match r with
      | Ok _ => local_loop ping_frequency t evs
      | Err _ => (t, Broke)
      | Panic => (t, Crashed)
      end
  | EvRead r io :: evs =>
      match r with
      | Ok "" => (t, Broke)
      | Ok data =>
          let '(t, r) := tw_write (tw_fill t data) io in
          match r with
          | Ok _ => local_loop ping_frequency t evs
          | Err _ => (t, Broke)
          | Panic => (t, Crashed)
          end
      | Err _ => (t, Broke)
      | Panic => (t, Crashed)
      end
  | EvShouldClose :: _ => (t, Broke)
  | EvTick ping_ok :: evs =>
      match ping_frequency with
      | None => local_loop ping_frequency t evs
      | Some _ =>
          let '(t, r) := tw_ping t ping_ok in
          match r with
          | Ok _ => local_loop ping_frequency t evs
          | Err e => (t, Returned e)
          | Panic => (t, Crashed)
          end
      end
  end.

(** The loop and the normal close that follows a [break]. *)
Definition propagate_local_to_remote {T} `{TunnelWrite T} (ping_frequency : option Duration)
    (t : T) (evs : list LocalEvent) (close_ok : bool) : T * LoopEnd :=
  match local_loop ping_frequency t evs with
  | (t, Broke) => (fst (tw_close t close_ok), Broke)
  | r => r
  end.

(** ** The reading side *)

(** [copy]: consumes frames of the source until one is written to the local side; the
    outcome of each local write is an argument.  The results: what was written, the
    rest of the source, the control frames for the writing side, the outcome; [None]
    when the source has nothing (yet). *)
Class TunnelRead (R : Type) := {
  tr_copy : R → (string → bool) → option (string * R * list Frame * outcome ErrorKind unit);
}.

Fixpoint remote_loop {R} `{TunnelRead R} (fuel : nat) (r : R) (write_ok : string → bool)
    : string * list Frame :=
  match fuel with
  | 0%nat => ("", [])
  | S fuel =>
      match tr_copy r write_ok with
      | None => ("", [])
      | Some (out, r, ops, Ok _) =>
          let '(out', ops') := remote_loop fuel r write_ok in (out +:+ out', ops ++ ops')
      | Some (out, _, ops, _) => (out, ops)
      end
  end.

(** ** Websocket *)

(** [in_flight_ping] is a 64-bit counter with wrapping arithmetic. *)
Record WsWrite := mkWsWrite {
  ww_buf : string;
  ww_cap : Z;
  ww_in_flight : Z;
  ww_sent : list Frame
}.

Definition ws_write_new : WsWrite := mkWsWrite "" MAX_PACKET_LENGTH 0 [].

Definition MB32 : Z := 32 * 1024 * 1024.

Section Websocket.
Context `{BytesApi}.

Definition ws_write (t : WsWrite) (io : WriteIo) : WsWrite * outcome ErrorKind unit :=
  let read_len := Z.of_nat (String.length (ww_buf t)) in
  match io with
  | WFailed => (t, Err ConnectionAborted)
  | WFlushFailed =>
      (mkWsWrite (ww_buf t) (ww_cap t) (ww_in_flight t) (ww_sent t ++ [FBinary (ww_buf t)]),
       Err ConnectionAborted)
  | WOk =>
      let cap := if (ww_cap t =? read_len) && (ww_cap t <? MB32)
                 then bytes_reserve (ww_cap t) 0 (ww_cap t + ww_cap t / 4)
                 else ww_cap t in
      (mkWsWrite "" cap (ww_in_flight t) (ww_sent t ++ [FBinary (ww_buf t)]), Ok ())
  end.

Definition ws_send (t : WsWrite) (f : Frame) : WsWrite :=
  mkWsWrite (ww_buf t) (ww_cap t) (ww_in_flight t) (ww_sent t ++ [f]).
Definition ws_set_in_flight (t : WsWrite) (n : Z) : WsWrite :=
  mkWsWrite (ww_buf t) (ww_cap t) n (ww_sent t).

Definition ws_ping (t : WsWrite) (io : bool) : WsWrite * outcome ErrorKind unit :=
  let prev := ww_in_flight t in
  let t := ws_set_in_flight t (wrap 64 (prev + 1)) in
  if 3 <=? prev then (t, Err ConnectionAborted)
  else if io then (ws_send t (FPing ""), Ok ()) else (t, Err BrokenPipe).

Definition ws_close (t : WsWrite) (io : bool) : WsWrite * outcome ErrorKind unit :=
  if io then (ws_send t FClose, Ok ()) else (t, Err BrokenPipe).

Fixpoint ws_handle_pending_operations (t : WsWrite) (fs : list (Frame * bool))
    : WsWrite * outcome ErrorKind unit :=
  match fs with
  | [] => (t, Ok ())
  | (FClose, io) :: fs =>
      if io then ws_handle_pending_operations (ws_send t FClose) fs
      else (t, Err ConnectionAborted)
  | (FPing p, io) :: fs =>
      if io then ws_handle_pending_operations (ws_send t (FPong p)) fs
      else (t, Err ConnectionAborted)
  | (FPong _, _) :: fs =>
      ws_handle_pending_operations (ws_set_in_flight t (wrap 64 (ww_in_flight t - 1))) fs
  | ((FContinuation _ | FText _ | FBinary _), _) :: _ => (t, Panic)
  end.

#[global] Instance ws_tunnel_write : TunnelWrite WsWrite :=
  {| tw_buf := ww_buf;
     tw_room t := ww_cap t - Z.of_nat (String.length (ww_buf t));
     tw_fill t s := mkWsWrite (ww_buf t +:+ s) (ww_cap t) (ww_in_flight t) (ww_sent t);
     tw_write := ws_write;
     tw_ping := ws_ping;
     tw_close := ws_close;
     tw_pending := ws_handle_pending_operations;
     tw_sent := ww_sent |}.
End Websocket.

(** The reading half: the results of [read_frame] to come, and whether the writing half
    still receives control frames. *)
Record WsRead := mkWsRead { wr_frames : list (outcome ErrorKind Frame); wr_chan_open : bool }.

Fixpoint ws_copy_frames (frames : list (outcome ErrorKind Frame)) (chan_open : bool)
    (write_ok : string → bool)
    : option (string * list (outcome ErrorKind Frame) * list Frame * outcome ErrorKind unit) :=
  match frames with
  | [] => None
  | Ok (FContinuation p | FText p | FBinary p) :: frames =>
      if write_ok p then Some (p, frames, [], Ok ()) else Some ("", frames, [], Err ConnectionAborted)
  | Ok FClose :: frames =>
      Some ("", frames, (if chan_open then [FClose] else []), Err NotConnected)
  | Ok (FPing p) :: frames =>
      if chan_open
      then match ws_copy_frames frames chan_open write_ok with
           | Some (out, rest, ops, r) => Some (out, rest, FPing p :: ops, r)
           | None => None
           end
      else Some ("", frames, [], Err ConnectionAborted)
  | Ok (FPong _) :: frames =>
      if chan_open
      then match ws_copy_frames frames chan_open write_ok with
           | Some (out, rest, ops, r) => Some (out, rest, FPong "" :: ops, r)
           | None => None
           end
      else Some ("", frames, [], Err ConnectionAborted)
  | _ :: frames => Some ("", frames, [], Err ConnectionAborted)
  end.

#[global] Instance ws_tunnel_read : TunnelRead WsRead :=
  {| tr_copy r write_ok :=
       match ws_copy_frames (wr_frames r) (wr_chan_open r) write_ok with
       | Some (out, rest, ops, res) => Some (out, mkWsRead rest (wr_chan_open r), ops, res)
       | None => None
       end |}.

(** ** Http2 *)

Record H2Write := mkH2Write { hw_buf : string; hw_cap : Z; hw_sent : list Frame }.

Definition h2_write_new : H2Write := mkH2Write "" (MAX_PACKET_LENGTH * 20) [].

Section Http2.
Context `{BytesApi}.

(** [buf.split()] takes the bytes with their part of the capacity. *)
Definition h2_write (t : H2Write) (io : WriteIo) : H2Write * outcome ErrorKind unit :=
  let data := hw_buf t in
  let cap := hw_cap t - Z.of_nat (String.length data) in
  let cap := if cap <? MAX_PACKET_LENGTH then bytes_reserve cap 0 MAX_PACKET_LENGTH else cap in
  match io with
  | WOk => (mkH2Write "" cap (hw_sent t ++ [FBinary data]), Ok ())
  | _ => (mkH2Write "" cap (hw_sent t), Err ConnectionAborted)
  end.

#[global] Instance h2_tunnel_write : TunnelWrite H2Write :=
  {| tw_buf := hw_buf;
     tw_room t := hw_cap t - Z.of_nat (String.length (hw_buf t));
     tw_fill t s := mkH2Write (hw_buf t +:+ s) (hw_cap t) (hw_sent t);
     tw_write := h2_write;
     tw_ping t _ := (t, Ok ());
     tw_close t _ := (t, Ok ());
     tw_pending t _ := (t, Ok ());
     tw_sent := hw_sent |}.
End Http2.

(** The items of the response or request body. *)
Inductive BodyItem := BData (p : string) | BTrailers | BErr | BEnd.

Fixpoint h2_copy (items : list BodyItem) (write_ok : string → bool)
    : option (string * list BodyItem * list Frame * outcome ErrorKind unit) :=
  match items with
  | [] => None
  | BData p :: items =>
      if write_ok p then Some (p, items, [], Ok ()) else Some ("", items, [], Err ConnectionAborted)
  | BTrailers :: items => h2_copy items write_ok
  | BErr :: items => Some ("", items, [], Err ConnectionAborted)
  | BEnd :: items => Some ("", items, [], Err BrokenPipe)
  end.

#[global] Instance h2_tunnel_read : TunnelRead (list BodyItem) := {| tr_copy := h2_copy |}.

(** ** The transport chosen at run time *)

Inductive TunnelWriter := WriterWs (s : WsWrite) | WriterH2 (s : H2Write).
Inductive TunnelReader := ReaderWs (s : WsRead) | ReaderH2 (s : list BodyItem).

(** Run an operation of the chosen transport. *)
Definition on_writer {A} (ws : WsWrite → WsWrite * A) (h2 : H2Write → H2Write * A)
    (t : TunnelWriter) : TunnelWriter * A :=
  match t with
  | WriterWs s => let '(s, r) := ws s in (WriterWs s, r)
  | WriterH2 s => let '(s, r) := h2 s in (WriterH2 s, r)
  end.

#[global] Instance tunnel_writer `{BytesApi} : TunnelWrite TunnelWriter :=
  {| tw_buf t := match t with WriterWs s => tw_buf s | WriterH2 s => tw_buf s end;
     tw_room t := match t with WriterWs s => tw_room s | WriterH2 s => tw_room s end;
     tw_fill t d := match t with
                    | WriterWs s => WriterWs (tw_fill s d)
                    | WriterH2 s => WriterH2 (tw_fill s d)
                    end;
     tw_write t io := on_writer (λ s, tw_write s io) (λ s, tw_write s io) t;
     tw_ping t io := on_writer (λ s, tw_ping s io) (λ s, tw_ping s io) t;
     tw_close t io := on_writer (λ s, tw_close s io) (λ s, tw_close s io) t;
     tw_pending t fs := on_writer (λ s, tw_pending s fs) (λ s, tw_pending s fs) t;
     tw_sent t := match t with WriterWs s => tw_sent s | WriterH2 s => tw_sent s end |}.

#[global] Instance tunnel_reader : TunnelRead TunnelReader :=
  {| tr_copy r write_ok :=
       match r with
       | ReaderWs s => match tr_copy s write_ok with
                       | Some (out, s, ops, res) => Some (out, ReaderWs s, ops, res)
                       | None => None
                       end
       | ReaderH2 s => match tr_copy s write_ok with
                       | Some (out, s, ops, res) => Some (out, ReaderH2 s, ops, res)
                       | None => None
                       end
       end |}.

(** ** Both transports keep the promises of the trait *)

Lemma frames_data_app fs gs : frames_data (fs ++ gs) = frames_data fs +:+ frames_data gs.
Proof.
  induction fs as [|f fs IH]; cbn; [by rewrite app_Empty|]. by rewrite IH, str_app_assoc.
Qed.

Lemma frames_data_snoc fs f : frames_data (fs ++ [f]) = frames_data fs +:+ frame_data f.
Proof. rewrite frames_data_app. cbn. by rewrite app_empty_r. Qed.

Section Laws.
Context `{BytesLaws}.

Lemma control_refl {T} `{TunnelWrite T} (t : T) : control t t.
Proof. done. Qed.

Lemma ws_send_control t f : frame_data f = "" → control t (ws_send t f).
Proof.
  intros Hf. unfold control, tw_data. cbn. rewrite frames_data_snoc, Hf.
  by rewrite app_empty_r.
Qed.

Lemma ws_pending_control t fs : control t (fst (ws_handle_pending_operations t fs)).
Proof.
  revert t. induction fs as [|[f io] fs IH]; intros t; [done|].
  assert (∀ t', control t t' → control t (fst (ws_handle_pending_operations t' fs))) as Hstep.
  { intros t' (?&?&?). destruct (IH t') as (?&?&?). unfold control. split_and!; congruence. }
  destruct f, io; cbn; try done; apply Hstep; first [by apply ws_send_control | done].
Qed.

#[global] Instance ws_write_laws : TunnelWriteLaws WsWrite.
Proof.
  split; cbn.
  - done.
  - done.
  - intros t s. rewrite length_str_app. lia.
  - intros t t' [] [= <-]; cbn. unfold tw_data. cbn. rewrite frames_data_snoc. cbn.
    split; [done|]. split; [done|]. intros Hcap.
    destruct (_ && _) eqn:Hg; [|lia].
    pose proof (bytes_reserve_mono (ww_cap t) 0 (ww_cap t + ww_cap t / 4)). lia.
  - intros t t' [] Hne ->; cbn in *; [done|by left|right].
    unfold tw_data. cbn. by rewrite frames_data_snoc.
  - intros t []; cbn; by split.
  - intros t b. unfold ws_ping. destruct (3 <=? _); [done|]. destruct b; [|done].
    by apply (ws_send_control (ws_set_in_flight t _)).
  - intros t []; [by apply ws_send_control|done].
  - apply ws_pending_control.
Qed.

#[global] Instance h2_write_laws : TunnelWriteLaws H2Write.
Proof.
  split; cbn.
  - done.
  - done.
  - intros t s. rewrite length_str_app. lia.
  - intros t t' [] [= <-]; cbn. unfold tw_data. cbn. rewrite frames_data_snoc. cbn.
    split; [done|]. split; [done|]. intros _.
    destruct (Z.ltb_spec (hw_cap t - Z.of_nat (String.length (hw_buf t))) MAX_PACKET_LENGTH);
      [|lia].
    pose proof (bytes_reserve_enough (hw_cap t - Z.of_nat (String.length (hw_buf t))) 0
                  MAX_PACKET_LENGTH). lia.
  - intros t t' [] Hne ->; cbn in *; [done|by left|by left].
  - intros t []; cbn; by split.
  - done.
  - done.
  - done.
Qed.

Lemma on_writer_fst {A} (ws : WsWrite → WsWrite * A) h2 t :
  fst (on_writer ws h2 t) =
  match t with WriterWs s => WriterWs (fst (ws s)) | WriterH2 s => WriterH2 (fst (h2 s)) end.
Proof. destruct t as [s|s]; cbn; by case_match. Qed.

Lemma on_writer_snd {A} (ws : WsWrite → WsWrite * A) h2 t :
  snd (on_writer ws h2 t) = match t with WriterWs s => snd (ws s) | WriterH2 s => snd (h2 s) end.
Proof. destruct t as [s|s]; cbn; by case_match. Qed.

#[global] Instance tunnel_writer_laws : TunnelWriteLaws TunnelWriter.
Proof.
  split.
  - intros [t|t] s; exact (tw_fill_buf t s).
  - intros [t|t] s; exact (tw_fill_data t s).
  - intros [t|t] s; exact (tw_fill_room t s).
  - intros [t|t] t' io Ht; cbn [tw_write tunnel_writer on_writer] in Ht;
      destruct (tw_write t io) as [s r] eqn:Hw; injection Ht as <- ->; exact (tw_write_ok t s io Hw).
  - intros t t' io Hr ->. revert Hr. cbn [tw_write tunnel_writer].
    rewrite on_writer_fst, on_writer_snd.
    destruct t as [t|t]; intros Hr; exact (tw_write_err t _ io Hr eq_refl).
  - intros t io. cbn [tw_write tunnel_writer]. rewrite on_writer_snd. destruct t; apply tw_write_io.
  - intros t b. cbn [tw_ping tunnel_writer]. rewrite on_writer_fst.
    destruct t as [t|t]; exact (tw_ping_control t b).
  - intros t b. cbn [tw_close tunnel_writer]. rewrite on_writer_fst.
    destruct t as [t|t]; exact (tw_close_control t b).
  - intros t fs. cbn [tw_pending tunnel_writer]. rewrite on_writer_fst.
    destruct t as [t|t]; exact (tw_pending_control t fs).
Qed.
End Laws.

(** ** The copy loops *)

(** The data the local side gave, in order. *)
Fixpoint reads (evs : list LocalEvent) : list string :=
  match evs with
  | [] => []
  | EvRead (Ok data) _ :: evs => data :: reads evs
  | _ :: evs => reads evs
  end.
Fixpoint concat_str (l : list string) : string :=
  match l with [] => "" | s :: l => s +:+ concat_str l end.

Section Loops.
Context {T : Type} `{TunnelWriteLaws T}.

(** At the top of the loop. *)
Definition ready (t : T) : Prop := tw_buf t = "" ∧ MAX_PACKET_LENGTH ≤ tw_room t.

Lemma ready_control t t' : control t t' → ready t → ready t'.
Proof. intros (?&?&?) []. unfold ready. split; [congruence|lia]. Qed.

Lemma ready_write t data io t' :
  ready t → tw_write (tw_fill t data) io = (t', Ok ()) →
  ready t' ∧ tw_data t' = tw_data t +:+ data.
Proof.
  intros [Hb Hr] (Hd&Hb'&Hr')%tw_write_ok. rewrite tw_fill_buf, tw_fill_data, Hb, app_Empty in Hd.
  rewrite tw_fill_room, tw_fill_buf, Hb, app_Empty in Hr'. split; [split; [done|lia]|done].
Qed.

Lemma local_loop_waiting freq t evs t' :
  ready t → local_loop freq t evs = (t', Waiting) →
  ready t' ∧ tw_data t' = tw_data t +:+ concat_str (reads evs).
Proof.
  revert t. induction evs as [|ev evs IH]; intros t Hready; cbn [local_loop reads concat_str].
  { intros [= <-]. by rewrite app_empty_r. }
  destruct ev as [fs|[data|e|] io| |ok].
  - pose proof (tw_pending_control t fs) as Hc.
    destruct (tw_pending t fs) as [t1 [[]| |]]; try done. cbn in Hc. intros Hl.
    apply IH in Hl as [? Hd]; [|by eapply ready_control]. split; [done|].
    destruct Hc as (_&_&Hc). by rewrite Hd, Hc.
  - destruct data as [|a data]; [done|].
    destruct (tw_write (tw_fill t (String a data)) io) as [t1 [[]| |]] eqn:Hw; try done.
    apply ready_write in Hw as [Hr1 Hd1]; [|done]. intros Hl.
    apply IH in Hl as [? Hd]; [|done]. split; [done|].
    cbn [concat_str]. by rewrite Hd, Hd1, str_app_assoc.
  - done.
  - done.
  - done.
  - destruct freq; [|by apply IH]. pose proof (tw_ping_control t ok) as Hc.
    destruct (tw_ping t ok) as [t1 [[]| |]]; try done. cbn in Hc. intros Hl.
    apply IH in Hl as [? Hd]; [|by eapply ready_control]. split; [done|].
    destruct Hc as (_&_&Hc). by rewrite Hd, Hc.
Qed.

Lemma take_S_cons {A} k (x : A) l : x :: take k l = take (S k) (x :: l).
Proof. done. Qed.

Lemma local_loop_prefix freq t evs t' r :
  ready t → local_loop freq t evs = (t', r) →
  ∃ k, tw_data t' = tw_data t +:+ concat_str (take k (reads evs)).
Proof.
  revert t. induction evs as [|ev evs IH]; intros t Hready; cbn [local_loop reads].
  { intros [= <- <-]. exists 0%nat. by rewrite app_empty_r. }
  assert (∀ t1, control t t1 → ∃ k, tw_data t1 = tw_data t +:+ concat_str (take k (reads evs)))
    as Hstop by (intros t1 (_&_&->); exists 0%nat; by rewrite app_empty_r).
  assert (∀ t1, control t t1 → local_loop freq t1 evs = (t', r) →
            ∃ k, tw_data t' = tw_data t +:+ concat_str (take k (reads evs))) as Hgo.
  { intros t1 Hc Hl. apply IH in Hl as [k Hk]; [|by eapply ready_control].
    exists k. destruct Hc as (_&_&Hc). by rewrite Hk, Hc. }
  destruct ev as [fs|[data|e|] io| |ok].
  - pose proof (tw_pending_control t fs) as Hc.
    destruct (tw_pending t fs) as [t1 [[]| |]]; cbn in Hc; [by apply Hgo|..];
      intros [= <- <-]; by apply Hstop.
  - destruct data as [|a data]; [intros [= <- <-]; exists 0%nat; by rewrite app_empty_r|].
    destruct (tw_write (tw_fill t (String a data)) io) as [t1 r1] eqn:Hw.
    assert (snd (tw_write (tw_fill t (String a data)) io) ≠ Ok () →
            ∃ k, tw_data t1 = tw_data t +:+ concat_str (take k (String a data :: reads evs))) as Hbad.
    { intros Hne. destruct (tw_write_err _ t1 _ Hne) as [Hd|Hd]; [by rewrite Hw|..];
        rewrite tw_fill_data in Hd.
      - exists 0%nat. by rewrite Hd, app_empty_r.
      - exists 1%nat. destruct Hready as [Hb _].
        rewrite Hd, tw_fill_buf, Hb, app_Empty. cbn. by rewrite app_empty_r. }
    destruct r1 as [[]| |]; [|intros [= <- <-]; apply Hbad; by rewrite Hw..].
    apply ready_write in Hw as [Hr1 Hd1]; [|done]. intros Hl.
    apply IH in Hl as [k Hk]; [|done]. exists (S k).
    rewrite <-take_S_cons. cbn [concat_str]. by rewrite Hk, Hd1, str_app_assoc.
  - intros [= <- <-]. by apply Hstop.
  - intros [= <- <-]. by apply Hstop.
  - intros [= <- <-]. by apply Hstop.
  - destruct freq; [|by apply Hgo]. pose proof (tw_ping_control t ok) as Hc.
    destruct (tw_ping t ok) as [t1 [[]| |]]; cbn in Hc; [by apply Hgo|..];
      intros [= <- <-]; by apply Hstop.
Qed.

(** C10: While the loop runs, nothing is lost or reordered: everything read from the local
    side has been handed to the tunnel, in order, the buffer is empty and has room for a
    whole packet (the loop's [debug_assert!]).  Proved for every [TunnelWrite] that keeps
    the promises of the trait, hence for both transports. *)
Theorem copy_loop_delivers freq t evs t' :
  tw_buf t = "" → MAX_PACKET_LENGTH ≤ tw_room t →
  local_loop freq t evs = (t', Waiting) →
  tw_buf t' = "" ∧ MAX_PACKET_LENGTH ≤ tw_room t'
  ∧ tw_data t' = tw_data t +:+ concat_str (reads evs).
Proof.
  intros Hb Hr Hl. destruct (local_loop_waiting freq t evs t') as [[] ?]; [done|done|].
  done.
Qed.
End Loops.

(** ** End to end over a websocket *)

Fixpoint before_close (fs : list Frame) : list Frame :=
  match fs with
  | [] => []
  | FClose :: _ => []
  | f :: fs => f :: before_close fs
  end.

Definition is_close (f : Frame) : bool := match f with FClose => true | _ => false end.

Lemma before_close_none fs : existsb is_close fs = false → before_close fs = fs.
Proof.
  induction fs as [|f fs IH]; cbn; [done|]. destruct f; cbn; intros; try done; by rewrite IH.
Qed.

Lemma before_close_snoc fs : existsb is_close fs = false → before_close (fs ++ [FClose]) = fs.
Proof.
  induction fs as [|f fs IH]; cbn; [done|]. destruct f; cbn; intros; try done; by rewrite IH.
Qed.

(** The reading side writes the data of the frames up to the close frame. *)
Lemma ws_remote_loop fs fuel :
  (List.length fs < fuel)%nat →
  fst (remote_loop fuel (mkWsRead (Ok <$> fs) true) (λ _, true)) = frames_data (before_close fs).
Proof.
  revert fuel. induction fs as [|f fs IH]; intros fuel Hfuel.
  { by destruct fuel. }
  destruct fuel as [|fuel]; [lia|]. cbn [List.length] in Hfuel.
  assert (∀ op, tr_copy (mkWsRead (Ok <$> (f :: fs)) true) (λ _, true) =
       match tr_copy (mkWsRead (Ok <$> fs) true) (λ _, true) with
       | Some (out, rest, ops, r) => Some (out, rest, op :: ops, r)
       | None => None
       end →
       fst (remote_loop (S fuel) (mkWsRead (Ok <$> (f :: fs)) true) (λ _, true)) =
       fst (remote_loop (S fuel) (mkWsRead (Ok <$> fs) true) (λ _, true))) as Hskip.
  { intros op Hcopy. cbn [remote_loop]. rewrite Hcopy.
    destruct (tr_copy (mkWsRead (Ok <$> fs) true) _) as [[[[out rest] ops] []]|]; [|done..].
    by destruct (remote_loop fuel rest (λ _, true)). }
  assert (∀ p, frame_data f = p → tr_copy (mkWsRead (Ok <$> (f :: fs)) true) (λ _, true) =
       Some (p, mkWsRead (Ok <$> fs) true, [], Ok ()) →
       fst (remote_loop (S fuel) (mkWsRead (Ok <$> (f :: fs)) true) (λ _, true)) =
       p +:+ frames_data (before_close fs)) as Hdata.
  { intros p Hp Hcopy. cbn [remote_loop]. rewrite Hcopy.
    rewrite <-(IH fuel) by lia. by destruct (remote_loop fuel _ _). }
  destruct f; cbn [before_close frames_data frame_data].
  - by apply Hdata.
  - by apply Hdata.
  - by apply Hdata.
  - done.
  - rewrite (Hskip (FPing payload)), app_Empty, IH; [done|lia|].
    cbn. by destruct (ws_copy_frames _ _ _) as [[[[] ?] ?]|].
  - rewrite (Hskip (FPong "")), app_Empty, IH; [done|lia|].
    cbn. by destruct (ws_copy_frames _ _ _) as [[[[] ?] ?]|].
Qed.

Section WsTunnel.
Context `{BytesLaws}.

(** The peer has not asked to close. *)
Definition no_close_event (ev : LocalEvent) : bool :=
  match ev with EvPending fs => negb (existsb (λ f, is_close (fst f)) fs) | _ => true end.

Lemma existsb_snoc {A} (p : A → bool) l x : existsb p (l ++ [x]) = existsb p l || p x.
Proof. rewrite existsb_app. cbn. by rewrite orb_false_r. Qed.

Lemma ws_pending_no_close t fs :
  existsb (λ f, is_close (fst f)) fs = false → existsb is_close (ww_sent t) = false →
  existsb is_close (ww_sent (fst (ws_handle_pending_operations t fs))) = false.
Proof.
  revert t. induction fs as [|[f io] fs IH]; intros t; cbn; [done|].
  intros [Hf Hfs]%orb_false_iff Ht.
  destruct f, io; cbn; try done; apply IH; cbn; rewrite ?existsb_snoc, ?Ht; done.
Qed.

Lemma ws_loop_no_close freq t evs t' r :
  forallb no_close_event evs = true → existsb is_close (ww_sent t) = false →
  local_loop freq t evs = (t', r) → existsb is_close (ww_sent t') = false.
Proof.
  revert t. induction evs as [|ev evs IH]; intros t; cbn [forallb local_loop].
  { by intros _ ? [= <- <-]. }
  intros [Hev Hevs]%andb_true_iff Ht. destruct ev as [fs|[data|e|] io| |ok].
  - cbn in Hev. apply negb_true_iff in Hev. pose proof (ws_pending_no_close t fs Hev Ht) as Hp.
    cbn [tw_pending ws_tunnel_write] in *.
    destruct (ws_handle_pending_operations t fs) as [t1 [[]| |]]; cbn in Hp;
      [by apply IH|intros [= <- <-]; done..].
  - destruct data as [|a data]; [by intros [= <- <-]|].
    destruct io; cbn; [apply IH; [done|]; cbn; by rewrite existsb_snoc, Ht|..];
      intros [= <- <-]; cbn; by rewrite ?existsb_snoc, ?Ht.
  - by intros [= <- <-].
  - by intros [= <- <-].
  - by intros [= <- <-].
  - destruct freq; [|by apply IH]. cbn [tw_ping ws_tunnel_write]. unfold ws_ping.
    destruct (3 <=? ww_in_flight t); [by intros [= <- <-]|].
    destruct ok; [apply IH; [done|]; cbn; by rewrite existsb_snoc, Ht|by intros [= <- <-]].
Qed.

Lemma local_loop_app {T} `{TunnelWrite T} freq (t : T) evs evs' t1 :
  local_loop freq t evs = (t1, Waiting) →
  local_loop freq t (evs ++ evs') = local_loop freq t1 evs'.
Proof.
  revert t. induction evs as [|ev evs IH]; intros t; cbn [local_loop app].
  { by intros [= <-]. }
  destruct ev as [fs|[[|a data]|e|] io| |ok]; try done.
  - destruct (tw_pending t fs) as [t2 [[]| |]]; try done. by apply IH.
  - destruct (tw_write _ io) as [t2 [[]| |]]; try done. by apply IH.
  - destruct freq; [|by apply IH]. destruct (tw_ping t ok) as [t2 [[]| |]]; try done.
    by apply IH.
Qed.

(** A websocket tunnel is transparent: when the local side ends after a run of the
    loop, the other end writes exactly the bytes that were read, in order, and then
    sees the close frame. *)
Theorem ws_tunnel_transparent freq evs t io fuel :
  forallb no_close_event evs = true →
  local_loop freq ws_write_new evs = (t, Waiting) →
  (S (List.length (ww_sent t)) < fuel)%nat →
  ∃ t', propagate_local_to_remote freq ws_write_new (evs ++ [EvRead (Ok "") io]) true = (t', Broke)
    ∧ ww_sent t' = ww_sent t ++ [FClose]
    ∧ fst (remote_loop fuel (mkWsRead (Ok <$> ww_sent t') true) (λ _, true))
      = concat_str (reads evs).
Proof.
  intros Hnc Hl Hfuel. exists (ws_send t FClose).
  assert (local_loop freq ws_write_new (evs ++ [EvRead (Ok "") io]) = (t, Broke)) as Hl'
    by by rewrite (local_loop_app _ _ _ _ _ Hl).
  unfold propagate_local_to_remote. rewrite Hl'. split; [done|]. split; [done|].
  rewrite ws_remote_loop by (cbn; rewrite length_app; cbn; lia).
  cbn [ww_sent ws_send]. rewrite before_close_snoc
    by (eapply (ws_loop_no_close freq ws_write_new evs); [done|done|exact Hl]).
  apply local_loop_waiting in Hl as [_ Hd]; [|by split].
  unfold tw_data in Hd. cbn in Hd. by rewrite Hd, app_Empty.
Qed.

(** ** Keepalive *)

Definition ticks (evs : list LocalEvent) : Z :=
  Z.of_nat (List.length (List.filter (λ ev, match ev with EvTick _ => true | _ => false end) evs)).

(** Traffic without control frames from the peer: reads and pings succeed. *)
Definition quiet (ev : LocalEvent) : bool :=
  match ev with
  | EvTick ok => ok
  | EvRead (Ok data) io => negb (String.eqb data "") && match io with WOk => true | _ => false end
  | _ => false
  end.

(** The keepalive tolerates three unanswered pings: without a pong the loop goes on as
    long as at most three pings have been sent, and the fourth ends it with an error (and
    without a close frame), however much data is sent in between. *)
Theorem keepalive_limit f t evs :
  0 ≤ ww_in_flight t ≤ 3 → forallb quiet evs = true →
  snd (local_loop (Some f) t evs) =
    if ww_in_flight t + ticks evs <=? 3 then Waiting else Returned ConnectionAborted.
Proof.
  revert t. induction evs as [|ev evs IH]; intros t Ht Hq; cbn [forallb] in Hq.
  { cbn [local_loop snd]. change (ticks []) with 0. by rewrite (proj2 (Z.leb_le _ _)) by lia. }
  apply andb_true_iff in Hq as [Hev Hq]. unfold ticks. destruct ev as [fs|[data|e|] io| |ok];
    try done; cbn [quiet] in Hev; cbn [List.filter].
  - apply andb_true_iff in Hev as [Hd Hio]. destruct data as [|a data]; [done|].
    destruct io; try done. cbn [local_loop tw_write ws_tunnel_write ws_write].
    by rewrite IH.
  - destruct ok; [|done]. cbn [local_loop tw_ping ws_tunnel_write]. unfold ws_ping.
    cbn [List.length]. rewrite Nat2Z.inj_succ.
    destruct (Z.leb_spec 3 (ww_in_flight t)) as [Hge|Hlt].
    + cbn [snd]. by rewrite (proj2 (Z.leb_gt _ _)) by lia.
    + rewrite IH; [|cbn [ww_in_flight ws_send ws_set_in_flight]; rewrite wrap_small by lia; lia
                  |done].
      cbn [ww_in_flight ws_send ws_set_in_flight]. rewrite wrap_small by lia.
      unfold ticks. set (n := Z.of_nat _).
      by replace (ww_in_flight t + 1 + n) with (ww_in_flight t + Z.succ n) by lia.
Qed.

(** A single unsolicited pong of the peer makes the next keepalive ping fail: the
    counter of pings in flight wraps below zero. *)
Theorem unsolicited_pong_kills_tunnel f t p ok :
  ww_in_flight t = 0 →
  snd (local_loop (Some f) t [EvPending [(FPong p, true)]; EvTick ok]) =
    Returned ConnectionAborted.
Proof. intros Ht. cbn. unfold ws_ping. cbn. by rewrite Ht. Qed.
End WsTunnel.

(** ** Witnesses *)

#[global] Instance toy_bytes : BytesApi :=
  {| bytes_reserve cap len add := Z.max cap (len + add) |}.
#[global] Instance toy_bytes_laws : BytesLaws.
Proof. split; cbn; intros; lia. Qed.

Definition toy_evs : list LocalEvent :=
  [EvRead (Ok "hello ") WOk; EvTick true; EvPending [(FPing "x", true); (FPong "", true)];
   EvRead (Ok "world") WOk].

Lemma copy_loop_delivers_witness :
  ∃ t, local_loop (Some 1) h2_write_new toy_evs = (t, Waiting) ∧ tw_data t = "hello world".
Proof.
  exists (fst (local_loop (Some 1) h2_write_new toy_evs)). split; [reflexivity|].
  destruct (copy_loop_delivers (Some 1) h2_write_new toy_evs
              (fst (local_loop (Some 1) h2_write_new toy_evs))) as (_&_&Hd).
  - reflexivity.
  - vm_compute. discriminate.
  - reflexivity.
  - exact Hd.
Defined.

Lemma ws_tunnel_transparent_witness :
  ∃ t', propagate_local_to_remote (Some 1) ws_write_new (toy_evs ++ [EvRead (Ok "") WOk]) true
      = (t', Broke)
    ∧ fst (remote_loop 10 (mkWsRead (Ok <$> ww_sent t') true) (λ _, true)) = "hello world".
Proof.
  destruct (ws_tunnel_transparent (Some 1) toy_evs
              (fst (local_loop (Some 1) ws_write_new toy_evs)) WOk 10) as (t'&Hp&_&Hr).
  - reflexivity.
  - reflexivity.
  - vm_compute. lia.
  - exists t'. split; [exact Hp|exact Hr].
Defined.

Lemma keepalive_limit_witness :
  snd (local_loop (Some 1) ws_write_new [EvTick true; EvTick true; EvTick true; EvTick true])
  = Returned ConnectionAborted.
Proof.
  rewrite (keepalive_limit 1 ws_write_new [EvTick true; EvTick true; EvTick true; EvTick true]);
    [reflexivity|cbn; lia|reflexivity].
Defined.

Lemma unsolicited_pong_kills_tunnel_witness :
  snd (local_loop (Some 1) ws_write_new [EvPending [(FPong "", true)]; EvTick true])
  = Returned ConnectionAborted.
Proof. apply (unsolicited_pong_kills_tunnel 1 ws_write_new "" true). reflexivity. Defined.
