(* ===== verification/Duplex.v ===== *)
(** * Duplex: the two directions of a tunnel, running together

    A tunnel is two tasks: [propagate_local_to_remote] owns the writing half of the transport,
    [propagate_remote_to_local] the reading half ([src/wstunnel/src/tunnel/transport/io.rs]).
    They share a channel for control frames with a [Notify]
    ([WebsocketTunnelRead::new], [src/wstunnel/src/tunnel/transport/websocket.rs]) and a
    [oneshot] channel of which each holds one end, so that each sees the other end.

    [Transport] models what each task does by itself.  Here they run concurrently: an event
    is one step of one task (or a frame that arrives), up to its next [await], and runs are
    sequences of events in any order.  A write to the transport or to the local side is two
    steps, its start and its end, so that a task may stay blocked in it.  The writing task
    works on any [TunnelWrite]; over http2 the frames are the data frames of the body, as
    the peer's reads give them, without control frames. *)

From Stdlib Require Import ZArith Lia Ascii String.
From stdpp Require Import base list strings.
From S2P Require Import Prelude Str Transport.

#[local] Open Scope stdpp_scope.

(** [tokio::sync::mpsc::channel(10)]. *)
Definition PENDING_BOUND : nat := 10.

(** The writing task: not polled yet, in its [select!], in [ws_tx.write()] with the bytes it
    read, in [ws_tx.ping()], between two frames in [handle_pending_operations], replying to
    one there, in [ws_tx.close()], returned, or aborted by a panic. *)
Inductive LPhase :=
| LStart | LSelect | LWriting (data : string) | LPinging | LDrain | LReplying (f : Frame)
| LClosing | LEnded | LCrashed.

(** The reading task: in [copy] waiting for a frame, in the [write_all] of its payload, in
    [send] of a control frame, about to call [notify_waiters], returned. *)
Inductive RPhase :=
| RCopy | RWriting (p : string) | RSending (f : Frame) | RNotifying (f : Frame)
| REnded (e : option ErrorKind).

(** [dx_notified]: the [Notified] future the writing task waits for has been woken.
    [dx_missed] records that the last [notify_waiters] came before there was such a future.
    [dx_wire]: results of [read_frame] ([None]: an error) that have arrived and are not read
    yet.  [dx_local] is what was written to the local side; [dx_pings] records the pings
    read. *)
Record Duplex (T : Type) := mkDuplex {
  dx_tx : T;
  dx_l : LPhase;
  dx_r : RPhase;
  dx_queue : list Frame;
  dx_notified : bool;
  dx_missed : bool;
  dx_wire : list (option Frame);
  dx_local : string;
  dx_pings : list string
}.

Arguments mkDuplex {T}.
Arguments dx_tx {T}.
Arguments dx_l {T}.
Arguments dx_r {T}.
Arguments dx_queue {T}.
Arguments dx_notified {T}.
Arguments dx_missed {T}.
Arguments dx_wire {T}.
Arguments dx_local {T}.
Arguments dx_pings {T}.

Definition duplex_new {T} (t : T) : Duplex T := mkDuplex t LStart RCopy [] false false [] "" [].

Inductive LEvent :=
| LBegin                                  (** the first poll: up to the loop *)
| LWake                                   (** [has_pending_operations] is ready *)
| LHandle                                 (** [try_recv] gives a frame *)
| LReplied (io : bool)                    (** the frame has been handled *)
| LDrained                                (** [try_recv] gives none *)
| LRead (r : option string)               (** [read_buf] ([None]: an error) *)
| LWritten (io : WriteIo)                 (** [write] ends *)
| LShouldClose                            (** [close_tx.closed()] is ready *)
| LTick                                   (** the timer *)
| LPinged (io : bool)                     (** [ping] ends *)
| LClose (io : bool).                     (** the normal close ends *)

Inductive REvent :=
| RFrame                                  (** [read_frame] gives a frame *)
| RWritten (failed : option nat)          (** [write_all] ends, or fails after some bytes *)
| RSend                                   (** [pending_operations.send] completes *)
| RNotify                                 (** [notify_waiters] *)
| RCloseRx                                (** [close_rx] is ready, no frame is *)
| RCancel (written : nat).                (** [close_rx] is ready, in [write_all] *)

Inductive DEvent := Left (e : LEvent) | Right (e : REvent) | Arrive (f : option Frame).

(** Whether a task has ended: its end of the [oneshot] is dropped. *)
Definition l_ended {T} (d : Duplex T) : bool :=
  match dx_l d with LEnded | LCrashed => true | _ => false end.
Definition r_ended {T} (d : Duplex T) : bool :=
  match dx_r d with REnded _ => true | _ => false end.

Section Step.
Context {T : Type} `{TunnelWrite T}.
Context (ping_frequency : option Duration).

Definition set_l (d : Duplex T) (t : T) (l : LPhase) : Duplex T :=
  mkDuplex t l (dx_r d) (dx_queue d) (dx_notified d) (dx_missed d) (dx_wire d) (dx_local d) (dx_pings d).
Definition set_r (d : Duplex T) (r : RPhase) : Duplex T :=
  mkDuplex (dx_tx d) (dx_l d) r (dx_queue d) (dx_notified d) (dx_missed d) (dx_wire d) (dx_local d) (dx_pings d).

(** Some bytes have reached the local side. *)
Definition write_local (d : Duplex T) (p : string) (r : RPhase) : Duplex T :=
  mkDuplex (dx_tx d) (dx_l d) r (dx_queue d) (dx_notified d) (dx_missed d) (dx_wire d) (dx_local d +:+ p)
    (dx_pings d).

(** Where a turn of the loop of [local_loop] leads. *)
Definition l_next (e : LoopEnd) : LPhase :=
  match e with Waiting => LSelect | Broke => LClosing | Returned _ => LEnded | Crashed => LCrashed end.

(** One turn of the loop with one event. *)
Definition l_turn (d : Duplex T) (ev : LocalEvent) : Duplex T :=
  let '(t, e) := local_loop ping_frequency (dx_tx d) [ev] in set_l d t (l_next e).

(** The [select!] is biased: pending operations come first, and the timer is looked at only
    if the other task has not ended.  The new [Notified] future is made before the channel is
    emptied.  The turn of [local_loop] a write or a ping belongs to is made when that ends. *)
Definition l_step (d : Duplex T) (e : LEvent) : option (Duplex T) :=
  match e, dx_l d with
  | LBegin, LStart => Some (set_l d (dx_tx d) LSelect)
  | LWake, LSelect =>
      if dx_notified d
      then Some (mkDuplex (dx_tx d) LDrain (dx_r d) (dx_queue d) false (dx_missed d) (dx_wire d) (dx_local d)
                   (dx_pings d))
      else None
  | LHandle, LDrain =>
      match dx_queue d with
      | f :: q =>
          Some (mkDuplex (dx_tx d) (LReplying f) (dx_r d) q (dx_notified d) (dx_missed d) (dx_wire d)
                  (dx_local d) (dx_pings d))
      | [] => None
      end
  | LReplied io, LReplying f =>
      let '(t, r) := tw_pending (dx_tx d) [(f, io)] in
      Some (set_l d t (match r with Ok _ => LDrain | Err _ => LClosing | Panic => LCrashed end))
  | LDrained, LDrain => match dx_queue d with [] => Some (set_l d (dx_tx d) LSelect) | _ => None end
  | LRead r, LSelect =>
      if dx_notified d then None
      else match r with
           | Some (String _ _ as data) => Some (set_l d (dx_tx d) (LWriting data))
           | Some EmptyString => Some (l_turn d (EvRead (Ok EmptyString) WOk))
           | None => Some (l_turn d (EvRead (Err OtherKind) WOk))
           end
  | LWritten io, LWriting data => Some (l_turn d (EvRead (Ok data) io))
  | LShouldClose, LSelect =>
      if negb (dx_notified d) && r_ended d then Some (l_turn d EvShouldClose) else None
  | LTick, LSelect =>
      if dx_notified d || r_ended d then None
      else match ping_frequency with Some _ => Some (set_l d (dx_tx d) LPinging) | None => None end
  | LPinged io, LPinging => Some (l_turn d (EvTick io))
  | LClose io, LClosing => Some (set_l d (fst (tw_close (dx_tx d) io)) LEnded)
  | _, _ => None
  end.

(** [copy] and the loop around it.  A failed [write_all] has written some of the bytes, and so
    has one that the [select!] drops because the other task has ended.  A frame that is sent to the writing task waits for room in the channel; once that task has
    ended the send fails, which only a close ignores.  [notify_waiters] wakes the [Notified]
    future there is, and leaves nothing for one that is made later. *)
Definition r_step (d : Duplex T) (e : REvent) : option (Duplex T) :=
  match e, dx_r d with
  | RFrame, RCopy =>
      match dx_wire d with
      | [] => None
      | x :: wire =>
          let d := mkDuplex (dx_tx d) (dx_l d) (dx_r d) (dx_queue d) (dx_notified d) (dx_missed d) wire
                     (dx_local d) (dx_pings d) in
          Some match x with
               | Some (FContinuation p | FText p | FBinary p) => set_r d (RWriting p)
               | Some FClose => set_r d (RSending FClose)
               | Some (FPing p) =>
                   mkDuplex (dx_tx d) (dx_l d) (RSending (FPing p)) (dx_queue d) (dx_notified d)
                     (dx_missed d) wire (dx_local d) (dx_pings d ++ [p])
               | Some (FPong _) => set_r d (RSending (FPong ""))
               | None => set_r d (REnded (Some ConnectionAborted))
               end
      end
  | RWritten None, RWriting p => Some (write_local d p RCopy)
  | RWritten (Some k), RWriting p =>
      Some (write_local d (take_str k p) (REnded (Some ConnectionAborted)))
  | RCancel k, RWriting p =>
      if l_ended d then Some (write_local d (take_str k p) (REnded None)) else None
  | RSend, RSending f =>
      if l_ended d
      then Some (set_r d (match f with
                          | FClose => RNotifying FClose
                          | _ => REnded (Some ConnectionAborted)
                          end))
      else if (length (dx_queue d) <? PENDING_BOUND)%nat
      then Some (mkDuplex (dx_tx d) (dx_l d) (RNotifying f) (dx_queue d ++ [f]) (dx_notified d)
                   (dx_missed d) (dx_wire d) (dx_local d) (dx_pings d))
      else None
  | RNotify, RNotifying f =>
      let start := match dx_l d with LStart => true | _ => false end in
      Some (mkDuplex (dx_tx d) (dx_l d)
              (match f with FClose => REnded (Some NotConnected) | _ => RCopy end)
              (dx_queue d) (dx_notified d || negb start) start (dx_wire d) (dx_local d) (dx_pings d))
  | RCloseRx, RCopy =>
      match dx_wire d with [] => if l_ended d then Some (set_r d (REnded None)) else None | _ => None end
  | _, _ => None
  end.

Definition duplex_step (d : Duplex T) (e : DEvent) : option (Duplex T) :=
  match e with
  | Left e => l_step d e
  | Right e => r_step d e
  | Arrive f => Some (mkDuplex (dx_tx d) (dx_l d) (dx_r d) (dx_queue d) (dx_notified d)
                        (dx_missed d) (dx_wire d ++ [f]) (dx_local d) (dx_pings d))
  end.

Fixpoint duplex_run (d : Duplex T) (es : list DEvent) : option (Duplex T) :=
  match es with
  | [] => Some d
  | e :: es => d ← duplex_step d e; duplex_run d es
  end.
End Step.

(** ** Each task leaves the other's part alone *)

Section Frame.
Context {T : Type} `{TunnelWrite T}.
Implicit Types (d : Duplex T).

Lemma l_turn_frame freq d ev :
  dx_r (l_turn freq d ev) = dx_r d ∧ dx_wire (l_turn freq d ev) = dx_wire d
  ∧ dx_local (l_turn freq d ev) = dx_local d.
Proof. unfold l_turn. by destruct (local_loop _ _ _). Qed.

Lemma l_step_frame freq d e d' :
  l_step freq d e = Some d' →
  dx_r d' = dx_r d ∧ dx_wire d' = dx_wire d ∧ dx_local d' = dx_local d.
Proof.
  unfold l_step. destruct e, (dx_l d); try done;
    repeat (case_match; try done); intros [= <-]; first [done|apply l_turn_frame].
Qed.

Lemma r_step_frame d e d' : r_step d e = Some d' → dx_tx d' = dx_tx d ∧ dx_l d' = dx_l d.
Proof.
  unfold r_step, set_r, write_local. destruct e, (dx_r d); try done; repeat (case_match; try done);
    by intros [= <-].
Qed.
End Frame.

(** ** Control frames *)

Definition is_control (f : Frame) : bool :=
  match f with FClose | FPing _ | FPong _ => true | _ => false end.

(** The payloads of the pings and of the pongs among some frames. *)
Definition pings : list Frame → list string := omap (λ f, match f with FPing p => Some p | _ => None end).
Definition pongs : list Frame → list string := omap (λ f, match f with FPong p => Some p | _ => None end).

(** The frame the reading task is in the middle of sending. *)
Definition sending (r : RPhase) : list Frame := match r with RSending f => [f] | _ => [] end.
Definition r_frames (r : RPhase) : list Frame :=
  match r with RSending f | RNotifying f => [f] | _ => [] end.
(** The frame the writing task is replying to. *)
Definition replying (l : LPhase) : list Frame := match l with LReplying f => [f] | _ => [] end.
(** Phases in which the task looks at the [Notified] future next, and those of the loop. *)
Definition l_waits (l : LPhase) : bool :=
  match l with LStart | LSelect | LWriting _ | LPinging => true | _ => false end.
Definition l_running (l : LPhase) : bool :=
  match l with LClosing | LEnded | LCrashed => false | _ => true end.

Record control_inv (d : Duplex WsWrite) : Prop := {
  ci_queue : Forall (λ f, is_control f = true) (replying (dx_l d) ++ dx_queue d ++ r_frames (dx_r d));
  ci_bound : (length (dx_queue d) ≤ PENDING_BOUND)%nat;
  ci_wake : l_waits (dx_l d) = true → dx_queue d ≠ [] →
    dx_notified d = true ∨ dx_missed d = true ∨ ∃ f, dx_r d = RNotifying f;
  ci_alive : dx_l d ≠ LCrashed;
  ci_pongs : ∃ rest, dx_pings d = pongs (ww_sent (dx_tx d)) ++ rest
    ∧ (l_running (dx_l d) = true →
       rest = pings (replying (dx_l d) ++ dx_queue d ++ sending (dx_r d)));
}.

Section Control.
Context `{BytesApi}.
Context (ping_frequency : option Duration).
Implicit Types (d : Duplex WsWrite) (t : WsWrite).

Lemma pongs_snoc fs f : pongs (fs ++ [f]) = pongs fs ++ pongs [f].
Proof. unfold pongs. apply omap_app. Qed.
Lemma pings_app fs gs : pings (fs ++ gs) = pings fs ++ pings gs.
Proof. unfold pings. apply omap_app. Qed.

(** A turn of the loop sends no pong and does not panic. *)
Lemma turn_control t ev t' e :
  local_loop ping_frequency t [ev] = (t', e) →
  match ev with EvPending _ | EvRead Panic _ => False | _ => True end →
  e ≠ Crashed ∧ pongs (ww_sent t') = pongs (ww_sent t).
Proof.
  destruct ev as [|[[|a data]|?|] io| |io]; cbn; try done.
  - by intros [= <- <-].
  - destruct io; intros [= <- <-] _; cbn; rewrite ?pongs_snoc; cbn; by rewrite ?app_nil_r.
  - by intros [= <- <-].
  - by intros [= <- <-].
  - destruct ping_frequency as [fr|]; [|by intros [= <- <-]]. unfold ws_ping.
    destruct (3 <=? ww_in_flight t); [by intros [= <- <-]|].
    destruct io; intros [= <- <-] _; cbn; rewrite ?pongs_snoc; cbn; by rewrite ?app_nil_r.
Qed.

Lemma handle_control t f io t' r :
  is_control f = true → ws_handle_pending_operations t [(f, io)] = (t', r) →
  r ≠ Panic ∧ ∃ ps, pings [f] = ps ++ (if is_ok r then [] else pings [f])
    ∧ pongs (ww_sent t') = pongs (ww_sent t) ++ ps.
Proof.
  intros Hc. destruct f; try done; destruct io; cbn; intros [= <- <-]; (split; [done|]); cbn.
  all: try (exists []; rewrite ?pongs_snoc, ?app_nil_r; by split).
  eexists [_]. by rewrite pongs_snoc.
Qed.

Lemma l_turn_inv d ev :
  control_inv d → l_waits (dx_l d) = true →
  match ev with EvPending _ | EvRead Panic _ => False | _ => True end →
  control_inv (l_turn ping_frequency d ev).
Proof.
  intros [Hq Hb Hw _ (rest&Hp&Hr)] Hl Hev. unfold l_turn.
  destruct (local_loop _ _ [ev]) as [t e] eqn:E.
  destruct (turn_control _ _ _ _ E Hev) as [He Hpong].
  assert (replying (dx_l d) = [] ∧ l_running (dx_l d) = true) as [Hre Hru] by by destruct (dx_l d).
  rewrite Hre in Hq, Hr.
  split; cbn; [by destruct e|done|by auto|by destruct e|].
  exists rest. rewrite Hpong. split; [done|]. intros _. rewrite Hr by done. by destruct e.
Qed.

(** Between phases in which no frame is being replied to. *)
Lemma set_l_inv d l :
  control_inv d → l_running (dx_l d) = true → replying (dx_l d) = [] → replying l = [] →
  l ≠ LCrashed → (l_waits l = true → l_waits (dx_l d) = true ∨ dx_queue d = []) →
  control_inv (set_l d (dx_tx d) l).
Proof.
  intros [Hq Hb Hw _ (rest&Hp&Hr)] Hru Hre Hre' Hl Hwl. rewrite Hre in Hq, Hr.
  split; cbn; rewrite ?Hre'; try done.
  - intros [Hd|Hd]%Hwl Hne; [by apply Hw|done].
  - exists rest. split; [done|]. intros _. by apply Hr.
Qed.

Lemma l_step_inv d e d' :
  control_inv d → l_step ping_frequency d e = Some d' → control_inv d'.
Proof.
  intros Hi. unfold l_step.
  destruct e as [| | |io| |r|io| | |io|io], (dx_l d) eqn:Hl; try done.
  - intros [= <-]. apply set_l_inv; rewrite ?Hl; auto.
  - destruct (dx_notified d); [|done]. intros [= <-]. destruct Hi as [Hq Hb Hw Ha (rest&Hp&Hr)].
    rewrite Hl in *. split; cbn; try done. exists rest. split; [done|]. intros _. by apply Hr.
  - destruct Hi as [Hq Hb Hw Ha (rest&Hp&Hr)]. rewrite Hl in *.
    destruct (dx_queue d) as [|f q] eqn:Eq; [done|]. intros [= <-].
    split; cbn; try done; [cbn in Hb; lia|]. exists rest. split; [done|]. intros _. by apply Hr.
  - destruct Hi as [Hq Hb Hw Ha (rest&Hp&Hr)]. rewrite Hl in *. cbn [replying app] in *.
    apply Forall_cons in Hq as [Hf Hq].
    destruct (tw_pending _ _) as [t r] eqn:E. intros [= <-].
    destruct (handle_control _ _ _ _ _ Hf E) as (Hr'&ps&Hps&Hpong).
    split; cbn; [by destruct r|done|by destruct r|by destruct r|].
    rewrite Hpong, Hp, Hr by done.
    exists ((if is_ok r then [] else pings [f]) ++ pings (dx_queue d ++ sending (dx_r d))).
    split; [|by destruct r].
    change (f :: dx_queue d ++ sending (dx_r d)) with ([f] ++ dx_queue d ++ sending (dx_r d)).
    rewrite pings_app, Hps at 1. by rewrite <-!app_assoc.
  - destruct (dx_queue d) eqn:Eq; [|done]. intros [= <-]. apply set_l_inv; rewrite ?Hl; auto.
  - destruct (dx_notified d) eqn:Hn; [done|].
    destruct r as [[|a data]|]; intros [= <-]; [|apply set_l_inv; rewrite ?Hl; by auto|];
      (apply l_turn_inv; by rewrite ?Hl).
  - intros [= <-]. apply l_turn_inv; by rewrite ?Hl.
  - destruct (negb (dx_notified d) && r_ended d); [|done]. intros [= <-].
    apply l_turn_inv; by rewrite ?Hl.
  - destruct (_ || _); [done|]. destruct ping_frequency; [|done]. intros [= <-].
    apply set_l_inv; rewrite ?Hl; auto.
  - intros [= <-]. apply l_turn_inv; by rewrite ?Hl.
  - intros [= <-]. destruct Hi as [Hq Hb Hw Ha (rest&Hp&Hr)]. rewrite Hl in *. split; cbn; try done.
    exists rest. split; [|done]. rewrite Hp. f_equal. unfold tw_close, ws_tunnel_write, ws_close.
    destruct io; cbn; [|done]. rewrite pongs_snoc. cbn. by rewrite app_nil_r.
Qed.

(** Between phases of the reading task in which no control frame is on its way. *)
Lemma set_r_inv d r wire local :
  control_inv d → r_frames (dx_r d) = [] → r_frames r = [] →
  control_inv (mkDuplex (dx_tx d) (dx_l d) r (dx_queue d) (dx_notified d) (dx_missed d) wire local (dx_pings d)).
Proof.
  intros [Hq Hb Hw Ha (rest&Hp&Hr)] Hf Hf'. assert (sending (dx_r d) = [] ∧ sending r = []) as [Hs Hs']
    by (by destruct (dx_r d), r).
  rewrite Hf in Hq. rewrite Hs in Hr. split; cbn; rewrite ?Hf', ?Hs'; try done; [|by exists rest].
  intros Hl Hne. destruct (Hw Hl Hne) as [|[|[f Hd]]]; auto. by rewrite Hd in Hf.
Qed.

(** Receiving a control frame. *)
Lemma receive_inv d f wire :
  control_inv d → dx_r d = RCopy → is_control f = true →
  control_inv (mkDuplex (dx_tx d) (dx_l d) (RSending f) (dx_queue d) (dx_notified d) (dx_missed d) wire
    (dx_local d) (dx_pings d ++ pings [f])).
Proof.
  intros [Hq Hb Hw Ha (rest&Hp&Hr)] Hc Hf. rewrite Hc in *. cbn [r_frames sending] in *.
  rewrite app_nil_r in Hq, Hr. split; cbn; try done.
  - rewrite app_assoc, Forall_app, Forall_singleton. done.
  - intros Hl Hne. destruct (Hw Hl Hne) as [|[|[? [=]]]]; auto.
  - exists (rest ++ pings [f]). rewrite Hp, app_assoc. split; [done|]. intros Hl.
    by rewrite app_assoc, pings_app, Hr.
Qed.

Lemma r_step_inv d e d' : control_inv d → r_step d e = Some d' → control_inv d'.
Proof.
  intros Hi. unfold r_step, set_r, write_local.
  destruct e as [|[k|]| | | |k], (dx_r d) as [|p|f|f|] eqn:Er; try done;
    try (repeat (case_match; try done); intros [= <-]; by (apply set_r_inv; rewrite ?Er)).
  - destruct (dx_wire d) as [|x wire]; [done|]. intros [= <-].
    destruct x as [[p|p|p| |p|p]|]; cbn; try (by apply set_r_inv; rewrite ?Er).
    + rewrite <-(app_nil_r (dx_pings d)). by apply (receive_inv d FClose).
    + by apply (receive_inv d (FPing p)).
    + rewrite <-(app_nil_r (dx_pings d)). by apply (receive_inv d (FPong "")).
  - destruct Hi as [Hq Hb Hw Ha (rest&Hp&Hr)]. rewrite Er in *. cbn [r_frames sending] in *.
    destruct (l_ended d) eqn:Hl.
    + intros [= <-]. assert (l_running (dx_l d) = false ∧ l_waits (dx_l d) = false) as [Hn Hn']
        by (unfold l_ended in Hl; by destruct (dx_l d)).
      split; cbn; [|done|by rewrite Hn'|done|exists rest; by rewrite Hn].
      rewrite app_assoc, Forall_app in *. destruct Hq. by destruct f.
    + destruct (Nat.ltb_spec (length (dx_queue d)) PENDING_BOUND); [|done]. intros [= <-].
      split; cbn; [|rewrite length_app; cbn; lia|by eauto|done|].
      * rewrite !Forall_app in *. naive_solver.
      * exists rest. by rewrite app_nil_r.
  - destruct Hi as [Hq Hb Hw Ha (rest&Hp&Hr)]. rewrite Er in *. cbn [r_frames sending] in *.
    intros [= <-]. split; cbn; [|done| |done|].
    + rewrite app_assoc, Forall_app in *. destruct Hq. by destruct f.
    + intros _ _. destruct (dx_l d); cbn; rewrite ?orb_true_r; auto.
    + exists rest. split; [done|]. intros Hl. rewrite Hr by done. by destruct f.
Qed.
End Control.

(** ** Data *)

(** What arrived, and what the local side gave, over a run. *)
Definition arrivals : list DEvent → list (option Frame) :=
  omap (λ e, match e with Arrive f => Some f | _ => None end).
Definition inputs (es : list DEvent) : string :=
  concat_str (omap (λ e, match e with Left (LRead (Some data)) => Some data | _ => None end) es).
Definition received (fs : list (option Frame)) : string := frames_data (omap id fs).

(** The bytes the writing task is handing to the transport, and those the reading task is
    handing to the local side. *)
Definition outgoing (l : LPhase) : string := match l with LWriting data => data | _ => "" end.
Definition incoming (r : RPhase) : string := match r with RWriting p => p | _ => "" end.

(** The reading side: the bytes of the frames it consumed are on the local side or being
    written there, up to the end of a failed write. *)
Definition local_inv {T} (es : list DEvent) (d : Duplex T) : Prop :=
  ∃ consumed rest, arrivals es = consumed ++ dx_wire d
    ∧ received consumed = dx_local d +:+ rest ∧ (r_ended d = false → rest = incoming (dx_r d)).

(** The writing side: what it read is on the wire or being written, up to a failed write. *)
Definition sent_inv {T} `{TunnelWrite T} (es : list DEvent) (d : Duplex T) : Prop :=
  ∃ rest, inputs es = tw_data (dx_tx d) +:+ rest
    ∧ (l_running (dx_l d) = true → rest = outgoing (dx_l d) ∧ ready (dx_tx d)).

Section Data.
Context {T : Type} `{TunnelWriteLaws T}.
Context (ping_frequency : option Duration).
Implicit Types (d : Duplex T) (t : T).

Lemma concat_str_app l l' : concat_str (l ++ l') = concat_str l +:+ concat_str l'.
Proof. induction l as [|x l IH]; cbn; [by rewrite app_Empty|]. by rewrite IH, str_app_assoc. Qed.

Lemma inputs_snoc es e :
  inputs (es ++ [e]) = inputs es +:+ match e with Left (LRead (Some data)) => data | _ => "" end.
Proof.
  unfold inputs. rewrite omap_app, concat_str_app. f_equal.
  destruct e as [[| | | | |[data|]| | | | |]| |]; cbn; by rewrite ?app_empty_r.
Qed.

Lemma arrivals_snoc es e :
  arrivals (es ++ [e]) = arrivals es ++ match e with Arrive f => [f] | _ => [] end.
Proof. unfold arrivals. rewrite omap_app. by destruct e. Qed.

Lemma received_snoc fs f :
  received (fs ++ [f]) = received fs +:+ match f with Some f => frame_data f | None => "" end.
Proof.
  unfold received. rewrite omap_app, frames_data_app. f_equal.
  destruct f; cbn; by rewrite ?app_empty_r.
Qed.

(** A turn of the loop hands over what it read, or a part of it if it ends. *)
Lemma turn_data t ev t' e :
  ready t → local_loop ping_frequency t [ev] = (t', e) →
  ∃ rest, tw_data t +:+ concat_str (reads [ev]) = tw_data t' +:+ rest
    ∧ (e = Waiting → rest = "" ∧ ready t').
Proof.
  intros Hr Hl. assert (e = Waiting ∨ e ≠ Waiting) as [->|Hne] by (destruct e; auto).
  - apply local_loop_waiting in Hl as [Hr' Hd]; [|done]. exists "".
    by rewrite Hd, app_empty_r.
  - apply local_loop_prefix in Hl as [k Hk]; [|done].
    exists (concat_str (drop k (reads [ev]))). split; [|done].
    by rewrite Hk, str_app_assoc, <-concat_str_app, take_drop.
Qed.

(** The writing side of one task: [data] has been read and not written yet. *)
Definition handed (input : string) (t : T) (l : LPhase) : Prop :=
  ∃ rest, input = tw_data t +:+ rest ∧ (l_running l = true → rest = outgoing l ∧ ready t).

(** Frames without data leave the tunnel's data and its buffer alone. *)
Lemma handed_control input t t' l l' :
  handed input t l → control t t' → outgoing l = "" → outgoing l' = "" →
  (l_running l' = true → l_running l = true) → handed input t' l'.
Proof.
  intros (rest&->&Hrun) Hc Ho Ho' Hl. exists rest. destruct (Hc) as (_&_&Hd).
  split; [by rewrite Hd|]. intros Hl'. destruct Hrun as [-> Hr]; [auto|].
  rewrite Ho, Ho'. split; [done|]. by eapply ready_control.
Qed.

(** So does starting a write. *)
Lemma handed_start input t data l :
  handed input t l → l_running l = true → outgoing l = "" →
  handed (input +:+ data) t (LWriting data).
Proof.
  intros (rest&->&Hrun) Hl Ho. destruct Hrun as [-> Hr]; [done|].
  exists data. rewrite Ho, app_empty_r. by split.
Qed.

Lemma handed_turn input d ev :
  handed input (dx_tx d) (dx_l d) → l_running (dx_l d) = true →
  concat_str (reads [ev]) = outgoing (dx_l d) →
  handed input (dx_tx (l_turn ping_frequency d ev)) (dx_l (l_turn ping_frequency d ev)).
Proof.
  intros (rest&->&Hrun) Hl Hev. unfold l_turn. destruct Hrun as [-> Hr]; [done|].
  destruct (local_loop _ _ [ev]) as [t e'] eqn:E.
  destruct (turn_data _ _ _ _ Hr E) as (rest'&Hd&Hd'). exists rest'.
  cbn [set_l dx_tx dx_l]. rewrite <-Hev, Hd. split; [done|].
  destruct e'; cbn [l_next l_running outgoing]; intros ?; [by apply Hd'|done..].
Qed.

Lemma sent_inv_l es d e d' :
  sent_inv es d → l_step ping_frequency d e = Some d' → sent_inv (es ++ [Left e]) d'.
Proof.
  intros Hi Hs. change (handed (inputs (es ++ [Left e])) (dx_tx d') (dx_l d')).
  change (handed (inputs es) (dx_tx d) (dx_l d)) in Hi.
  rewrite inputs_snoc. unfold l_step in Hs.
  destruct e as [| | |io| |r|io| | |io|io], (dx_l d) eqn:Hl; try done; try rewrite app_empty_r.
  - injection Hs as <-. by eapply handed_control.
  - destruct (dx_notified d); [|done]. injection Hs as <-. by eapply handed_control.
  - destruct (dx_queue d) as [|f' q]; [done|]. injection Hs as <-. by eapply handed_control.
  - pose proof (tw_pending_control (dx_tx d) [(f, io)]) as Hc.
    destruct (tw_pending _ _) as [t r]. injection Hs as <-.
    eapply handed_control; [done..|by destruct r|by destruct r].
  - destruct (dx_queue d); [|done]. injection Hs as <-. by eapply handed_control.
  - destruct (dx_notified d); [done|].
    destruct r as [[|a data]|]; injection Hs as <-; rewrite ?app_empty_r;
      [|by eapply handed_start|]; apply handed_turn; by rewrite ?Hl.
  - injection Hs as <-. apply handed_turn; rewrite ?Hl; [done..|]. apply app_empty_r.
  - destruct (_ && _); [|done]. injection Hs as <-. by apply handed_turn; rewrite ?Hl.
  - destruct (_ || _); [done|]. destruct ping_frequency; [|done]. injection Hs as <-.
    by eapply handed_control.
  - injection Hs as <-. by apply handed_turn; rewrite ?Hl.
  - injection Hs as <-. by eapply handed_control; [|apply tw_close_control|..].
Qed.

Lemma local_inv_r es d e d' : local_inv es d → r_step d e = Some d' → local_inv (es ++ [Right e]) d'.
Proof.
  intros (consumed&rest&Harr&Hrec&Hrest) Hs. unfold local_inv.
  rewrite arrivals_snoc, app_nil_r, Harr. unfold r_step, set_r, write_local in Hs.
  assert (∀ r, dx_wire d' = dx_wire d → dx_local d' = dx_local d → dx_r d' = r →
    r_ended d = false → incoming (dx_r d) = "" → incoming r = "" →
    ∃ consumed' rest', consumed ++ dx_wire d = consumed' ++ dx_wire d'
      ∧ received consumed' = dx_local d' +:+ rest'
      ∧ (r_ended d' = false → rest' = incoming (dx_r d'))) as Hsame.
  { intros r Hw Hlo -> Hre Hin ->. exists consumed, rest. rewrite Hw, Hlo, <-Hin. auto. }
  assert (∀ q w left, dx_r d = RWriting q → q = w +:+ left → dx_wire d' = dx_wire d →
    dx_local d' = dx_local d +:+ w → (r_ended d' = false → left = incoming (dx_r d')) →
    ∃ consumed' rest', consumed ++ dx_wire d = consumed' ++ dx_wire d'
      ∧ received consumed' = dx_local d' +:+ rest'
      ∧ (r_ended d' = false → rest' = incoming (dx_r d'))) as Hwrite.
  { intros q w left Hr -> Hw Hlo Hd. exists consumed, left. unfold r_ended in Hrest. rewrite Hr in Hrest.
    by rewrite Hw, Hlo, Hrec, Hrest, str_app_assoc. }
  destruct e as [|[k|]| | | |k], (dx_r d) as [|p|f|f|] eqn:Er; try done;
    try (by eapply Hsame; [repeat (case_match; try done); by injection Hs as <-..|unfold r_ended; by rewrite Er|
         |repeat (case_match; try done); by injection Hs as <-]).
  - destruct (dx_wire d) as [|x wire] eqn:Ew; [done|].
    assert (rest = "") as -> by (unfold r_ended in Hrest; rewrite Er in Hrest; by apply Hrest).
    exists (consumed ++ [x]). rewrite received_snoc, Hrec, app_empty_r.
    destruct x as [[p|p|p| |p|p]|]; cbn; injection Hs as <-; cbn;
      eexists; rewrite <-app_assoc; split_and!; try done; by rewrite ?app_empty_r.
  - injection Hs as <-. by apply (Hwrite p (take_str k p) (drop_str k p)); rewrite ?take_drop_str.
  - injection Hs as <-. by apply (Hwrite p p ""); rewrite ?app_empty_r.
  - destruct (l_ended d); [|done]. injection Hs as <-.
    by apply (Hwrite p (take_str k p) (drop_str k p)); rewrite ?take_drop_str.
Qed.
End Data.

(** ** Runs *)

Section Runs.
Context {T : Type} `{TunnelWrite T}.
Context (ping_frequency : option Duration).
Implicit Types (d : Duplex T) (t : T).

Lemma duplex_run_snoc d es e :
  duplex_run ping_frequency d (es ++ [e]) =
  (d' ← duplex_run ping_frequency d es; duplex_step ping_frequency d' e).
Proof.
  revert d. induction es as [|e' es IH]; intros d; cbn.
  - by destruct (duplex_step _ d e).
  - destruct (duplex_step _ d e') as [d'|]; cbn; [apply IH|done].
Qed.

(** Invariants of runs may speak of the events so far. *)
Lemma duplex_run_ind (P : list DEvent → Duplex T → Prop) d0 es d :
  P [] d0 →
  (∀ es d e d', P es d → duplex_step ping_frequency d e = Some d' → P (es ++ [e]) d') →
  duplex_run ping_frequency d0 es = Some d → P es d.
Proof.
  intros H0 Hstep. revert d. induction es as [|e es IH] using rev_ind; intros d; [by intros [= <-]|].
  rewrite duplex_run_snoc. destruct (duplex_run _ _ es) as [d1|]; [|done]. cbn. eauto.
Qed.

Lemma duplex_run_local t es d :
  duplex_run ping_frequency (duplex_new t) es = Some d → local_inv es d.
Proof.
  apply duplex_run_ind; [by exists [], ""|]. clear. intros es d [e|e|f] d' Hi; cbn.
  - intros (Hr&Hw&Hl)%l_step_frame. unfold local_inv, r_ended in *.
    by rewrite arrivals_snoc, app_nil_r, Hr, Hw, Hl.
  - by apply local_inv_r.
  - intros [= <-]. destruct Hi as (c&r&Ha&Hc). exists c, r. split; [|done].
    cbn. by rewrite arrivals_snoc, Ha, app_assoc.
Qed.

(** *** Each task follows the other's end *)

(** The steps the reading task still has to make once the other has ended. *)
Definition r_work (d : Duplex T) : nat :=
  3 * length (dx_wire d)
  + match dx_r d with REnded _ => 0 | RCopy => 1 | RWriting _ => 2 | RNotifying _ => 2 | RSending _ => 3 end.

(** Steps that wait neither for the peer nor for the local side. *)
Definition r_own (e : REvent) : bool := match e with RWritten _ => false | _ => true end.

Lemma r_step_work d e d' : r_step d e = Some d' → (r_work d' < r_work d)%nat.
Proof.
  unfold r_step, set_r, write_local, r_work.
  destruct e as [|[k|]| | | |k], (dx_r d) as [|p|f|f|] eqn:Er; try done.
  - destruct (dx_wire d) as [|x wire]; [done|]. intros [= <-].
    destruct x as [[p|p|p| |p|p]|]; cbn; lia.
  - intros [= <-]. cbn. lia.
  - intros [= <-]. cbn. lia.
  - destruct (l_ended d); [|destruct (length (dx_queue d) <? PENDING_BOUND)%nat]; intros [= <-];
      [destruct f|]; cbn; lia.
  - intros [= <-]. destruct f; cbn; lia.
  - destruct (dx_wire d); [|done]. destruct (l_ended d); intros [= <-]. cbn. lia.
  - destruct (l_ended d); intros [= <-]. cbn. lia.
Qed.

Lemma r_step_enabled d :
  l_ended d = true → r_ended d = false → ∃ e, r_own e = true ∧ is_Some (r_step d e).
Proof.
  intros Hl Hr. unfold r_ended in Hr. unfold r_step. destruct (dx_r d) as [|p|f|f|] eqn:Er; [..|done].
  - destruct (dx_wire d) as [|x wire] eqn:Ew.
    + exists RCloseRx. by rewrite Hl.
    + by exists RFrame.
  - exists (RCancel 0). by rewrite Hl.
  - exists RSend. by rewrite Hl.
  - by exists RNotify.
Qed.

(** The same for the writing task; a read from the local side adds two steps. *)
Definition l_work (d : Duplex T) : nat :=
  let waiting := (2 * length (dx_queue d) + if dx_notified d then 3 else 0)%nat in
  match dx_l d with
  | LStart | LDrain | LWriting _ | LPinging => waiting + 3
  | LSelect => waiting + 2
  | LReplying _ => waiting + 4
  | LClosing => 1
  | LEnded | LCrashed => 0
  end.

(** Steps that wait neither for the transport nor for the local side. *)
Definition l_own (e : LEvent) : bool :=
  match e with LBegin | LWake | LHandle | LDrained | LShouldClose => true | _ => false end.
Definition l_reads (e : LEvent) : bool := match e with LRead _ => true | _ => false end.
(** The task is in an operation on the transport. *)
Definition l_blocked (l : LPhase) : bool :=
  match l with LWriting _ | LPinging | LReplying _ | LClosing => true | _ => false end.

Lemma l_turn_work d ev :
  l_blocked (dx_l d) = true ∨ ev = EvShouldClose ∨ (∃ k, ev = EvRead (Err k) WOk) ∨ ev = EvRead (Ok "") WOk →
  match dx_l d with LWriting _ | LPinging | LSelect => True | _ => False end →
  (l_work (l_turn ping_frequency d ev) < l_work d)%nat.
Proof.
  intros Hev Hd. unfold l_turn, l_work. destruct (local_loop _ _ [ev]) as [t e] eqn:E. cbn.
  destruct e; cbn; [|destruct (dx_l d); try done; lia..].
  destruct (dx_l d); try done; [|lia..].
  by destruct Hev as [[=]|[->|[[k ->]| ->]]].
Qed.

Lemma l_step_work d e d' :
  r_ended d = true → l_step ping_frequency d e = Some d' →
  (l_work d' < l_work d + if l_reads e then 2 else 0)%nat.
Proof.
  intros Hre. unfold l_step.
  destruct e as [| | |io| |r|io| | |io|io], (dx_l d) eqn:El; try done; cbn [l_reads].
  - intros [= <-]. unfold l_work. rewrite El. cbn. lia.
  - destruct (dx_notified d) eqn:En; [|done]. intros [= <-]. unfold l_work. rewrite El, En. cbn. lia.
  - destruct (dx_queue d) as [|f q] eqn:Eq; [done|]. intros [= <-]. unfold l_work. rewrite El, Eq. cbn. lia.
  - destruct (tw_pending _ _) as [t []]; intros [= <-]; unfold l_work; rewrite El; cbn; lia.
  - destruct (dx_queue d) eqn:Eq; [|done]. intros [= <-]. unfold l_work. rewrite El. cbn. lia.
  - destruct (dx_notified d) eqn:En; [done|].
    destruct r as [[|a data]|]; intros [= <-]; [|unfold l_work; rewrite El; cbn; lia|];
      (apply Nat.lt_lt_add_r, l_turn_work; rewrite El; eauto).
  - intros [= <-]. rewrite Nat.add_0_r. apply l_turn_work; rewrite El; auto.
  - destruct (_ && _); [|done]. intros [= <-]. rewrite Nat.add_0_r. apply l_turn_work; rewrite El; auto.
  - by rewrite Hre, orb_true_r.
  - intros [= <-]. rewrite Nat.add_0_r. apply l_turn_work; rewrite El; auto.
  - intros [= <-]. unfold l_work. rewrite El. cbn. lia.
Qed.

Lemma l_step_enabled d :
  r_ended d = true → l_ended d = false → l_blocked (dx_l d) = false →
  ∃ e, l_own e = true ∧ is_Some (l_step ping_frequency d e).
Proof.
  intros Hr Hl. unfold l_ended in Hl. unfold l_step. destruct (dx_l d) eqn:El; try done; intros _.
  - by exists LBegin.
  - destruct (dx_notified d) eqn:En.
    + by exists LWake.
    + exists LShouldClose. by rewrite Hr.
  - destruct (dx_queue d) as [|f q] eqn:Eq.
    + by exists LDrained.
    + by exists LHandle.
Qed.

(** The end of a task stays, and so does what was written to the local side. *)
Lemma r_ended_step d e d' :
  duplex_step ping_frequency d e = Some d' → r_ended d = true →
  r_ended d' = true ∧ dx_local d' = dx_local d.
Proof.
  unfold r_ended. destruct e as [e|e|f]; cbn.
  - intros (->&_&->)%l_step_frame. done.
  - unfold r_step. destruct e as [|[]| | | |], (dx_r d); done.
  - by intros [= <-].
Qed.

Lemma r_ended_run es d d' :
  duplex_run ping_frequency d es = Some d' → r_ended d = true → dx_local d' = dx_local d.
Proof.
  revert d. induction es as [|e es IH]; intros d; cbn; [by intros [= <-]|].
  destruct (duplex_step _ d e) as [d1|] eqn:E; cbn; [|done]. intros Hr Hd.
  destruct (r_ended_step _ _ _ E Hd) as [? <-]. by apply IH.
Qed.

Lemma l_ended_step d e d' :
  duplex_step ping_frequency d e = Some d' → l_ended d = true → l_ended d' = true.
Proof.
  unfold l_ended. destruct e as [e|e|f]; cbn.
  - unfold l_step. destruct e, (dx_l d); done.
  - by intros [_ ->]%r_step_frame.
  - by intros [= <-].
Qed.

(** The steps of each task in a run, and the writing task's reads from the local side. *)
Definition lefts : list DEvent → list LEvent := omap (λ e, match e with Left e => Some e | _ => None end).
Definition rights : list DEvent → list REvent := omap (λ e, match e with Right e => Some e | _ => None end).
Definition local_reads (es : list DEvent) : list LEvent := filter (λ e, l_reads e = true) (lefts es).

Lemma reader_run_work es d d' :
  duplex_run ping_frequency d es = Some d' → l_ended d = true →
  l_ended d' = true ∧ (length (rights es) + r_work d' ≤ r_work d + 3 * length (arrivals es))%nat.
Proof.
  revert d. induction es as [|e es IH]; intros d; cbn [duplex_run].
  { intros [= <-]. split; [done|]. cbn. lia. }
  destruct (duplex_step _ d e) as [d1|] eqn:E; cbn [mbind option_bind]; [|done]. intros Hr Hl.
  pose proof (l_ended_step _ _ _ E Hl) as Hl1. destruct (IH _ Hr Hl1) as [Hl' Hw]. split; [done|].
  destruct e as [e|e|f].
  - unfold l_ended in Hl. exfalso. revert E. cbn. unfold l_step. destruct e, (dx_l d); done.
  - apply r_step_work in E. change (rights (Right e :: es)) with (e :: rights es).
    change (arrivals (Right e :: es)) with (arrivals es). cbn [length]. lia.
  - change (rights (Arrive f :: es)) with (rights es).
    change (arrivals (Arrive f :: es)) with (f :: arrivals es). cbn [length].
    assert (r_work d1 = 3 + r_work d)%nat by (injection E as <-; unfold r_work; cbn; rewrite length_app; cbn; lia).
    lia.
Qed.

Lemma writer_run_work es d d' :
  duplex_run ping_frequency d es = Some d' → r_ended d = true →
  r_ended d' = true ∧ (length (lefts es) + l_work d' ≤ l_work d + 2 * length (local_reads es))%nat.
Proof.
  revert d. induction es as [|e es IH]; intros d; cbn [duplex_run].
  { intros [= <-]. split; [done|]. cbn. lia. }
  destruct (duplex_step _ d e) as [d1|] eqn:E; cbn [mbind option_bind]; [|done]. intros Hr Hl.
  destruct (r_ended_step _ _ _ E Hl) as [Hl1 _]. destruct (IH _ Hr Hl1) as [Hl' Hw]. split; [done|].
  unfold local_reads in *. destruct e as [e|e|f].
  - apply l_step_work in E; [|done]. change (lefts (Left e :: es)) with (e :: lefts es).
    rewrite filter_cons. cbn [length].
    destruct (decide (l_reads e = true)) as [He|He]; [rewrite He in E; cbn [length]; lia|].
    apply not_true_is_false in He. rewrite He in E. lia.
  - unfold r_ended in Hl. exfalso. revert E. cbn. unfold r_step. destruct e as [|[]| | | |], (dx_r d); done.
  - injection E as <-. exact Hw.
Qed.

(** ** Properties *)

(** C15: The two directions of a tunnel follow each other's end, in any run.  Once the writing
    task has ended, the reading task makes at most three steps for every frame that had
    arrived or arrives later, and a few more, and until it has ended it always has a step to
    make that waits neither for the peer nor for the local side: it is never blocked, not
    even in a write to the local side.  Once the reading task has ended, the writing task
    makes at most two steps for every read from its local side and for every queued control
    frame, and a few more; until it has ended it has such a step to make too, unless it is in
    an operation on the transport, which nothing cuts short. *)
Theorem halves_end_together es d d' :
  duplex_run ping_frequency d es = Some d' →
  (l_ended d = true →
     (length (rights es) ≤ r_work d + 3 * length (arrivals es))%nat
     ∧ (r_ended d' = true ∨ ∃ e, r_own e = true ∧ is_Some (r_step d' e)))
  ∧ (r_ended d = true →
     (length (lefts es) ≤ l_work d + 2 * length (local_reads es))%nat
     ∧ (l_ended d' = true ∨ l_blocked (dx_l d') = true
        ∨ ∃ e, l_own e = true ∧ is_Some (l_step ping_frequency d' e))).
Proof.
  intros Hrun. split; intros Hend.
  - destruct (reader_run_work _ _ _ Hrun Hend) as [Hl Hw]. split; [lia|].
    destruct (r_ended d') eqn:Hr; [by left|right]. by apply r_step_enabled.
  - destruct (writer_run_work _ _ _ Hrun Hend) as [Hr Hw]. split; [lia|].
    destruct (l_ended d') eqn:Hl; [by left|right].
    destruct (l_blocked (dx_l d')) eqn:Hb; [by left|right]. by apply l_step_enabled.
Qed.

End Runs.

Section Websocket.
Context `{BytesApi}.
Context (ping_frequency : option Duration).

Lemma duplex_run_control es d :
  duplex_run ping_frequency (duplex_new ws_write_new) es = Some d → control_inv d.
Proof.
  apply (duplex_run_ind ping_frequency (λ _, control_inv)).
  - split; cbn; try done; [lia|by exists []].
  - intros es' d1 [e|e|f] d2 Hi; cbn; [by apply l_step_inv|by apply r_step_inv|].
    intros [= <-]. by destruct Hi.
Qed.

(** C13: Control frames are never lost between the two tasks, in any interleaving: whenever
    the writing task waits and a control frame is queued for it, it has been woken or the
    other task is about to wake it (the [Notify] is re-armed before the queue is emptied),
    unless the last call of [notify_waiters] came before the writing task had started;
    the [unreachable!] of [handle_pending_operations] is not reached; the queue stays within
    its bound; and the pings of the peer are answered with their own payloads, in order, none
    missing but the one being answered and those still queued. *)
Theorem control_frames_not_lost es d :
  duplex_run ping_frequency (duplex_new ws_write_new) es = Some d →
  (dx_l d = LSelect → dx_queue d ≠ [] →
     dx_notified d = true ∨ is_Some (r_step d RNotify) ∨ dx_missed d = true)
  ∧ dx_l d ≠ LCrashed
  ∧ (length (dx_queue d) ≤ PENDING_BOUND)%nat
  ∧ pongs (ww_sent (dx_tx d)) `prefix_of` dx_pings d
  ∧ (l_running (dx_l d) = true →
     dx_pings d = pongs (ww_sent (dx_tx d)) ++ pings (replying (dx_l d) ++ dx_queue d ++ sending (dx_r d))).
Proof.
  intros [Hq Hb Hw Ha (rest&Hp&Hr)]%duplex_run_control. split_and!; [|done|done|by exists rest|].
  - intros Hl Hne. rewrite Hl in Hw. destruct (Hw eq_refl Hne) as [?|[?|[f Hf]]]; [by auto..|].
    right; left. unfold r_step. rewrite Hf. by eexists.
  - intros Hl. by rewrite Hp, <-Hr.
Qed.

(** A frame waits in the queue, nobody is notified, and no control frame is to come. *)
Record unnoticed (p : string) (d : Duplex WsWrite) : Prop := {
  un_l : match dx_l d with LSelect | LWriting _ | LPinging | LClosing | LEnded => True | _ => False end;
  un_r : match dx_r d with RCopy | RWriting _ | REnded _ => True | _ => False end;
  un_notified : dx_notified d = false;
  un_wire : Forall (λ f, from_option is_control false f = false) (dx_wire d);
  un_sent : pongs (ww_sent (dx_tx d)) = [];
  un_pings : dx_pings d = [p];
  un_queue : dx_queue d = [FPing p]
}.

Lemma unnoticed_turn p d ev :
  unnoticed p d → match ev with EvPending _ | EvRead Panic _ => False | _ => True end →
  unnoticed p (l_turn ping_frequency d ev).
Proof.
  intros [Hl Hr Hn Hw Hs Hp Hq] Hev. unfold l_turn.
  destruct (local_loop _ _ [ev]) as [t e] eqn:E.
  destruct (turn_control _ _ _ _ _ E Hev) as [He Hpong].
  split; cbn; try done; [by destruct e|by rewrite Hpong].
Qed.

Lemma unnoticed_l p d e d' : unnoticed p d → l_step ping_frequency d e = Some d' → unnoticed p d'.
Proof.
  intros Hu. pose proof Hu as [Hl Hr Hn Hw Hs Hp Hq]. unfold l_step. rewrite Hn.
  destruct e as [| | |io| |r|io| | |io|io], (dx_l d); try done; cbn [negb andb orb].
  - destruct r as [[|a data]|]; intros [= <-]; [by apply unnoticed_turn|by split|by apply unnoticed_turn].
  - intros [= <-]. by apply unnoticed_turn.
  - destruct (r_ended d); [|done]. intros [= <-]. by apply unnoticed_turn.
  - destruct (r_ended d); [done|]. destruct ping_frequency; [|done]. intros [= <-]. by split.
  - intros [= <-]. by apply unnoticed_turn.
  - intros [= <-]. split; cbn; try done. unfold ws_close.
    destruct io; cbn; [rewrite pongs_snoc; cbn; by rewrite app_nil_r|done].
Qed.

Lemma unnoticed_r p d e d' : unnoticed p d → r_step d e = Some d' → unnoticed p d'.
Proof.
  intros [Hl Hr Hn Hw Hs Hp Hq]. unfold r_step, set_r, write_local.
  destruct e as [|[k|]| | | |k], (dx_r d) eqn:Er; try done.
  - destruct (dx_wire d) as [|x wire]; [done|]. apply Forall_cons in Hw as [Hx Hw].
    destruct x as [[q|q|q| |q|q]|]; try done; intros [= <-]; by split.
  - intros [= <-]. by split.
  - intros [= <-]. by split.
  - destruct (dx_wire d) eqn:Ew; [|done]. destruct (l_ended d); [|done]. intros [= <-].
    split; cbn; by rewrite ?Ew.
  - destruct (l_ended d); [|done]. intros [= <-]. by split.
Qed.

(** C39: A ping handled before the writing task has started may stay unanswered: its
    notification reaches nobody, and as long as no other control frame arrives no pong is
    sent, whatever the two tasks do. *)
Theorem early_ping_unanswered p es d :
  Forall (λ f, from_option is_control false f = false) (arrivals es) →
  duplex_run ping_frequency (duplex_new ws_write_new)
    ([Arrive (Some (FPing p)); Right RFrame; Right RSend; Right RNotify; Left LBegin] ++ es)
    = Some d →
  pongs (ww_sent (dx_tx d)) = [] ∧ dx_pings d = [p] ∧ dx_queue d = [FPing p].
Proof.
  cbn. intros Hes Hrun. cut (unnoticed p d); [intros []; by split_and!|].
  revert Hrun Hes. apply (duplex_run_ind ping_frequency
    (λ es d, Forall (λ f, from_option is_control false f = false) (arrivals es) → unnoticed p d));
    [by split|].
  clear. intros es d [e|e|f] d' Hi; cbn; rewrite arrivals_snoc, Forall_app.
  - intros Hs [? _]. eauto using unnoticed_l.
  - intros Hs [? _]. eauto using unnoticed_r.
  - intros [= <-] [Hes Hf]. destruct (Hi Hes). split; cbn; try done. by apply Forall_app.
Qed.

(** C34: Half-closed connections are cut off: when the local side has sent its request and
    shut down its writing side, both tasks may end before the answer arrives, and then no byte
    of it ever reaches the local side, whatever happens later. *)
Theorem half_close_drops_reply request reply io es d :
  let prefix := [Left LBegin; Left (LRead (Some request)); Left (LWritten WOk); Left (LRead (Some ""));
                 Left (LClose io); Right RCloseRx; Arrive (Some (FBinary reply))] in
  request ≠ "" →
  is_Some (duplex_run ping_frequency (duplex_new ws_write_new) prefix)
  ∧ (duplex_run ping_frequency (duplex_new ws_write_new) (prefix ++ es) = Some d → dx_local d = "").
Proof.
  cbn [app duplex_run duplex_step]. intros Hne. destruct request as [|a request]; [done|].
  cbn. split; [by eexists|]. by intros ->%r_ended_run.
Qed.
End Websocket.

(** ** Two ends *)

Section Link.
Context {T : Type} `{TunnelWriteLaws T}.

Lemma duplex_run_sent freq (t : T) es d :
  ready t → tw_sent t = [] → duplex_run freq (duplex_new t) es = Some d → sent_inv es d.
Proof.
  intros Hr Ht. apply duplex_run_ind.
  - exists "". cbn. split; [|by intros _]. unfold tw_data. by rewrite Ht.
  - intros es' d1 [e|e|f] d2 Hi; cbn; [by apply sent_inv_l| |].
    + intros [Htx Hl]%r_step_frame. unfold sent_inv. by rewrite inputs_snoc, app_empty_r, Htx, Hl.
    + intros [= <-]. unfold sent_inv. by rewrite inputs_snoc, app_empty_r.
Qed.

(** C12: Between two ends of a tunnel, over either transport, each end with its two tasks in
    any interleaving and with any failures: if the frames that reached one end are a prefix
    of those the other sent, then what that end wrote to its local side is a prefix of what
    the other read from its own; and it is all of it once every frame has been handled, but
    for what is just being written to the local side or to the transport. *)
Theorem tunnel_bytes_in_order {T'} `{TunnelWrite T'} freqA freqB (tA : T) (tB : T') esA esB A B :
  ready tA → tw_sent tA = [] →
  duplex_run freqA (duplex_new tA) esA = Some A →
  duplex_run freqB (duplex_new tB) esB = Some B →
  omap id (arrivals esB) `prefix_of` tw_sent (dx_tx A) →
  (∃ rest, inputs esA = dx_local B +:+ rest)
  ∧ (l_running (dx_l A) = true → r_ended B = false → dx_wire B = [] →
     omap id (arrivals esB) = tw_sent (dx_tx A) →
     inputs esA = dx_local B +:+ incoming (dx_r B) +:+ outgoing (dx_l A)).
Proof.
  intros Hr Ht (rA&HinA&HrunA)%duplex_run_sent (c&rB&Harr&Hrec&HrB)%duplex_run_local [fs Hfs]; [|done..].
  unfold received, tw_data in *. rewrite Harr, omap_app in *. split.
  - exists (rB +:+ frames_data (omap id (dx_wire B)) +:+ frames_data fs +:+ rA).
    by rewrite HinA, Hfs, !frames_data_app, Hrec, !str_app_assoc.
  - intros Hl Hre Hw Hall. destruct HrunA as [-> _]; [done|].
    rewrite Hw in Hall. cbn in Hall. rewrite app_nil_r in Hall.
    by rewrite HinA, <-Hall, Hrec, HrB, str_app_assoc.
Qed.
End Link.

(** ** Witnesses *)

(** A ping that arrives while the writing task is busy is answered. *)
Definition toy_duplex : list DEvent :=
  [Left LBegin; Arrive (Some (FPing "p")); Right RFrame; Right RSend; Left (LRead (Some "hi"));
   Right RNotify; Arrive (Some (FPing "q")); Left (LWritten WOk); Left LWake; Right RFrame;
   Left LHandle; Right RSend; Left (LReplied true); Left LHandle; Left (LReplied true); Right RNotify;
   Left LDrained].

Lemma control_frames_not_lost_witness :
  ∃ d, duplex_run (Some 1) (duplex_new ws_write_new) toy_duplex = Some d ∧ dx_pings d = ["p"; "q"]
    ∧ pongs (ww_sent (dx_tx d)) `prefix_of` dx_pings d.
Proof.
  eexists. split; [vm_compute; reflexivity|]. split; [reflexivity|].
  apply (control_frames_not_lost (Some 1) toy_duplex). vm_compute. reflexivity.
Defined.

(** The reading task blocked in a write to the local side follows the end of the other, and the
    writing task, after one more read, that of the first. *)
Definition toy_blocked : Duplex WsWrite :=
  mkDuplex ws_write_new LEnded (RWriting "stuck") [] false false [] "" [].
Definition toy_follows : Duplex WsWrite :=
  mkDuplex ws_write_new LSelect (REnded None) [] false false [] "" [].

Lemma halves_end_together_witness :
  (∃ d, duplex_run None toy_blocked [Arrive None; Right (RCancel 2)] = Some d ∧ r_ended d = true
     ∧ (1 ≤ r_work toy_blocked + 3 * 1)%nat)
  ∧ (∃ d, duplex_run None toy_follows [Left (LRead (Some "x")); Left (LWritten WOk); Left LShouldClose;
            Left (LClose true)] = Some d ∧ l_ended d = true ∧ (4 ≤ l_work toy_follows + 2 * 1)%nat).
Proof.
  split.
  - eexists. split; [vm_compute; reflexivity|]. split; [reflexivity|].
    apply (proj1 (proj1 (halves_end_together None [Arrive None; Right (RCancel 2)] toy_blocked _ eq_refl) eq_refl)).
  - eexists. split; [vm_compute; reflexivity|]. split; [reflexivity|].
    eapply (halves_end_together None [Left (LRead (Some "x")); Left (LWritten WOk);
      Left LShouldClose; Left (LClose true)] toy_follows); [vm_compute; reflexivity|reflexivity].
Defined.

Lemma half_close_drops_reply_witness :
  ∃ d, duplex_run None (duplex_new ws_write_new)
         [Left LBegin; Left (LRead (Some "GET")); Left (LWritten WOk); Left (LRead (Some ""));
          Left (LClose true); Right RCloseRx; Arrive (Some (FBinary "reply"))] = Some d
    ∧ dx_local d = "".
Proof.
  eexists. split; [vm_compute; reflexivity|].
  apply (proj2 (half_close_drops_reply None "GET" "reply" true [] _ ltac:(discriminate))). vm_compute. reflexivity.
Defined.

Lemma early_ping_unanswered_witness :
  ∃ d, duplex_run None (duplex_new ws_write_new)
         [Arrive (Some (FPing "p")); Right RFrame; Right RSend; Right RNotify; Left LBegin;
          Arrive (Some (FBinary "x")); Left (LRead (Some "hi")); Right RFrame] = Some d
    ∧ pongs (ww_sent (dx_tx d)) = [].
Proof.
  eexists. split; [vm_compute; reflexivity|].
  apply (early_ping_unanswered None "p"
           [Arrive (Some (FBinary "x")); Left (LRead (Some "hi")); Right RFrame]).
  - by repeat constructor.
  - vm_compute. reflexivity.
Defined.

(** The other end reads what the first one sent. *)
Definition toy_peer : list DEvent :=
  [Arrive (Some (FBinary "hi")); Right RFrame; Right (RWritten None); Arrive (Some (FPong "p"))].

Lemma tunnel_bytes_in_order_witness :
  ∃ A B, duplex_run (Some 1) (duplex_new ws_write_new) toy_duplex = Some A
    ∧ duplex_run None (duplex_new ws_write_new) toy_peer = Some B
    ∧ ∃ rest, inputs toy_duplex = dx_local B +:+ rest.
Proof.
  do 2 eexists. split; [vm_compute; reflexivity|]. split; [vm_compute; reflexivity|].
  eapply (tunnel_bytes_in_order (Some 1) None ws_write_new ws_write_new toy_duplex toy_peer).
  - split; [reflexivity|]. vm_compute. discriminate.
  - reflexivity.
  - vm_compute. reflexivity.
  - vm_compute. reflexivity.
  - exists [FPong "q"]. reflexivity.
Defined.
