(* ===== verification/Config.v ===== *)
(** * Config: command-line values

    Models the value parsers of [src/wstunnel/src/config.rs]: durations, tunnel
    descriptions, headers, credentials and the address of the server.  [clap] calls each
    parser on one argument; here they are functions from the text to the value, an error
    or a panic. *)

From Stdlib Require Import ZArith Lia Ascii String.
From stdpp Require Import base gmap strings list.
From S2P Require Import Prelude Str Net Apis ApiModels Jwt.

#[local] Open Scope stdpp_scope.

Definition DEFAULT_CLIENT_UPGRADE_PATH_PREFIX : string := "v1".

Record LocalToRemote := mkLocalToRemote {
  local_protocol : LocalProtocol;
  local : SocketAddr;
  remote : Host * Z
}.

#[global] Instance LocalToRemote_eq : EqDecision LocalToRemote.
Proof. solve_decision. Defined.

(** The [InvalidInput] errors, with the parts of their message. *)
Inductive ParseError :=
| CannotParse (what arg : string)
| InvalidProtocol (arg : string)
| CannotReverse (p : LocalProtocol) (arg : string)
| InvalidScheme (scheme : string)
| InvalidServerHost (arg : string)
| InvalidSniOverride (err : string).

(** ** Durations *)

(** [&arg[max(0, arg.len() - 1)..]]: for an empty text the subtraction wraps to a start
    out of range; slicing there, or inside a character, panics. *)
Definition last_byte_slice (arg : string) : outcome ParseError string :=
  match String.length arg with
  | 0%nat => Panic
  | S i => if is_char_boundary i arg then Ok (drop_str i arg) else Panic
  end.

(** The multiplication is that of a release build: it wraps. *)
Definition parse_duration_sec (arg : string) : outcome ParseError Duration :=
  last ← last_byte_slice arg;
  let front := take_str (String.length arg - 1) arg in
  let '(arg, multiplier) :=
    if String.eqb last "s" then (front, 1)
    else if String.eqb last "m" then (front, 60)
    else if String.eqb last "h" then (front, 3600)
    else (arg, 1) in
  secs ← ok_or (CannotParse "duration of seconds" arg) (parse_u64 arg);
  Ok (from_secs (wrap 64 (secs * multiplier))).

(** ** Tunnels *)

Definition parse_local_bind (arg : string) : outcome ParseError (SocketAddr * string) :=
  '(bind, remaining) ←
    (if starts_with "[" arg
     then '(ipv6_str, remaining) ← ok_or (CannotParse "IPv6 bind" arg) (split_once_char "]" arg);
          ipv6_addr ← ok_or (CannotParse "IPv6 bind" ipv6_str)
                        (ipv6_from_str (drop_str 1 ipv6_str));
          Ok (IpV6 ipv6_addr, remaining)
     else let '(ipv4_str, remaining) := default (arg, "") (split_once_char ":" arg) in
          Ok (match ipv4_from_str ipv4_str with
              | None => (IpV4 LOCALHOST_V4, arg)
              | Some ip4_addr => (IpV4 ip4_addr, remaining)
              end));
  let remaining := trim_start_matches ":" remaining in
  let '(port_str, remaining) :=
    default (remaining, "") (split_once_by (λ c, Ascii.eqb c ":" || Ascii.eqb c "?") remaining) in
  bind_port ← ok_or (CannotParse "bind port" port_str) (parse_u16 port_str);
  Ok (sock_new bind bind_port, remaining).

Section Parsers.
Context `{HostApi, UuidApi, HttpApi, UrlApi, Base64Api}.

(** Options of a tunnel: collected in a map, a repeated key keeps its last value. *)
Definition collect_options (kvs : list (string * string)) : gmap string string :=
  foldl (λ m kv, <[kv.1 := kv.2]> m) ∅ kvs.

Definition parse_tunnel_dest (remaining : string)
    : outcome ParseError (Host * Z * gmap string string) :=
  url ← ok_or (CannotParse "remote" remaining) (url_parse ("https://" +:+ remaining));
  remote_host ← ok_or (CannotParse "remote host" remaining) (url_host url);
  remote_port ←
    match url_port url with
    | Some remote_port => Ok remote_port
    | None => if ends_with ":443" remaining || contains ":443?" remaining then Ok 443
              else Err (CannotParse "remote port" remaining)
    end;
  Ok (remote_host, remote_port, collect_options (url_query_pairs url)).

Definition get_timeout (options : gmap string string) : option Duration :=
  default (Some (from_secs 30))
    ((λ d, if d =? 0 then None else Some (from_secs d))
       <$> (x ← options !! "timeout_sec"; parse_u64 x)).

Definition get_credentials (options : gmap string string) : option (string * string) :=
  login ← options !! "login"; (λ p, (login, p)) <$> (options !! "password").

Definition get_proxy_protocol (options : gmap string string) : bool :=
  bool_decide (is_Some (options !! "proxy_protocol")).

(** The description of a listener without destination. *)
Definition no_dest (remaining : string) : string := "0.0.0.0:0?" +:+ remaining.

Definition parse_tunnel_arg (arg : string) : outcome ParseError LocalToRemote :=
  '(proto, tunnel_info) ← ok_or (CannotParse "protocol" arg) (split_once "://" arg);
  if String.eqb proto "tcp" then
    '(local_bind, remaining) ← parse_local_bind tunnel_info;
    '(dest_host, dest_port, options) ← parse_tunnel_dest remaining;
    Ok (mkLocalToRemote (Tcp (get_proxy_protocol options)) local_bind (dest_host, dest_port))
  else if String.eqb proto "udp" then
    '(local_bind, remaining) ← parse_local_bind tunnel_info;
    '(dest_host, dest_port, options) ← parse_tunnel_dest remaining;
    Ok (mkLocalToRemote (Udp (get_timeout options)) local_bind (dest_host, dest_port))
  else if String.eqb proto "unix" then
    '(path, dest) ← ok_or (CannotParse "unix socket path" arg) (split_once_char ":" tunnel_info);
    '(dest_host, dest_port, options) ← parse_tunnel_dest dest;
    Ok (mkLocalToRemote (Unix path (get_proxy_protocol options))
          (SockV6 UNSPECIFIED_V6 0 0 0) (dest_host, dest_port))
  else if String.eqb proto "http" then
    '(local_bind, remaining) ← parse_local_bind tunnel_info;
    '(dest_host, dest_port, options) ← parse_tunnel_dest (no_dest remaining);
    Ok (mkLocalToRemote
          (HttpProxy (get_timeout options) (get_credentials options) (get_proxy_protocol options))
          local_bind (dest_host, dest_port))
  else if String.eqb proto "socks5" then
    '(local_bind, remaining) ← parse_local_bind tunnel_info;
    '(dest_host, dest_port, options) ← parse_tunnel_dest (no_dest remaining);
    Ok (mkLocalToRemote (Socks5 (get_timeout options) (get_credentials options))
          local_bind (dest_host, dest_port))
  else if String.eqb proto "stdio" then
    '(dest_host, dest_port, options) ← parse_tunnel_dest tunnel_info;
    Ok (mkLocalToRemote (Stdio (get_proxy_protocol options))
          (SockV4 UNSPECIFIED_V4 0) (dest_host, dest_port))
  else if String.eqb proto "tunnel" then
    let '(tunnel_id, query) := default (tunnel_info, "") (split_once_char "?" tunnel_info) in
    let tunnel_id := trim tunnel_id in
    _ ← ok_or (CannotParse "tunnel uuid" tunnel_id) (uuid_parse_str tunnel_id);
    let options := if String.eqb query "" then ∅ else collect_options (form_urlencoded_parse query) in
    Ok (mkLocalToRemote (TunnelStdio (get_proxy_protocol options) (get_timeout options))
          (SockV4 UNSPECIFIED_V4 0) (Domain tunnel_id, 0))
  else if String.eqb proto "tproxy+tcp" then
    '(local_bind, remaining) ← parse_local_bind tunnel_info;
    '(dest_host, dest_port, _) ← parse_tunnel_dest (no_dest remaining);
    Ok (mkLocalToRemote TProxyTcp local_bind (dest_host, dest_port))
  else if String.eqb proto "tproxy+udp" then
    '(local_bind, remaining) ← parse_local_bind tunnel_info;
    '(dest_host, dest_port, options) ← parse_tunnel_dest (no_dest remaining);
    Ok (mkLocalToRemote (TProxyUdp (get_timeout options)) local_bind (dest_host, dest_port))
  else Err (InvalidProtocol arg).

(** The protocol the server is asked to listen with. *)
Definition reverse_of (p : LocalProtocol) : option LocalProtocol :=
  match p with
  | Tcp _ => Some ReverseTcp
  | Udp timeout => Some (ReverseUdp timeout)
  | Socks5 timeout credentials => Some (ReverseSocks5 timeout credentials)
  | HttpProxy timeout credentials _ => Some (ReverseHttpProxy timeout credentials)
  | Unix path _ => Some (ReverseUnix path)
  | _ => None
  end.

Definition parse_reverse_tunnel_arg (arg : string) : outcome ParseError LocalToRemote :=
  proto ← parse_tunnel_arg arg;
  local_protocol ← ok_or (CannotReverse (local_protocol proto) arg)
                     (reverse_of (local_protocol proto));
  Ok (mkLocalToRemote local_protocol (local proto) (remote proto)).

(** ** Headers, credentials, server *)

Definition parse_http_headers (arg : string) : outcome ParseError (HeaderName * HeaderValue) :=
  '(key, value) ← ok_or (CannotParse "http header" arg) (split_once_char ":" arg);
  value ← ok_or (CannotParse "http header value" value) (hv_from_str (trim value));
  name ← unwrap (header_name_from_str key);
  Ok (name, value).

Definition parse_http_credentials (arg : string) : outcome ParseError HeaderValue :=
  ok_or (CannotParse "http credentials" arg) (hv_from_str ("Basic " +:+ b64_encode (trim arg))).

Definition parse_server_url (arg : string) : outcome ParseError Url :=
  url ← ok_or (CannotParse "server url" arg) (url_parse arg);
  if negb (existsb (λ x, String.eqb (scheme_to_str x) (url_scheme url)) scheme_values)
  then Err (InvalidScheme (url_scheme url))
  else match url_host url with
       | None => Err (InvalidServerHost arg)
       | Some _ => Ok url
       end.

(** [DnsName::try_from] of rustls. *)
Definition parse_sni_override (dns_name : string → outcome string string) (arg : string)
    : outcome ParseError string :=
  match dns_name arg with
  | Ok val => Ok val
  | Err err => Err (InvalidSniOverride err)
  | Panic => Panic
  end.
End Parsers.

(** ** Durations are read exactly *)

Lemma str_snoc_cases s : s = "" ∨ ∃ t a, s = t +:+ String a "".
Proof.
  induction s as [|b s [->|(t&a&->)]]; [by left| |]; right.
  - by exists "", b.
  - exists (String b t), a. by rewrite app_String.
Qed.

Lemma get_snoc t a : String.get (String.length t) (t +:+ String a "") = Some a.
Proof. induction t as [|b t IH]; [done|]. by rewrite app_String. Qed.

Lemma last_byte_slice_snoc t a :
  last_byte_slice (t +:+ String a "") = if cont a then Panic else Ok (String a "").
Proof.
  unfold last_byte_slice. rewrite length_str_app. cbn [String.length]. rewrite Nat.add_1_r.
  unfold is_char_boundary. rewrite get_snoc, drop_str_app. by destruct (cont a).
Qed.

Lemma duration_front t a :
  take_str (String.length (t +:+ String a "") - 1) (t +:+ String a "") = t.
Proof.
  rewrite length_str_app. cbn [String.length].
  replace (String.length t + 1 - 1)%nat with (String.length t) by lia. apply take_str_app.
Qed.

(** The last digit of a number is neither a unit nor part of a longer character. *)
Lemma show_snoc n : ∃ t a, show n = t +:+ String a "" ∧ cont a = false
  ∧ String.eqb (String a "") "s" = false ∧ String.eqb (String a "") "m" = false
  ∧ String.eqb (String a "") "h" = false.
Proof.
  destruct (str_snoc_cases (show n)) as [Hs|(t&a&Hs)].
  { unfold show in Hs. destruct (pretty_head (Z.to_N n)) as (a&t&Ht&_). congruence. }
  exists t, a. split; [done|].
  assert (is_Some (to_digit 10 a)) as [d Hd].
  { destruct (to_digit 10 a) eqn:Hd; [done|]. apply (show_no_sep a n) in Hd.
    apply not_true_iff_false in Hd. destruct Hd. apply contains_char_spec.
    rewrite Hs, bytes_app, elem_of_app. right. cbn [bytes]. set_solver. }
  split; [|split_and!; apply String.eqb_neq; intros [= ->]; discriminate Hd].
  destruct (cont a) eqn:Hc; [|done]. exfalso. revert Hd Hc.
  unfold to_digit, cont, in_range. cbv zeta. repeat case_match; try done; lia.
Qed.

Lemma parse_duration_sec_snoc t a : cont a = false →
  parse_duration_sec (t +:+ String a "") =
    let '(arg, multiplier) :=
      if String.eqb (String a "") "s" then (t, 1)
      else if String.eqb (String a "") "m" then (t, 60)
      else if String.eqb (String a "") "h" then (t, 3600)
      else (t +:+ String a "", 1) in
    secs ← ok_or (CannotParse "duration of seconds" arg) (parse_u64 arg);
    Ok (from_secs (wrap 64 (secs * multiplier))).
Proof.
  intros Hc. unfold parse_duration_sec. rewrite last_byte_slice_snoc, Hc, duration_front. done.
Qed.

(** A number with a unit is read as its seconds, for every duration of 64 bits. *)
Theorem parse_duration_sec_reads n unit mult :
  0 ≤ n → n * mult ≤ U64_MAX → (unit, mult) ∈ [("", 1); ("s", 1); ("m", 60); ("h", 3600)] →
  parse_duration_sec (show n +:+ unit) = Ok (from_secs (n * mult)).
Proof.
  intros Hn Hmax Hu.
  assert (1 ≤ mult) as Hm.
  { repeat (apply elem_of_cons in Hu as [[= -> ->]|Hu]; [lia|]). by apply not_elem_of_nil in Hu. }
  assert (parse_u64 (show n) = Some n) as Hread by (apply parse_uint_show; nia).
  assert (wrap 64 (n * mult) = n * mult) as Hw by (apply wrap_small; unfold U64_MAX in *; nia).
  repeat (apply elem_of_cons in Hu as [[= -> ->]|Hu]); [| | | |by apply not_elem_of_nil in Hu].
  2-4: rewrite parse_duration_sec_snoc by done; cbn -[from_secs wrap parse_u64 show];
    rewrite Hread; cbn -[from_secs wrap]; by rewrite Hw.
  rewrite app_empty_r. destruct (show_snoc n) as (t&a&Hs&Hc&H1&H2&H3).
  rewrite Hs, (parse_duration_sec_snoc t a Hc), H1, H2, H3, <-Hs, Hread.
  cbn [ok_or mbind outcome_bind]. by rewrite Hw.
Qed.

(** The parser aborts the program exactly on the empty text and on a text that ends in
    a character of several bytes. *)
Theorem parse_duration_sec_panics_iff arg :
  parse_duration_sec arg = Panic ↔ arg = "" ∨ ∃ t a, arg = t +:+ String a "" ∧ cont a = true.
Proof.
  destruct (str_snoc_cases arg) as [->|(t&a&->)].
  { split; [by left|done]. }
  destruct (cont a) eqn:Hc.
  - split; [intros _; right; eauto|]. intros _. unfold parse_duration_sec.
    by rewrite last_byte_slice_snoc, Hc.
  - rewrite parse_duration_sec_snoc by done. split.
    + repeat case_match; simplify_eq; destruct (parse_u64 _); done.
    + intros [He|(t'&a'&He&Ha)].
      * apply (f_equal String.length) in He. rewrite length_str_app in He. cbn in He. lia.
      * apply (f_equal rev_str) in He. rewrite !rev_str_app in He.
        change (rev_str (String a "")) with (String a "") in He.
        change (rev_str (String a' "")) with (String a' "") in He.
        rewrite !app_String in He. congruence.
Qed.

(** ** Local addresses *)

(** The texts of a bind address: none, an IPv4 address, an IPv6 address in brackets. *)
Inductive bind_text : string → IpAddr → Prop :=
| bind_default : bind_text "" (IpV4 LOCALHOST_V4)
| bind_v4 s ip : ipv4_from_str s = Some ip → bind_text (s +:+ ":") (IpV4 ip)
| bind_v6 s ip : ipv6_from_str s = Some ip → contains_char "]" s = false →
    bind_text ("[" +:+ s +:+ "]:") (IpV6 ip).

Definition is_sep (c : ascii) : bool := Ascii.eqb c ":" || Ascii.eqb c "?".

(** What may follow the port: nothing, or a separator and the rest. *)
Definition after_port (tail rest : string) : Prop :=
  tail = "" ∧ rest = "" ∨ ∃ c, is_sep c = true ∧ tail = String c rest.

(** An IPv4 address has a dot, and only digits and dots. *)
Lemma ipv4_from_str_dotted s ip : ipv4_from_str s = Some ip → dotted s = true.
Proof.
  unfold ipv4_from_str. case_match; [done|]. intros Hs.
  apply (ipaddr_from_str_v4_dotted s ip). unfold ipaddr_from_str, AddrParser.parse_with in *.
  destruct (AddrParser.read_ipv4_addr s) as [[ip' [|]]|]; [|done..]. by simplify_eq.
Qed.

Lemma ipv4_from_str_dot s ip : ipv4_from_str s = Some ip → contains_char "." s = true.
Proof.
  unfold ipv4_from_str, AddrParser.parse_with, AddrParser.read_ipv4_addr. case_match; [done|].
  destruct (AddrParser.read_octet true s) as [[a s1]|] eqn:E1; [|done].
  destruct (AddrParser.read_octet false s1) as [[b s2]|] eqn:E2; [|done]. intros _.
  apply read_octet_dotted in E1 as (p&->&_).
  unfold AddrParser.read_octet, AddrParser.read_separator in E2.
  destruct (AddrParser.read_given_char "." s1) as [s'|] eqn:E; [|done].
  apply strip_prefix_Some in E as ->. apply contains_char_spec.
  rewrite !bytes_app, !elem_of_app. right; left. cbn [bytes]. set_solver.
Qed.

Lemma dotted_no_char c s :
  dotted s = true → to_digit 10 c = None → c ≠ "."%char → contains_char c s = false.
Proof.
  unfold dotted. rewrite all_true. intros Hs Hc Hne. apply not_true_iff_false.
  intros Hin%contains_char_spec.
  specialize (Hs c). rewrite Hc in Hs. apply Hne, Ascii.eqb_eq, Hs. done.
Qed.

Lemma show_split n tail rest :
  after_port tail rest →
  default (show n +:+ tail, "") (split_once_by is_sep (show n +:+ tail)) = (show n, rest)
  ∧ trim_start_matches ":" (show n +:+ tail) = show n +:+ tail
  ∧ starts_with "[" (show n +:+ tail) = false.
Proof.
  intros Ht. assert (Forall (λ a, is_sep a = false) (bytes (show n))) as Hno.
  { unfold is_sep. pose proof (show_no_sep ":" n eq_refl) as H1%no_char_bytes.
    pose proof (show_no_sep "?" n eq_refl) as H2%no_char_bytes.
    rewrite Forall_forall in *. intros a Ha. rewrite orb_false_iff.
    split; [rewrite Ascii.eqb_sym; by apply H1|rewrite Ascii.eqb_sym; by apply H2]. }
  split.
  - destruct Ht as [[-> ->]|(c&Hc&->)].
    + rewrite app_empty_r, (proj2 (split_once_by_None _ _)) by done. done.
    + rewrite (proj2 (split_once_by_Some is_sep _ (show n) rest)) by eauto. done.
  - pose proof (show_no_sep ":" n eq_refl) as H1%no_char_bytes.
    pose proof (show_no_sep "[" n eq_refl) as H2%no_char_bytes.
    unfold show in *. destruct (pretty_head (Z.to_N n)) as (a&t&Hs&_). rewrite Hs in *.
    cbn [bytes] in *. rewrite Forall_cons in H1, H2. destruct H1 as [H1 _], H2 as [H2 _].
    rewrite app_String. cbn [trim_start_matches]. unfold starts_with. cbn [strip_prefix].
    by rewrite H1, H2.
Qed.

Lemma app_eq_fresh c d l1 r1 l2 r2 :
  c ≠ d → contains_char d l1 = false → l1 +:+ String c r1 = l2 +:+ String d r2 →
  contains_char c l2 = true.
Proof.
  intros Hne. rewrite <-no_char_bytes, contains_char_spec. revert l2.
  induction l1 as [|a l1 IH]; intros [|b l2] Hno Heq; rewrite ?app_Empty, ?app_String in Heq;
    simplify_eq.
  - cbn [bytes]. set_solver.
  - cbn [bytes] in Hno. rewrite Forall_cons, Ascii.eqb_neq in Hno. naive_solver.
  - cbn [bytes] in Hno |- *. rewrite Forall_cons in Hno. destruct Hno as [_ Hno].
    apply elem_of_cons. right. by eapply IH.
Qed.

Lemma starts_with_no c d s r :
  c ≠ d → contains_char c s = false → starts_with (String c "") (s +:+ String d r) = false.
Proof.
  intros Hne Hno. unfold starts_with. destruct s as [|a s]; [rewrite app_Empty|rewrite app_String];
    cbn [strip_prefix].
  - by rewrite (proj2 (Ascii.eqb_neq _ _)).
  - apply no_char_bytes in Hno. cbn [bytes] in Hno. rewrite Forall_cons in Hno.
    by destruct Hno as [-> _].
Qed.

(** A port on its own is not taken for an address. *)
Lemma bind_default_not_v4 port tail rest s r :
  after_port tail rest →
  default (show port +:+ tail, "") (split_once_char ":" (show port +:+ tail)) = (s, r) →
  ipv4_from_str s = None.
Proof.
  intros Ht Hs. destruct (ipv4_from_str s) as [ip|] eqn:Hip; [exfalso|done].
  pose proof (ipv4_from_str_dot _ _ Hip) as Hdot. apply ipv4_from_str_dotted in Hip.
  apply (dotted_no_char "?") in Hip; [|done..].
  destruct Ht as [[-> ->]|(c&Hc&->)].
  - rewrite app_empty_r, (proj2 (split_once_char_None _ _)) in Hs by (by apply show_no_sep).
    simplify_eq/=. by rewrite show_no_sep in Hdot.
  - unfold is_sep in Hc. apply orb_true_iff in Hc as [->%Ascii.eqb_eq| ->%Ascii.eqb_eq].
    + rewrite (proj2 (split_once_char_Some ":" _ (show port) rest)) in Hs by
        (by split; [|apply show_no_sep]).
      simplify_eq/=. by rewrite show_no_sep in Hdot.
    + assert (contains_char "?" s = true) as Hq; [|congruence].
      destruct (split_once_char ":" (show port +:+ String "?" rest)) as [[s' r']|] eqn:E;
        simplify_eq/=.
      * apply split_once_char_Some in E as [E _].
        by eapply app_eq_fresh; [| |exact E]; [|apply show_no_sep].
      * apply contains_char_spec. rewrite bytes_app, elem_of_app. right. cbn [bytes]. set_solver.
Qed.

(** A bind address and a port are read as such, and what follows the port is left over. *)
Theorem parse_local_bind_reads b ip port tail rest :
  bind_text b ip → 0 ≤ port ≤ U16_MAX → after_port tail rest →
  parse_local_bind (b +:+ show port +:+ tail) = Ok (sock_new ip port, rest).
Proof.
  intros Hb Hp Ht. destruct (show_split port tail rest Ht) as (Hsplit&Htrim&Hstart).
  assert (∀ x : string, x = show port +:+ tail →
    (let '(port_str, remaining) :=
       default (trim_start_matches ":" x, "")
         (split_once_by (λ c, Ascii.eqb c ":" || Ascii.eqb c "?") (trim_start_matches ":" x)) in
     bind_port ← ok_or (CannotParse "bind port" port_str) (parse_u16 port_str);
     Ok (sock_new ip bind_port, remaining)) = Ok (sock_new ip port, rest)) as Hrest.
  { intros x ->. rewrite Htrim. change (λ c, Ascii.eqb c ":" || Ascii.eqb c "?") with is_sep.
    rewrite Hsplit. unfold parse_u16. by rewrite parse_uint_show. }
  unfold parse_local_bind. destruct Hb as [|s ip4 Hs|s ip6 Hs Hc].
  - rewrite app_Empty, Hstart.
    destruct (default (show port +:+ tail, "") (split_once_char ":" (show port +:+ tail)))
      as [ipv4_str remaining] eqn:Hsp.
    rewrite (bind_default_not_v4 port tail rest ipv4_str remaining Ht Hsp).
    by apply (Hrest (show port +:+ tail)).
  - assert (contains_char ":" s = false) as Hno.
    { apply dotted_no_char; [by eapply ipv4_from_str_dotted|done|done]. }
    replace ((s +:+ ":") +:+ show port +:+ tail) with (s +:+ String ":" (show port +:+ tail))
      by (by rewrite str_app_assoc).
    rewrite starts_with_no; [|done|apply dotted_no_char; [by eapply ipv4_from_str_dotted|done|done]].
    rewrite (proj2 (split_once_char_Some ":" _ s (show port +:+ tail))) by done.
    cbn [default from_option id]. rewrite Hs. by apply (Hrest (show port +:+ tail)).
  - replace (("[" +:+ s +:+ "]:") +:+ show port +:+ tail)
      with (("[" +:+ s) +:+ String "]" (":" +:+ show port +:+ tail))
      by (by rewrite !str_app_assoc).
    rewrite (proj2 (starts_with_true "[" _)) by (rewrite str_app_assoc; eauto).
    rewrite (proj2 (split_once_char_Some "]" _ ("[" +:+ s) (":" +:+ show port +:+ tail))).
    2:{ split; [done|]. rewrite app_String, app_Empty. apply no_char_bytes. cbn [bytes].
        constructor; [done|]. by apply no_char_bytes. }
    cbn [ok_or mbind outcome_bind]. change (drop_str 1 ("[" +:+ s)) with s. rewrite Hs.
    cbn [ok_or mbind outcome_bind]. rewrite !app_String, !app_Empty.
    change (trim_start_matches ":" (String ":" (show port +:+ tail)))
      with (trim_start_matches ":" (show port +:+ tail)).
    by apply (Hrest (show port +:+ tail)).
Qed.

(** ** Destinations and tunnels *)

Section Tunnels.
Context `{HostApi, UuidApi, UrlApi, !UrlLaws}.

(** A destination with a port, and possibly a query: the port is found also when it is the
    default one that the locator drops. *)
Lemma parse_tunnel_dest_reads h host p tail opts :
  host_parse h = Some host → plain_host h = true → 0 ≤ p ≤ U16_MAX →
  (tail = "" ∧ opts = []
   ∨ ∃ q, tail = "?" +:+ q ∧ opts = form_urlencoded_parse q ∧ graphic q = true
      ∧ contains_char "#" q = false) →
  parse_tunnel_dest (h +:+ ":" +:+ show p +:+ tail) = Ok (host, p, collect_options opts).
Proof.
  intros Hh Hplain Hp Ht.
  assert (∃ u, url_parse ("https://" +:+ h +:+ ":" +:+ show p +:+ tail) = Some u
      ∧ url_host u = Some host ∧ url_port u = (if p =? 443 then None else Some p)
      ∧ url_query_pairs u = opts) as (u&Hu&Hhost&Hport&Hq).
  { destruct Ht as [[-> ->]|(q&->&->&Hg&Hf)].
    - rewrite app_empty_r. by apply url_https.
    - by apply url_https_query. }
  unfold parse_tunnel_dest. rewrite Hu. cbn [ok_or mbind outcome_bind]. rewrite Hhost, Hport, Hq.
  cbn [ok_or mbind outcome_bind]. destruct (Z.eqb_spec p 443) as [->|_]; [|done].
  assert (ends_with ":443" (h +:+ ":" +:+ show 443 +:+ tail)
          || contains ":443?" (h +:+ ":" +:+ show 443 +:+ tail) = true) as ->; [|done].
  change (show 443) with "443". apply orb_true_iff. destruct Ht as [[-> ->]|(q&->&_)].
  - left. apply ends_with_true. by exists h.
  - right. apply contains_true. by exists h, q.
Qed.

Lemma parse_tunnel_arg_split scheme info :
  contains_char ":" scheme = false →
  split_once "://" (scheme +:+ "://" +:+ info) = Some (scheme, info).
Proof. intros Hs. apply split_once_fresh. by apply no_char_bytes. Qed.

(** C32: [scheme://bind:port:host:port?options] describes the listener and the destination it
    says, for tcp and udp, forward and reverse. *)
Theorem parse_tunnel_arg_reads b ip port h host p tail opts :
  bind_text b ip → 0 ≤ port ≤ U16_MAX →
  host_parse h = Some host → plain_host h = true → 0 ≤ p ≤ U16_MAX →
  (tail = "" ∧ opts = []
   ∨ ∃ q, tail = "?" +:+ q ∧ opts = form_urlencoded_parse q ∧ graphic q = true
      ∧ contains_char "#" q = false) →
  let arg := b +:+ show port +:+ ":" +:+ h +:+ ":" +:+ show p +:+ tail in
  let options := collect_options opts in
  parse_tunnel_arg ("tcp://" +:+ arg) =
    Ok (mkLocalToRemote (Tcp (get_proxy_protocol options)) (sock_new ip port) (host, p))
  ∧ parse_tunnel_arg ("udp://" +:+ arg) =
    Ok (mkLocalToRemote (Udp (get_timeout options)) (sock_new ip port) (host, p))
  ∧ parse_reverse_tunnel_arg ("tcp://" +:+ arg) =
    Ok (mkLocalToRemote ReverseTcp (sock_new ip port) (host, p))
  ∧ parse_reverse_tunnel_arg ("udp://" +:+ arg) =
    Ok (mkLocalToRemote (ReverseUdp (get_timeout options)) (sock_new ip port) (host, p)).
Proof.
  intros Hb Hport Hh Hplain Hp Ht arg options.
  assert (parse_local_bind arg = Ok (sock_new ip port, h +:+ ":" +:+ show p +:+ tail)) as Hbind.
  { apply parse_local_bind_reads; [done..|]. right. by exists ":"%char. }
  pose proof (parse_tunnel_dest_reads h host p tail opts Hh Hplain Hp Ht) as Hdest.
  assert (parse_tunnel_arg ("tcp://" +:+ arg) =
    Ok (mkLocalToRemote (Tcp (get_proxy_protocol options)) (sock_new ip port) (host, p))) as Htcp.
  { unfold parse_tunnel_arg. change ("tcp://" +:+ arg) with ("tcp" +:+ "://" +:+ arg).
    rewrite parse_tunnel_arg_split by done. cbn [ok_or mbind outcome_bind].
    change (String.eqb "tcp" "tcp") with true. cbn iota.
    rewrite Hbind. cbn [mbind outcome_bind]. by rewrite Hdest. }
  assert (parse_tunnel_arg ("udp://" +:+ arg) =
    Ok (mkLocalToRemote (Udp (get_timeout options)) (sock_new ip port) (host, p))) as Hudp.
  { unfold parse_tunnel_arg. change ("udp://" +:+ arg) with ("udp" +:+ "://" +:+ arg).
    rewrite parse_tunnel_arg_split by done. cbn [ok_or mbind outcome_bind].
    change (String.eqb "udp" "tcp") with false. change (String.eqb "udp" "udp") with true. cbn iota.
    rewrite Hbind. cbn [mbind outcome_bind]. by rewrite Hdest. }
  split_and!; [done|done| |]; unfold parse_reverse_tunnel_arg; by rewrite ?Htcp, ?Hudp.
Qed.

(** Forward and reverse descriptions never give each other's protocols. *)
Lemma parse_tunnel_arg_forward arg l :
  parse_tunnel_arg arg = Ok l → is_reverse_tunnel (local_protocol l) = false.
Proof.
  unfold parse_tunnel_arg. rewrite bind_ok_inv. intros ([proto info]&_&Hl). revert Hl.
  repeat (case_match; [first
    [ rewrite bind_ok_inv; intros ([? ?]&_&Hl); apply bind_ok_inv in Hl as ([[? ?] ?]&_&Hl);
      by simplify_eq
    | rewrite bind_ok_inv; intros ([[? ?] ?]&_&Hl); by simplify_eq
    | case_match; rewrite bind_ok_inv; intros (?&_&Hl); by simplify_eq ]|]).
  done.
Qed.

Lemma parse_reverse_tunnel_arg_reverse arg l :
  parse_reverse_tunnel_arg arg = Ok l →
  is_reverse_tunnel (local_protocol l) = true
  ∧ ∃ l', parse_tunnel_arg arg = Ok l' ∧ local l = local l' ∧ remote l = remote l'
      ∧ reverse_of (local_protocol l') = Some (local_protocol l).
Proof.
  unfold parse_reverse_tunnel_arg. rewrite bind_ok_inv. intros (l'&Hl'&Hl).
  apply bind_ok_inv in Hl as (p&Hp%ok_or_ok&[= <-]). cbn [local_protocol local remote].
  split; [by destruct (local_protocol l'); simplify_eq/=|]. by exists l'.
Qed.
End Tunnels.

(** ** Credentials and server address *)

Section Server.
Context `{HttpApi, !HttpLaws, UrlApi, Base64Api, !Base64Laws}.

Lemma parse_http_credentials_total arg :
  ∃ v, parse_http_credentials arg = Ok v
     ∧ hv_to_str v = Some ("Basic " +:+ b64_encode (trim arg)).
Proof.
  assert (visible ("Basic " +:+ b64_encode (trim arg)) = true) as Hvis.
  { pose proof (b64_visible (trim arg)) as Hb. unfold visible in *.
    by rewrite bytes_app, forallb_app, Hb. }
  unfold parse_http_credentials. destruct (hv_visible _ Hvis) as [v Hv].
  exists v. rewrite Hv. split; [done|]. by apply hv_str.
Qed.

Lemma parse_server_url_ok arg url :
  parse_server_url arg = Ok url →
  (∃ scheme, scheme_from_str (url_scheme url) = Ok scheme) ∧ is_Some (url_host url).
Proof.
  unfold parse_server_url. rewrite bind_ok_inv. intros (u&_&Hu).
  destruct (existsb _ _) eqn:Hs; [|done]. cbn [negb] in Hu.
  destruct (url_host u) as [h|] eqn:Hh; [|done]. simplify_eq. split; [|done].
  apply any_true in Hs as (scheme&_&Heq%String.eqb_eq). exists scheme.
  rewrite <-Heq. apply scheme_roundtrip.
Qed.
End Server.

(** ** Witnesses *)

Lemma parse_duration_sec_reads_witness : parse_duration_sec "5m" = Ok (from_secs 300).
Proof. apply (parse_duration_sec_reads 5 "m" 60); [lia|done|]. set_solver. Defined.

Lemma parse_local_bind_reads_witness :
  parse_local_bind "[::1]:443:rest" = Ok (sock_new (IpV6 (mkIpv6 1)) 443, "rest").
Proof.
  apply (parse_local_bind_reads "[::1]:" (IpV6 (mkIpv6 1)) 443 ":rest" "rest").
  - exact (bind_v6 "::1" (mkIpv6 1) eq_refl eq_refl).
  - done.
  - right. by exists ":"%char.
Defined.

Lemma parse_tunnel_arg_reads_witness :
  parse_tunnel_arg "tcp://1.2.3.4:8080:google.com:443?proxy_protocol" =
    Ok (mkLocalToRemote (Tcp true) (SockV4 (mkIpv4 0x01020304) 8080) (Domain "google.com", 443)).
Proof.
  destruct (parse_tunnel_arg_reads "1.2.3.4:" (IpV4 (mkIpv4 0x01020304)) 8080 "google.com"
    (Domain "google.com") 443 "?proxy_protocol" [("proxy_protocol", "")]) as [Htcp _].
  - exact (bind_v4 "1.2.3.4" (mkIpv4 0x01020304) eq_refl).
  - done.
  - reflexivity.
  - reflexivity.
  - done.
  - right. by exists "proxy_protocol".
  - exact Htcp.
Defined.
