(* ===== verification/Listeners.v ===== *)
(** * Listeners: the sources of forward tunnels

    Models [src/wstunnel/src/tunnel/listeners/]: the trait [TunnelListener] as a class,
    one instance per listener.  A listener turns each connection of its inner stream into
    the connection and the destination it announces to the server.  The inner streams
    (sockets, the proxies of [protocols/]) are the argument of [tl_poll_next]: what their
    own [poll_next] returned. *)

From Stdlib Require Import ZArith Lia Ascii String.
From stdpp Require Import base strings list.
From S2P Require Import Prelude Str Net Jwt.

#[local] Open Scope stdpp_scope.

(** What polling a fallible stream gives; [Panic] is a panic of the poll itself. *)
Definition PollNext (A : Type) : Type := Poll (option (outcome string A)).

(** [ready!] and the match of each [poll_next]: [f] handles a connection. *)
Definition poll_map {A B} (f : A → outcome string B) (ret : PollNext A) : PollNext B :=
  match ret with
  | Pending => Pending
  | Ready None => Ready None
  | Ready (Some (Ok a)) => Ready (Some (f a))
  | Ready (Some (Err e)) => Ready (Some (Err e))
  | Ready (Some Panic) => Ready (Some Panic)
  end.

(** [tl_item] is what the inner stream yields, [tl_stream] the connection handed on. *)
Class TunnelListener (L : Type) := {
  tl_item : Type;
  tl_stream : Type;
  tl_poll_next : L → PollNext tl_item → L * PollNext (tl_stream * RemoteAddr);
}.

(** What the client relies on: an announced protocol can be put in a request, and it asks
    for a forward tunnel. *)
Definition forward_protocol (p : LocalProtocol) : bool :=
  wire_protocol p && negb (is_reverse_tunnel p).

Class TunnelListenerLaws (L : Type) `{TunnelListener L} : Prop := {
  tl_announces_forward l ret l' stream remote :
    tl_poll_next l ret = (l', Ready (Some (Ok (stream, remote)))) →
    forward_protocol (protocol remote) = true;
}.

(** ** Static destinations: tcp, udp, unix *)

Section Static.
(** The stream of an accepted connection. *)
Context {S : Type}.

Record TcpTunnelListener := mkTcpListener { tcp_dest : Host * Z; tcp_proxy_protocol : bool }.
Record UdpTunnelListener := mkUdpListener { udp_dest : Host * Z; udp_timeout : option Duration }.
Record UnixTunnelListener := mkUnixListener { unix_dest : Host * Z; unix_proxy_protocol : bool }.

(** [new]: [bound] is the result of [run_server] on the bind address. *)
Definition tcp_listener_new (bound : outcome string ()) (dest : Host * Z) (proxy_protocol : bool)
    : outcome string TcpTunnelListener :=
  _ ← bound; Ok (mkTcpListener dest proxy_protocol).
Definition udp_listener_new (bound : outcome string ()) (dest : Host * Z)
    (timeout : option Duration) : outcome string UdpTunnelListener :=
  _ ← bound; Ok (mkUdpListener dest timeout).
Definition unix_listener_new (bound : outcome string ()) (dest : Host * Z) (proxy_protocol : bool)
    : outcome string UnixTunnelListener :=
  _ ← bound; Ok (mkUnixListener dest proxy_protocol).

Definition tcp_poll_next (this : TcpTunnelListener) (ret : PollNext S)
    : PollNext (S * RemoteAddr) :=
  poll_map (λ stream,
    let '(host, port) := tcp_dest this in
    Ok (stream, mkRemote (Tcp (tcp_proxy_protocol this)) host port)) ret.

Definition udp_poll_next (this : UdpTunnelListener) (ret : PollNext S)
    : PollNext (S * RemoteAddr) :=
  poll_map (λ stream,
    let '(host, port) := udp_dest this in
    Ok (stream, mkRemote (Udp (udp_timeout this)) host port)) ret.

Definition unix_poll_next (this : UnixTunnelListener) (ret : PollNext S)
    : PollNext (S * RemoteAddr) :=
  poll_map (λ stream,
    let '(host, port) := unix_dest this in
    Ok (stream, mkRemote (Tcp (unix_proxy_protocol this)) host port)) ret.

#[global] Instance tcp_tunnel_listener : TunnelListener TcpTunnelListener :=
  {| tl_item := S; tl_stream := S; tl_poll_next l ret := (l, tcp_poll_next l ret) |}.
#[global] Instance udp_tunnel_listener : TunnelListener UdpTunnelListener :=
  {| tl_item := S; tl_stream := S; tl_poll_next l ret := (l, udp_poll_next l ret) |}.
#[global] Instance unix_tunnel_listener : TunnelListener UnixTunnelListener :=
  {| tl_item := S; tl_stream := S; tl_poll_next l ret := (l, unix_poll_next l ret) |}.

(** ** Transparent proxies: the destination is the local address of the connection *)

Record TproxyTcpTunnelListener := mkTproxyTcp { tproxy_tcp_proxy_protocol : bool }.
Record TProxyUdpTunnelListener := mkTproxyUdp { tproxy_udp_timeout : option Duration }.

Definition tproxy_tcp_listener_new (bound : outcome string ()) (proxy_protocol : bool)
    : outcome string TproxyTcpTunnelListener :=
  _ ← bound; Ok (mkTproxyTcp proxy_protocol).
Definition new_tproxy_udp (bound : outcome string ()) (timeout : option Duration)
    : outcome string TProxyUdpTunnelListener :=
  _ ← bound; Ok (mkTproxyUdp timeout).

(** An item comes with the result of [local_addr], which is unwrapped. *)
Definition tproxy_tcp_poll_next (this : TproxyTcpTunnelListener)
    (ret : PollNext (S * option SocketAddr)) : PollNext (S * RemoteAddr) :=
  poll_map (λ '(stream, local_addr),
    local_addr ← unwrap local_addr;
    let '(host, port) := to_host_port local_addr in
    Ok (stream, mkRemote (Tcp (tproxy_tcp_proxy_protocol this)) host port)) ret.

Definition tproxy_udp_poll_next (this : TProxyUdpTunnelListener)
    (ret : PollNext (S * option SocketAddr)) : PollNext (S * RemoteAddr) :=
  poll_map (λ '(stream, local_addr),
    local_addr ← unwrap local_addr;
    let '(host, port) := to_host_port local_addr in
    Ok (stream, mkRemote (Udp (tproxy_udp_timeout this)) host port)) ret.

#[global] Instance tproxy_tcp_tunnel_listener : TunnelListener TproxyTcpTunnelListener :=
  {| tl_item := S * option SocketAddr; tl_stream := S;
     tl_poll_next l ret := (l, tproxy_tcp_poll_next l ret) |}.
#[global] Instance tproxy_udp_tunnel_listener : TunnelListener TProxyUdpTunnelListener :=
  {| tl_item := S * option SocketAddr; tl_stream := S;
     tl_poll_next l ret := (l, tproxy_udp_poll_next l ret) |}.

(** ** Proxies: the destination is the one the application asked for *)

Record HttpProxyTunnelListener := mkHttpProxyListener { http_proxy_protocol : bool }.

Definition http_proxy_listener_new (bound : outcome string ()) (proxy_protocol : bool)
    : outcome string HttpProxyTunnelListener :=
  _ ← bound; Ok (mkHttpProxyListener proxy_protocol).

Definition http_proxy_poll_next (this : HttpProxyTunnelListener)
    (ret : PollNext (S * (Host * Z))) : PollNext (S * RemoteAddr) :=
  poll_map (λ '(stream, (host, port)),
    Ok (stream, mkRemote (Tcp (http_proxy_protocol this)) host port)) ret.

#[global] Instance http_proxy_tunnel_listener : TunnelListener HttpProxyTunnelListener :=
  {| tl_item := S * (Host * Z); tl_stream := S;
     tl_poll_next l ret := (l, http_proxy_poll_next l ret) |}.

(** A socks5 connection is a TCP stream, or a UDP association with the period of its
    watchdog. *)
Inductive Socks5Stream := SocksTcp (s : S) | SocksUdp (s : S) (watchdog_period : option Duration).

Definition socks5_local_protocol (s : Socks5Stream) : LocalProtocol :=
  match s with SocksTcp _ => Tcp false | SocksUdp _ period => Udp period end.

Record Socks5TunnelListener := mkSocks5Listener {}.

Definition socks5_listener_new (bound : outcome string ()) : outcome string Socks5TunnelListener :=
  _ ← bound; Ok mkSocks5Listener.

Definition socks5_poll_next (this : Socks5TunnelListener)
    (ret : PollNext (Socks5Stream * (Host * Z))) : PollNext (Socks5Stream * RemoteAddr) :=
  poll_map (λ '(stream, (host, port)),
    Ok (stream, mkRemote (socks5_local_protocol stream) host port)) ret.

#[global] Instance socks5_tunnel_listener : TunnelListener Socks5TunnelListener :=
  {| tl_item := Socks5Stream * (Host * Z); tl_stream := Socks5Stream;
     tl_poll_next l ret := (l, socks5_poll_next l ret) |}.

(** ** Standard input and output: one connection *)

Record StdioTunnelListener := mkStdioListener {
  stdio_listener : option S;
  stdio_dest : Host * Z;
  stdio_proxy_protocol : bool
}.
Record TunnelStdioTunnelListener := mkTunnelStdioListener {
  tstdio_listener : option S;
  tstdio_dest : Host * Z;
  tstdio_proxy_protocol : bool;
  tstdio_timeout : option Duration
}.

(** [server] is the result of [stdio::run_server]. *)
Definition new_stdio_listener (server : outcome string S) (dest : Host * Z) (proxy_protocol : bool)
    : outcome string StdioTunnelListener :=
  listener ← server; Ok (mkStdioListener (Some listener) dest proxy_protocol).
Definition new_tunnelid_listener (server : outcome string S) (dest : Host * Z)
    (proxy_protocol : bool) (timeout : option Duration)
    : outcome string TunnelStdioTunnelListener :=
  listener ← server; Ok (mkTunnelStdioListener (Some listener) dest proxy_protocol timeout).

(** [take] leaves nothing for the next poll. *)
Definition stdio_poll_next (this : StdioTunnelListener)
    : StdioTunnelListener * PollNext (S * RemoteAddr) :=
  let '(host, port) := stdio_dest this in
  (mkStdioListener None (stdio_dest this) (stdio_proxy_protocol this),
   Ready (match stdio_listener this with
          | None => None
          | Some stream => Some (Ok (stream, mkRemote (Tcp (stdio_proxy_protocol this)) host port))
          end)).

Definition tunnel_stdio_poll_next (this : TunnelStdioTunnelListener)
    : TunnelStdioTunnelListener * PollNext (S * RemoteAddr) :=
  let '(host, port) := tstdio_dest this in
  (mkTunnelStdioListener None (tstdio_dest this) (tstdio_proxy_protocol this) (tstdio_timeout this),
   Ready (match tstdio_listener this with
          | None => None
          | Some stream =>
              Some (Ok (stream, mkRemote (TunnelStdio (tstdio_proxy_protocol this)
                                            (tstdio_timeout this)) host port))
          end)).

#[global] Instance stdio_tunnel_listener : TunnelListener StdioTunnelListener :=
  {| tl_item := (); tl_stream := S; tl_poll_next l _ := stdio_poll_next l |}.
#[global] Instance tunnel_stdio_tunnel_listener : TunnelListener TunnelStdioTunnelListener :=
  {| tl_item := (); tl_stream := S; tl_poll_next l _ := tunnel_stdio_poll_next l |}.
End Static.
Arguments Socks5Stream S : clear implicits.
Arguments StdioTunnelListener S : clear implicits.
Arguments TunnelStdioTunnelListener S : clear implicits.

(** ** Every listener keeps the promise *)

Lemma poll_map_Ok {A B} (f : A → outcome string B) ret b :
  poll_map f ret = Ready (Some (Ok b)) ↔ ∃ a, ret = Ready (Some (Ok a)) ∧ f a = Ok b.
Proof.
  split.
  - destruct ret as [|[[a|e|]|]]; cbn; intros H; simplify_eq. by exists a.
  - intros (a&->&H). cbn. by rewrite H.
Qed.

(** Inversion of a poll that announces a tunnel. *)
Ltac announce :=
  split; intros l ret l' stream remote; cbn [tl_poll_next tl_item tl_stream];
  intros H%(f_equal snd); cbn [snd] in H;
  apply poll_map_Ok in H as (a&_&H); repeat (case_match; simplify_eq/=); try done; try (by destruct stream).

Section Laws.
Context {S : Type}.

#[global] Instance tcp_listener_laws : TunnelListenerLaws TcpTunnelListener (H := tcp_tunnel_listener (S := S)).
Proof. announce. Qed.
#[global] Instance udp_listener_laws : TunnelListenerLaws UdpTunnelListener (H := udp_tunnel_listener (S := S)).
Proof. announce. Qed.
#[global] Instance unix_listener_laws : TunnelListenerLaws UnixTunnelListener (H := unix_tunnel_listener (S := S)).
Proof. announce. Qed.
#[global] Instance http_proxy_listener_laws :
  TunnelListenerLaws HttpProxyTunnelListener (H := http_proxy_tunnel_listener (S := S)).
Proof. announce. Qed.
#[global] Instance socks5_listener_laws :
  TunnelListenerLaws Socks5TunnelListener (H := socks5_tunnel_listener (S := S)).
Proof. announce. Qed.
#[global] Instance tproxy_tcp_listener_laws :
  TunnelListenerLaws TproxyTcpTunnelListener (H := tproxy_tcp_tunnel_listener (S := S)).
Proof. announce. destruct o as [la|]; [|done]. by cbn in H; case_match; simplify_eq. Qed.
#[global] Instance tproxy_udp_listener_laws :
  TunnelListenerLaws TProxyUdpTunnelListener (H := tproxy_udp_tunnel_listener (S := S)).
Proof. announce. destruct o as [la|]; [|done]. by cbn in H; case_match; simplify_eq. Qed.
#[global] Instance stdio_listener_laws : TunnelListenerLaws (StdioTunnelListener S).
Proof.
  split. intros [[s|] [h p] pp] ret l' stream remote; cbn; intros H; by simplify_eq.
Qed.
#[global] Instance tunnel_stdio_listener_laws : TunnelListenerLaws (TunnelStdioTunnelListener S).
Proof.
  split. intros [[s|] [h p] pp t] ret l' stream remote; cbn; intros H; by simplify_eq.
Qed.
End Laws.
