(* ===== verification/Client.v ===== *)
(** * Client: connectors, the client and its tunnels

    Models [src/wstunnel/src/tunnel/connectors/] (where the far end of a tunnel is opened),
    [src/wstunnel/src/tunnel/client/client.rs] (requests for forward tunnels, the loop of
    reverse tunnels) and the assembly of both in [src/wstunnel/src/lib.rs].

    As in [Server], the network is a record and every connection attempt is logged.  The
    tasks the client spawns are the values its functions return. *)

From Stdlib Require Import ZArith Lia Ascii String.
From stdpp Require Import base gmap strings list.
From S2P Require Import Prelude Str Net Apis ApiModels Restrictions Jwt Request.
From S2P Require Import Server Config Listeners Transport.

#[local] Open Scope stdpp_scope.

(** ** Connectors *)

Section Connectors.
Context {U Io : Type}.
Context `{HostApi, HttpApi, UrlApi}.

Inductive Connector :=
| TcpTunnelConnector (host : Host) (port : Z) (connect_timeout : Duration)
| UdpTunnelConnector (host : Host) (port : Z) (connect_timeout : Duration)
| Socks5TunnelConnector (connect_timeout : Duration).

(** The destination of a TCP connector: the one the other end names, or its own. *)
Definition tcp_target (host : Host) (port : Z) (remote : option RemoteAddr) : Host * Z :=
  match remote with
  | Some remote => (Net.host remote, Net.port remote)
  | None => (host, port)
  end.

Definition tcp_connector_connect (net : NetEnv (Io := Io)) (host : Host) (port : Z)
    (timeout : Duration) (remote : option RemoteAddr) : W U string Io :=
  let '(host, port) := tcp_target host port remote in
  _ ← emit (ETcpConnect host port);
  '(io, _) ← lift (net_tcp_connect net host port timeout);
  mret io.

Definition tcp_connector_proxy (net : NetEnv (Io := Io)) (proxy : Url) (host : Host) (port : Z)
    (timeout : Duration) (remote : option RemoteAddr) : W U string Io :=
  let '(host, port) := tcp_target host port remote in
  _ ← emit (ETcpConnectProxy host port);
  '(io, _) ← lift (net_tcp_connect_proxy net proxy host port timeout);
  mret io.

Definition udp_connector_connect (net : NetEnv (Io := Io)) (host : Host) (port : Z)
    (timeout : Duration) : W U string Io :=
  _ ← emit (EUdpConnect host port);
  lift (net_udp_connect net host port timeout).

Definition socks5_connector_connect (net : NetEnv (Io := Io)) (timeout : Duration)
    (remote : option RemoteAddr) : W U string Io :=
  match remote with
  | None => lift (Err "Missing remote destination for reverse socks5")
  | Some remote =>
      match protocol remote with
      | Tcp _ =>
          _ ← emit (ETcpConnect (Net.host remote) (Net.port remote));
          '(io, _) ← lift (net_tcp_connect net (Net.host remote) (Net.port remote) timeout);
          mret io
      | Udp _ =>
          _ ← emit (EUdpConnect (Net.host remote) (Net.port remote));
          lift (net_udp_connect net (Net.host remote) (Net.port remote) timeout)
      | _ => lift (Err "Invalid protocol for reverse socks5")
      end
  end.

Definition socks5_connector_proxy (net : NetEnv (Io := Io)) (proxy : Url) (timeout : Duration)
    (remote : option RemoteAddr) : W U string Io :=
  match remote with
  | None => lift (Err "Missing remote destination for reverse socks5")
  | Some remote =>
      match protocol remote with
      | Tcp _ =>
          _ ← emit (ETcpConnectProxy (Net.host remote) (Net.port remote));
          '(io, _) ← lift (net_tcp_connect_proxy net proxy (Net.host remote)
                             (Net.port remote) timeout);
          mret io
      | _ => lift (Err "Socks5 UDP cannot use http proxy to connect to destination")
      end
  end.

(** The trait [TunnelConnector]. *)
Definition connector_connect (net : NetEnv (Io := Io)) (c : Connector)
    (remote : option RemoteAddr) : W U string Io :=
  match c with
  | TcpTunnelConnector host port timeout => tcp_connector_connect net host port timeout remote
  | UdpTunnelConnector host port timeout => udp_connector_connect net host port timeout
  | Socks5TunnelConnector timeout => socks5_connector_connect net timeout remote
  end.

Definition connector_connect_with_http_proxy (net : NetEnv (Io := Io)) (proxy : Url)
    (c : Connector) (remote : option RemoteAddr) : W U string Io :=
  match c with
  | TcpTunnelConnector host port timeout => tcp_connector_proxy net proxy host port timeout remote
  | UdpTunnelConnector _ _ _ =>
      lift (Err "Requested to use HTTP Proxy to connect but it is not supported with this connector")
  | Socks5TunnelConnector timeout => socks5_connector_proxy net proxy timeout remote
  end.
End Connectors.

(** ** Requests *)

Section Client.
Context `{UuidApi, HostApi, HttpApi, UrlApi, JwtApi JwtTunnelConfig}.
Context {T Io : Type}.
Context (files : PathBuf → option (list (option string))).

(** The request of the transport the server's address selects. *)
Definition build_request (cfg : WsClientConfig T) (key : string) (request_id : Uuid)
    (remote_cfg : RemoteAddr) : outcome string Request :=
  match addr_scheme (remote_addr cfg) with
  | Ws | Wss => ws_upgrade_request files cfg key request_id remote_cfg
  | Http | Https => http2_request files cfg request_id remote_cfg
  end.

(** An open tunnel: the server's response and the period of its keep-alive; its two copy
    tasks are [Transport.propagate_local_to_remote] and [Transport.remote_loop]. *)
Record OpenTunnel := mkOpenTunnel { ot_response : HeaderMap; ot_ping : option Duration }.

(** [exchange] is the connection of the pool, the handshake and the response headers. *)
Definition connect_to_server (cfg : WsClientConfig T) (exchange : Request → outcome string HeaderMap)
    (key : string) (request_id : Uuid) (remote_cfg : RemoteAddr) : outcome string OpenTunnel :=
  req ← build_request cfg key request_id remote_cfg;
  response ← exchange req;
  Ok (mkOpenTunnel response (websocket_ping_frequency cfg)).

(** [run_tunnel]: the connections for which a tunnel task is spawned, in order.  An error
    of the listener is logged and the loop goes on. *)
Fixpoint run_tunnel {L} `{TunnelListener L} (tunnel_listener : L) (polls : list (PollNext tl_item))
    : list (tl_stream * RemoteAddr) * LoopEnd :=
  match polls with
  | [] => ([], Waiting)
  | ret :: polls =>
      match tl_poll_next tunnel_listener ret with
      | (l, Pending) => run_tunnel l polls
      | (_, Ready None) => ([], Broke)
      | (l, Ready (Some (Ok cnx))) =>
          let '(spawned, e) := run_tunnel l polls in (cnx :: spawned, e)
      | (l, Ready (Some (Err _))) => run_tunnel l polls
      | (_, Ready (Some Panic)) => ([], Crashed)
      end
  end.

(** ** Reverse tunnels *)

(** [Duration::MAX]; multiplication past it panics. *)
Definition DURATION_MAX : Duration := U64_MAX * NANOS + 999999999.
Definition duration_double (d : Duration) : outcome string Duration :=
  if d * 2 <=? DURATION_MAX then Ok (d * 2) else Panic.

(** The closure of [new_reconnect_delay]: its state, and one call of it. *)
Definition new_reconnect_delay : Duration := from_secs 1.
Definition reconnect_delay (max_delay state : Duration) : outcome string (Duration * Duration) :=
  next ← duration_double state;
  Ok (state, Z.min next max_delay).

(** The destination the server names in its response. *)
Definition response_remote (headers : HeaderMap) : option RemoteAddr :=
  h ← hm_get headers COOKIE;
  h ← hv_to_str h;
  jwt ← ok (jwt_token_to_tunnel h);
  Some (mkRemote (jwt_p jwt) (default (Domain "") (host_parse (jwt_r jwt))) (jwt_rp jwt)).

(** One turn of the loop: its identifiers, the exchange with the server, the network. *)
Record Attempt := mkAttempt {
  at_id : Uuid;
  at_key : string;
  at_exchange : Request → outcome string HeaderMap;
  at_net : NetEnv (Io := Io)
}.

Inductive Action :=
| ASleep (d : Duration)
| AConnect (remote : option RemoteAddr) (effects : list (Effect Uuid)) (opened : bool).

(** The loop never ends by itself: without attempts left it waits. *)
Fixpoint reverse_loop (cfg : WsClientConfig T) (max_backoff : Duration) (remote_addr : RemoteAddr)
    (connector : Connector) (delay : Duration) (attempts : list Attempt) : list Action * LoopEnd :=
  match attempts with
  | [] => ([], Waiting)
  | a :: attempts =>
      match connect_to_server cfg (at_exchange a) (at_key a) (at_id a) remote_addr with
      | Panic => ([], Crashed)
      | Err _ =>
          match reconnect_delay max_backoff delay with
          | Ok (d, delay) =>
              let '(acts, e) := reverse_loop cfg max_backoff remote_addr connector delay attempts in
              (ASleep d :: acts, e)
          | _ => ([], Crashed)
          end
      | Ok tunnel =>
          let remote := response_remote (ot_response tunnel) in
          let '(effects, r) := connector_connect (at_net a) connector remote in
          match r with
          | Panic => ([AConnect remote effects false], Crashed)
          | _ =>
              let '(acts, e) := reverse_loop cfg max_backoff remote_addr connector
                                  new_reconnect_delay attempts in
              (AConnect remote effects (is_ok r) :: acts, e)
          end
      end
  end.

Definition run_reverse_tunnel (cfg : WsClientConfig T) (max_backoff : Duration)
    (remote_addr : RemoteAddr) (connector : Connector) (attempts : list Attempt)
    : list Action * LoopEnd :=
  reverse_loop cfg max_backoff remote_addr connector new_reconnect_delay attempts.
End Client.

(** ** The tunnels of the command line ([lib.rs], [create_client_tunnels]) *)

(** The listeners of forward tunnels with their arguments. *)
Inductive FwdListener :=
| FTcp (bind : SocketAddr) (dest : Host * Z) (proxy_protocol : bool)
| FTproxyTcp (bind : SocketAddr) (proxy_protocol : bool)
| FUnix (path : PathBuf) (dest : Host * Z) (proxy_protocol : bool)
| FTproxyUdp (bind : SocketAddr) (timeout : option Duration)
| FUdp (bind : SocketAddr) (dest : Host * Z) (timeout : option Duration)
| FSocks5 (bind : SocketAddr) (timeout : option Duration) (credentials : option (string * string))
| FHttpProxy (bind : SocketAddr) (timeout : option Duration)
    (credentials : option (string * string)) (proxy_protocol : bool)
| FStdio (dest : Host * Z) (proxy_protocol : bool)
| FTunnelId (dest : Host * Z) (proxy_protocol : bool) (timeout : option Duration).

Inductive Task :=
| TaskReverse (remote : RemoteAddr) (connector : Connector)
| TaskForward (listener : FwdListener).

(** The start of the client: its tasks, or the exit of the process after a tunnel on
    standard input, with the tasks that were never run. *)
Inductive ClientStart :=
| Started (tasks : list Task)
| Exited (foreground : FwdListener) (unstarted : list Task).

(** [timeout_connect] of the client's configuration. *)
Definition CLIENT_TIMEOUT_CONNECT : Duration := from_secs 10.

(** The arms of the loop over the reverse tunnels; [None] pushes nothing. *)
Definition reverse_task (tunnel : LocalToRemote) : outcome string (option Task) :=
  let '(h, p) := to_host_port (local tunnel) in
  let tcp_connector :=
    TcpTunnelConnector (fst (remote tunnel)) (snd (remote tunnel)) CLIENT_TIMEOUT_CONNECT in
  match local_protocol tunnel with
  | ReverseTcp => Ok (Some (TaskReverse (mkRemote ReverseTcp h p) tcp_connector))
  | ReverseUdp timeout =>
      Ok (Some (TaskReverse (mkRemote (ReverseUdp timeout) h p)
                  (UdpTunnelConnector (fst (remote tunnel)) (snd (remote tunnel))
                     CLIENT_TIMEOUT_CONNECT)))
  | ReverseSocks5 timeout credentials =>
      Ok (Some (TaskReverse (mkRemote (ReverseSocks5 timeout credentials) h p)
                  (Socks5TunnelConnector CLIENT_TIMEOUT_CONNECT)))
  | ReverseHttpProxy timeout credentials =>
      Ok (Some (TaskReverse (mkRemote (ReverseHttpProxy timeout credentials) h p) tcp_connector))
  | ReverseUnix path => Ok (Some (TaskReverse (mkRemote (ReverseUnix path) h p) tcp_connector))
  | Stdio _ | TunnelStdio _ _ | TProxyTcp | TProxyUdp _ | Tcp _ | Udp _ | Socks5 _ _
  | HttpProxy _ _ _ => Ok None
  | Unix _ _ => Panic
  end.

(** The listener of each forward protocol (on Linux). *)
Definition forward_listener (tunnel : LocalToRemote) : option FwdListener :=
  match local_protocol tunnel with
  | Tcp proxy_protocol => Some (FTcp (local tunnel) (remote tunnel) proxy_protocol)
  | TProxyTcp => Some (FTproxyTcp (local tunnel) false)
  | Unix path proxy_protocol => Some (FUnix path (remote tunnel) proxy_protocol)
  | TProxyUdp timeout => Some (FTproxyUdp (local tunnel) timeout)
  | Udp timeout => Some (FUdp (local tunnel) (remote tunnel) timeout)
  | Socks5 timeout credentials => Some (FSocks5 (local tunnel) timeout credentials)
  | HttpProxy timeout credentials proxy_protocol =>
      Some (FHttpProxy (local tunnel) timeout credentials proxy_protocol)
  | Stdio proxy_protocol => Some (FStdio (remote tunnel) proxy_protocol)
  | TunnelStdio proxy_protocol timeout => Some (FTunnelId (remote tunnel) proxy_protocol timeout)
  | ReverseTcp | ReverseUdp _ | ReverseSocks5 _ _ | ReverseUnix _ | ReverseHttpProxy _ _ => None
  end.

(** Listeners that run in the foreground, after which the process exits. *)
Definition foreground (l : FwdListener) : bool :=
  match l with FStdio _ _ | FTunnelId _ _ _ => true | _ => false end.

Fixpoint reverse_tasks (tunnels : list LocalToRemote) (tasks : list Task)
    : outcome string (list Task) :=
  match tunnels with
  | [] => Ok tasks
  | tunnel :: tunnels =>
      t ← reverse_task tunnel;
      reverse_tasks tunnels (match t with Some t => tasks ++ [t] | None => tasks end)
  end.

(** [bind] is the result of creating a listener. *)
Fixpoint forward_tasks (bind : FwdListener → outcome string ()) (tunnels : list LocalToRemote)
    (tasks : list Task) : outcome string ClientStart :=
  match tunnels with
  | [] => Ok (Started tasks)
  | tunnel :: tunnels =>
      match forward_listener tunnel with
      | None => forward_tasks bind tunnels tasks
      | Some l =>
          _ ← bind l;
          if foreground l then Ok (Exited l tasks)
          else forward_tasks bind tunnels (tasks ++ [TaskForward l])
      end
  end.

(** [client] is the result of [create_client]. *)
Definition create_client_tunnels {C} (client : outcome string C)
    (bind : FwdListener → outcome string ()) (remote_to_local local_to_remote : list LocalToRemote)
    : outcome string ClientStart :=
  _ ← client;
  tasks ← reverse_tasks remote_to_local [];
  forward_tasks bind local_to_remote tasks.

(** ** [create_client] *)

Section CreateClient.
Context `{HostApi, HttpApi, UrlApi, X509Api}.
(** Keys, ECH configurations, TLS connectors and resolvers of the libraries. *)
Context {Key Ech TlsConnector Dns : Type}.

Record TlsClientConfig := mkTlsClient {
  tls_sni_disabled : bool;
  tls_sni_override : option string;
  tls_verify_certificate : bool;
  tls_connector : TlsConnector;
  tls_certificate_path : option PathBuf;
  tls_key_path : option PathBuf
}.

Record ClientArgs := mkClientArgs {
  a_local_to_remote : list LocalToRemote;
  a_remote_to_local : list LocalToRemote;
  a_socket_so_mark : option Z;
  a_connection_min_idle : Z;
  a_connection_retry_max_backoff : Duration;
  a_reverse_tunnel_connection_retry_max_backoff : Duration;
  a_tls_sni_override : option string;
  a_tls_sni_disable : bool;
  a_tls_ech_enable : bool;
  a_tls_verify_certificate : bool;
  a_http_proxy : option string;
  a_http_proxy_login : option string;
  a_http_proxy_password : option string;
  a_http_upgrade_path_prefix : string;
  a_http_upgrade_credentials : option HeaderValue;
  a_websocket_ping_frequency : option Duration;
  a_websocket_mask_frame : bool;
  a_http_headers : list (HeaderName * HeaderValue);
  a_http_headers_file : option PathBuf;
  a_remote_addr : Url;
  a_tls_certificate : option PathBuf;
  a_tls_private_key : option PathBuf;
  a_dns_resolver : list Url;
  a_dns_resolver_prefer_ipv4 : bool
}.

(** What the libraries and the file system give. *)
Record StartEnv := mkStart {
  st_load_certificates : PathBuf → option (list Cert);
  st_load_key : PathBuf → option Key;
  st_dns : list Url → option Url → bool → option Dns;
  (** [lookup_ech_config], in a build with [aws-lc-rs]. *)
  st_ech : option (Dns → Host → outcome string (option Ech));
  st_tls_connector : bool → list string → bool → option Ech → option (list Cert) → option Key →
    option TlsConnector;
  st_exists : PathBuf → bool;
  (** [WsClient::new]: reloader and pool. *)
  st_new : outcome string ()
}.

(** [mk_http_proxy]. *)
Definition mk_http_proxy (http_proxy proxy_login proxy_password : option string)
    : outcome string (option Url) :=
  match http_proxy with
  | None => Ok None
  | Some proxy =>
      url ← ok_or "Invalid http proxy url"
              (if starts_with "http://" proxy then url_parse proxy
               else url_parse ("http://" +:+ proxy));
      url ← match proxy_login with
            | Some login => ok_or "Cannot set http proxy login" (url_set_username url login)
            | None => Ok url
            end;
      url ← match proxy_password with
            | Some password => ok_or "Cannot set http proxy password" (url_set_password url password)
            | None => Ok url
            end;
      Ok (Some url)
  end.

(** The client certificate and its key: both or none. *)
Definition load_client_tls (env : StartEnv) (args : ClientArgs)
    : outcome string (option (list Cert) * option Key) :=
  match a_tls_certificate args, a_tls_private_key args with
  | Some cert, Some key =>
      certs ← unwrap (st_load_certificates env cert);
      key ← unwrap (st_load_key env key);
      Ok (Some certs, Some key)
  | _, _ => Ok (None, None)
  end.

(** With a client certificate the default prefix is replaced by its common name. *)
Definition upgrade_path_prefix (args : ClientArgs) (certs : option (list Cert)) : string :=
  if String.eqb (a_http_upgrade_path_prefix args) DEFAULT_CLIENT_UPGRADE_PATH_PREFIX
  then default (a_http_upgrade_path_prefix args)
         (certs ← certs; leaf ← find_leaf_certificate certs; cn_from_certificate leaf)
  else a_http_upgrade_path_prefix args.

Definition client_tls (env : StartEnv) (args : ClientArgs) (dns : Dns) (scheme : TransportScheme)
    (certs : option (list Cert)) (key : option Key)
    : outcome string (option TlsClientConfig) :=
  match scheme with
  | Ws | Http => Ok None
  | Wss | Https =>
      ech ← (if a_tls_ech_enable args
             then match st_ech env with
                  | None => Err "Your current build does not support ECH"
                  | Some lookup => h ← unwrap (url_host (a_remote_addr args)); lookup dns h
                  end
             else Ok None);
      connector ← unwrap (st_tls_connector env (a_tls_verify_certificate args)
        (alpn_protocols scheme) (negb (a_tls_sni_disable args)) ech certs key);
      Ok (Some (mkTlsClient (a_tls_sni_disable args) (a_tls_sni_override args)
                  (a_tls_verify_certificate args) connector
                  (a_tls_certificate args) (a_tls_private_key args)))
  end.

(** The [Host] header: the configured one, or the server's address. *)
Definition client_host_header (args : ClientArgs) : outcome string HeaderValue :=
  match find (λ hv, String.eqb (fst hv) HOST) (a_http_headers args) with
  | Some (_, host_val) => Ok host_val
  | None =>
      h ← unwrap (url_host (a_remote_addr args));
      let host := match url_port_or_known_default (a_remote_addr args) with
                  | None => host_to_string h
                  | Some port => if (port =? 80) || (port =? 443) then host_to_string h
                                 else host_to_string h +:+ ":" +:+ show port
                  end in
      ok_or "invalid header value" (hv_from_str host)
  end.

(** [args.websocket_ping_frequency.or(30 s).filter(not zero)]. *)
Definition ping_frequency (arg : option Duration) : option Duration :=
  d ← (match arg with Some d => Some d | None => Some (from_secs 30) end);
  if 0 <? as_secs d then Some d else None.

(** Collecting pairs in a hash map, listed in an iteration order: the last value of a name
    replaces the others. *)
Definition hash_collect {V} (kvs : list (HeaderName * V)) : list (HeaderName * V) :=
  foldl (λ m kv, filter (λ x, fst x ≠ fst kv) m ++ [kv]) [] kvs.

Definition create_client (env : StartEnv) (args : ClientArgs)
    : outcome string (WsClientConfig TlsClientConfig) :=
  '(certs, key) ← load_client_tls env args;
  let prefix := upgrade_path_prefix args certs in
  http_proxy ← mk_http_proxy (a_http_proxy args) (a_http_proxy_login args)
                 (a_http_proxy_password args);
  dns ← unwrap (st_dns env (a_dns_resolver args) http_proxy
                  (negb (a_dns_resolver_prefer_ipv4 args)));
  scheme ← unwrap (ok (scheme_from_str (url_scheme (a_remote_addr args))));
  tls ← client_tls env args dns scheme certs key;
  host_header ← client_host_header args;
  _ ← match a_http_headers_file args with
      | Some path => if st_exists env path then Ok () else Panic
      | None => Ok ()
      end;
  h ← unwrap (url_host (a_remote_addr args));
  p ← unwrap (url_port_or_known_default (a_remote_addr args));
  addr ← unwrap (transport_addr_new scheme h p tls);
  _ ← st_new env;
  Ok (mkClientConfig addr prefix (a_http_upgrade_credentials args)
        (hash_collect (filter (λ hv, fst hv ≠ HOST) (a_http_headers args)))
        (a_http_headers_file args) host_header (from_secs 10)
        (ping_frequency (a_websocket_ping_frequency args)) (a_websocket_mask_frame args)).

(** [run_client]: the tunnels of the arguments, once the client exists. *)
Definition run_client (env : StartEnv) (args : ClientArgs) (bind : FwdListener → outcome string ())
    : outcome string ClientStart :=
  create_client_tunnels (create_client env args) bind (a_remote_to_local args)
    (a_local_to_remote args).
End CreateClient.

(** ** [run_server_impl]: the rules of the server *)

(** [trim_matches(['[', ']'])]. *)
Definition is_bracket (a : ascii) : bool := Ascii.eqb a "[" || Ascii.eqb a "]".
Fixpoint trim_start_by (f : ascii → bool) (s : string) : string :=
  match s with
  | "" => ""
  | String a s' => if f a then trim_start_by f s' else s
  end.
Definition trim_matches_by (f : ascii → bool) (s : string) : string :=
  rev_str (trim_start_by f (rev_str (trim_start_by f s))).

(** One [--restrict-to host:port]. *)
Definition parse_restrict_to (x : string) : outcome string (string * Z) :=
  '(host, port) ← unwrap (rsplit_once_char ":" x);
  port ← unwrap (parse_u16 port);
  Ok (trim_matches_by is_bracket host, port).

Section RunServer.
Context `{RegexApi, IpNetApi, UrlApi}.

Record ServerArgs := mkServerArgs {
  s_remote_addr : Url;
  s_socket_so_mark : option Z;
  s_websocket_ping_frequency : option Duration;
  s_websocket_mask_frame : bool;
  s_dns_resolver : list Url;
  s_dns_resolver_prefer_ipv4 : bool;
  s_restrict_to : option (list string);
  s_restrict_http_upgrade_path_prefix : option (list string);
  s_restrict_config : option PathBuf;
  s_tls_certificate : option PathBuf;
  s_tls_private_key : option PathBuf;
  s_tls_client_ca_certs : option PathBuf;
  s_http_proxy : option string;
  s_http_proxy_login : option string;
  s_http_proxy_password : option string;
  s_remote_to_local_server_idle_timeout : Duration;
  s_tunnel_resolver : option Url
}.

(** [from_config_file] is the result of reading the rules of a file. *)
Definition server_restrictions (from_config_file : PathBuf → outcome string RestrictionsRules)
    (args : ServerArgs) : outcome string RestrictionsRules :=
  match s_restrict_config args with
  | Some path => match from_config_file path with Ok r => Ok r | _ => Panic end
  | None =>
      restrict_to ← collect parse_restrict_to (default [] (s_restrict_to args));
      match from_path_prefix (default [] (s_restrict_http_upgrade_path_prefix args)) restrict_to with
      | Ok r => Ok r
      | _ => Panic
      end
  end.

(** The rules and the configuration the server starts with; TLS, the resolver and the bind
    address are those of the libraries. *)
Definition run_server_config (from_config_file : PathBuf → outcome string RestrictionsRules)
    (args : ServerArgs) : outcome string (RestrictionsRules * WsServerConfig) :=
  rules ← server_restrictions from_config_file args;
  http_proxy ← mk_http_proxy (s_http_proxy args) (s_http_proxy_login args)
                 (s_http_proxy_password args);
  Ok (rules,
      mkServerConfig (ping_frequency (s_websocket_ping_frequency args)) (from_secs 10)
        (s_websocket_mask_frame args) (s_restrict_config args) http_proxy
        (s_remote_to_local_server_idle_timeout args) (s_tunnel_resolver args)).
End RunServer.

(** ** Forward tunnels *)

Section Forward.
Context `{UuidApi, HostApi, HttpApi, UrlApi, JwtApi JwtTunnelConfig}.
Context {T : Type} (files : PathBuf → option (list (option string))).

(** Building a request aborts only for the protocols a request cannot carry. *)
Lemma build_request_no_panic (cfg : WsClientConfig T) key id dest :
  wire_protocol (protocol dest) = true → build_request files cfg key id dest ≠ Panic.
Proof.
  intros Hw. unfold build_request, ws_upgrade_request, http2_request.
  assert (tunnel_to_jwt_token (E := string) id dest ≠ Panic) as Ht.
  { unfold tunnel_to_jwt_token. rewrite jwt_config_new_eq, Hw. done. }
  destruct (addr_scheme _), (tunnel_to_jwt_token id dest); try done; cbn [mbind outcome_bind];
    by repeat case_match.
Qed.

Lemma run_tunnel_forward {L} `{TunnelListenerLaws L} (l : L) polls :
  Forall (λ cnx, forward_protocol (protocol (snd cnx)) = true) (fst (run_tunnel l polls)).
Proof.
  revert l. induction polls as [|ret polls IH]; intros l; cbn [run_tunnel]; [constructor|].
  destruct (tl_poll_next l ret) as [l' [|[[[s r]|e|]|]]] eqn:Hp; cbn [fst]; try constructor;
    try apply IH.
  specialize (IH l'). destruct (run_tunnel l' polls) as [spawned e]. cbn [fst] in *.
  constructor; [|done]. by eapply tl_announces_forward.
Qed.

(** Whatever connections a listener of the client accepts, in whatever order, the request
    of each tunnel is built without aborting and asks for a forward tunnel. *)
Theorem forward_tunnels_request {L} `{TunnelListenerLaws L} (l : L) polls
    (cfg : WsClientConfig T) key id :
  Forall (λ cnx, is_reverse_tunnel (protocol (snd cnx)) = false
                 ∧ build_request files cfg key id (snd cnx) ≠ Panic)
         (fst (run_tunnel l polls)).
Proof.
  eapply Forall_impl; [apply run_tunnel_forward|]. intros [s r].
  unfold forward_protocol. cbn [snd]. rewrite andb_true_iff, negb_true_iff. intros [Hw Hr].
  split; [done|]. by apply build_request_no_panic.
Qed.
End Forward.

(** ** Reverse tunnels: back-off and survival *)

(** The delay after [n] failures in a row. *)
Definition backoff (max : Duration) (n : nat) : Duration :=
  match n with
  | 0%nat => from_secs 1
  | _ => Z.min (from_secs (2 ^ Z.of_nat n)) max
  end.

Lemma backoff_step max n : 0 ≤ max → Z.min (backoff max n * 2) max = backoff max (S n).
Proof.
  intros Hmax. unfold backoff, from_secs. rewrite (Nat2Z.inj_succ n), Z.pow_succ_r by lia.
  pose proof (Z.pow_pos_nonneg 2 (Z.of_nat n) ltac:(lia) ltac:(lia)). unfold NANOS.
  destruct n as [|n]; [change (2 ^ Z.of_nat 0) with 1|]; lia.
Qed.

Lemma backoff_bound max n : 0 ≤ max → 0 ≤ backoff max n ≤ Z.max (from_secs 1) max.
Proof.
  intros Hmax. unfold backoff, from_secs, NANOS.
  pose proof (Z.pow_pos_nonneg 2 (Z.of_nat n) ltac:(lia) ltac:(lia)). destruct n; lia.
Qed.

Lemma reconnect_delay_backoff max n :
  0 ≤ max → max * 2 ≤ DURATION_MAX →
  reconnect_delay max (backoff max n) = Ok (backoff max n, backoff max (S n)).
Proof.
  intros Hmax Hdbl. pose proof (backoff_bound max n Hmax). unfold reconnect_delay, duration_double.
  rewrite (proj2 (Z.leb_le _ _)).
  - cbn [mbind outcome_bind]. by rewrite backoff_step.
  - assert (from_secs 1 * 2 ≤ DURATION_MAX) by (vm_compute; discriminate). lia.
Qed.

Section Reverse.
Context `{UuidApi, HostApi, HttpApi, UrlApi, JwtApi JwtTunnelConfig}.
Context {T Io : Type} (files : PathBuf → option (list (option string))).
Context (cfg : WsClientConfig T) (max_backoff : Duration) (remote : RemoteAddr) (c : Connector).

Definition attempt (a : Attempt (Io := Io)) : outcome string OpenTunnel :=
  connect_to_server files cfg (at_exchange a) (at_key a) (at_id a) remote.

(** After [n] failures in a row the client waits the [n]-th delay of the documented
    exponential back-off, at most the configured maximum, and then tries again. *)
Theorem reconnect_backoff (fails rest : list (Attempt (Io := Io))) :
  0 ≤ max_backoff → max_backoff * 2 ≤ DURATION_MAX →
  Forall (λ a, ∃ e, attempt a = Err e) fails →
  run_reverse_tunnel files cfg max_backoff remote c (fails ++ rest) =
    let '(acts, e) := reverse_loop files cfg max_backoff remote c
                        (backoff max_backoff (length fails)) rest in
    (((λ n, ASleep (backoff max_backoff n)) <$> seq 0 (length fails)) ++ acts, e).
Proof.
  intros Hmax Hdbl Hf. unfold run_reverse_tunnel.
  change new_reconnect_delay with (backoff max_backoff 0).
  assert (∀ n, reverse_loop files cfg max_backoff remote c (backoff max_backoff n) (fails ++ rest) =
    let '(acts, e) := reverse_loop files cfg max_backoff remote c
                        (backoff max_backoff (n + length fails)) rest in
    (((λ n, ASleep (backoff max_backoff n)) <$> seq n (length fails)) ++ acts, e)) as Hgen; [|apply Hgen].
  induction Hf as [|a fails [err Ha] Hf IH]; intros n; cbn [app length seq fmap list_fmap].
  - rewrite Nat.add_0_r. by destruct (reverse_loop _ _ _ _ _ _ rest).
  - cbn [reverse_loop]. unfold attempt in Ha. rewrite Ha, reconnect_delay_backoff by done.
    rewrite IH. replace (n + S (length fails))%nat with (S n + length fails)%nat by lia.
    by destruct (reverse_loop _ _ _ _ _ (backoff max_backoff (S n + length fails)) rest).
Qed.

(** C26: A reverse tunnel survives every failure of the server and of the local destination:
    each attempt is followed by a wait or by a connection, and the loop goes on. *)
Theorem reverse_tunnel_never_gives_up (attempts : list (Attempt (Io := Io))) :
  is_reverse_tunnel (protocol remote) = true →
  0 ≤ max_backoff → max_backoff * 2 ≤ DURATION_MAX →
  Forall (λ a, (∀ req, at_exchange a req ≠ Panic)
               ∧ ∀ r, snd (connector_connect (U := Uuid) (at_net a) c r) ≠ Panic) attempts →
  let '(acts, e) := run_reverse_tunnel files cfg max_backoff remote c attempts in
  length acts = length attempts ∧ e = Waiting.
Proof.
  intros Hrev Hmax Hdbl Hatt. unfold run_reverse_tunnel.
  change new_reconnect_delay with (backoff max_backoff 0).
  generalize 0%nat. induction Hatt as [|a attempts [Hex Hnet] Hatt IH]; intros n; [done|].
  cbn [reverse_loop length].
  destruct (connect_to_server files cfg _ _ _ remote) as [t|err|] eqn:Hc.
  - specialize (Hnet (response_remote (ot_response t))).
    destruct (connector_connect _ c _) as [effects r]. cbn [snd] in Hnet.
    change new_reconnect_delay with (backoff max_backoff 0). specialize (IH 0%nat).
    destruct (reverse_loop _ _ _ _ _ _ attempts) as [acts e], IH as [IH ->].
    by destruct r; cbn [length]; rewrite ?IH.
  - rewrite reconnect_delay_backoff by done. specialize (IH (S n)).
    destruct (reverse_loop _ _ _ _ _ _ attempts) as [acts e], IH as [IH ->].
    cbn [length]. by rewrite IH.
  - exfalso. unfold connect_to_server in Hc.
    pose proof (build_request_no_panic files cfg (at_key a) (at_id a) remote
                  (wire_protocol_reverse _ Hrev)) as Hb.
    destruct (build_request _ _ _ _ _) as [req|?|]; [|done|done]. cbn [mbind outcome_bind] in Hc.
    specialize (Hex req). by destruct (at_exchange a req).
Qed.
End Reverse.

(** ** Dynamic reverse tunnels: the destination travels in the response *)

Section Cookie.
Context `{UuidApi, HostLaws, HttpLaws, UrlApi, JwtLaws JwtTunnelConfig}.
Context {Io : Type}.

(** The destination a socks5 or http-proxy listener of the server was asked for reaches
    the client unchanged, and that is where the client connects. *)
Theorem reverse_destination_reaches_client remote headers headers' token s
    (net : NetEnv (Io := Io)) :
  tunnel_to_jwt_token (E := unit) (uuid_from_u128 0) remote = Ok token → token ≠ "" →
  host_parse s = Some (host remote) →
  inject_cookie headers remote = Ok headers' →
  response_remote headers' = Some remote
  ∧ (∀ h p t, fst (connector_connect (U := Uuid) net (TcpTunnelConnector h p t)
                     (response_remote headers')) = [ETcpConnect (host remote) (port remote)])
  ∧ (∀ pp t, protocol remote = Tcp pp →
       fst (connector_connect (U := Uuid) net (Socks5TunnelConnector t)
              (response_remote headers')) = [ETcpConnect (host remote) (port remote)]).
Proof.
  intros Htok Hne Hhost Hinj.
  assert (response_remote headers' = Some remote) as Hr.
  { unfold inject_cookie in Hinj. rewrite Htok in Hinj. cbn [mbind outcome_bind] in Hinj.
    destruct (hv_from_str token) as [v|] eqn:Hv; [|done]. injection Hinj as <-.
    apply hv_str in Hv; [|by apply (token_visible _ _ _ Htok)].
    unfold response_remote. rewrite hm_get_insert, decide_True by done. cbn [mbind option_bind].
    rewrite Hv. cbn [mbind option_bind]. unfold jwt_token_to_tunnel.
    rewrite (token_Ok _ _ _ Htok Hne). cbn. rewrite (host_reparse _ _ Hhost). by destruct remote. }
  rewrite Hr. split; [done|]. split.
  - intros h p t. unfold connector_connect, tcp_connector_connect. cbn [tcp_target].
    destruct (net_tcp_connect net _ _ t) as [[io la]|e|]; reflexivity.
  - intros pp t Hp. unfold connector_connect, socks5_connector_connect. rewrite Hp.
    destruct (net_tcp_connect net _ _ t) as [[io la]|e|]; reflexivity.
Qed.
End Cookie.

(** ** Which tunnels run *)

(** The task that belongs to a description. *)
Definition task_of (tunnel : LocalToRemote) (task : Task) : Prop :=
  match task with
  | TaskReverse r c =>
      protocol r = local_protocol tunnel ∧ (host r, port r) = to_host_port (local tunnel)
      ∧ match c with
        | TcpTunnelConnector h p _ | UdpTunnelConnector h p _ => (h, p) = remote tunnel
        | Socks5TunnelConnector _ => is_dynamic_reverse_tunnel (protocol r) = true
        end
  | TaskForward l => forward_listener tunnel = Some l
  end.

Lemma reverse_task_of tunnel :
  is_reverse_tunnel (local_protocol tunnel) = true →
  ∃ task, reverse_task tunnel = Ok (Some task) ∧ task_of tunnel task.
Proof.
  unfold reverse_task. destruct tunnel as [p l [h q]]. cbn [local_protocol local remote].
  destruct (to_host_port l) as [lh lp] eqn:Hl.
  destruct p; cbn; try done; intros _; eexists; (split; [done|]); cbn; by rewrite Hl.
Qed.

Lemma reverse_tasks_all tunnels tasks :
  Forall (λ t, is_reverse_tunnel (local_protocol t) = true) tunnels →
  ∃ new, reverse_tasks tunnels tasks = Ok (tasks ++ new) ∧ Forall2 task_of tunnels new.
Proof.
  intros Hr. revert tasks. induction Hr as [|t tunnels Ht Hr IH]; intros tasks; cbn [reverse_tasks].
  - exists []. by rewrite app_nil_r.
  - destruct (reverse_task_of t Ht) as (task&->&Hof). cbn [mbind outcome_bind].
    destruct (IH (tasks ++ [task])) as (new&->&Hnew). exists (task :: new).
    by rewrite <-app_assoc; repeat constructor.
Qed.

Lemma forward_tasks_app bind l1 l2 tasks :
  (∀ l, bind l = Ok ()) →
  Forall (λ t, ∃ l, forward_listener t = Some l ∧ foreground l = false) l1 →
  ∃ new, forward_tasks bind (l1 ++ l2) tasks = forward_tasks bind l2 (tasks ++ new)
    ∧ Forall2 task_of l1 new.
Proof.
  intros Hb Hl. revert tasks. induction Hl as [|t l1 (l&Hl&Hfg) _ IH]; intros tasks.
  - exists []. by rewrite app_nil_r.
  - cbn [app forward_tasks]. rewrite Hl, Hb. cbn [mbind outcome_bind]. rewrite Hfg.
    destruct (IH (tasks ++ [TaskForward l])) as (new&->&Hnew). exists (TaskForward l :: new).
    rewrite <-app_assoc. by repeat constructor.
Qed.

Lemma forward_listener_total tunnel :
  is_reverse_tunnel (local_protocol tunnel) = false → is_Some (forward_listener tunnel).
Proof. unfold forward_listener. by destruct (local_protocol tunnel). Qed.

Section Tunnels.
Context `{HostApi, UuidApi, HttpApi, UrlApi}.
Context {C : Type} (client : C) (bind : FwdListener → outcome string ()).
Context (args_r args_l : list string) (rs ls : list LocalToRemote).

Definition on_stdio (t : LocalToRemote) : bool :=
  match forward_listener t with Some l => foreground l | None => false end.

Lemma parsed_reverse :
  Forall2 (λ a t, parse_reverse_tunnel_arg a = Ok t) args_r rs →
  Forall (λ t, is_reverse_tunnel (local_protocol t) = true) rs.
Proof.
  induction 1 as [|a t ? ? Ha]; constructor; [|done].
  by apply parse_reverse_tunnel_arg_reverse in Ha as [? _].
Qed.

Lemma parsed_forward :
  Forall2 (λ a t, parse_tunnel_arg a = Ok t) args_l ls → Forall (λ t, on_stdio t = false) ls →
  Forall (λ t, ∃ l, forward_listener t = Some l ∧ foreground l = false) ls.
Proof.
  induction 1 as [|a t ? ? Ha _ IH]; [constructor|]. rewrite Forall_cons. intros [Ht Hts].
  constructor; [|by apply IH]. apply parse_tunnel_arg_forward in Ha.
  destruct (forward_listener_total t Ha) as [fl Hfl]. exists fl. unfold on_stdio in Ht.
  by rewrite Hfl in Ht.
Qed.

(** Every tunnel of the command line gets its own task, reverse tunnels first, in order:
    none is ignored and none aborts the client, unless one is on standard input. *)
Theorem all_tunnels_started :
  Forall2 (λ a t, parse_reverse_tunnel_arg a = Ok t) args_r rs →
  Forall2 (λ a t, parse_tunnel_arg a = Ok t) args_l ls →
  Forall (λ t, on_stdio t = false) ls →
  (∀ l, bind l = Ok ()) →
  ∃ tasks, create_client_tunnels (Ok client) bind rs ls = Ok (Started tasks)
    ∧ Forall2 task_of (rs ++ ls) tasks.
Proof.
  intros Hr Hl Hno Hb. destruct (reverse_tasks_all rs [] (parsed_reverse Hr)) as (new&Hnew&Hof).
  destruct (forward_tasks_app bind ls [] new Hb (parsed_forward Hl Hno)) as (new'&Hnew'&Hof').
  exists (new ++ new'). unfold create_client_tunnels. cbn [mbind outcome_bind].
  rewrite Hnew. cbn [mbind outcome_bind app]. rewrite app_nil_r in Hnew'. rewrite Hnew'.
  split; [done|]. by apply Forall2_app.
Qed.

(** A tunnel on standard input takes the whole process: the reverse tunnels and the
    forward tunnels given before it are never run, those after it not even bound. *)
Theorem stdio_excludes_other_tunnels l1 t l2 l :
  ls = l1 ++ t :: l2 →
  Forall2 (λ a t, parse_reverse_tunnel_arg a = Ok t) args_r rs →
  Forall (λ t, is_reverse_tunnel (local_protocol t) = false ∧ on_stdio t = false) l1 →
  forward_listener t = Some l → foreground l = true →
  (∀ l, bind l = Ok ()) →
  ∃ unstarted, create_client_tunnels (Ok client) bind rs ls = Ok (Exited l unstarted)
    ∧ Forall2 task_of (rs ++ l1) unstarted.
Proof.
  intros -> Hr Hl1 Hl Hfg Hb.
  destruct (reverse_tasks_all rs [] (parsed_reverse Hr)) as (new&Hnew&Hof).
  destruct (forward_tasks_app bind l1 (t :: l2) new Hb) as (new'&Hnew'&Hof').
  { eapply Forall_impl; [exact Hl1|]. intros x [Hx Hs].
    destruct (forward_listener_total x Hx) as [y Hy]. exists y. unfold on_stdio in Hs. by rewrite Hy in Hs. }
  exists (new ++ new'). unfold create_client_tunnels. cbn [mbind outcome_bind].
  rewrite Hnew. cbn [mbind outcome_bind app]. rewrite Hnew'. cbn [forward_tasks]. rewrite Hl, Hb.
  cbn [mbind outcome_bind]. rewrite Hfg. split; [done|]. by apply Forall2_app.
Qed.
End Tunnels.

(** ** The configuration of the client *)

Section Configuration.
Context `{HostApi, HttpApi, UrlApi, X509Api}.
Context {Key Ech TlsConnector Dns : Type}.
Context (env : StartEnv (Key := Key) (Ech := Ech) (TlsConnector := TlsConnector) (Dns := Dns)).
Context (args : ClientArgs).

(** The files of the command line can be read and the libraries can be initialised. *)
Definition startable : Prop :=
  (∀ path, a_tls_certificate args = Some path → is_Some (st_load_certificates env path))
  ∧ (∀ path, a_tls_private_key args = Some path → is_Some (st_load_key env path))
  ∧ (∀ urls proxy v6, is_Some (st_dns env urls proxy v6))
  ∧ (∀ lookup dns h, st_ech env = Some lookup → lookup dns h ≠ Panic)
  ∧ (∀ verify alpn sni ech certs key, is_Some (st_tls_connector env verify alpn sni ech certs key))
  ∧ (∀ path, a_http_headers_file args = Some path → st_exists env path = true)
  ∧ st_new env ≠ Panic.

Lemma load_client_tls_no_panic : startable → load_client_tls env args ≠ Panic.
Proof.
  intros (Hc&Hk&_). unfold load_client_tls.
  destruct (a_tls_certificate args) as [c|], (a_tls_private_key args) as [k|]; try done.
  apply bind_no_panic; [auto with no_panic|]. intros certs _.
  apply bind_no_panic; [auto with no_panic|done].
Qed.

Lemma mk_http_proxy_no_panic proxy login password : mk_http_proxy proxy login password ≠ Panic.
Proof.
  unfold mk_http_proxy. destruct proxy; [|done].
  apply bind_no_panic; [auto with no_panic|]. intros u _.
  apply bind_no_panic; [destruct login; auto with no_panic; done|]. intros u' _.
  apply bind_no_panic; [destruct password; auto with no_panic; done|]. done.
Qed.

Lemma client_tls_no_panic dns scheme certs key :
  startable → is_Some (url_host (a_remote_addr args)) →
  client_tls env args dns scheme certs key ≠ Panic.
Proof.
  intros (_&_&_&He&Ht&_) Hh. unfold client_tls.
  destruct scheme; try done.
  all: apply bind_no_panic; [|intros ech _; apply bind_no_panic; [auto with no_panic|done]].
  all: destruct (a_tls_ech_enable args); [|done].
  all: destruct (st_ech env) as [lookup|] eqn:Hlookup; [|done].
  all: apply bind_no_panic; [auto with no_panic|]; intros h _; by apply (He lookup).
Qed.

Lemma client_tls_is_some dns scheme certs key tls :
  client_tls env args dns scheme certs key = Ok tls →
  bool_decide (is_Some tls) = scheme_is_tls scheme.
Proof.
  unfold client_tls. destruct scheme; try (intros [= <-]; done).
  all: rewrite bind_ok_inv; intros (ech&_&Hc); apply bind_ok_inv in Hc as (conn&_&[= <-]); done.
Qed.

Lemma client_host_header_no_panic :
  is_Some (url_host (a_remote_addr args)) → client_host_header args ≠ Panic.
Proof.
  intros Hh. unfold client_host_header. destruct (find _ _) as [[k v]|]; [done|].
  apply bind_no_panic; auto with no_panic.
Qed.

(** With an address accepted by [parse_server_url] and readable files, none of the
    [unwrap] and [expect] of the start-up is reached on a missing value. *)
Theorem create_client_never_panics arg :
  parse_server_url arg = Ok (a_remote_addr args) →
  is_Some (url_port_or_known_default (a_remote_addr args)) →
  startable →
  create_client env args ≠ Panic.
Proof.
  intros Hurl Hport Hstart. apply parse_server_url_ok in Hurl as [[scheme Hscheme] Hhost].
  pose proof Hstart as (_&_&Hdns&_&_&Hfile&Hnew). unfold create_client.
  apply bind_no_panic; [by apply load_client_tls_no_panic|]. intros [certs key] _.
  apply bind_no_panic; [apply mk_http_proxy_no_panic|]. intros proxy _.
  apply bind_no_panic; [auto with no_panic|]. intros dns _.
  rewrite Hscheme. apply bind_no_panic; [done|]. intros scheme' [= <-].
  apply bind_no_panic; [by apply client_tls_no_panic|]. intros tls Htls.
  apply bind_no_panic; [by apply client_host_header_no_panic|]. intros hh _.
  apply bind_no_panic; [destruct (a_http_headers_file args); [by rewrite Hfile|done]|]. intros [] _.
  apply bind_no_panic; [auto with no_panic|]. intros h _.
  apply bind_no_panic; [auto with no_panic|]. intros p _.
  apply bind_no_panic; [|intros addr _; apply bind_no_panic; [done|done]].
  apply unwrap_no_panic. apply client_tls_is_some in Htls.
  destruct scheme, tls; cbn in *; try done; eauto.
Qed.

(** Mutual TLS: a client that keeps the default path prefix presents the common name of
    its certificate, which is the prefix the server demands from that certificate; and the
    server it contacts is the one of the address, over TLS exactly when the scheme says so. *)
Theorem create_client_config cfg :
  create_client env args = Ok cfg →
  url_host (a_remote_addr args) = Some (addr_host (remote_addr cfg))
  ∧ url_port_or_known_default (a_remote_addr args) = Some (addr_port (remote_addr cfg))
  ∧ scheme_from_str (url_scheme (a_remote_addr args)) = Ok (addr_scheme (remote_addr cfg))
  ∧ bool_decide (is_Some (addr_tls (remote_addr cfg))) = scheme_is_tls (addr_scheme (remote_addr cfg))
  ∧ (∀ cert key certs cn,
       a_tls_certificate args = Some cert → a_tls_private_key args = Some key →
       st_load_certificates env cert = Some certs → restrict_path_of (Some certs) = Some cn →
       a_http_upgrade_path_prefix args = DEFAULT_CLIENT_UPGRADE_PATH_PREFIX →
       http_upgrade_path_prefix cfg = cn).
Proof.
  unfold create_client. rewrite bind_ok_inv. intros ([certs key]&Hload&Hc).
  apply bind_ok_inv in Hc as (proxy&_&Hc). apply bind_ok_inv in Hc as (dns&_&Hc).
  apply bind_ok_inv in Hc as (scheme&Hs&Hc). apply bind_ok_inv in Hc as (tls&Htls&Hc).
  apply bind_ok_inv in Hc as (hh&_&Hc). apply bind_ok_inv in Hc as ([]&_&Hc).
  apply bind_ok_inv in Hc as (h&Hh&Hc). apply bind_ok_inv in Hc as (p&Hp&Hc).
  apply bind_ok_inv in Hc as (addr&Ha&Hc). apply bind_ok_inv in Hc as ([]&_&[= <-]).
  cbn [remote_addr http_upgrade_path_prefix].
  destruct (url_host _); [|done]. destruct (url_port_or_known_default _); [|done].
  destruct (scheme_from_str _) as [sc|?|]; [|done|done]. cbn in Hs. simplify_eq/=.
  apply client_tls_is_some in Htls.
  assert (addr_host addr = h ∧ addr_port addr = p ∧ addr_scheme addr = scheme
          ∧ addr_tls addr = tls) as (->&->&->&->).
  { destruct scheme, tls; cbn in *; simplify_eq/=; done. }
  split_and!; try done. intros cert kp certs' cn Hcert Hkey Hcerts Hcn Hpre.
  unfold load_client_tls in Hload. rewrite Hcert, Hkey, Hcerts in Hload. cbn in Hload.
  destruct (st_load_key env kp); cbn in Hload; [|done]. simplify_eq.
  unfold upgrade_path_prefix. rewrite Hpre, String.eqb_refl. unfold restrict_path_of in Hcn.
  cbn in Hcn |- *. by rewrite Hcn.
Qed.
End Configuration.

(** ** Witnesses *)

Lemma forward_tunnels_request_witness :
  let l := mkStdioListener (Some ()) (Domain "google.com", 443) true in
  Forall (λ cnx : () * RemoteAddr, is_reverse_tunnel (protocol (snd cnx)) = false)
    (fst (run_tunnel l [Pending; Pending])).
Proof.
  intros l. eapply Forall_impl.
  - exact (forward_tunnels_request toy_files l [Pending; Pending] (toy_cfg Ws) "key" toy_id).
  - cbn. intros cnx [Hr _]. exact Hr.
Defined.

Definition toy_attempt (r : outcome string (@HeaderMap toy_http_api)) : Attempt (Io := unit) :=
  mkAttempt (toy_id : @Uuid toy_uuid_api) "key" (λ _, r) toy_net.
Definition toy_reverse : RemoteAddr := mkRemote ReverseTcp (Ipv4 LOCALHOST_V4) 8080.
Definition toy_connector : Connector := TcpTunnelConnector (Domain "intranet") 80 (from_secs 10).

Lemma reconnect_backoff_witness :
  fst (run_reverse_tunnel toy_files (toy_cfg Ws) (from_secs 5) toy_reverse toy_connector
         (replicate 4 (toy_attempt (Err "refused")) ++ []))
  = [ASleep (from_secs 1); ASleep (from_secs 2); ASleep (from_secs 4); ASleep (from_secs 5)].
Proof.
  rewrite (reconnect_backoff toy_files (toy_cfg Ws) (from_secs 5) toy_reverse toy_connector
             (replicate 4 (toy_attempt (Err "refused"))) []).
  - reflexivity.
  - done.
  - vm_compute. discriminate.
  - repeat constructor; by exists "refused".
Defined.

Lemma reverse_tunnel_never_gives_up_witness :
  snd (run_reverse_tunnel toy_files (toy_cfg Ws) (from_secs 5) toy_reverse toy_connector
         [toy_attempt (Err "refused"); toy_attempt (Ok hm_empty)]) = Waiting.
Proof.
  pose proof (reverse_tunnel_never_gives_up toy_files (toy_cfg Ws) (from_secs 5) toy_reverse
                toy_connector [toy_attempt (Err "refused"); toy_attempt (Ok hm_empty)]) as Hw.
  destruct (run_reverse_tunnel _ _ _ _ _ _) as [acts e]. apply Hw.
  - reflexivity.
  - done.
  - vm_compute. discriminate.
  - repeat constructor; try done; intros [r|]; done.
Defined.

Definition toy_token : string :=
  match tunnel_to_jwt_token (E := unit) (uuid_from_u128 0) toy_dest with Ok t => t | _ => "" end.
Definition toy_response : @HeaderMap toy_http_api :=
  match inject_cookie hm_empty toy_dest with Ok h => h | _ => hm_empty end.

Lemma reverse_destination_reaches_client_witness : response_remote toy_response = Some toy_dest.
Proof.
  apply (reverse_destination_reaches_client toy_dest hm_empty toy_response toy_token "google.com"
           toy_net).
  - vm_cast_no_check (@eq_refl (outcome unit string) (Ok toy_token)).
  - vm_compute. discriminate.
  - reflexivity.
  - vm_cast_no_check (@eq_refl (outcome unit (@HeaderMap toy_http_api)) (Ok toy_response)).
Defined.

Definition toy_ltr (arg : string) : LocalToRemote :=
  match parse_tunnel_arg arg with
  | Ok t => t
  | _ => mkLocalToRemote TProxyTcp (SockV4 UNSPECIFIED_V4 0) (Domain "", 0)
  end.
Definition toy_rev (arg : string) : LocalToRemote :=
  match parse_reverse_tunnel_arg arg with
  | Ok t => t
  | _ => mkLocalToRemote TProxyTcp (SockV4 UNSPECIFIED_V4 0) (Domain "", 0)
  end.

Lemma all_tunnels_started_witness :
  ∃ tasks, create_client_tunnels (Ok ()) (λ _, Ok ())
             [toy_rev "tcp://8080:intranet:80"] [toy_ltr "udp://53:1.1.1.1:53"] = Ok (Started tasks)
    ∧ length tasks = 2%nat.
Proof.
  destruct (all_tunnels_started () (λ _, Ok ()) ["tcp://8080:intranet:80"]
              ["udp://53:1.1.1.1:53"] [toy_rev "tcp://8080:intranet:80"]
              [toy_ltr "udp://53:1.1.1.1:53"]) as (tasks&Ht&Hof).
  - constructor; [|constructor].
    vm_cast_no_check (@eq_refl (outcome ParseError LocalToRemote)
                        (Ok (toy_rev "tcp://8080:intranet:80"))).
  - constructor; [|constructor].
    vm_cast_no_check (@eq_refl (outcome ParseError LocalToRemote)
                        (Ok (toy_ltr "udp://53:1.1.1.1:53"))).
  - constructor; [|constructor]. vm_compute. reflexivity.
  - reflexivity.
  - exists tasks. split; [exact Ht|]. by apply Forall2_length in Hof.
Defined.

Lemma stdio_excludes_other_tunnels_witness :
  ∃ unstarted, create_client_tunnels (Ok ()) (λ _, Ok ())
      [toy_rev "tcp://8080:intranet:80"] [toy_ltr "stdio://google.com:22"]
    = Ok (Exited (FStdio (Domain "google.com", 22) false) unstarted)
    ∧ length unstarted = 1%nat.
Proof.
  destruct (stdio_excludes_other_tunnels () (λ _, Ok ()) ["tcp://8080:intranet:80"]
              [toy_rev "tcp://8080:intranet:80"]
              [toy_ltr "stdio://google.com:22"] [] (toy_ltr "stdio://google.com:22") []
              (FStdio (Domain "google.com", 22) false)) as (unstarted&Hu&Hof).
  - reflexivity.
  - constructor; [|constructor].
    vm_cast_no_check (@eq_refl (outcome ParseError LocalToRemote)
                        (Ok (toy_rev "tcp://8080:intranet:80"))).
  - constructor.
  - vm_compute. reflexivity.
  - reflexivity.
  - reflexivity.
  - exists unstarted. split; [exact Hu|]. by apply Forall2_length in Hof.
Defined.

Definition toy_server_url : @Url toy_url_api := mkToyUrl "wss" (Domain "server") None "".
Definition toy_args : ClientArgs :=
  mkClientArgs [] [] None 0 (from_secs 300) (from_secs 1) None false false true None None None
    "v1" None None false [] None toy_server_url (Some "cert") (Some "key") [] false.
Definition toy_start : StartEnv (Key := unit) (Ech := unit) (TlsConnector := unit) (Dns := unit) :=
  mkStart (λ _, Some ["alice" : @Cert toy_x509]) (λ _, Some ()) (λ _ _ _, Some ()) None
    (λ _ _ _ _ _ _, Some ()) (λ _, true) (Ok ()).

Lemma create_client_never_panics_witness : create_client toy_start toy_args ≠ Panic.
Proof.
  apply (create_client_never_panics toy_start toy_args "wss://server").
  - reflexivity.
  - by exists 80.
  - unfold startable. cbn. by split_and!; eauto.
Defined.

Lemma create_client_config_witness :
  ∃ cfg, create_client toy_start toy_args = Ok cfg ∧ http_upgrade_path_prefix cfg = "alice".
Proof.
  assert (is_ok (create_client toy_start toy_args) = true) as Hok by (vm_compute; reflexivity).
  destruct (create_client toy_start toy_args) as [cfg|?|] eqn:Hc; [|discriminate..].
  exists cfg. split; [reflexivity|].
  destruct (create_client_config toy_start toy_args cfg Hc) as (_&_&_&_&Hp).
  exact (Hp "cert" "key" ["alice" : @Cert toy_x509] "alice" eq_refl eq_refl eq_refl eq_refl eq_refl).
Defined.
