(* ===== verification/Udp.v ===== *)
(** * Udp: datagrams of many peers over one socket

    Models [src/wstunnel/src/protocols/udp/server.rs] (the server that turns one socket
    into a stream per peer).  The streams read from the socket of the server itself: the
    server peeks at the next datagram, tells the stream of its sender to read, and waits
    until it has.  Both sides run concurrently; a step of the model is one atomic part of
    the code, and runs are sequences of steps in any order.

    Making a stream may panic (its timer): a step gives a state, is not possible, or aborts
    the process.

    [Notify] is modelled by its permit: [us_notified] says that the pending notification
    of a stream has completed, [us_has_read] that [has_read_data] holds a permit. *)

From Stdlib Require Import ZArith Lia.
From stdpp Require Import base gmap list.
From S2P Require Import Prelude.

#[local] Open Scope stdpp_scope.

(** The watchdog of a stream: [ticks] deadlines have passed since the last poll.  Returns
    whether the stream has timed out and the new flag. *)
Definition watchdog (deadline : bool) (ticks : nat) (data_read : bool) : bool * bool :=
  match deadline, ticks with
  | true, S _ => if negb data_read then (true, data_read) else (false, false)
  | _, _ => (false, data_read)
  end.

(** The largest number of seconds of an [Instant]. *)
Definition INSTANT_MAX_SECS : Z := 2 ^ 63 - 1.

(** The interval of the watchdog of a new stream, made at [now]: whether there is one.  The sum
    of an [Instant] and a [Duration] panics when it overflows, and [interval_at] panics on a
    period of zero. *)
Definition watchdog_new (now : Duration) (timeout : option Duration) : outcome () bool :=
  match timeout with
  | None => Ok false
  | Some t => if (INSTANT_MAX_SECS <? as_secs (now + t)) || (t =? 0) then Panic else Ok true
  end.

(** ** Peers and their removal, shared with the socks5 server *)

Section Peers.
Context {K : Type} `{Countable K}.

(** [clean_dead_keys] on the table. *)
Definition clean_peers {A} (keys : list K) (peers : gmap K A) : gmap K A :=
  foldl (λ m k, delete k m) peers keys.

Lemma clean_peers_lookup {A} keys (peers : gmap K A) k :
  clean_peers keys peers !! k = if decide (k ∈ keys) then None else peers !! k.
Proof.
  unfold clean_peers. revert peers. induction keys as [|a keys IH]; intros peers; cbn [foldl].
  - by rewrite decide_False by set_solver.
  - rewrite IH. destruct (decide (k = a)) as [->|Hne].
    + rewrite (decide_True (P := a ∈ a :: keys)) by set_solver.
      case_decide; [done|]. apply lookup_delete_eq.
    + rewrite lookup_delete_ne by done. case_decide; case_decide; set_solver.
Qed.
End Peers.

Module UdpServer.
Section UdpServer.
(** Addresses of the peers and datagrams. *)
Context {K D : Type} `{Countable K}.

(** [UdpStream] and its [IoInner]; [us_got] records what it has read. *)
Record UdpStream := mkStream {
  us_peer : K;
  us_alive : bool;
  us_deadline : bool;
  us_data_read : bool;
  us_notified : bool;
  us_has_read : bool;
  us_got : list (K * D)
}.

(** A new stream: [notify_waiters] completes the notification it was created with. *)
Definition udp_stream_new (peer : K) (deadline : bool) : UdpStream :=
  mkStream peer true deadline false true false [].

Definition set_notified (s : UdpStream) : UdpStream :=
  mkStream (us_peer s) (us_alive s) (us_deadline s) (us_data_read s) true (us_has_read s) (us_got s).
Definition set_has_read (b : bool) (s : UdpStream) : UdpStream :=
  mkStream (us_peer s) (us_alive s) (us_deadline s) (us_data_read s) (us_notified s) b (us_got s).
Definition udp_stream_drop (s : UdpStream) : UdpStream :=
  mkStream (us_peer s) false (us_deadline s) (us_data_read s) (us_notified s) true (us_got s).

Inductive PollResult := RTimedOut | RPending | RFailed | RRead (d : D).

(** [poll_read] of a stream on the datagrams waiting in the socket, or on an error of the
    socket. *)
Definition udp_poll_read (s : UdpStream) (ticks : nat) (recv_err : bool) (queue : list (K * D))
    : UdpStream * list (K * D) * PollResult :=
  let '(timed_out, flag) := watchdog (us_deadline s) ticks (us_data_read s) in
  if timed_out then (s, queue, RTimedOut)
  else
    let s := mkStream (us_peer s) (us_alive s) (us_deadline s) flag (us_notified s)
               (us_has_read s) (us_got s) in
    if negb (us_notified s) then (s, queue, RPending)
    else if recv_err then (s, queue, RFailed)
    else match queue with
         | [] => (s, queue, RPending)
         | (k, d) :: queue =>
             (mkStream (us_peer s) (us_alive s) (us_deadline s) true false true
                (us_got s ++ [(k, d)]), queue, RRead d)
         end.

(** Where the server is in its loop. *)
Inductive UdpPhase := Cleaning | Peeking | WaitRead (id : nat) | Closed.

Record UdpState := mkState {
  queue : list (K * D);
  peers : gmap K nat;
  keys_to_delete : list K;
  streams : gmap nat UdpStream;
  next_id : nat;
  phase : UdpPhase
}.

Definition udp_initial : UdpState := mkState [] ∅ [] ∅ 0 Cleaning.

Inductive UdpEvent :=
| Arrive (k : K) (d : D)          (** the kernel receives a datagram *)
| Clean                           (** [clean_dead_keys] *)
| Peek (socket_ok : bool) (now : Duration)   (** [peek_sender] returns, the stream is told or made *)
| PeekError                       (** [peek_sender] fails: the server ends *)
| Wake                            (** [has_read_data.notified()] completes *)
| Poll (id : nat) (ticks : nat) (recv_err : bool)   (** the owner of a stream polls it *)
| Drop (id : nat).                (** the owner drops it *)

Definition set_phase (p : UdpPhase) (st : UdpState) : UdpState :=
  mkState (queue st) (peers st) (keys_to_delete st) (streams st) (next_id st) p.
Definition set_stream (id : nat) (s : UdpStream) (st : UdpState) : UdpState :=
  mkState (queue st) (peers st) (keys_to_delete st) (<[id := s]> (streams st)) (next_id st) (phase st).

(** [timeout] is the connection timeout of the server.  [Err]: the event is not possible in
    this state; [Panic]: the process is aborted. *)
Definition udp_step (timeout : option Duration) (st : UdpState) (e : UdpEvent) : outcome () UdpState :=
  match e with
  | Arrive k d =>
      Ok (mkState (queue st ++ [(k, d)]) (peers st) (keys_to_delete st) (streams st)
              (next_id st) (phase st))
  | Clean =>
      match phase st with
      | Cleaning => Ok (mkState (queue st) (clean_peers (keys_to_delete st) (peers st)) []
                            (streams st) (next_id st) Peeking)
      | _ => Err ()
      end
  | Peek socket_ok now =>
      match phase st, queue st with
      | Peeking, (k, _) :: _ =>
          match peers st !! k with
          | Some id =>
              match streams st !! id with
              | Some s => Ok (set_phase (WaitRead id) (set_stream id (set_notified s) st))
              | None => Err ()
              end
          | None =>
              if socket_ok
              then deadline ← watchdog_new now timeout;
                   Ok (mkState (queue st) (<[k := next_id st]> (peers st)) (keys_to_delete st)
                         (<[next_id st := udp_stream_new k deadline]> (streams st))
                         (S (next_id st)) (WaitRead (next_id st)))
              else Ok (set_phase Closed st)
          end
      | _, _ => Err ()
      end
  | PeekError =>
      match phase st with Peeking => Ok (set_phase Closed st) | _ => Err () end
  | Wake =>
      match phase st with
      | WaitRead id =>
          match streams st !! id with
          | Some s => if us_has_read s
                      then Ok (set_phase Cleaning (set_stream id (set_has_read false s) st))
                      else Err ()
          | None => Err ()
          end
      | _ => Err ()
      end
  | Poll id ticks recv_err =>
      match streams st !! id with
      | Some s =>
          if us_alive s
          then let '(s, q, _) := udp_poll_read s ticks recv_err (queue st) in
               Ok (mkState q (peers st) (keys_to_delete st) (<[id := s]> (streams st))
                       (next_id st) (phase st))
          else Err ()
      | None => Err ()
      end
  | Drop id =>
      match streams st !! id with
      | Some s =>
          if us_alive s
          then Ok (mkState (queue st) (peers st)
                       (match phase st with
                        | Closed => keys_to_delete st
                        | _ => keys_to_delete st ++ [us_peer s]
                        end)
                       (<[id := udp_stream_drop s]> (streams st)) (next_id st) (phase st))
          else Err ()
      | None => Err ()
      end
  end.

Fixpoint udp_run (timeout : option Duration) (st : UdpState) (es : list UdpEvent) : outcome () UdpState :=
  match es with
  | [] => Ok st
  | e :: es => st ← udp_step timeout st e; udp_run timeout st es
  end.

(** ** The invariant *)

Definition open_phase (p : UdpPhase) : Prop := p ≠ Closed.

Record inv (st : UdpState) : Prop := {
  (** The table points to streams of their key. *)
  i_peers k id : peers st !! k = Some id →
    ∃ s, streams st !! id = Some s ∧ us_peer s = k;
  (** A live stream stays in the table, and nothing is going to remove it. *)
  i_live id s : open_phase (phase st) → streams st !! id = Some s → us_alive s = true →
    peers st !! us_peer s = Some id ∧ us_peer s ∉ keys_to_delete st;
  (** A dead stream in the table is about to be removed and does not hold the server up. *)
  i_dead k id s : open_phase (phase st) → peers st !! k = Some id → streams st !! id = Some s →
    us_alive s = false →
    k ∈ keys_to_delete st ∧ (us_has_read s = true ∨ phase st = Cleaning);
  i_keys k : open_phase (phase st) → k ∈ keys_to_delete st → is_Some (peers st !! k);
  (** Only the stream the server waits for may read, and the next datagram is its own. *)
  i_notified id s : streams st !! id = Some s → us_alive s = true → us_notified s = true →
    phase st = WaitRead id ∧ ∃ d q, queue st = (us_peer s, d) :: q;
  i_has_read id s : streams st !! id = Some s → us_alive s = true → us_has_read s = true →
    phase st = WaitRead id ∧ us_notified s = false;
  (** The server waits only for a stream that has read, is gone, or can read. *)
  i_wait id : phase st = WaitRead id →
    ∃ s, streams st !! id = Some s ∧ peers st !! us_peer s = Some id
      ∧ (us_has_read s = true ∨ us_alive s = true ∧ us_notified s = true);
  i_fresh id s : streams st !! id = Some s → (id < next_id st)%nat;
  i_own id s : streams st !! id = Some s → Forall (λ kd, fst kd = us_peer s) (us_got s);
}.

Lemma inv_initial : inv udp_initial.
Proof. split; cbn; try done; intros; set_solver. Qed.

Lemma inv_arrive st k d :
  inv st → inv (mkState (queue st ++ [(k, d)]) (peers st) (keys_to_delete st) (streams st)
                  (next_id st) (phase st)).
Proof.
  intros [? ? ? ? Hn ? ? ? ?]. split; cbn; eauto.
  intros id s Hs Ha Hnot. destruct (Hn id s Hs Ha Hnot) as (?&d'&q&->). eauto.
Qed.

Lemma inv_clean st :
  inv st → phase st = Cleaning →
  inv (mkState (queue st) (clean_peers (keys_to_delete st) (peers st)) [] (streams st)
         (next_id st) Peeking).
Proof.
  intros [Hp Hl Hd Hk Hn Hr Hw Hf Ho] Hph. rewrite Hph in *. split; cbn.
  - intros k id. rewrite clean_peers_lookup. case_decide; [done|]. eauto.
  - intros id s _ Hs Ha. destruct (Hl id s ltac:(done) Hs Ha) as [? ?].
    rewrite clean_peers_lookup, decide_False by done. set_solver.
  - intros k id s _. rewrite clean_peers_lookup. case_decide as Hin; [done|].
    intros Hk' Hs Ha. by destruct (Hd k id s ltac:(done) Hk' Hs Ha).
  - set_solver.
  - intros id s Hs Ha Hnot. by destruct (Hn id s Hs Ha Hnot).
  - intros id s Hs Ha Hh. by destruct (Hr id s Hs Ha Hh).
  - done.
  - eauto.
  - eauto.
Qed.

(** Closing the server keeps what does not depend on its table. *)
Lemma inv_close st : inv st → phase st = Peeking → inv (set_phase Closed st).
Proof.
  intros [Hp Hl Hd Hk Hn Hr Hw Hf Ho] Hph. rewrite Hph in *. split; cbn; eauto; try done.
  - intros id s Hs Ha Hnot. by destruct (Hn id s Hs Ha Hnot).
  - intros id s Hs Ha Hh. by destruct (Hr id s Hs Ha Hh).
Qed.

Lemma inv_new st timeout k d q :
  inv st → phase st = Peeking → queue st = (k, d) :: q → peers st !! k = None →
  inv (mkState (queue st) (<[k := next_id st]> (peers st)) (keys_to_delete st)
         (<[next_id st := udp_stream_new k timeout]> (streams st)) (S (next_id st))
         (WaitRead (next_id st))).
Proof.
  intros [Hp Hl Hd Hk Hn Hr Hw Hf Ho] Hph Hq Hnew. rewrite Hph in *.
  assert (∀ id s, streams st !! id = Some s → next_id st ≠ id) as Hfresh
    by (intros id s Hs%Hf; lia).
  assert (k ∉ keys_to_delete st) as Hkeys.
  { intros [? Hin]%Hk; [|done]. congruence. }
  split; cbn.
  - intros k' id. destruct (decide (k' = k)) as [->|Hne].
    + rewrite lookup_insert_eq. intros [= <-]. rewrite lookup_insert_eq. eauto.
    + rewrite lookup_insert_ne by done. intros Hk'. destruct (Hp k' id Hk') as (s&Hs&?).
      rewrite lookup_insert_ne by eauto. eauto.
  - intros id s _ Hs Ha. apply lookup_insert_Some in Hs as [[<- <-]|[Hne Hs]]; cbn.
    + by rewrite lookup_insert_eq.
    + destruct (Hl id s ltac:(done) Hs Ha) as [Hin ?].
      rewrite lookup_insert_ne by congruence. done.
  - intros k' id s _. destruct (decide (k' = k)) as [->|Hne].
    + rewrite lookup_insert_eq. intros [= <-]. rewrite lookup_insert_eq. by intros [= <-].
    + rewrite lookup_insert_ne by done. intros Hk' Hs Ha.
      apply lookup_insert_Some in Hs as [[<- <-]|[_ Hs]]; [done|].
      destruct (Hd k' id s ltac:(done) Hk' Hs Ha) as [? [?|?]]; [by split; [|left]|done].
  - intros k' _ Hin. rewrite lookup_insert_ne by set_solver. by apply Hk.
  - intros id s Hs Ha Hnot. apply lookup_insert_Some in Hs as [[<- <-]|[Hne Hs]]; cbn; [eauto|].
    by destruct (Hn id s Hs Ha Hnot).
  - intros id s Hs Ha Hh. apply lookup_insert_Some in Hs as [[<- <-]|[Hne Hs]]; [done|].
    by destruct (Hr id s Hs Ha Hh).
  - intros id [= <-]. exists (udp_stream_new k timeout). rewrite !lookup_insert_eq. by eauto.
  - intros id s Hs. apply lookup_insert_Some in Hs as [[<- <-]|[Hne Hs]]; [lia|].
    apply Hf in Hs. lia.
  - intros id s Hs. apply lookup_insert_Some in Hs as [[<- <-]|[Hne Hs]]; [constructor|eauto].
Qed.

(** Replacing a stream by one of the same peer. *)
Lemma peers_insert st id s s' :
  inv st → streams st !! id = Some s → us_peer s' = us_peer s →
  (∀ k' id', peers st !! k' = Some id' →
     ∃ x, <[id := s']> (streams st) !! id' = Some x ∧ us_peer x = k')
  ∧ (∀ id' x, <[id := s']> (streams st) !! id' = Some x → (id' < next_id st)%nat).
Proof.
  intros Hinv Hs Hpeer. split.
  - intros k' id' Hin. destruct (i_peers _ Hinv k' id' Hin) as (x&Hx&?).
    destruct (decide (id' = id)) as [->|]; simplify_eq.
    + rewrite lookup_insert_eq. eauto.
    + rewrite lookup_insert_ne by done. eauto.
  - intros id' x Hx. apply (i_fresh _ Hinv) with (s := default s (streams st !! id')).
    destruct (decide (id' = id)) as [->|]; [by rewrite Hs|].
    rewrite lookup_insert_ne in Hx by done. by rewrite Hx.
Qed.

Lemma inv_notify st k d q id s :
  inv st → phase st = Peeking → queue st = (k, d) :: q → peers st !! k = Some id →
  streams st !! id = Some s →
  inv (set_phase (WaitRead id) (set_stream id (set_notified s) st)).
Proof.
  intros Hinv Hph Hq Hk' Hs. destruct (peers_insert st id s (set_notified s) Hinv Hs) as [Hp' Hf']; [done|].
  destruct Hinv as [Hp Hl Hd Hk Hn Hr Hw Hf Ho]. rewrite Hph in *.
  destruct (Hp k id Hk') as (s'&Hs'&Hpeer). simplify_eq.
  split; cbn.
  - exact Hp'.
  - intros id' s' _ Hs'' Ha. apply lookup_insert_Some in Hs'' as [[<- <-]|[_ Hs'']]; cbn in *;
      by apply Hl.
  - intros k' id' s' _ Hin Hs'' Ha. apply lookup_insert_Some in Hs'' as [[<- <-]|[_ Hs'']]; cbn in *.
    + destruct (Hd k' id s ltac:(done) Hin Hs Ha) as [? [?|?]]; [by split; [|left]|done].
    + destruct (Hd k' id' s' ltac:(done) Hin Hs'' Ha) as [? [?|?]]; [by split; [|left]|done].
  - intros k' _ Hin. by apply Hk.
  - intros id' s' Hs'' Ha Hnot. apply lookup_insert_Some in Hs'' as [[<- <-]|[_ Hs'']]; cbn; [eauto|].
    by destruct (Hn id' s' Hs'' Ha Hnot).
  - intros id' s' Hs'' Ha Hh. apply lookup_insert_Some in Hs'' as [[<- <-]|[_ Hs'']]; cbn in *.
    + by destruct (Hr id s Hs Ha Hh).
    + by destruct (Hr id' s' Hs'' Ha Hh).
  - intros id' [= <-]. exists (set_notified s). rewrite lookup_insert_eq. cbn. split; [done|].
    split; [done|]. destruct (us_alive s) eqn:Ha; [by right|left].
    by destruct (Hd _ id s ltac:(done) Hk' Hs Ha) as [_ [?|?]].
  - exact Hf'.
  - intros id' s' Hs''. apply lookup_insert_Some in Hs'' as [[<- <-]|[_ Hs'']]; [|eauto].
    exact (Ho id s Hs).
Qed.

Lemma inv_wake st id s :
  inv st → phase st = WaitRead id → streams st !! id = Some s → us_has_read s = true →
  inv (set_phase Cleaning (set_stream id (set_has_read false s) st)).
Proof.
  intros Hinv Hph Hs Hh.
  destruct (peers_insert st id s (set_has_read false s) Hinv Hs) as [Hp' Hf']; [done|].
  destruct Hinv as [Hp Hl Hd Hk Hn Hr Hw Hf Ho]. rewrite Hph in *.
  assert (∀ id' s', streams st !! id' = Some s' → us_alive s' = true → us_notified s' = false) as Hoff.
  { intros id' s' Hs' Ha. destruct (us_notified s') eqn:Hnot; [|done].
    destruct (Hn id' s' Hs' Ha Hnot) as [[= <-] _]. simplify_eq.
    destruct (Hr id s Hs Ha Hh) as [_ ?]. congruence. }
  split; cbn.
  - exact Hp'.
  - intros id' s' _ Hs' Ha. apply lookup_insert_Some in Hs' as [[<- <-]|[_ Hs']]; cbn in *;
      by apply Hl.
  - intros k' id' s' _ Hin Hs' Ha. split; [|by right].
    apply lookup_insert_Some in Hs' as [[<- <-]|[_ Hs']]; cbn in *;
      by eapply (Hd k'); eauto.
  - intros k' _ Hin. by apply Hk.
  - intros id' s' Hs' Ha Hnot. exfalso. apply lookup_insert_Some in Hs' as [[<- <-]|[_ Hs']]; cbn in *.
    + by rewrite (Hoff id s Hs Ha) in Hnot.
    + by rewrite (Hoff id' s' Hs' Ha) in Hnot.
  - intros id' s' Hs' Ha Hh'. apply lookup_insert_Some in Hs' as [[<- <-]|[Hne Hs']]; [done|].
    destruct (Hr id' s' Hs' Ha Hh') as [[= ->] _]. done.
  - done.
  - exact Hf'.
  - intros id' s' Hs'. apply lookup_insert_Some in Hs' as [[<- <-]|[_ Hs']]; [|eauto].
    exact (Ho id s Hs).
Qed.

(** The two ways a poll changes things: the flag of the watchdog, or a datagram read. *)
Lemma udp_poll_read_cases s ticks err q s' q' r :
  udp_poll_read s ticks err q = (s', q', r) →
  (q' = q ∧ ∃ flag, s' = mkStream (us_peer s) (us_alive s) (us_deadline s) flag (us_notified s)
                           (us_has_read s) (us_got s))
  ∨ (us_notified s = true ∧ ∃ k d, q = (k, d) :: q'
     ∧ s' = mkStream (us_peer s) (us_alive s) (us_deadline s) true false true (us_got s ++ [(k, d)])).
Proof.
  unfold udp_poll_read. destruct (watchdog _ _ _) as [[] flag].
  - intros [= <- <- _]. left. split; [done|]. exists (us_data_read s). by destruct s.
  - cbn. destruct (us_notified s) eqn:Hn; cbn.
    + destruct err; [intros [= <- <- _]; left; split; [done|]; by exists flag|].
      destruct q as [|[k d] q].
      * intros [= <- <- _]. left. split; [done|]. by exists flag.
      * intros [= <- <- _]. right. split; [done|]. by exists k, d.
    + intros [= <- <- _]. left. split; [done|]. by exists flag.
Qed.

(** Replacing a stream by one that differs only in its watchdog. *)
Lemma inv_flag st id s flag :
  inv st → streams st !! id = Some s →
  inv (set_stream id (mkStream (us_peer s) (us_alive s) (us_deadline s) flag (us_notified s)
                        (us_has_read s) (us_got s)) st).
Proof.
  intros Hinv Hs.
  destruct (peers_insert st id s (mkStream (us_peer s) (us_alive s) (us_deadline s) flag
              (us_notified s) (us_has_read s) (us_got s)) Hinv Hs) as [Hp' Hf']; [done|].
  destruct Hinv as [Hp Hl Hd Hk Hn Hr Hw Hf Ho]. split; cbn; try done.
  - intros id' s' ? Hs' Ha. apply lookup_insert_Some in Hs' as [[<- <-]|[_ Hs']]; cbn in *; by apply Hl.
  - intros k' id' s' ? Hin Hs' Ha. apply lookup_insert_Some in Hs' as [[<- <-]|[_ Hs']]; cbn in *;
      by eapply Hd.
  - intros id' s' Hs' Ha Hnot. apply lookup_insert_Some in Hs' as [[<- <-]|[_ Hs']]; cbn in *; by apply Hn.
  - intros id' s' Hs' Ha Hh. apply lookup_insert_Some in Hs' as [[<- <-]|[_ Hs']]; cbn in *; by apply Hr.
  - intros id' Hph. destruct (Hw id' Hph) as (s'&Hs'&Hin&Hor).
    destruct (decide (id' = id)) as [->|]; simplify_eq.
    + rewrite lookup_insert_eq. by eauto.
    + rewrite lookup_insert_ne by done. eauto.
  - intros id' s' Hs'. apply lookup_insert_Some in Hs' as [[<- <-]|[_ Hs']]; [|eauto].
    exact (Ho id s Hs).
Qed.

Lemma inv_read st id s k d q :
  inv st → streams st !! id = Some s → us_alive s = true → us_notified s = true →
  queue st = (k, d) :: q →
  inv (mkState q (peers st) (keys_to_delete st)
         (<[id := mkStream (us_peer s) (us_alive s) (us_deadline s) true false true
                    (us_got s ++ [(k, d)])]> (streams st)) (next_id st) (phase st)).
Proof.
  intros Hinv Hs Halive Hnot Hq.
  destruct (peers_insert st id s (mkStream (us_peer s) (us_alive s) (us_deadline s) true false true
              (us_got s ++ [(k, d)])) Hinv Hs) as [Hp' Hf']; [done|].
  destruct Hinv as [Hp Hl Hd Hk Hn Hr Hw Hf Ho].
  destruct (Hn id s Hs Halive Hnot) as (Hph&d'&q'&Hq'). rewrite Hq in Hq'. simplify_eq.
  split; cbn; try done.
  - intros id' s' ? Hs' Ha. apply lookup_insert_Some in Hs' as [[<- <-]|[_ Hs']]; cbn in *; by apply Hl.
  - intros k' id' s' ? Hin Hs' Ha. apply lookup_insert_Some in Hs' as [[<- <-]|[_ Hs']]; cbn in *;
      [congruence|by eapply Hd].
  - intros id' s' Hs' Ha Hnot'. apply lookup_insert_Some in Hs' as [[<- <-]|[Hne Hs']]; [done|].
    destruct (Hn id' s' Hs' Ha Hnot') as [Hph' _]. congruence.
  - intros id' s' Hs' Ha Hh. apply lookup_insert_Some in Hs' as [[<- <-]|[Hne Hs']]; [done|].
    by apply Hr.
  - intros id' Hph'. rewrite Hph in Hph'. injection Hph' as <-.
    destruct (Hw id Hph) as (s'&Hs'&Hin&_). simplify_eq. rewrite lookup_insert_eq. eauto.
  - intros id' s' Hs'. apply lookup_insert_Some in Hs' as [[<- <-]|[_ Hs']]; [|eauto]. cbn.
    apply Forall_app. split; [exact (Ho id s Hs)|by constructor].
Qed.

Lemma inv_drop st id s :
  inv st → streams st !! id = Some s → us_alive s = true →
  inv (mkState (queue st) (peers st)
         (match phase st with Closed => keys_to_delete st | _ => keys_to_delete st ++ [us_peer s] end)
         (<[id := udp_stream_drop s]> (streams st)) (next_id st) (phase st)).
Proof.
  intros Hinv Hs Halive.
  destruct (peers_insert st id s (udp_stream_drop s) Hinv Hs) as [Hp' Hf']; [done|].
  destruct Hinv as [Hp Hl Hd Hk Hn Hr Hw Hf Ho].
  assert (∀ x, open_phase (phase st) →
    x ∈ match phase st with Closed => keys_to_delete st | _ => keys_to_delete st ++ [us_peer s] end
    ↔ x ∈ keys_to_delete st ∨ x = us_peer s) as Hkeys.
  { intros x. unfold open_phase. destruct (phase st); set_solver. }
  split; cbn; try done.
  - intros id' s' Ho' Hs' Ha. apply lookup_insert_Some in Hs' as [[<- <-]|[Hne Hs']]; [done|].
    destruct (Hl id' s' Ho' Hs' Ha) as [Hin Hnin]. destruct (Hl id s Ho' Hs Halive) as [Hin' _].
    split; [done|]. rewrite Hkeys by done. intros [?|Heq]; [done|]. congruence.
  - intros k' id' s' Ho' Hin Hs' Ha. rewrite Hkeys by done.
    apply lookup_insert_Some in Hs' as [[<- <-]|[_ Hs']]; cbn in *.
    + destruct (Hp k' id Hin) as (x&Hx&?). simplify_eq. by split; [right|left].
    + destruct (Hd k' id' s' Ho' Hin Hs' Ha). by split; [left|].
  - intros k' Ho' Hin. apply (Hkeys k' Ho') in Hin as [?| ->]; [by apply Hk|].
    by destruct (Hl id s Ho' Hs Halive) as [-> _].
  - intros id' s' Hs' Ha Hnot. apply lookup_insert_Some in Hs' as [[<- <-]|[_ Hs']]; [done|]. by apply Hn.
  - intros id' s' Hs' Ha Hh. apply lookup_insert_Some in Hs' as [[<- <-]|[_ Hs']]; [done|]. by apply Hr.
  - intros id' Hph. destruct (Hw id' Hph) as (s'&Hs'&Hin&Hor).
    destruct (decide (id' = id)) as [->|]; simplify_eq.
    + rewrite lookup_insert_eq. by eauto.
    + rewrite lookup_insert_ne by done. eauto.
  - intros id' s' Hs'. apply lookup_insert_Some in Hs' as [[<- <-]|[_ Hs']]; [|eauto].
    exact (Ho id s Hs).
Qed.

Lemma inv_step timeout st e st' : inv st → udp_step timeout st e = Ok st' → inv st'.
Proof.
  intros Hinv. destruct e as [k d| |sok now| | |id ticks|id]; cbn [udp_step].
  - intros [= <-]. by apply inv_arrive.
  - destruct (phase st) eqn:Hph; try done. intros [= <-]. by apply inv_clean.
  - destruct (phase st) eqn:Hph; try done. destruct (queue st) as [|[k d] q] eqn:Hq; [done|].
    destruct (peers st !! k) as [id|] eqn:Hk.
    + destruct (streams st !! id) as [s|] eqn:Hs; [|done]. intros [= <-]. by eapply inv_notify.
    + destruct sok; [|intros [= <-]; by apply inv_close].
      intros (deadline&_&[= <-])%bind_ok_inv. rewrite <-Hq. by eapply inv_new.
  - destruct (phase st) eqn:Hph; try done. intros [= <-]. by apply inv_close.
  - destruct (phase st) as [| |id|] eqn:Hph; try done.
    destruct (streams st !! id) as [s|] eqn:Hs; [|done].
    destruct (us_has_read s) eqn:Hh; [|done]. intros [= <-]. by apply inv_wake.
  - destruct (streams st !! id) as [s|] eqn:Hs; [|done].
    destruct (us_alive s) eqn:Ha; [|done].
    destruct (udp_poll_read s ticks recv_err (queue st)) as [[s' q'] r] eqn:Hp. intros [= <-].
    apply udp_poll_read_cases in Hp as [[-> [flag ->]]|(Hn&k&d&Hq&->)].
    + exact (inv_flag st id s flag Hinv Hs).
    + by apply inv_read.
  - destruct (streams st !! id) as [s|] eqn:Hs; [|done].
    destruct (us_alive s) eqn:Ha; [|done]. intros [= <-]. by apply inv_drop.
Qed.

Lemma inv_run timeout es st st' : inv st → udp_run timeout st es = Ok st' → inv st'.
Proof.
  revert st. induction es as [|e es IH]; intros st Hinv; cbn [udp_run].
  - by intros [= <-].
  - destruct (udp_step timeout st e) as [st1|?|] eqn:He; [|done..]. cbn [mbind outcome_bind].
    apply IH. by eapply inv_step.
Qed.

(** ** Theorems *)

(** C21: However polls, drops and arrivals interleave, a stream only ever reads datagrams of its
    own peer, although all streams read from the same socket. *)
Theorem streams_read_own_datagrams timeout es st id s :
  udp_run timeout udp_initial es = Ok st → streams st !! id = Some s →
  Forall (λ kd, fst kd = us_peer s) (us_got s).
Proof. intros Hrun Hs. by eapply i_own; [eapply inv_run; [apply inv_initial|exact Hrun]|]. Qed.

(** C22: The server never waits for a stream that cannot answer: while it waits, either it can
    go on at once, or the stream is alive, the next datagram is its own, and reading it
    (which a poll without timeout does) lets the server go on. *)
Theorem server_never_stuck timeout es st id :
  udp_run timeout udp_initial es = Ok st → phase st = WaitRead id →
  (∃ st', udp_step timeout st Wake = Ok st')
  ∨ (∃ s d q st1 st2, streams st !! id = Some s ∧ us_alive s = true
       ∧ queue st = (us_peer s, d) :: q
       ∧ udp_step timeout st (Poll id 0 false) = Ok st1 ∧ queue st1 = q
       ∧ udp_step timeout st1 Wake = Ok st2 ∧ phase st2 = Cleaning).
Proof.
  intros Hrun Hph. pose proof (inv_run timeout es udp_initial st inv_initial Hrun) as Hinv.
  destruct (i_wait _ Hinv id Hph) as (s&Hs&_&[Hh|[Ha Hn]]).
  - left. cbn [udp_step]. rewrite Hph, Hs, Hh. eauto.
  - right. destruct (i_notified _ Hinv id s Hs Ha Hn) as (_&d&q&Hq).
    exists s, d, q. cbn [udp_step]. rewrite Hs, Ha, Hq. unfold udp_poll_read.
    destruct (us_deadline s); cbn [watchdog]; cbn; rewrite Hn; cbn;
      (do 2 eexists; split_and!; [done|done|done|done|done| |]; cbn;
       [rewrite Hph, lookup_insert_eq; done|done]).
Qed.

(** The table and the live streams agree: one live stream per peer, and a live stream is
    never evicted by the removal of a dead one with the same address. *)
Theorem live_streams_are_registered timeout es st id s :
  udp_run timeout udp_initial es = Ok st → phase st ≠ Closed →
  streams st !! id = Some s → us_alive s = true →
  peers st !! us_peer s = Some id
  ∧ ∀ st', udp_step timeout st Clean = Ok st' → peers st' !! us_peer s = Some id.
Proof.
  intros Hrun Hph Hs Ha. pose proof (inv_run timeout es udp_initial st inv_initial Hrun) as Hinv.
  destruct (i_live _ Hinv id s Hph Hs Ha) as [Hin Hnin]. split; [done|].
  intros st'. cbn [udp_step]. destruct (phase st); try done. intros [= <-]. cbn.
  by rewrite clean_peers_lookup, decide_False.
Qed.

(** With a timeout of zero no stream can be made. *)
Lemma zero_timeout_no_peers es st :
  udp_run (Some 0) udp_initial es = Ok st → peers st = ∅ ∧ streams st = ∅.
Proof.
  assert (peers udp_initial = ∅ ∧ streams udp_initial = ∅) as Hinit by done.
  revert Hinit. generalize udp_initial. induction es as [|e es IH]; intros st0 [Hp Hs]; cbn [udp_run].
  { intros [= <-]. done. }
  intros (st1&Hstep&Hrun)%bind_ok_inv. apply (IH st1); [|done].
  destruct e as [k d| |sok now| | |id ticks err|id]; cbn [udp_step] in Hstep; rewrite ?Hp, ?Hs in Hstep;
    try (rewrite lookup_empty in Hstep; done).
  - by injection Hstep as <-.
  - destruct (phase st0); try done. injection Hstep as <-. cbn. split; [|done].
    apply map_empty. intros k. by rewrite clean_peers_lookup, lookup_empty; case_decide.
  - destruct (phase st0); try done. destruct (queue st0) as [|[k d] q]; [done|].
    rewrite lookup_empty in Hstep. destruct sok; [|by injection Hstep as <-].
    apply bind_ok_inv in Hstep as (?&Hw&_). unfold watchdog_new in Hw. by rewrite orb_true_r in Hw.
  - destruct (phase st0); try done. by injection Hstep as <-.
  - destruct (phase st0); try done.
Qed.

(** So the first datagram aborts the process. *)
Lemma zero_timeout_aborts es st k d q now :
  udp_run (Some 0) udp_initial es = Ok st → phase st = Peeking → queue st = (k, d) :: q →
  udp_step (Some 0) st (Peek true now) = Panic.
Proof.
  intros [Hp _]%zero_timeout_no_peers Hph Hq. cbn [udp_step].
  rewrite Hph, Hq, Hp, lookup_empty. unfold watchdog_new. by rewrite orb_true_r.
Qed.
End UdpServer.
End UdpServer.

(** ** The socks5 UDP server ([protocols/socks5/udp_server.rs])

    Here the server reads the datagrams and sends each over a bounded channel to the stream
    of its association, the pair of the client and the destination it asks for. *)

Module Socks5Udp.
Section Socks5Udp.
Context {K D : Type} `{Countable K}.
(** The length of a datagram. *)
Context (size : D → nat).

Definition SOCKS5_CHANNEL_BOUND : nat := 1024.

(** [Socks5UdpStream]: its channel, and what was put in and taken from it so far.
    [su_open] is false once the receiver is dropped. *)
Record Socks5UdpStream := mkStream {
  su_key : K;
  su_alive : bool;
  su_open : bool;
  su_deadline : bool;
  su_data_read : bool;
  su_queue : list D;
  su_sent : list D;
  su_taken : list D
}.

Inductive PollResult := RTimedOut | RPending | RTooLong | RRead (d : D).

(** [poll_read] into a buffer with [room] bytes left; the stream owns a sender, so the
    channel is never closed under it. *)
Definition s5_poll_read (s : Socks5UdpStream) (ticks room : nat) : Socks5UdpStream * PollResult :=
  let '(timed_out, flag) := watchdog (su_deadline s) ticks (su_data_read s) in
  if timed_out then (s, RTimedOut)
  else match su_queue s with
       | [] => (mkStream (su_key s) (su_alive s) (su_open s) (su_deadline s) flag [] (su_sent s)
                  (su_taken s), RPending)
       | d :: q =>
           let too_long := Nat.ltb room (size d) in
           (mkStream (su_key s) (su_alive s) (su_open s) (su_deadline s)
              (if too_long then flag else true) q (su_sent s) (su_taken s ++ [d]),
            if too_long then RTooLong else RRead d)
       end.

(** Where the server is: in [sender.send(data).await] it may have to wait for room. *)
Inductive S5Phase := Cleaning | Receiving | Sending (k : K) (id : nat) (d : D) | Closed.

Record S5State := mkState {
  peers : gmap K nat;
  keys_to_delete : list K;
  streams : gmap nat Socks5UdpStream;
  next_id : nat;
  phase : S5Phase
}.

Definition s5_initial : S5State := mkState ∅ [] ∅ 0 Cleaning.

Inductive S5Event :=
| Clean                                      (** [clean_dead_keys] *)
| Recv (now : Duration) (request : option (Z * K * D))   (** a datagram, what [parse_udp_request] says *)
| RecvError                                  (** the socket fails: the server ends *)
| Send                                       (** [sender.send(data)] completes *)
| Poll (id : nat) (ticks room : nat)         (** the owner polls a stream *)
| DropKey (id : nat)                         (** [drop] of a stream: its key is noted *)
| DropReceiver (id : nat).                   (** then its fields are dropped *)

(** [Socks5UdpStream::new]: an empty channel and a fresh watchdog. *)
Definition s5_stream_new (k : K) (deadline : bool) : Socks5UdpStream :=
  mkStream k true true deadline false [] [] [].

Definition s5_push (d : D) (s : Socks5UdpStream) : Socks5UdpStream :=
  mkStream (su_key s) (su_alive s) (su_open s) (su_deadline s) (su_data_read s)
    (su_queue s ++ [d]) (su_sent s ++ [d]) (su_taken s).
Definition s5_drop_key (s : Socks5UdpStream) : Socks5UdpStream :=
  mkStream (su_key s) false (su_open s) (su_deadline s) (su_data_read s) (su_queue s) (su_sent s)
    (su_taken s).
Definition s5_drop_receiver (s : Socks5UdpStream) : Socks5UdpStream :=
  mkStream (su_key s) false false (su_deadline s) (su_data_read s) [] (su_sent s) (su_taken s).

Definition set_phase (p : S5Phase) (st : S5State) : S5State :=
  mkState (peers st) (keys_to_delete st) (streams st) (next_id st) p.

Definition s5_step (timeout : option Duration) (st : S5State) (e : S5Event) : outcome () S5State :=
  match e with
  | Clean =>
      match phase st with
      | Cleaning => Ok (mkState (clean_peers (keys_to_delete st) (peers st)) [] (streams st)
                            (next_id st) Receiving)
      | _ => Err ()
      end
  | Recv now request =>
      match phase st with
      | Receiving =>
          match request with
          | None => Ok (set_phase Cleaning st)
          | Some (frag, k, d) =>
              if negb (frag =? 0) then Ok (set_phase Cleaning st)
              else match peers st !! k with
                   | Some id => Ok (set_phase (Sending k id d) st)
                   | None =>
                       deadline ← watchdog_new now timeout;
                       Ok (mkState (<[k := next_id st]> (peers st)) (keys_to_delete st)
                             (<[next_id st := s5_push d (s5_stream_new k deadline)]> (streams st))
                             (S (next_id st)) Cleaning)
                   end
          end
      | _ => Err ()
      end
  | RecvError => match phase st with Receiving => Ok (set_phase Closed st) | _ => Err () end
  | Send =>
      match phase st with
      | Sending k id d =>
          match streams st !! id with
          | Some s =>
              if su_open s
              then if Nat.ltb (length (su_queue s)) SOCKS5_CHANNEL_BOUND
                   then Ok (mkState (peers st) (keys_to_delete st) (<[id := s5_push d s]> (streams st))
                                (next_id st) Cleaning)
                   else Err ()
              else Ok (mkState (delete k (peers st)) (keys_to_delete st) (streams st)
                           (next_id st) Cleaning)
          | None => Err ()
          end
      | _ => Err ()
      end
  | Poll id ticks room =>
      match streams st !! id with
      | Some s => if su_alive s
                  then Ok (mkState (peers st) (keys_to_delete st)
                               (<[id := fst (s5_poll_read s ticks room)]> (streams st)) (next_id st)
                               (phase st))
                  else Err ()
      | None => Err ()
      end
  | DropKey id =>
      match streams st !! id with
      | Some s => if su_alive s
                  then Ok (mkState (peers st)
                               (match phase st with
                                | Closed => keys_to_delete st
                                | _ => keys_to_delete st ++ [su_key s]
                                end)
                               (<[id := s5_drop_key s]> (streams st)) (next_id st) (phase st))
                  else Err ()
      | None => Err ()
      end
  | DropReceiver id =>
      match streams st !! id with
      | Some s => if su_alive s then Err ()
                  else Ok (mkState (peers st) (keys_to_delete st)
                               (<[id := s5_drop_receiver s]> (streams st)) (next_id st) (phase st))
      | None => Err ()
      end
  end.

Fixpoint s5_run (timeout : option Duration) (st : S5State) (es : list S5Event) : outcome () S5State :=
  match es with
  | [] => Ok st
  | e :: es => st ← s5_step timeout st e; s5_run timeout st es
  end.

(** ** The invariant *)

(** The datagrams of an association, in order of arrival. *)
Definition datagrams (k : K) (l : list (K * D)) : list D :=
  snd <$> filter (λ kd, fst kd = k) l.

Lemma datagrams_snoc k l k' d :
  datagrams k (l ++ [(k', d)]) = datagrams k l ++ (if decide (k' = k) then [d] else []).
Proof.
  unfold datagrams. rewrite filter_app, fmap_app. f_equal. cbn [filter list_filter].
  case_decide; [by rewrite decide_True|by rewrite decide_False].
Qed.

(** What holds of a stream by itself. *)
Definition stream_ok (s : Socks5UdpStream) : Prop :=
  (su_alive s = true → su_open s = true)
  ∧ (su_open s = true → su_sent s = su_taken s ++ su_queue s)
  ∧ (length (su_queue s) ≤ SOCKS5_CHANNEL_BOUND)%nat.

Record inv (st : S5State) : Prop := {
  j_peers k id : peers st !! k = Some id → ∃ s, streams st !! id = Some s ∧ su_key s = k;
  j_live id s : phase st ≠ Closed → streams st !! id = Some s → su_alive s = true →
    peers st !! su_key s = Some id ∧ (su_key s ∉ keys_to_delete st);
  j_keys k : phase st ≠ Closed → k ∈ keys_to_delete st →
    is_Some (peers st !! k) ∨ phase st = Cleaning;
  j_sending k id d : phase st = Sending k id d → peers st !! k = Some id;
  j_fresh id s : streams st !! id = Some s → (id < next_id st)%nat;
  j_ok id s : streams st !! id = Some s → stream_ok s;
}.

Lemma s5_inv_initial : inv s5_initial.
Proof. split; cbn; try done; intros; set_solver. Qed.

(** Updating one stream without moving it between associations. *)
Lemma s5_inv_stream st id s s' :
  inv st → streams st !! id = Some s → su_key s' = su_key s → (su_alive s' = true → su_alive s = true) → stream_ok s' →
  inv (mkState (peers st) (keys_to_delete st) (<[id := s']> (streams st)) (next_id st) (phase st)).
Proof.
  intros [Hp Hl Hk Hse Hf Hok] Hs Hkey Halive Hok'. split; cbn; try done.
  - intros k id' Hin. destruct (Hp k id' Hin) as (x&Hx&?).
    destruct (decide (id' = id)) as [->|]; simplify_eq.
    + rewrite lookup_insert_eq. eauto.
    + rewrite lookup_insert_ne by done. eauto.
  - intros id' x Hph Hx Ha. apply lookup_insert_Some in Hx as [[<- <-]|[_ Hx]]; [|by apply Hl].
    rewrite Hkey. by apply Hl; [..|apply Halive].
  - intros id' x Hx. apply lookup_insert_Some in Hx as [[<- <-]|[_ Hx]]; eauto.
  - intros id' x Hx. apply lookup_insert_Some in Hx as [[<- <-]|[_ Hx]]; eauto.
Qed.

(** Noting the key of a dying stream. *)
Lemma s5_inv_drop_key st id s :
  inv st → streams st !! id = Some s → su_alive s = true →
  inv (mkState (peers st)
         (match phase st with Closed => keys_to_delete st | _ => keys_to_delete st ++ [su_key s] end)
         (<[id := s5_drop_key s]> (streams st)) (next_id st) (phase st)).
Proof.
  intros Hinv Hs Ha.
  assert (stream_ok (s5_drop_key s)) as Hok'.
  { destruct (j_ok _ Hinv id s Hs) as (_&?&?). by split_and!. }
  destruct (s5_inv_stream st id s (s5_drop_key s) Hinv Hs eq_refl ltac:(done) Hok')
    as [Hp Hl Hk Hse Hf Hok]. cbn in *.
  assert (∀ x, phase st ≠ Closed →
    x ∈ match phase st with Closed => keys_to_delete st | _ => keys_to_delete st ++ [su_key s] end
    ↔ x ∈ keys_to_delete st ∨ x = su_key s) as Hkeys.
  { intros x. destruct (phase st); set_solver. }
  split; cbn; try done.
  - intros id' x Hph Hx Hax. destruct (Hl id' x Hph Hx Hax) as (Hin&Hnin).
    split; [done|]. rewrite Hkeys by done. intros [?|Heq]; [done|].
    destruct (j_live _ Hinv id s Hph Hs Ha) as (Hin'&_). rewrite Heq, Hin' in Hin.
    injection Hin as ->. rewrite lookup_insert_eq in Hx. by injection Hx as <-.
  - intros k Hph Hin. apply (Hkeys k Hph) in Hin as [?| ->]; [by apply Hk|]. left.
    destruct (j_live _ Hinv id s Hph Hs Ha) as (->&_). done.
Qed.

Lemma s5_poll_read_frame s ticks room :
  let s' := fst (s5_poll_read s ticks room) in
  su_key s' = su_key s ∧ su_sent s' = su_sent s ∧ su_alive s' = su_alive s
  ∧ (stream_ok s → stream_ok s').
Proof.
  unfold s5_poll_read. destruct (watchdog _ _ _) as [[] flag]; [done|].
  destruct (su_queue s) as [|d q] eqn:Hq; cbn; split_and!; try done.
  - intros (?&He&?). split_and!; cbn; [done| |lia]. intros Ho. by rewrite He, Hq by done.
  - intros (?&He&Hlen). rewrite Hq in Hlen. cbn in Hlen. split_and!; cbn; [done| |lia].
    intros Ho. rewrite He, Hq by done. by rewrite <-app_assoc.
Qed.

Lemma s5_inv_clean st :
  inv st → phase st = Cleaning →
  inv (mkState (clean_peers (keys_to_delete st) (peers st)) [] (streams st) (next_id st) Receiving).
Proof.
  intros [Hp Hl Hk Hse Hf Hok] Hph. rewrite Hph in *. split; cbn; try done.
  - intros k id. rewrite clean_peers_lookup. case_decide; [done|]. eauto.
  - intros id s _ Hs Ha. destruct (Hl id s ltac:(done) Hs Ha) as (?&?).
    rewrite clean_peers_lookup, decide_False by done. split; [done|set_solver].
  - set_solver.
Qed.

(** Moves of the server that change neither table nor streams. *)
Lemma s5_inv_phase st p :
  inv st → phase st = Receiving →
  (p = Cleaning ∨ p = Closed ∨ ∃ k id d, p = Sending k id d ∧ peers st !! k = Some id) →
  inv (set_phase p st).
Proof.
  intros [Hp Hl Hk Hse Hf Hok] Hph Hcase. rewrite Hph in *. split; cbn; try done.
  - intros id s _. by apply Hl.
  - intros k Hne Hin. destruct (Hk k ltac:(done) Hin) as [?|?]; [by left|done].
  - intros k id d ->. by destruct Hcase as [?|[?|(?&?&?&[= <- <- <-]&?)]].
Qed.

Lemma s5_inv_new st timeout k d :
  inv st → phase st = Receiving → peers st !! k = None →
  inv (mkState (<[k := next_id st]> (peers st)) (keys_to_delete st)
         (<[next_id st := s5_push d (s5_stream_new k timeout)]> (streams st))
         (S (next_id st)) Cleaning).
Proof.
  intros [Hp Hl Hk Hse Hf Hok] Hph Hnew. rewrite Hph in *.
  assert (∀ id s, streams st !! id = Some s → next_id st ≠ id) as Hfresh
    by (intros id s Hs%Hf; lia).
  assert (k ∉ keys_to_delete st) as Hkeys.
  { intros Hin. destruct (Hk k ltac:(done) Hin) as [[? ?]|?]; congruence. }
  split; cbn; try done.
  - intros k' id Hin. apply lookup_insert_Some in Hin as [[<- <-]|[_ Hin]].
    + rewrite lookup_insert_eq. eauto.
    + destruct (Hp k' id Hin) as (s&Hs&?). rewrite lookup_insert_ne by eauto. eauto.
  - intros id s _ Hs Ha. apply lookup_insert_Some in Hs as [[<- <-]|[Hne Hs]]; cbn.
    + by rewrite lookup_insert_eq.
    + destruct (Hl id s ltac:(done) Hs Ha) as (Hin&?).
      assert (su_key s ≠ k) by congruence. by rewrite lookup_insert_ne.
  - intros; by right.
  - intros id s Hs. apply lookup_insert_Some in Hs as [[<- <-]|[Hne Hs]]; [lia|].
    apply Hf in Hs. lia.
  - intros id s Hs. apply lookup_insert_Some in Hs as [[<- <-]|[Hne Hs]]; [|eauto].
    split_and!; cbn; [done|done|unfold SOCKS5_CHANNEL_BOUND; lia].
Qed.

Lemma s5_inv_send st k id d s :
  inv st → phase st = Sending k id d → streams st !! id = Some s → su_open s = true →
  (length (su_queue s) < SOCKS5_CHANNEL_BOUND)%nat →
  inv (mkState (peers st) (keys_to_delete st) (<[id := s5_push d s]> (streams st)) (next_id st)
         Cleaning).
Proof.
  intros [Hp Hl Hk Hse Hf Hok] Hph Hs Ho Hlen. pose proof (Hse k id d Hph) as Hin.
  destruct (Hp k id Hin) as (x&Hx&Hkey). simplify_eq. split; cbn; try done.
  - intros k' id' Hin'. destruct (Hp k' id' Hin') as (x&Hx'&?).
    destruct (decide (id' = id)) as [->|]; simplify_eq.
    + rewrite lookup_insert_eq. eauto.
    + rewrite lookup_insert_ne by done. eauto.
  - intros id' x _ Hx' Ha. assert (phase st ≠ Closed) as Hne by (by rewrite Hph).
    apply lookup_insert_Some in Hx' as [[<- <-]|[Hid Hx']]; cbn.
    + by apply (Hl id s Hne Hs).
    + by apply (Hl id' x Hne Hx').
  - intros; by right.
  - intros id' x Hx'. apply lookup_insert_Some in Hx' as [[<- <-]|[_ Hx']]; eauto.
  - intros id' x Hx'. apply lookup_insert_Some in Hx' as [[<- <-]|[_ Hx']]; [|eauto].
    destruct (Hok id s Hs) as (?&He&?). split_and!; cbn; [done| |rewrite length_app; cbn; lia].
    intros _. by rewrite He, app_assoc.
Qed.

Lemma s5_inv_send_closed st k id d s :
  inv st → phase st = Sending k id d → streams st !! id = Some s → su_open s = false →
  inv (mkState (delete k (peers st)) (keys_to_delete st) (streams st) (next_id st) Cleaning).
Proof.
  intros [Hp Hl Hk Hse Hf Hok] Hph Hs Ho. pose proof (Hse k id d Hph) as Hin.
  split; cbn; try done.
  - intros k' id' Hin'. apply lookup_delete_Some in Hin' as [_ Hin']. eauto.
  - intros id' x _ Hx Ha. destruct (Hl id' x ltac:(by rewrite Hph) Hx Ha) as (Hin'&?).
    assert (su_key x ≠ k) as Hne.
    { intros Heq. rewrite Heq, Hin in Hin'. simplify_eq. destruct (Hok id' s Hs) as (Ho'&_).
      rewrite Ho' in Ho; done. }
    by rewrite lookup_delete_ne.
  - intros; by right.
Qed.

Lemma s5_inv_step timeout st e st' : inv st → s5_step timeout st e = Ok st' → inv st'.
Proof.
  intros Hinv. destruct e as [|now request| | |id ticks room|id|id]; cbn [s5_step].
  - destruct (phase st) eqn:Hph; try done. intros [= <-]. by apply s5_inv_clean.
  - destruct (phase st) eqn:Hph; try done.
    destruct request as [[[frag k] d]|]; [|intros [= <-]; apply s5_inv_phase; eauto].
    destruct (negb _); [intros [= <-]; apply s5_inv_phase; eauto|].
    destruct (peers st !! k) as [id|] eqn:Hk.
    + intros [= <-]. apply s5_inv_phase; [done|done|]. right; right. eauto.
    + intros (deadline&_&[= <-])%bind_ok_inv. by apply s5_inv_new.
  - destruct (phase st) eqn:Hph; try done. intros [= <-]. apply s5_inv_phase; eauto.
  - destruct (phase st) as [| |k id d|] eqn:Hph; try done.
    destruct (streams st !! id) as [s|] eqn:Hs; [|done].
    destruct (su_open s) eqn:Ho; [|intros [= <-]; by eapply s5_inv_send_closed].
    destruct (Nat.ltb_spec (length (su_queue s)) SOCKS5_CHANNEL_BOUND) as [Hlt|]; [|done].
    intros [= <-]. by eapply s5_inv_send.
  - destruct (streams st !! id) as [s|] eqn:Hs; [|done].
    destruct (su_alive s) eqn:Ha; [|done]. intros [= <-].
    destruct (s5_poll_read_frame s ticks room) as (?&?&Hal&Hok).
    apply (s5_inv_stream st id s); try done. by apply Hok, (j_ok _ Hinv id).
  - destruct (streams st !! id) as [s|] eqn:Hs; [|done].
    destruct (su_alive s) eqn:Ha; [|done]. intros [= <-]. by apply s5_inv_drop_key.
  - destruct (streams st !! id) as [s|] eqn:Hs; [|done].
    destruct (su_alive s) eqn:Ha; [done|]. intros [= <-].
    apply (s5_inv_stream st id s); try done. split_and!; cbn; [done|done|lia].
Qed.

Lemma s5_inv_run timeout es st st' : inv st → s5_run timeout st es = Ok st' → inv st'.
Proof.
  revert st. induction es as [|e es IH]; intros st Hinv; cbn [s5_run].
  - by intros [= <-].
  - destruct (s5_step timeout st e) as [st1|?|] eqn:He; [|done..]. cbn [mbind outcome_bind].
    apply IH. by eapply s5_inv_step.
Qed.

(** ** What arrives and what is read

    Read off the events of a run and the results of the polls. *)

(** A datagram that belongs to an association: fragments and invalid ones are skipped. *)
Definition received_at (e : S5Event) : list (K * D) :=
  match e with Recv _ (Some (frag, k, d)) => if frag =? 0 then [(k, d)] else [] | _ => [] end.
Definition received (es : list S5Event) : list (K * D) := mjoin (received_at <$> es).

(** The datagram the owner of [id] gets from a poll. *)
Definition read_at (id : nat) (st : S5State) (e : S5Event) : list D :=
  match e with
  | Poll id' ticks room =>
      if decide (id' = id)
      then match streams st !! id with
           | Some s => match snd (s5_poll_read s ticks room) with RRead d => [d] | _ => [] end
           | None => []
           end
      else []
  | _ => []
  end.
Fixpoint reads (id : nat) (timeout : option Duration) (st : S5State) (es : list S5Event) : list D :=
  match es with
  | [] => []
  | e :: es =>
      match s5_step timeout st e with
      | Ok st' => read_at id st e ++ reads id timeout st' es
      | _ => []
      end
  end.

(** The datagram the server waits to put into the channel of [id]. *)
Definition pending (id : nat) (p : S5Phase) : list D :=
  match p with Sending _ id' d => if decide (id' = id) then [d] else [] | _ => [] end.

(** Every poll has room for any datagram: they have less than 64 kB, and tunnels read into
    buffers of at least that ([MAX_PACKET_LENGTH]). *)
Definition roomy (e : S5Event) : Prop :=
  match e with Poll _ _ room => ∀ d, (size d ≤ room)%nat | _ => True end.

(** A step makes the association of a datagram, or adds the datagram to its own. *)
Lemma s5_step_sent timeout st e st' id s' :
  inv st → s5_step timeout st e = Ok st' → phase st' ≠ Closed →
  streams st' !! id = Some s' → su_alive s' = true →
  (streams st !! id = None
   ∧ ∃ now d, e = Recv now (Some (0, su_key s', d)) ∧ su_sent s' ++ pending id (phase st') = [d])
  ∨ ∃ s, streams st !! id = Some s ∧ su_alive s = true ∧ su_key s = su_key s'
      ∧ su_sent s' ++ pending id (phase st')
        = su_sent s ++ pending id (phase st) ++ datagrams (su_key s') (received_at e).
Proof.
  intros Hinv. destruct e as [|now request| | |id0 ticks room|id0|id0]; cbn [s5_step received_at].
  - destruct (phase st) eqn:Hph; try done. intros [= <-] Hne Hs Ha. right. exists s'. done.
  - destruct (phase st) eqn:Hph; try done.
    assert (∀ l : list (K * D), l = [] → phase st' = Cleaning →
      su_sent s' ++ pending id (phase st') = su_sent s' ++ [] ++ datagrams (su_key s') l) as Hskip.
    { by intros l -> ->. }
    destruct request as [[[frag k] d]|]; [|intros [= <-] Hne Hs Ha; right; exists s'; eauto].
    destruct (Z.eqb_spec frag 0) as [->|]; cbn [negb]; [|intros [= <-] Hne Hs Ha; right; exists s'; eauto].
    destruct (peers st !! k) as [id0|] eqn:Hk.
    + intros [= <-] Hne Hs Ha. cbn in Hs. right. exists s'. split_and!; try done. cbn. f_equal. unfold datagrams.
      destruct (j_live _ Hinv id s' ltac:(by rewrite Hph) Hs Ha) as [Hin _].
      destruct (j_peers _ Hinv k id0 Hk) as (x&Hx&Hkx). cbn [filter list_filter fst].
      destruct (decide (id0 = id)) as [->|Hid].
      * assert (su_key s' = k) by congruence. by rewrite decide_True.
      * rewrite decide_False; [done|]. intros ->. congruence.
    + intros (deadline&_&[= <-])%bind_ok_inv Hne Hs Ha. cbn in Hs.
      apply lookup_insert_Some in Hs as [[<- <-]|[Hid Hs]].
      * left. split; [|by eauto]. destruct (streams st !! next_id st) eqn:E; [|done].
        apply (j_fresh _ Hinv) in E. lia.
      * right. exists s'. split_and!; try done. cbn. f_equal. unfold datagrams. cbn [filter list_filter fst].
        rewrite decide_False; [done|]. intros ->.
        destruct (j_live _ Hinv id s' ltac:(by rewrite Hph) Hs Ha) as [Hin _]. congruence.
  - destruct (phase st) eqn:Hph; try done. by intros [= <-].
  - destruct (phase st) as [| |k id0 d|] eqn:Hph; try done.
    destruct (streams st !! id0) as [s|] eqn:Hs0; [|done].
    destruct (su_open s) eqn:Ho.
    + destruct (_ <? _)%nat; [|done]. intros [= <-] _ Hs Ha. cbn in Hs. right.
      apply lookup_insert_Some in Hs as [[<- <-]|[Hid Hs]]; cbn.
      * exists s. rewrite decide_True by done. by rewrite !app_nil_r.
      * exists s'. by rewrite decide_False.
    + intros [= <-] _ Hs Ha. right. exists s'. cbn. split_and!; try done.
      rewrite decide_False; [done|]. intros ->. cbn in Hs. simplify_eq.
      destruct (j_ok _ Hinv _ _ Hs0) as (Ho'&_). rewrite Ho' in Ho; done.
  - destruct (streams st !! id0) as [s|] eqn:Hs0; [|done]. destruct (su_alive s) eqn:Ha0; [|done].
    intros [= <-] _ Hs Ha. right. cbn in Hs. apply lookup_insert_Some in Hs as [[<- <-]|[Hid Hs]].
    + destruct (s5_poll_read_frame s ticks room) as (Hk&Hse&_). exists s.
      rewrite Hk, Hse. cbn. by rewrite !app_nil_r.
    + exists s'. cbn. by rewrite !app_nil_r.
  - destruct (streams st !! id0) as [s|] eqn:Hs0; [|done]. destruct (su_alive s) eqn:Ha0; [|done].
    intros [= <-] _ Hs Ha. right. cbn in Hs. apply lookup_insert_Some in Hs as [[<- <-]|[Hid Hs]]; [done|].
    exists s'. cbn. by rewrite !app_nil_r.
  - destruct (streams st !! id0) as [s|] eqn:Hs0; [|done]. destruct (su_alive s) eqn:Ha0; [done|].
    intros [= <-] _ Hs Ha. right. cbn in Hs. apply lookup_insert_Some in Hs as [[<- <-]|[Hid Hs]]; [done|].
    exists s'. cbn. by rewrite !app_nil_r.
Qed.

(** The history of a stream is what its owner got from it. *)
Lemma s5_step_taken timeout st e st' id :
  inv st → roomy e → s5_step timeout st e = Ok st' →
  from_option su_taken [] (streams st' !! id) = from_option su_taken [] (streams st !! id) ++ read_at id st e.
Proof.
  intros Hinv Hroom.
  assert (∀ id0 s s', streams st !! id0 = Some s → su_taken s' = su_taken s →
    from_option su_taken [] (<[id0 := s']> (streams st) !! id)
    = from_option su_taken [] (streams st !! id)) as Hset.
  { intros id0 s s' Hs Ht. rewrite lookup_insert. case_decide; [subst; by rewrite Hs|done]. }
  destruct e as [|now request| | |id0 ticks room|id0|id0]; cbn [s5_step read_at]; intros Hstep;
    rewrite ?app_nil_r.
  - destruct (phase st); by simplify_eq.
  - destruct (phase st); try done. destruct request as [[[frag k] d]|]; [|by simplify_eq].
    destruct (negb _); [by simplify_eq|]. destruct (peers st !! k); [by simplify_eq|].
    apply bind_ok_inv in Hstep as (deadline&_&Hstep). simplify_eq. cbn. rewrite lookup_insert. case_decide; [subst|done].
    destruct (streams st !! next_id st) eqn:E; [|done]. apply (j_fresh _ Hinv) in E. lia.
  - destruct (phase st); by simplify_eq.
  - destruct (phase st) as [| |k id0 d|]; try done.
    destruct (streams st !! id0) as [s|] eqn:Hs; [|done].
    destruct (su_open s); [destruct (_ <? _)%nat|]; simplify_eq; [|done]. by eapply Hset.
  - destruct (streams st !! id0) as [s|] eqn:Hs; [|done]. destruct (su_alive s); simplify_eq. cbn.
    destruct (decide (id0 = id)) as [<-|Hne]; [|by rewrite lookup_insert_ne, app_nil_r].
    rewrite lookup_insert_eq, Hs. cbn. unfold s5_poll_read.
    destruct (watchdog _ _ _) as [[] flag]; cbn; [by rewrite app_nil_r|].
    destruct (su_queue s) as [|d q]; cbn; [by rewrite app_nil_r|].
    specialize (Hroom d). cbn in Hroom. destruct (size d); [done|].
    by destruct (Nat.leb_spec room n); [lia|].
  - destruct (streams st !! id0) as [s|] eqn:Hs; [|done]. destruct (su_alive s); simplify_eq. by eapply Hset.
  - destruct (streams st !! id0) as [s|] eqn:Hs; [|done]. destruct (su_alive s); simplify_eq. by eapply Hset.
Qed.

Lemma s5_run_snoc timeout st es e :
  s5_run timeout st (es ++ [e]) = (st' ← s5_run timeout st es; s5_step timeout st' e).
Proof.
  revert st. induction es as [|e' es IH]; intros st; cbn.
  - by destruct (s5_step timeout st e).
  - destruct (s5_step timeout st e'); cbn; [apply IH|done..].
Qed.
Lemma reads_snoc id timeout st es e st' :
  s5_run timeout st es = Ok st' → is_ok (s5_step timeout st' e) = true →
  reads id timeout st (es ++ [e]) = reads id timeout st es ++ read_at id st' e.
Proof.
  intros Hrun He. destruct (s5_step timeout st' e) as [st2|?|] eqn:E; try done. clear He. revert st Hrun. induction es as [|e' es IH]; intros st; cbn.
  - intros [= ->]. by rewrite E, app_nil_r.
  - destruct (s5_step timeout st e') as [st1|?|]; cbn; [|done..]. intros Hr. by rewrite IH, app_assoc.
Qed.

Lemma s5_run_taken timeout es st id :
  Forall roomy es → s5_run timeout s5_initial es = Ok st →
  from_option su_taken [] (streams st !! id) = reads id timeout s5_initial es.
Proof.
  revert st. induction es as [|e es IH] using rev_ind; intros st.
  { intros _ [= <-]. done. }
  intros [Hes He]%Forall_app. rewrite Forall_singleton in He. rewrite s5_run_snoc.
  destruct (s5_run timeout s5_initial es) as [st1|?|] eqn:Hrun; [|done..]. cbn. intros Hstep.
  pose proof (s5_inv_run timeout es s5_initial st1 s5_inv_initial Hrun) as Hinv.
  rewrite (reads_snoc _ _ _ _ _ _ Hrun), (s5_step_taken _ _ _ _ _ Hinv He Hstep) by by rewrite Hstep.
  by rewrite (IH st1).
Qed.

(** A live association was made by a datagram, and everything its client sent to its
    destination since then was put into its channel, or waits to be. *)
Lemma s5_run_sent timeout es st id s :
  s5_run timeout s5_initial es = Ok st → phase st ≠ Closed →
  streams st !! id = Some s → su_alive s = true →
  ∃ es1 now d es2 st1, es = es1 ++ Recv now (Some (0, su_key s, d)) :: es2
    ∧ s5_run timeout s5_initial es1 = Ok st1 ∧ streams st1 !! id = None
    ∧ su_sent s ++ pending id (phase st) = d :: datagrams (su_key s) (received es2).
Proof.
  revert st s. induction es as [|e es IH] using rev_ind; intros st s; [by intros [= <-]|].
  rewrite s5_run_snoc. destruct (s5_run timeout s5_initial es) as [st1|?|] eqn:Hrun; [|done..]. cbn.
  intros Hstep Hph Hs Ha.
  pose proof (s5_inv_run timeout es s5_initial st1 s5_inv_initial Hrun) as Hinv.
  destruct (s5_step_sent _ _ _ _ _ _ Hinv Hstep Hph Hs Ha)
    as [(Hnone&now&d&->&Hsent)|(s1&Hs1&Ha1&Hk&Hsent)].
  { by exists es, now, d, [], st1. }
  destruct (IH st1 s1 eq_refl) as (es1&now&d&es2&st0&->&Hrun0&Hnone&Hd); [|done..|].
  { intros Hc. destruct e; cbn in Hstep; rewrite ?Hc in Hstep; try done.
    all: repeat (case_match; try done); simplify_eq; done. }
  exists es1, now, d, (es2 ++ [e]), st0. rewrite <-app_assoc, <-Hk. split_and!; [done..|].
  unfold received, datagrams in *. rewrite Hsent, app_assoc, Hd, fmap_app, join_app, filter_app, fmap_app, Hk.
  cbn. by rewrite app_nil_r.
Qed.

(** ** Theorem *)

(** C23: Nothing a client sends through a live association is lost or reordered: the
    association was made by a datagram, and what its owner has read since, followed by what
    waits in its channel and by what the server waits to put there, is that datagram followed
    by all later ones of the same client and destination, each once, in the order of their
    arrival.  The buffers of the owner hold a whole datagram. *)
Theorem associations_lose_nothing timeout es st id s :
  s5_run timeout s5_initial es = Ok st → phase st ≠ Closed → Forall roomy es →
  streams st !! id = Some s → su_alive s = true →
  ∃ es1 now d es2 st1, es = es1 ++ Recv now (Some (0, su_key s, d)) :: es2
    ∧ s5_run timeout s5_initial es1 = Ok st1 ∧ streams st1 !! id = None
    ∧ reads id timeout s5_initial es ++ su_queue s ++ pending id (phase st)
      = d :: datagrams (su_key s) (received es2).
Proof.
  intros Hrun Hph Hroom Hs Ha.
  destruct (s5_run_sent _ _ _ _ _ Hrun Hph Hs Ha) as (es1&now&d&es2&st1&Hes&Hrun1&Hnone&Hd).
  exists es1, now, d, es2, st1. split_and!; [done..|]. rewrite <-Hd.
  pose proof (s5_run_taken _ _ _ id Hroom Hrun) as Ht. rewrite Hs in Ht. cbn in Ht. rewrite <-Ht.
  pose proof (s5_inv_run timeout es s5_initial st s5_inv_initial Hrun) as Hinv.
  destruct (j_ok _ Hinv id s Hs) as (Ho&He&_). rewrite He by auto. by rewrite app_assoc.
Qed.
End Socks5Udp.
End Socks5Udp.

(** ** Witnesses *)

(** Two peers, the first of which is read. *)
Definition toy_udp_events : list (UdpServer.UdpEvent (K := nat) (D := nat)) :=
  [UdpServer.Clean; UdpServer.Arrive 1%nat 10%nat; UdpServer.Arrive 2%nat 20%nat;
   UdpServer.Peek true 0; UdpServer.Poll 0 0 false; UdpServer.Wake; UdpServer.Clean; UdpServer.Peek true 0].
Definition toy_udp_state : UdpServer.UdpState (K := nat) (D := nat) :=
  default UdpServer.udp_initial (ok (UdpServer.udp_run (Some (from_secs 30)) UdpServer.udp_initial toy_udp_events)).
Definition toy_udp_stream : UdpServer.UdpStream (K := nat) (D := nat) :=
  UdpServer.mkStream 1%nat true true true false false [(1%nat, 10%nat)].

Lemma toy_udp_run :
  UdpServer.udp_run (Some (from_secs 30)) UdpServer.udp_initial toy_udp_events = Ok toy_udp_state.
Proof. vm_compute. reflexivity. Qed.

Lemma streams_read_own_datagrams_witness :
  Forall (λ kd, fst kd = 1%nat) (UdpServer.us_got toy_udp_stream).
Proof.
  exact (UdpServer.streams_read_own_datagrams (Some (from_secs 30)) toy_udp_events toy_udp_state 0%nat
           toy_udp_stream toy_udp_run ltac:(vm_compute; reflexivity)).
Defined.

Lemma server_never_stuck_witness :
  ∃ st1, UdpServer.udp_step (Some (from_secs 30)) toy_udp_state (UdpServer.Poll 1 0 false) = Ok st1
    ∨ UdpServer.udp_step (Some (from_secs 30)) toy_udp_state UdpServer.Wake = Ok st1.
Proof.
  destruct (UdpServer.server_never_stuck (Some (from_secs 30)) toy_udp_events toy_udp_state 1%nat toy_udp_run
              ltac:(vm_compute; reflexivity)) as [[st' H]|(s&d&q&st1&st2&_&_&_&H&_)].
  - exists st'. right. exact H.
  - exists st1. left. exact H.
Defined.

Lemma live_streams_are_registered_witness :
  UdpServer.peers toy_udp_state !! 1%nat = Some 0%nat.
Proof.
  exact (proj1 (UdpServer.live_streams_are_registered (Some (from_secs 30)) toy_udp_events toy_udp_state 0%nat
    toy_udp_stream toy_udp_run ltac:(vm_compute; discriminate) ltac:(vm_compute; reflexivity)
    eq_refl)).
Defined.

Definition toy_s5_events : list (Socks5Udp.S5Event (K := nat) (D := nat)) :=
  [Socks5Udp.Clean; Socks5Udp.Recv 0 (Some (0, 1%nat, 10%nat)); Socks5Udp.Clean;
   Socks5Udp.Recv 0 (Some (0, 1%nat, 11%nat)); Socks5Udp.Send; Socks5Udp.Poll 0 0 100;
   Socks5Udp.Clean; Socks5Udp.Recv 0 (Some (0, 1%nat, 12%nat))].
Definition toy_s5_state : Socks5Udp.S5State (K := nat) (D := nat) :=
  default Socks5Udp.s5_initial
    (ok (Socks5Udp.s5_run (λ _, 1%nat) None Socks5Udp.s5_initial toy_s5_events)).
Definition toy_s5_stream : Socks5Udp.Socks5UdpStream (K := nat) (D := nat) :=
  Socks5Udp.mkStream 1%nat true true false true [11%nat] [10%nat; 11%nat] [10%nat].

(** The first datagram is read, the second waits, the third is about to be queued. *)
Lemma associations_lose_nothing_witness :
  ∃ es1 now d es2 st1, toy_s5_events = es1 ++ Socks5Udp.Recv now (Some (0, 1%nat, d)) :: es2
    ∧ Socks5Udp.s5_run (λ _, 1%nat) None Socks5Udp.s5_initial es1 = Ok st1
    ∧ Socks5Udp.streams st1 !! 0%nat = None
    ∧ [10%nat] ++ [11%nat] ++ [12%nat] = d :: Socks5Udp.datagrams 1%nat (Socks5Udp.received es2).
Proof.
  exact (Socks5Udp.associations_lose_nothing (λ _, 1%nat) None toy_s5_events toy_s5_state 0%nat
    toy_s5_stream ltac:(vm_compute; reflexivity) ltac:(vm_compute; discriminate)
    ltac:(repeat constructor) ltac:(vm_compute; reflexivity) eq_refl).
Defined.
