(* ===== verification/CnxPool.v ===== *)
(** * CnxPool: the client's connections to the server

    Models [src/wstunnel/src/tunnel/client/l4_transport_stream.rs], [cnx_pool.rs],
    [WsClient::new] of [client.rs], and the parts of [transport/websocket.rs] and
    [transport/http2.rs] that turn a connection of the pool into a tunnel.

    The pool is the [bb8] crate, the class [Bb8Api]: the connections it keeps idle, taking
    one out, putting one back.  The connections themselves (TCP, TLS on either side) are
    arguments with the operations of [AsyncRead] and [AsyncWrite]. *)

From Stdlib Require Import ZArith Lia Ascii String.
From stdpp Require Import base strings list sets relations.
From S2P Require Import Prelude Str Net Apis ApiModels Jwt Request Resolver.

#[local] Open Scope stdpp_scope.

(** ** Streams *)

(** [poll_read] gives at most the number of bytes there is room for. *)
Class AsyncRead (X : Type) := {
  poll_read : X → nat → X * string * Poll (outcome string unit);
}.
Class AsyncWrite (X : Type) := {
  poll_write : X → string → X * Poll (outcome string Z);
  poll_flush : X → X * Poll (outcome string unit);
  poll_shutdown : X → X * Poll (outcome string unit);
  poll_write_vectored : X → list string → X * Poll (outcome string Z);
  is_write_vectored : X → bool;
}.

Section Streams.
(** Connections: a TCP stream, and TLS as a client and as a server. *)
Context {Tcp Tls TlsSrv : Type}.
Context `{!AsyncRead Tcp, !AsyncRead Tls, !AsyncRead TlsSrv}.
Context `{!AsyncWrite Tcp, !AsyncWrite Tls, !AsyncWrite TlsSrv}.

(** A half is the connection it belongs to; the read half also has bytes already read. *)
Inductive TransportReadHalf :=
| RPlain (cnx : Tcp) (buf : string)
| RTls (cnx : Tls) (buf : string)
| RTlsSrv (cnx : TlsSrv) (buf : string).
Inductive TransportWriteHalf :=
| WPlain (cnx : Tcp)
| WTls (cnx : Tls)
| WTlsSrv (cnx : TlsSrv).
Record TransportStream := mkStream { ts_read : TransportReadHalf; ts_write : TransportWriteHalf }.

Definition from_tcp (tcp : Tcp) (read_buf : string) : TransportStream :=
  mkStream (RPlain tcp read_buf) (WPlain tcp).
Definition from_client_tls (tls : Tls) (read_buf : string) : TransportStream :=
  mkStream (RTls tls read_buf) (WTls tls).
Definition from_server_tls (tls : TlsSrv) (read_buf : string) : TransportStream :=
  mkStream (RTlsSrv tls read_buf) (WTlsSrv tls).

(** [read_buf_mut], read and written through. *)
Definition read_buf (this : TransportReadHalf) : string :=
  match this with RPlain _ buf | RTls _ buf | RTlsSrv _ buf => buf end.
Definition set_read_buf (this : TransportReadHalf) (buf : string) : TransportReadHalf :=
  match this with
  | RPlain cnx _ => RPlain cnx buf
  | RTls cnx _ => RTls cnx buf
  | RTlsSrv cnx _ => RTlsSrv cnx buf
  end.

(** [TransportStream::from]: the buffer is replaced. *)
Definition stream_from (this : TransportStream) (buf : string) : TransportStream :=
  mkStream (set_read_buf (ts_read this) buf) (ts_write this).
Definition into_split (this : TransportStream) : TransportReadHalf * TransportWriteHalf :=
  (ts_read this, ts_write this).

Definition read_half_poll_read (this : TransportReadHalf) (remaining : nat)
    : TransportReadHalf * string * Poll (outcome string unit) :=
  let buf := read_buf this in
  if negb (String.eqb buf "")
  then let copy_len := Nat.min (String.length buf) remaining in
       (set_read_buf this (drop_str copy_len buf), take_str copy_len buf, Ready (Ok ()))
  else
    match this with
    | RPlain cnx b => let '(cnx, out, r) := poll_read cnx remaining in (RPlain cnx b, out, r)
    | RTls cnx b => let '(cnx, out, r) := poll_read cnx remaining in (RTls cnx b, out, r)
    | RTlsSrv cnx b => let '(cnx, out, r) := poll_read cnx remaining in (RTlsSrv cnx b, out, r)
    end.
#[global] Instance read_half_read : AsyncRead TransportReadHalf := {| poll_read := read_half_poll_read |}.

(** The operations of the write half are those of its connection. *)
Definition on_write {A} (f : ∀ X, AsyncWrite X → X → X * A) (this : TransportWriteHalf)
    : TransportWriteHalf * A :=
  match this with
  | WPlain cnx => let '(cnx, r) := f Tcp _ cnx in (WPlain cnx, r)
  | WTls cnx => let '(cnx, r) := f Tls _ cnx in (WTls cnx, r)
  | WTlsSrv cnx => let '(cnx, r) := f TlsSrv _ cnx in (WTlsSrv cnx, r)
  end.

Definition write_half_is_write_vectored (this : TransportWriteHalf) : bool :=
  match this with
  | WPlain cnx => is_write_vectored cnx
  | WTls cnx => is_write_vectored cnx
  | WTlsSrv cnx => is_write_vectored cnx
  end.
#[global] Instance write_half_write : AsyncWrite TransportWriteHalf :=
  {| poll_write this buf := on_write (λ X _ cnx, poll_write cnx buf) this;
     poll_flush this := on_write (λ X _ cnx, poll_flush cnx) this;
     poll_shutdown this := on_write (λ X _ cnx, poll_shutdown cnx) this;
     poll_write_vectored this bufs := on_write (λ X _ cnx, poll_write_vectored cnx bufs) this;
     is_write_vectored := write_half_is_write_vectored |}.

(** The stream delegates to its halves. *)
Definition stream_poll_read (this : TransportStream) (remaining : nat)
    : TransportStream * string * Poll (outcome string unit) :=
  let '(r, out, res) := poll_read (ts_read this) remaining in
  (mkStream r (ts_write this), out, res).
#[global] Instance stream_read : AsyncRead TransportStream := {| poll_read := stream_poll_read |}.

Definition on_stream_write {A} (f : TransportWriteHalf → TransportWriteHalf * A) (this : TransportStream)
    : TransportStream * A :=
  let '(w, r) := f (ts_write this) in (mkStream (ts_read this) w, r).
#[global] Instance stream_write : AsyncWrite TransportStream :=
  {| poll_write this buf := on_stream_write (λ w, poll_write w buf) this;
     poll_flush this := on_stream_write poll_flush this;
     poll_shutdown this := on_stream_write poll_shutdown this;
     poll_write_vectored this bufs := on_stream_write (λ w, poll_write_vectored w bufs) this;
     is_write_vectored this := is_write_vectored (ts_write this) |}.

(** *** Reads *)

(** A sequence of polls, with the bytes each put in its buffer. *)
Fixpoint reads {X} `{AsyncRead X} (this : X) (polls : list nat) : X * string :=
  match polls with
  | [] => (this, "")
  | remaining :: polls =>
      let '(this, out, _) := poll_read this remaining in
      let '(this, outs) := reads this polls in (this, out +:+ outs)
  end.

(** The same polls on the connection itself, without the ones the buffer serves. *)
Definition connection_reads (this : TransportReadHalf) (polls : list nat) : string :=
  match this with
  | RPlain cnx _ => snd (reads cnx polls)
  | RTls cnx _ => snd (reads cnx polls)
  | RTlsSrv cnx _ => snd (reads cnx polls)
  end.

Lemma connection_reads_set this buf polls :
  connection_reads (set_read_buf this buf) polls = connection_reads this polls.
Proof. by destruct this. Qed.

Lemma read_half_direct this remaining :
  read_buf this = "" →
  let '(this', out, _) := poll_read this remaining in
  read_buf this' = "" ∧ ∀ polls,
    connection_reads this (remaining :: polls) = out +:+ connection_reads this' polls.
Proof.
  destruct this as [cnx buf|cnx buf|cnx buf]; cbn; intros ->; cbn;
    destruct (poll_read cnx remaining) as [[cnx' out] r] eqn:E; cbn; (split; [done|]);
    intros polls; by destruct (reads cnx' polls).
Qed.

Lemma reads_direct this polls :
  read_buf this = "" →
  snd (reads this polls) = connection_reads this polls ∧ read_buf (fst (reads this polls)) = "".
Proof.
  revert this. induction polls as [|n polls IH]; intros this Hb; [by destruct this|].
  cbn [reads]. pose proof (read_half_direct this n Hb) as Hd.
  destruct (poll_read this n) as [[this' out] r]. destruct Hd as [Hb' Hd].
  destruct (IH this' Hb') as [Ho Hr]. rewrite Hd, <-Ho. by destruct (reads this' polls).
Qed.

(** The bytes already read come first; the polls after the buffer is empty are those of
    the connection. *)
Lemma reads_buffer_first this polls :
  ∃ k, (k ≤ length polls)%nat
    ∧ snd (reads this polls) +:+ read_buf (fst (reads this polls))
      = read_buf this +:+ connection_reads this (drop k polls)
    ∧ (read_buf (fst (reads this polls)) ≠ "" → k = length polls).
Proof.
  revert this. induction polls as [|n polls IH]; intros this.
  { exists 0%nat. cbn. split; [lia|]. split; [|done]. destruct this; by rewrite app_Empty, app_empty_r. }
  destruct (String.eqb_spec (read_buf this) "") as [Hb|Hb].
  - exists 0%nat. destruct (reads_direct this (n :: polls) Hb) as [-> ->].
    split; [lia|]. by rewrite Hb, app_Empty, app_empty_r.
  - set (m := Nat.min (String.length (read_buf this)) n).
    assert (poll_read this n = (set_read_buf this (drop_str m (read_buf this)),
      take_str m (read_buf this), Ready (Ok ()))) as Hpoll.
    { cbn. unfold read_half_poll_read. by rewrite (proj2 (String.eqb_neq _ _) Hb). }
    cbn [reads]. rewrite Hpoll.
    set (this' := set_read_buf this (drop_str m (read_buf this))).
    destruct (IH this') as (k&Hk&Heq&Hend). exists (S k).
    destruct (reads this' polls) as [t outs]. cbn [fst snd] in *. split; [cbn; lia|].
    split; [|intros Hne; cbn; by rewrite Hend].
    assert (read_buf this' = drop_str m (read_buf this)) as Hb' by by destruct this.
    rewrite str_app_assoc, Heq, Hb', <-str_app_assoc, take_drop_str.
    unfold this'. by rewrite connection_reads_set.
Qed.

(** ** From a connection to a tunnel *)

(** What is left of a connection after an HTTP upgrade: the stream hyper was given and the
    bytes it has read too far. *)
Inductive UpgradedIo :=
| UpTransport (stream : TransportStream) (read_buf : string)
| UpServerTls (stream : TlsSrv) (read_buf : string)
| UpTcp (stream : Tcp) (read_buf : string)
| UpOther.

Inductive Role := RoleClient | RoleServer.

(** The websocket of a tunnel, split. *)
Record WsTunnel := mkWsTunnel {
  wt_role : Role;
  wt_auto_pong : bool;
  wt_auto_close : bool;
  wt_auto_apply_mask : bool;
  wt_read : TransportReadHalf;
  wt_write : TransportWriteHalf
}.

Definition mk_websocket_tunnel (ws : UpgradedIo) (role : Role) (mask_frame : bool)
    : outcome string WsTunnel :=
  transport ← match role with
              | RoleClient =>
                  match ws with
                  | UpTransport stream buf => Ok (stream_from stream buf)
                  | _ => Err "cannot downcast websocket client stream"
                  end
              | RoleServer =>
                  match ws with
                  | UpServerTls stream buf => Ok (from_server_tls stream buf)
                  | UpTcp stream buf => Ok (from_tcp stream buf)
                  | _ => Err "cannot downcast websocket server stream"
                  end
              end;
  let '(rx, tx) := into_split transport in
  Ok (mkWsTunnel role false false mask_frame rx tx).

(** The bytes hyper has read too far. *)
Definition upgraded_buf (ws : UpgradedIo) : string :=
  match ws with UpTransport _ buf | UpServerTls _ buf | UpTcp _ buf => buf | UpOther => "" end.
End Streams.
Arguments TransportReadHalf Tcp Tls TlsSrv : clear implicits.
Arguments TransportWriteHalf Tcp Tls TlsSrv : clear implicits.
Arguments TransportStream Tcp Tls TlsSrv : clear implicits.
Arguments UpgradedIo Tcp Tls TlsSrv : clear implicits.
Arguments WsTunnel Tcp Tls TlsSrv : clear implicits.

(** ** The pool *)

(** [bb8]: the connections it keeps; [bb8_add] is a connection it opened itself, [bb8_get]
    takes one out, [bb8_put] takes one back and asks [has_broken] whether to keep it,
    [bb8_reap] closes the ones that are too old. *)
Class Bb8Api (C : Type) := {
  Pool : Type;
  bb8_idle : Pool → list C;
  bb8_new : Pool;
  bb8_add : C → Pool → Pool;
  bb8_get : Pool → option (C * Pool);
  bb8_put : (C → bool) → C → Pool → Pool;
  bb8_reap : Pool → Pool;
}.

(** A connection is handed out once until it is put back, and a broken one is not kept. *)
Class Bb8Laws (C : Type) `{Bb8Api C} : Prop := {
  bb8_idle_new : bb8_idle bb8_new = [];
  bb8_idle_add c p : bb8_idle (bb8_add c p) ⊆+ c :: bb8_idle p;
  bb8_idle_get c p p' : bb8_get p = Some (c, p') → c :: bb8_idle p' ⊆+ bb8_idle p;
  bb8_idle_put broken c p :
    bb8_idle (bb8_put broken c p) ⊆+ (if broken c then bb8_idle p else c :: bb8_idle p);
  bb8_idle_reap p : bb8_idle (bb8_reap p) ⊆+ bb8_idle p;
}.

Section Client.
Context `{UuidApi, HttpApi, UrlApi}.
Context {T Tcp Tls TlsSrv : Type}.
#[local] Abbreviation Stream := (TransportStream Tcp Tls TlsSrv).
Context `{!Bb8Api (option Stream)}.

(** [WsConnection::connect]: [direct], [proxied] and [tls_connect] are the protocols. *)
Definition pool_connect (direct : Host → Z → outcome string Tcp)
    (proxied : Url → Host → Z → outcome string Tcp)
    (tls_connect : TransportAddr T → Tcp → outcome string Tls)
    (http_proxy : option Url) (addr : TransportAddr T) : outcome string (option Stream) :=
  tcp_stream ← match http_proxy with
               | Some proxy => proxied proxy (addr_host addr) (addr_port addr)
               | None => direct (addr_host addr) (addr_port addr)
               end;
  match addr_tls addr with
  | Some _ => tls_stream ← tls_connect addr tcp_stream; Ok (Some (from_client_tls tls_stream ""))
  | None => Ok (Some (from_tcp tcp_stream ""))
  end.
Definition pool_is_valid (conn : option Stream) : outcome string unit := Ok ().
Definition pool_has_broken (conn : option Stream) : bool :=
  match conn with None => true | Some _ => false end.

(** What [WsClient::new] asks of the pool. *)
Record PoolBuilder := mkBuilder {
  pb_max_size : Z;
  pb_min_idle : option Z;
  pb_max_lifetime : option Duration;
  pb_connection_timeout : Duration;
  pb_retry_connection : bool
}.

Record WsClient := mkWsClient { wc_pool : Pool; wc_reverse_max_backoff : Duration }.

Definition ws_client_new (tls_reloader : outcome string unit)
    (build : PoolBuilder → outcome string Pool) (connection_min_idle : Z)
    (connection_retry_max_backoff reverse_tunnel_connection_retry_max_backoff : Duration)
    : outcome string WsClient :=
  _ ← tls_reloader;
  pool ← build (mkBuilder 1000 (Some connection_min_idle) (Some (from_secs 30))
                  connection_retry_max_backoff true);
  Ok (mkWsClient pool reverse_tunnel_connection_retry_max_backoff).

(** The end of [websocket::connect], on a connection of the pool: the connection after it,
    the stream given to the handshake, and the result.  [req] is the request as it was
    built; [take().unwrap()] panics on a connection without a stream. *)
Definition ws_connect (cnx : option Stream) (req : outcome string Request)
    (handshake : Request → Stream → outcome string (UpgradedIo Tcp Tls TlsSrv * HeaderMap))
    (mask_frame : bool)
    : option Stream * list Stream * outcome string (WsTunnel Tcp Tls TlsSrv * HeaderMap) :=
  match req with
  | Err e => (cnx, [], Err e)
  | Panic => (cnx, [], Panic)
  | Ok req =>
      match cnx with
      | None => (None, [], Panic)
      | Some transport =>
          (None, [transport],
           '(ws, response) ← handshake req transport;
           tunnel ← mk_websocket_tunnel ws RoleClient mask_frame;
           Ok (tunnel, response))
      end
  end.

(** The same for [http2::connect]: after the handshake a task that drives the connection is
    spawned; a status other than 2xx is an error. *)
Definition http2_connect (cnx : option Stream) (req : outcome string Request)
    (handshake : Stream → outcome string unit)
    (send_request : Request → outcome string (Z * HeaderMap))
    : option Stream * list Stream * outcome string HeaderMap :=
  match req with
  | Err e => (cnx, [], Err e)
  | Panic => (cnx, [], Panic)
  | Ok req =>
      match cnx with
      | None => (None, [], Panic)
      | Some transport =>
          (None, [transport],
           _ ← handshake transport;
           '(status, response) ← send_request req;
           if negb (is_success status) then Err "Http2 server rejected the connection"
           else Ok response)
      end
  end.

(** ** The client while it runs *)

(** An attempt to open a tunnel, over either transport. *)
Inductive Attempt :=
| AtWs (req : outcome string Request)
    (handshake : Request → Stream → outcome string (UpgradedIo Tcp Tls TlsSrv * HeaderMap)) (mask : bool)
| AtHttp2 (req : outcome string Request) (handshake : Stream → outcome string unit)
    (send_request : Request → outcome string (Z * HeaderMap)).

Definition attempt_request (a : Attempt) : outcome string Request :=
  match a with AtWs req _ _ | AtHttp2 req _ _ => req end.

(** The connection after the attempt and the streams it gave to a handshake. *)
Definition attempt (a : Attempt) (cnx : option Stream) : option Stream * list Stream :=
  match a with
  | AtWs req handshake mask => fst (ws_connect cnx req handshake mask)
  | AtHttp2 req handshake send => fst (http2_connect cnx req handshake send)
  end.
(** [take().unwrap()] finds nothing. *)
Definition take_panics (a : Attempt) (cnx : option Stream) : bool :=
  is_ok (attempt_request a) && pool_has_broken cnx.

(** Connections that are out of the pool, with whether their attempt has run; the streams
    that were opened, and the ones given to a handshake. *)
Record ClientState := mkClient {
  cl_pool : Pool;
  cl_held : list (option Stream * bool);
  cl_made : list Stream;
  cl_used : list Stream
}.
Definition client_new : ClientState := mkClient bb8_new [] [] [].

(** The steps of the pool and of the tasks that open tunnels, in any order.  Two
    connections opened at different times are different; a task may be dropped before it
    has used its connection. *)
Inductive client_step : ClientState → ClientState → Prop :=
| cl_opened st direct proxied tls_connect http_proxy addr s :
    pool_connect direct proxied tls_connect http_proxy addr = Ok (Some s) → s ∉ cl_made st →
    client_step st (mkClient (bb8_add (Some s) (cl_pool st)) (cl_held st) (s :: cl_made st) (cl_used st))
| cl_reaped st :
    client_step st (mkClient (bb8_reap (cl_pool st)) (cl_held st) (cl_made st) (cl_used st))
| cl_got st cnx p :
    bb8_get (cl_pool st) = Some (cnx, p) → pool_is_valid cnx = Ok () →
    client_step st (mkClient p ((cnx, false) :: cl_held st) (cl_made st) (cl_used st))
| cl_ran st l1 cnx l2 a :
    cl_held st = l1 ++ (cnx, false) :: l2 →
    client_step st (mkClient (cl_pool st) (l1 ++ (fst (attempt a cnx), true) :: l2) (cl_made st)
                      (snd (attempt a cnx) ++ cl_used st))
| cl_dropped st l1 cnx ran l2 :
    cl_held st = l1 ++ (cnx, ran) :: l2 →
    client_step st (mkClient (bb8_put pool_has_broken cnx (cl_pool st)) (l1 ++ l2) (cl_made st) (cl_used st)).

(** *** Exclusive use *)

(** The streams of some connections. *)
Definition streams (cs : list (option Stream)) : list Stream := omap id cs.

(** Every stream is in one place only. *)
Record client_inv (st : ClientState) : Prop := {
  inv_nodup : NoDup (cl_used st ++ streams (bb8_idle (cl_pool st)) ++ streams (cl_held st).*1);
  inv_made : cl_used st ++ streams (bb8_idle (cl_pool st)) ++ streams (cl_held st).*1 ⊆ cl_made st;
  inv_idle : None ∉ bb8_idle (cl_pool st);
  inv_held : (None, false) ∉ cl_held st;
  inv_empty : Forall (λ s, read_buf (ts_read s) = "") (cl_made st)
}.

Lemma streams_submseteq cs cs' : cs ⊆+ cs' → streams cs ⊆+ streams cs'.
Proof.
  unfold streams. induction 1 as [|x l l' _ IH|x y l|x l l' _ IH|l1 l2 l3 _ IH1 _ IH2]; cbn.
  - done.
  - destruct x; cbn; [by apply submseteq_skip|done].
  - destruct x, y; cbn; try done. apply submseteq_swap.
  - destruct x; cbn; [by apply submseteq_cons|done].
  - by etrans.
Qed.

(** Moving streams between the places, or closing some, keeps the invariant. *)
Lemma NoDup_submseteq {A} (l k : list A) : l ⊆+ k → NoDup k → NoDup l.
Proof.
  intros Hs Hk. induction Hs as [|x l k Hs IH|x y l|x l k _ IH|l1 l2 l3 _ IH1 _ IH2].
  - done.
  - apply NoDup_cons in Hk as [Hx Hk]. apply NoDup_cons. split; [|auto].
    intros Hin. apply Hx. by eapply elem_of_submseteq.
  - rewrite !NoDup_cons, !elem_of_cons in *. naive_solver.
  - apply NoDup_cons in Hk as [_ Hk]. auto.
  - auto.
Qed.

Lemma client_inv_moves st p held used :
  client_inv st →
  used ++ streams (bb8_idle p) ++ streams held.*1
    ⊆+ cl_used st ++ streams (bb8_idle (cl_pool st)) ++ streams (cl_held st).*1 →
  None ∉ bb8_idle p → (None, false) ∉ held →
  client_inv (mkClient p held (cl_made st) used).
Proof.
  intros [Hn Hm Hi Hh He] Hs Hi' Hh'. split; cbn; [|..|done|done|done].
  - by eapply NoDup_submseteq.
  - intros s Hin. apply Hm. by eapply elem_of_submseteq.
Qed.

Context `{!Bb8Laws (option Stream)}.

Lemma moved_front {A} (s : A) l1 l2 l3 l4 :
  l1 ++ l2 ++ l3 ++ s :: l4 ≡ₚ s :: l1 ++ l2 ++ l3 ++ l4.
Proof. rewrite !(assoc_L (++)). by rewrite <-Permutation_middle. Qed.

Lemma attempt_cases a cnx :
  take_panics a cnx = false →
  attempt a cnx = (cnx, []) ∨ ∃ s, cnx = Some s ∧ attempt a cnx = (None, [s]).
Proof.
  unfold take_panics, attempt. destruct a as [req hs m|req hs send], cnx as [s|]; cbn;
    unfold ws_connect, http2_connect; destruct req; cbn; try done; eauto.
Qed.

(** A connection just opened has a new stream, with nothing read yet. *)
Lemma client_inv_opened st s :
  client_inv st → s ∉ cl_made st → read_buf (ts_read s) = "" →
  client_inv (mkClient (bb8_add (Some s) (cl_pool st)) (cl_held st) (s :: cl_made st) (cl_used st)).
Proof.
  intros [Hn Hm Hi Hh He] Hs Hb.
  pose proof (bb8_idle_add (Some s) (cl_pool st)) as Hadd.
  pose proof (streams_submseteq _ _ Hadd) as Hsub. cbn in Hsub.
  assert (cl_used st ++ streams (bb8_idle (bb8_add (Some s) (cl_pool st))) ++ streams (cl_held st).*1
    ⊆+ s :: cl_used st ++ streams (bb8_idle (cl_pool st)) ++ streams (cl_held st).*1) as Hall.
  { rewrite (Permutation_middle (cl_used st)). apply submseteq_app; [done|].
    rewrite app_comm_cons. by apply submseteq_app. }
  split; cbn; [| | |done|by constructor].
  - eapply NoDup_submseteq; [exact Hall|]. apply NoDup_cons. split; [|done]. intros Hin. by apply Hs, Hm.
  - intros x Hx. apply (elem_of_submseteq _ _ _ Hx) in Hall. set_solver.
  - intros Hin. apply (elem_of_submseteq _ _ _ Hin) in Hadd. set_solver.
Qed.

Lemma client_inv_ran st l1 cnx l2 a :
  client_inv st → cl_held st = l1 ++ (cnx, false) :: l2 →
  client_inv (mkClient (cl_pool st) (l1 ++ (fst (attempt a cnx), true) :: l2) (cl_made st)
                (snd (attempt a cnx) ++ cl_used st)).
Proof.
  intros Hinv Hl. pose proof Hinv as [_ _ Hi Hh _]. rewrite Hl in Hh. assert (is_Some cnx) as [s ->].
  { destruct cnx; [done|]. exfalso. apply Hh. set_solver. }
  apply client_inv_moves; [done| |done|].
  - rewrite Hl. rewrite !fmap_app, !fmap_cons. unfold streams. rewrite !omap_app. cbn.
    destruct (attempt_cases a (Some s)) as [->|(s'&[= <-]&->)]; [by unfold take_panics; destruct (is_ok _)| |];
      cbn; [done|].
    by rewrite (moved_front s).
  - intros [Hin|[[=]|Hin]%elem_of_cons]%elem_of_app; apply Hh; set_solver.
Qed.

Lemma client_inv_dropped st l1 cnx ran l2 :
  client_inv st → cl_held st = l1 ++ (cnx, ran) :: l2 →
  client_inv (mkClient (bb8_put pool_has_broken cnx (cl_pool st)) (l1 ++ l2) (cl_made st) (cl_used st)).
Proof.
  intros Hinv Hl. pose proof Hinv as [_ _ Hi Hh _].
  pose proof (bb8_idle_put pool_has_broken cnx (cl_pool st)) as Hput.
  apply client_inv_moves; [done| | |].
  - rewrite Hl, !fmap_app, !fmap_cons. unfold streams. rewrite !omap_app. cbn.
    apply streams_submseteq in Hput. unfold streams in Hput. destruct cnx as [s|]; cbn in *.
    + rewrite (moved_front s), (Permutation_middle (cl_used st)).
      apply submseteq_app; [done|]. rewrite app_comm_cons. by apply submseteq_app.
    + apply submseteq_app; [done|]. by apply submseteq_app.
  - intros Hin. apply (elem_of_submseteq _ _ _ Hin) in Hput. destruct cnx; cbn in Hput; set_solver.
  - intros Hin. apply Hh. rewrite Hl. set_solver.
Qed.

Lemma client_inv_step st st' : client_step st st' → client_inv st → client_inv st'.
Proof.
  intros Hs Hinv. pose proof Hinv as [_ _ Hi Hh _].
  destruct Hs as [st dir prox tls hp addr s Hc Hs|st|st cnx p Hg _|st l1 cnx l2 a Hl|st l1 cnx ran l2 Hl].
  - apply client_inv_opened; [done..|]. unfold pool_connect in Hc. apply bind_ok_inv in Hc as (tcp&_&Hc).
    destruct (addr_tls addr); [apply bind_ok_inv in Hc as (?&_&Hc)|]; by injection Hc as <-.
  - apply client_inv_moves; [done| | |done].
    + apply submseteq_app; [done|]. apply submseteq_app; [|done]. apply streams_submseteq, bb8_idle_reap.
    + intros Hin. apply Hi. eapply elem_of_submseteq; [exact Hin|apply bb8_idle_reap].
  - apply bb8_idle_get in Hg. assert (is_Some cnx) as [s ->].
    { destruct cnx; [done|]. exfalso. apply Hi. eapply elem_of_submseteq; [|exact Hg]. by left. }
    apply client_inv_moves; [done| | |].
    + apply submseteq_app; [done|]. cbn. rewrite <-Permutation_middle, app_comm_cons.
      apply submseteq_app; [|done]. by apply streams_submseteq in Hg.
    + intros Hin. apply Hi. eapply elem_of_submseteq; [|exact Hg]. by right.
    + rewrite elem_of_cons. by intros [[=]|?].
  - by apply client_inv_ran.
  - by eapply client_inv_dropped.
Qed.

Lemma client_inv_reachable st : rtc client_step client_new st → client_inv st.
Proof.
  intros Hr. assert (client_inv client_new) as Hinit.
  { split; cbn; rewrite ?bb8_idle_new; cbn; [constructor|set_solver|set_solver|set_solver|constructor]. }
  revert Hr. generalize client_new Hinit. intros st0 Hi. induction 1; eauto using client_inv_step.
Qed.

(** ** Properties *)

(** C19: A connection to the server carries one tunnel: in every interleaving of tunnels that
    are opened, dropped or refused and of connections the pool opens and closes, no stream
    is ever given to two handshakes, none that was used is idle again, the [unwrap] on a
    connection of the pool never fails, and the streams it gives hold no byte read before. *)
Theorem pool_streams_exclusive st :
  rtc client_step client_new st →
  NoDup (cl_used st)
  ∧ (∀ s, s ∈ cl_used st → Some s ∉ bb8_idle (cl_pool st))
  ∧ (∀ cnx a, (cnx, false) ∈ cl_held st → take_panics a cnx = false)
  ∧ (∀ s, s ∈ cl_used st → read_buf (ts_read s) = "").
Proof.
  intros [Hn Hm Hi Hh He]%client_inv_reachable. apply NoDup_app in Hn as (Hn&Hd&_). split_and!.
  - done.
  - intros s Hs Hin. apply (Hd s Hs). apply elem_of_app. left. unfold streams.
    apply list_elem_of_omap. by exists (Some s).
  - intros [s|] a Hin; [|done]. unfold take_panics. cbn. by rewrite andb_false_r.
  - intros s Hs. rewrite Forall_forall in He. apply He, Hm. set_solver.
Qed.
End Client.

Section TunnelReads.
Context {Tcp Tls TlsSrv : Type}.
Context `{!AsyncRead Tcp, !AsyncRead Tls, !AsyncRead TlsSrv}.

(** C28: Nothing the other side sends right after the handshake is lost: what the HTTP
    library has read too far is what the tunnel reads first, whatever the sizes of its
    reads, and then it reads the connection, on both sides and over both TCP and TLS. *)
Theorem tunnel_reads_leftover_first (ws : UpgradedIo Tcp Tls TlsSrv) role mask t polls :
  mk_websocket_tunnel ws role mask = Ok t →
  ∃ k, (k ≤ length polls)%nat
    ∧ snd (reads (wt_read t) polls) +:+ read_buf (fst (reads (wt_read t) polls))
      = upgraded_buf ws +:+ connection_reads (wt_read t) (drop k polls)
    ∧ (read_buf (fst (reads (wt_read t) polls)) ≠ "" → k = length polls).
Proof.
  intros Ht. assert (read_buf (wt_read t) = upgraded_buf ws) as <-; [|apply reads_buffer_first].
  revert Ht. by destruct role, ws as [[[] ?] ?| | |]; intros [= <-].
Qed.
End TunnelReads.

(** ** Witnesses *)

(** A pool that keeps what it is given. *)
#[global] Instance toy_bb8 (C : Type) : Bb8Api C :=
  {| Pool := list C; bb8_idle p := p; bb8_new := []; bb8_add c p := c :: p;
     bb8_get p := match p with c :: p => Some (c, p) | [] => None end;
     bb8_put broken c p := if broken c then p else c :: p; bb8_reap p := p |}.
#[global] Instance toy_bb8_laws (C : Type) : Bb8Laws C.
Proof.
  split; cbn; [done|done| |intros broken c p; by destruct (broken c)|done].
  intros c [|x p] p' [=]. by subst.
Qed.

(** Connections are the bytes they will give. *)
#[global] Instance toy_stream : AsyncRead string :=
  {| poll_read s n := (drop_str n s, take_str n s, Ready (Ok ())) |}.

Definition toy_tcp : TransportStream string string string := from_tcp "server" "".
Definition toy_attempt : Attempt (Tcp := string) (Tls := string) (TlsSrv := string) :=
  AtHttp2 (Ok (mkRequest "GET" ("/" : @Uri toy_http_api) HTTP_2 hm_empty)) (λ _, Ok ()) (λ _, Err "closed").

Lemma pool_streams_exclusive_witness :
  ∃ st, rtc (client_step (T := unit)) client_new st ∧ cl_used st = [toy_tcp] ∧ NoDup (cl_used st).
Proof.
  assert (∃ st, rtc (client_step (T := unit)) client_new st ∧ cl_used st = [toy_tcp]) as (st&Hr&Hu).
  { eexists. split.
    - eapply rtc_l; [apply (cl_opened _ (λ _ _, Ok "server") (λ _ _ _, Err "") (λ _ _, Err "") None
        (AddrWs Ws (Domain "server") 80) toy_tcp); [reflexivity|apply not_elem_of_nil]|].
      eapply rtc_l; [eapply (cl_got _ (Some toy_tcp)); reflexivity|].
      eapply rtc_l; [apply (cl_ran _ [] (Some toy_tcp) [] toy_attempt); reflexivity|].
      eapply rtc_l; [apply (cl_dropped _ [] None true []); reflexivity|]. apply rtc_refl.
    - reflexivity. }
  exists st. split; [exact Hr|]. split; [exact Hu|]. apply (pool_streams_exclusive st Hr).
Defined.

Lemma tunnel_reads_leftover_first_witness :
  ∃ t, mk_websocket_tunnel (UpTransport toy_tcp "frame") RoleClient true = Ok t
    ∧ snd (reads (wt_read t) [2; 9; 3]%nat) = "frameser"
    ∧ ∃ k, (k ≤ 3)%nat ∧ "frameser" = "frame" +:+ connection_reads (wt_read t) (drop k [2; 9; 3]%nat).
Proof.
  eexists. split; [reflexivity|]. split; [reflexivity|].
  destruct (tunnel_reads_leftover_first (UpTransport toy_tcp "frame") RoleClient true _ [2; 9; 3]%nat eq_refl)
    as (k&Hk&Heq&_).
  exists k. split; [exact Hk|]. exact Heq.
Defined.
