(* ===== verification/Connect.v ===== *)
(** * Connect: name resolution and outgoing connections

    Models [src/wstunnel/src/protocols/dns/resolver.rs] (order of the addresses, choice of
    the resolver), the connection attempts of [protocols/tcp/server.rs] and
    [protocols/udp/server.rs] (RFC 8305), and the CONNECT exchange with an HTTP proxy.

    The outside is an argument: what each socket and each attempt gives, and when. *)

From Stdlib Require Import ZArith Lia Ascii String.
From stdpp Require Import base gmap strings list sorting.
From S2P Require Import Prelude Str Net Apis ApiModels Jwt Request.

#[local] Open Scope stdpp_scope.

(** ** Order of the addresses *)

(** The iterator of [from_fn]: families alternate as long as both have addresses.  Each
    step takes one address, so [fuel] is the number of addresses. *)
Fixpoint interleave (fuel : nat) (pick_v6 : bool) (v6 v4 : list SocketAddr) : list SocketAddr :=
  match fuel with
  | 0%nat => []
  | S fuel =>
      let pick_v6 := negb pick_v6 in
      if pick_v6
      then match v6, v4 with
           | a :: v6, _ => a :: interleave fuel pick_v6 v6 v4
           | [], a :: v4 => a :: interleave fuel pick_v6 [] v4
           | [], [] => []
           end
      else match v4, v6 with
           | a :: v4, _ => a :: interleave fuel pick_v6 v6 v4
           | [], a :: v6 => a :: interleave fuel pick_v6 v6 []
           | [], [] => []
           end
  end.

Definition sort_socket_addrs (socket_addrs : list SocketAddr) (prefer_ipv6 : bool)
    : list SocketAddr :=
  interleave (length socket_addrs) (negb prefer_ipv6)
    (filter (λ a, is_sock_v6 a = true) socket_addrs)
    (filter (λ a, is_sock_v6 a = false) socket_addrs).

(** [DnsResolver]: the name servers of the second variant are its configuration. *)
Inductive DnsProtocol := DnsUdp | DnsHttps | DnsTls.
Record NameServerConfig := mkNs {
  ns_socket : SocketAddr;
  ns_protocol : DnsProtocol;
  ns_tls_dns_name : option string
}.
Inductive DnsResolver :=
| SystemDns
| TrustDns (servers : option (list NameServerConfig)) (prefer_ipv6 : bool).

(** [libc] and [resolver] are what the two resolvers answer for a domain. *)
Definition lookup_host (libc : string → outcome string (list SocketAddr))
    (resolver : string → outcome string (list IpAddr)) (dns : DnsResolver) (domain : string)
    (port : Z) : outcome string (list SocketAddr) :=
  match dns with
  | SystemDns => libc (domain +:+ ":" +:+ show port)
  | TrustDns _ prefer_ipv6 =>
      ips ← resolver domain;
      Ok (sort_socket_addrs ((λ ip, sock_new ip port) <$> ips) prefer_ipv6)
  end.

Section Resolvers.
Context `{HostApi, UrlApi}.

Definition get_sni (resolver : Url) : outcome string string :=
  kv ← ok_or "Missing `sni` query parameter for dns over https"
         (find (λ kv, String.eqb (fst kv) "sni") (url_query_pairs resolver));
  Ok (snd kv).

Definition url_to_ns_config (resolver : Url) : outcome string NameServerConfig :=
  '(protocol, port, tls_sni) ←
    (if String.eqb (url_scheme resolver) "dns"
     then Ok (DnsUdp, default 53 (url_port resolver), None)
     else if String.eqb (url_scheme resolver) "dns+https"
     then sni ← get_sni resolver; Ok (DnsHttps, default 443 (url_port resolver), Some sni)
     else if String.eqb (url_scheme resolver) "dns+tls"
     then sni ← get_sni resolver; Ok (DnsTls, default 853 (url_port resolver), Some sni)
     else Err "invalid protocol for dns resolver");
  host ← ok_or "Invalid dns resolver host" (url_host resolver);
  sock ← match host with
         | Domain host =>
             match host_parse host with
             | Some (Ipv4 ip) => Ok (SockV4 ip port)
             | Some (Ipv6 ip) => Ok (SockV6 ip port 0 0)
             | Some (Domain _) | None => Err "Dns resolver must be an ip address"
             end
         | Ipv4 ip => Ok (SockV4 ip port)
         | Ipv6 ip => Ok (SockV6 ip port 0 0)
         end;
  Ok (mkNs sock protocol tls_sni).

(** [system_conf] says whether [read_system_conf] succeeds. *)
Definition new_from_urls (system_conf : bool) (resolvers : list Url) (prefer_ipv6 : bool)
    : outcome string DnsResolver :=
  match resolvers with
  | [] => Ok (if system_conf then TrustDns None prefer_ipv6 else SystemDns)
  | _ =>
      if existsb (λ r, String.eqb (url_scheme r) "system") resolvers then Ok SystemDns
      else servers ← collect url_to_ns_config resolvers;
           Ok (TrustDns (Some servers) prefer_ipv6)
  end.
End Resolvers.

(** ** Connection attempts *)

(** What making and configuring a socket for an address gives. *)
Inductive SocketResult := SockCreated | SockNotCreated | SockNotConfigured.
(** What connecting it gives.  [peer_addr] is only asked for when debug logs are on;
    [peer_addr_ok] is [true] otherwise. *)
Inductive DialResult {Io : Type} := DConnected (io : Io) (peer_addr_ok : bool) | DFailed.
Arguments DialResult Io : clear implicits.

Section Dial.
Context {Io : Type}.

Record Dial := mkDial {
  d_socket : SocketResult;
  d_result : DialResult Io;
  d_time : Duration
}.

(** The end of a task of the join set: connected, refused, or timed out. *)
Inductive TaskEnd := TConnected (io : Io) (peer_addr_ok : bool) | TRefused | TTimedOut.

(** The task of the address of index [ix]: it waits, then connects under the timeout. *)
Definition dial_task (connect_timeout : Duration) (ix : nat) (d : Dial) : Duration * TaskEnd :=
  let start := if Nat.ltb 0 ix then from_millis (250 * Z.of_nat ix) else 0 in
  if d_time d <=? connect_timeout
  then (start + d_time d,
        match d_result d with DConnected io p => TConnected io p | DFailed => TRefused end)
  else (start + connect_timeout, TTimedOut).

(** The loop that makes the sockets and spawns the tasks; a socket that cannot be
    configured ends the whole function. *)
Fixpoint spawn_tasks (connect_timeout : Duration) (ix : nat) (dials : list Dial)
    : outcome string (list (Duration * TaskEnd)) :=
  match dials with
  | [] => Ok []
  | d :: dials =>
      match d_socket d with
      | SockNotCreated => spawn_tasks connect_timeout (S ix) dials
      | SockNotConfigured => Err "cannot configure socket"
      | SockCreated =>
          tasks ← spawn_tasks connect_timeout (S ix) dials;
          Ok (dial_task connect_timeout ix d :: tasks)
      end
  end.

(** [join_next]: tasks end in the order of their times. *)
Definition ends_before (a b : Duration * TaskEnd) : Prop := fst a ≤ fst b.
#[global] Instance ends_before_dec a b : Decision (ends_before a b).
Proof. apply Z.le_dec. Defined.

Fixpoint join_loop (ends : list (Duration * TaskEnd)) : outcome string Io :=
  match ends with
  | [] => Err "Cannot connect to endpoint"
  | (_, TConnected io peer_addr_ok) :: _ => if peer_addr_ok then Ok io else Err "peer_addr"
  | (_, (TRefused | TTimedOut)) :: ends => join_loop ends
  end.

Definition connect_addrs (connect_timeout : Duration) (dials : list Dial) : outcome string Io :=
  tasks ← spawn_tasks connect_timeout 0 dials;
  join_loop (merge_sort ends_before tasks).

(** [protocols::tcp::connect] and [protocols::udp::connect]: [world] is what happens at an
    address, [lookup] the resolver. *)
Definition socket_addrs (lookup : string → Z → outcome string (list SocketAddr)) (host : Host)
    (port : Z) : outcome string (list SocketAddr) :=
  match host with
  | Domain domain => lookup domain port
  | Ipv4 ip => Ok [SockV4 ip port]
  | Ipv6 ip => Ok [SockV6 ip port 0 0]
  end.

Definition tcp_connect (lookup : string → Z → outcome string (list SocketAddr))
    (world : SocketAddr → Dial) (connect_timeout : Duration) (host : Host) (port : Z)
    : outcome string Io :=
  addrs ← socket_addrs lookup host port;
  connect_addrs connect_timeout (world <$> addrs).

Definition udp_connect (lookup : string → Z → outcome string (list SocketAddr))
    (world : SocketAddr → Dial) (connect_timeout : Duration) (host : Host) (port : Z)
    : outcome string Io :=
  addrs ← socket_addrs lookup host port;
  connect_addrs connect_timeout (world <$> addrs).
End Dial.
Arguments Dial Io : clear implicits.
Arguments TaskEnd Io : clear implicits.

(** ** Through an HTTP proxy *)

Definition CRLF : string := String "013" (String "010" "").
Definition END_HTTP_RESPONSE : string := CRLF +:+ CRLF.
Definition MAX_PROXY_RESPONSE : nat := 50 * 1024.

(** The results of [read_buf]: bytes (none when the proxy closes), an error, a timeout. *)
Inductive ProxyRead := PData (s : string) | PError | PElapsed.

(** The loop that reads the response; [None] waits for more.  Returns the response and the
    reads that are left for the tunnel. *)
Fixpoint proxy_read_loop (buf : string) (reads : list ProxyRead)
    : option (outcome string (string * list ProxyRead)) :=
  match reads with
  | [] => None
  | PData "" :: _ => Some (Err "Proxy closed the connection without returning any response")
  | PData s :: reads =>
      let buf := buf +:+ s in
      if Nat.ltb MAX_PROXY_RESPONSE (String.length buf) || contains END_HTTP_RESPONSE buf
      then Some (Ok (buf, reads))
      else proxy_read_loop buf reads
  | PError :: _ => Some (Err "Cannot connect to http proxy")
  | PElapsed :: _ => Some (Err "Proxy took too long to connect")
  end.

(** The test on the response. *)
Definition proxy_accepts (buf : string) : bool :=
  contains "HTTP/1.0 200 " buf || contains "HTTP/1.1 200 " buf.

Section Proxy.
Context `{HostApi, UrlApi, Base64Api}.
Context {Io : Type}.
(** [urlencoding::decode]. *)
Context (url_decode : string → option string).

Definition proxy_authorization (proxy : Url) : outcome string string :=
  match url_password proxy with
  | Some password =>
      user ← ok_or "Cannot urldecode proxy user" (url_decode (url_username proxy));
      password ← ok_or "Cannot urldecode proxy password" (url_decode password);
      Ok ("Proxy-Authorization: Basic " +:+ b64_encode (user +:+ ":" +:+ password) +:+ CRLF)
  | None => Ok ""
  end.

Definition connect_request (host : Host) (port : Z) (authorization : string) : string :=
  let target := host_to_string host +:+ ":" +:+ show port in
  "CONNECT " +:+ target +:+ " HTTP/1.0" +:+ CRLF +:+ "Host: " +:+ target +:+ CRLF
  +:+ authorization +:+ CRLF.

(** The request, the connection, and the reads left for the tunnel.  [reads] is what the
    connection to the proxy gives, [write_ok] whether the request can be written. *)
Definition connect_with_http_proxy (dial : Host → Z → outcome string Io)
    (reads : Io → list ProxyRead) (write_ok : bool) (proxy : Url) (host : Host) (port : Z)
    : option (outcome string (string * Io * list ProxyRead)) :=
  match (proxy_host ← ok_or "Cannot parse proxy host" (url_host proxy);
         socket ← dial proxy_host (default 80 (url_port_or_known_default proxy));
         authorization ← proxy_authorization proxy;
         if write_ok then Ok (socket, connect_request host port authorization) else Err "write")
  with
  | Ok (socket, request) =>
      match proxy_read_loop "" (reads socket) with
      | None => None
      | Some (Ok (buf, rest)) =>
          if proxy_accepts buf then Some (Ok (request, socket, rest))
          else Some (Err "Proxy returned an invalid response")
      | Some (Err e) => Some (Err e)
      | Some Panic => Some Panic
      end
  | Err e => Some (Err e)
  | Panic => Some Panic
  end.
End Proxy.

(** ** TLS to the server *)

Section Pool.
Context `{UrlApi}.
Context {T Io : Type}.

(** [ServerName], and the name a certificate is checked against; [dns_name] says which
    texts are DNS names. *)
Inductive ServerName := DnsName (name : string) | IpAddress (ip : IpAddr).
Definition INVALID_DNS_NAME : string := "dns-name-invalid.com".

Definition tls_server_name (dns_name : string → bool) (tls_sni_override : T → option string)
    (addr : TransportAddr T) : ServerName :=
  match (tls ← addr_tls addr; tls_sni_override tls) with
  | Some sni_override => DnsName sni_override
  | None => match addr_host addr with
            | Domain domain => DnsName (if dns_name domain then domain else INVALID_DNS_NAME)
            | Ipv4 ip => IpAddress (IpV4 ip)
            | Ipv6 ip => IpAddress (IpV6 ip)
            end
  end.

(** [protocols::tls::connect]: [handshake] is rustls. *)
Definition tls_connect (dns_name : string → bool) (tls_sni_override : T → option string)
    (handshake : T → ServerName → Io → outcome string Io) (addr : TransportAddr T) (tcp_stream : Io)
    : outcome string Io :=
  let sni := tls_server_name dns_name tls_sni_override addr in
  match addr_tls addr with
  | Some tls => handshake tls sni tcp_stream
  | None => Err "Transport does not support TLS"
  end.
End Pool.

(** ** Order of the addresses: theorems *)

Lemma interleave_families fuel pick v6 v4 :
  Forall (λ a, is_sock_v6 a = true) v6 → Forall (λ a, is_sock_v6 a = false) v4 →
  (length v6 + length v4 ≤ fuel)%nat →
  filter (λ a, is_sock_v6 a = true) (interleave fuel pick v6 v4) = v6
  ∧ filter (λ a, is_sock_v6 a = false) (interleave fuel pick v6 v4) = v4.
Proof.
  revert pick v6 v4. induction fuel as [|fuel IH]; intros pick v6 v4 H6 H4 Hlen.
  { destruct v6, v4; cbn in Hlen; try lia. done. }
  cbn [interleave]. destruct (negb pick).
  - destruct v6 as [|a v6].
    + destruct v4 as [|b v4]; [done|]. inversion H4 as [|? ? Hb H4']; subst.
      destruct (IH true [] v4 ltac:(constructor) H4' ltac:(cbn in *; lia)) as [E6 E4].
      rewrite !filter_cons, Hb. cbn. by rewrite E6, E4.
    + inversion H6 as [|? ? Ha H6']; subst.
      destruct (IH true v6 v4 H6' H4 ltac:(cbn in *; lia)) as [E6 E4].
      rewrite !filter_cons, Ha. cbn. by rewrite E6, E4.
  - destruct v4 as [|b v4].
    + destruct v6 as [|a v6]; [done|]. inversion H6 as [|? ? Ha H6']; subst.
      destruct (IH false v6 [] H6' ltac:(constructor) ltac:(cbn in *; lia)) as [E6 E4].
      rewrite !filter_cons, Ha. cbn. by rewrite E6, E4.
    + inversion H4 as [|? ? Hb H4']; subst.
      destruct (IH false v6 v4 H6 H4' ltac:(cbn in *; lia)) as [E6 E4].
      rewrite !filter_cons, Hb. cbn. by rewrite E6, E4.
Qed.

Lemma filter_v6_Forall (b : bool) addrs :
  Forall (λ a, is_sock_v6 a = b) (filter (λ a, is_sock_v6 a = b) addrs).
Proof. apply Forall_forall. intros a Ha. by apply list_elem_of_filter in Ha as [? _]. Qed.

(** Two lists of addresses with the same families are permutations. *)
Lemma families_permutation (l : list SocketAddr) :
  Permutation l (filter (λ a, is_sock_v6 a = true) l ++ filter (λ a, is_sock_v6 a = false) l).
Proof.
  induction l as [|a l IH]; [done|]. rewrite !filter_cons. destruct (is_sock_v6 a); cbn.
  - by constructor.
  - by apply Permutation_cons_app.
Qed.

(** The addresses are all tried, each once: the sorted list is a permutation, keeps the
    resolver's order within each family, and starts with the preferred family if there is
    an address of it. *)
Theorem sort_socket_addrs_spec addrs prefer_ipv6 :
  let sorted := sort_socket_addrs addrs prefer_ipv6 in
  Permutation sorted addrs
  ∧ (∀ b, filter (λ a, is_sock_v6 a = b) sorted = filter (λ a, is_sock_v6 a = b) addrs)
  ∧ (filter (λ a, is_sock_v6 a = prefer_ipv6) addrs ≠ [] →
     ∃ a rest, sorted = a :: rest ∧ is_sock_v6 a = prefer_ipv6).
Proof.
  intros sorted. pose proof (filter_v6_Forall true addrs) as H6.
  pose proof (filter_v6_Forall false addrs) as H4.
  assert (length (filter (λ a, is_sock_v6 a = true) addrs)
          + length (filter (λ a, is_sock_v6 a = false) addrs) = length addrs)%nat as Hlen.
  { rewrite <-length_app. by rewrite <-(families_permutation addrs). }
  destruct (interleave_families (length addrs) (negb prefer_ipv6) _ _ H6 H4 ltac:(lia)) as [E6 E4].
  fold (sort_socket_addrs addrs prefer_ipv6) in E6, E4. fold sorted in E6, E4.
  split_and!.
  - rewrite (families_permutation sorted), E6, E4. by rewrite <-families_permutation.
  - intros []; done.
  - intros Hne. unfold sorted, sort_socket_addrs.
    destruct (length addrs) as [|n] eqn:Hl.
    { destruct addrs; [|done]. done. }
    cbn [interleave]. rewrite negb_involutive. destruct prefer_ipv6.
    + destruct (filter _ addrs) as [|a l] eqn:Hf; [done|]. inversion H6; subst. eauto.
    + destruct (filter (λ a, is_sock_v6 a = false) addrs) as [|a l] eqn:Hf; [done|].
      inversion H4; subst. eauto.
Qed.

(** ** Connection attempts: theorems *)

Section DialTheorems.
Context {Io : Type}.
Implicit Types (d : Dial Io) (dials : list (Dial Io)).

Lemma spawn_tasks_elem timeout ix dials tasks x :
  spawn_tasks timeout ix dials = Ok tasks →
  x ∈ tasks ↔ ∃ i d, dials !! i = Some d ∧ d_socket d = SockCreated
                ∧ x = dial_task timeout (ix + i) d.
Proof.
  revert ix tasks. induction dials as [|d dials IH]; intros ix tasks; cbn [spawn_tasks].
  - intros [= <-]. split; [by intros ?%elem_of_nil|]. intros (i&d&Hi&_). by rewrite lookup_nil in Hi.
  - assert ((∃ i d', (d :: dials) !! i = Some d' ∧ d_socket d' = SockCreated
              ∧ x = dial_task timeout (ix + i) d')
            ↔ (d_socket d = SockCreated ∧ x = dial_task timeout ix d)
              ∨ (∃ i d', dials !! i = Some d' ∧ d_socket d' = SockCreated
                  ∧ x = dial_task timeout (S ix + i) d')) as Hcons.
    { split.
      - intros ([|i]&d'&Hi&Hs&->); [left|right].
        + injection Hi as ->. by rewrite Nat.add_0_r.
        + exists i, d'. split_and!; [done..|]. f_equal. lia.
      - intros [[Hs ->]|(i&d'&Hi&Hs&->)].
        + exists 0%nat, d. by rewrite Nat.add_0_r.
        + exists (S i), d'. split_and!; [done..|]. f_equal. lia. }
    rewrite Hcons. destruct (d_socket d) eqn:Hs; [| |done].
    + rewrite bind_ok_inv. intros (tasks'&Ht&[= <-]). rewrite elem_of_cons, (IH _ _ Ht).
      naive_solver.
    + intros Ht. rewrite (IH _ _ Ht). naive_solver.
Qed.

Lemma spawn_tasks_ok timeout ix dials :
  Forall (λ d, d_socket d ≠ SockNotConfigured) dials → ∃ tasks, spawn_tasks timeout ix dials = Ok tasks.
Proof.
  intros Hd. revert ix. induction Hd as [|d dials Hs Hd IH]; intros ix; cbn [spawn_tasks]; [eauto|].
  destruct (IH (S ix)) as [tasks Ht]. rewrite Ht. destruct (d_socket d); [cbn; eauto|eauto|done].
Qed.

Lemma join_loop_ok (ends : list (Duration * TaskEnd Io)) io :
  (∀ t io' p, (t, TConnected io' p) ∈ ends → p = true) → StronglySorted ends_before ends →
  join_loop ends = Ok io →
  ∃ t, (t, TConnected io true) ∈ ends
     ∧ ∀ t' io', (t', TConnected io' true) ∈ ends → t ≤ t'.
Proof.
  intros Hp Hs. induction Hs as [|[t e] ends Hs IH Hhd]; cbn [join_loop]; [done|].
  destruct e as [io' p| |].
  - destruct p; [|done]. intros [= ->]. exists t. split; [by apply elem_of_cons; left|].
    intros t' io'. rewrite elem_of_cons. intros [[= -> _]|Hin]; [done|].
    rewrite Forall_forall in Hhd. exact (Hhd _ Hin).
  - intros Hj. destruct IH as (t0&Hin&Hmin); [|done|].
    + intros ? ? ? ?. eapply Hp. by apply elem_of_cons; right.
    + exists t0. split; [by apply elem_of_cons; right|].
      intros t' io'. rewrite elem_of_cons. intros [?|?]; [done|eauto].
  - intros Hj. destruct IH as (t0&Hin&Hmin); [|done|].
    + intros ? ? ? ?. eapply Hp. by apply elem_of_cons; right.
    + exists t0. split; [by apply elem_of_cons; right|].
      intros t' io'. rewrite elem_of_cons. intros [?|?]; [done|eauto].
Qed.

Lemma join_loop_err (ends : list (Duration * TaskEnd Io)) e :
  (∀ t io p, (t, TConnected io p) ∈ ends → p = true) →
  join_loop ends = Err e → ∀ t io p, (t, TConnected io p) ∉ ends.
Proof.
  intros Hp. induction ends as [|[t e'] ends IH]; cbn [join_loop]; [set_solver|].
  assert (∀ t io p, (t, TConnected io p) ∈ ends → p = true) as Hp'.
  { intros ? ? ? ?. eapply Hp. by apply elem_of_cons; right. }
  destruct e' as [io' p| |].
  - rewrite (Hp t io' p) by (by apply elem_of_cons; left). done.
  - intros Hj t' io p [?|?]%elem_of_cons; [done|]. by eapply IH.
  - intros Hj t' io p [?|?]%elem_of_cons; [done|]. by eapply IH.
Qed.

(** An attempt that connects in time, with the moment it does. *)
Definition connects timeout dials ix io t : Prop :=
  ∃ d p, dials !! ix = Some d ∧ d_socket d = SockCreated ∧ d_result d = DConnected io p
    ∧ d_time d ≤ timeout ∧ t = fst (dial_task timeout ix d).

Lemma dial_task_connected timeout ix d t io p :
  dial_task timeout ix d = (t, TConnected io p) ↔
  d_result d = DConnected io p ∧ d_time d ≤ timeout ∧ t = fst (dial_task timeout ix d).
Proof.
  unfold dial_task. destruct (Z.leb_spec (d_time d) timeout).
  - destruct (d_result d); naive_solver.
  - split; [done|]. intros (_&?&_). lia.
Qed.

#[local] Instance ends_before_total : Total (ends_before (Io := Io)).
Proof. intros a b. unfold ends_before. lia. Qed.
#[local] Instance ends_before_trans : Transitive (ends_before (Io := Io)).
Proof. intros a b c. unfold ends_before. lia. Qed.

(** Racing the addresses: the function fails only when no attempt connects within its
    timeout, and otherwise returns the connection that was established first. *)
Theorem connect_addrs_first timeout dials :
  Forall (λ d, d_socket d ≠ SockNotConfigured
               ∧ ∀ io p, d_result d = DConnected io p → p = true) dials →
  match connect_addrs timeout dials with
  | Ok io => ∃ ix t, connects timeout dials ix io t
               ∧ ∀ ix' io' t', connects timeout dials ix' io' t' → t ≤ t'
  | Err _ => ∀ ix io t, ¬ connects timeout dials ix io t
  | Panic => False
  end.
Proof.
  intros Hd. unfold connect_addrs.
  destruct (spawn_tasks_ok timeout 0 dials) as [tasks Ht].
  { eapply Forall_impl; [exact Hd|]. by intros d []. }
  rewrite Ht. cbn [mbind outcome_bind]. set (ends := merge_sort ends_before tasks).
  assert (∀ t io p, (t, TConnected io p) ∈ ends ↔ ∃ ix d, dials !! ix = Some d
            ∧ d_socket d = SockCreated ∧ dial_task timeout ix d = (t, TConnected io p)) as Hends.
  { intros t io p. unfold ends. rewrite merge_sort_Permutation, (spawn_tasks_elem _ _ _ _ _ Ht).
    naive_solver. }
  assert (∀ t io p, (t, TConnected io p) ∈ ends → p = true) as Hp.
  { intros t io p (ix&d&Hix&_&Hdt)%Hends. apply dial_task_connected in Hdt as (Hr&_).
    rewrite Forall_lookup in Hd. by destruct (Hd ix d Hix) as [_ Hpd]; eapply Hpd. }
  assert (∀ ix io t, connects timeout dials ix io t → (t, TConnected io true) ∈ ends) as Hin.
  { intros ix io t (d&p&Hix&Hs&Hr&Htm&->). apply Hends. exists ix, d. split_and!; [done..|].
    apply dial_task_connected. split_and!; [|done|done].
    rewrite Forall_lookup in Hd. destruct (Hd ix d Hix) as [_ Hpd]. by rewrite <-(Hpd io p Hr). }
  destruct (join_loop ends) as [io|e|] eqn:Hj.
  - apply join_loop_ok in Hj as (t&Hin'&Hmin); [|done|apply StronglySorted_merge_sort; apply _].
    apply Hends in Hin' as (ix&d&Hix&Hs&Hdt). apply dial_task_connected in Hdt as (Hr&Htm&->).
    eexists ix, _. split; [by exists d, true|]. intros ix' io' t' Hc. by eapply Hmin, Hin.
  - intros ix io t Hc. eapply join_loop_err; [exact Hp|exact Hj|]. by eapply Hin.
  - clear -Hj. induction ends as [|[t [? []| |]] ends IH]; cbn in Hj; try done; auto.
Qed.
End DialTheorems.

Section DialWitness.
(** Two addresses of which the second, started 250 ms later, connects first. *)
Definition race_dials : list (Dial nat) :=
  [mkDial SockCreated (DConnected 1%nat true) (from_millis 900);
   mkDial SockCreated (DConnected 2%nat true) (from_millis 20);
   mkDial SockNotCreated DFailed 0].

Lemma connect_addrs_first_witness :
  connect_addrs (from_secs 10) race_dials = Ok 2%nat
  ∧ ∃ ix t, connects (from_secs 10) race_dials ix 2%nat t
      ∧ ∀ ix' io' t', connects (from_secs 10) race_dials ix' io' t' → t ≤ t'.
Proof.
  assert (Forall (λ d : Dial nat, d_socket d ≠ SockNotConfigured
               ∧ ∀ io p, d_result d = DConnected io p → p = true) race_dials) as Hd.
  { unfold race_dials. repeat constructor; cbn; try done; intros io p [=]; done. }
  split; [vm_compute; reflexivity|].
  exact (connect_addrs_first (from_secs 10) race_dials Hd).
Defined.
End DialWitness.

(** ** Through an HTTP proxy: theorems *)

(** A response on which the loop stops. *)
Definition response_ends (buf : string) : Prop :=
  (MAX_PROXY_RESPONSE < String.length buf)%nat ∨ contains END_HTTP_RESPONSE buf = true.

Definition gather (buf : string) (chunks : list string) : string := foldl String.append buf chunks.

Lemma proxy_read_loop_gen buf reads :
  match proxy_read_loop buf reads with
  | None => (length reads + String.length buf ≤ MAX_PROXY_RESPONSE)%nat ∨ reads = []
  | Some (Ok (resp, rest)) => ∃ chunks last,
      reads = (PData <$> chunks) ++ PData last :: rest
      ∧ resp = gather buf chunks +:+ last ∧ response_ends resp
      ∧ (chunks = [] ∨ ¬ response_ends (gather buf chunks))
  | Some (Err _) => True
  | Some Panic => False
  end.
Proof.
  revert buf. induction reads as [|[s| |] reads IH]; intros buf; cbn [proxy_read_loop]; [by right|..]; [|done..].
  destruct s as [|c s]; [done|]. remember (String c s) as d eqn:Hd.
  destruct (Nat.ltb_spec MAX_PROXY_RESPONSE (String.length (buf +:+ d))) as [Hl|Hl]; cbn [orb].
  { exists [], d. split_and!; [done..|by left|by left]. }
  destruct (contains END_HTTP_RESPONSE (buf +:+ d)) eqn:Hc.
  { exists [], d. split_and!; [done..|by right|by left]. }
  assert (¬ response_ends (buf +:+ d)) as Hne by (intros [?|?]; [lia|congruence]).
  specialize (IH (buf +:+ d)). destruct (proxy_read_loop _ _) as [[[resp rest]|e|]|]; try done.
  - destruct IH as (chunks&last&->&->&He&Hch). exists (d :: chunks), last.
    split_and!; [done..|right]. destruct Hch as [->|Hch]; done.
  - left. assert (1 ≤ String.length d)%nat by (subst d; cbn [String.length]; lia).
    rewrite length_str_app in Hl, IH. destruct IH as [IH| ->]; cbn [length]; lia.
Qed.

(** The exchange with the proxy is bounded: the loop that reads its response waits for at
    most 50 KiB reads, never panics, and a response it accepts is the bytes of the first
    reads up to the one that brings the empty line or exceeds 50 KiB. *)
Theorem proxy_read_loop_bounded reads :
  match proxy_read_loop "" reads with
  | None => (length reads ≤ MAX_PROXY_RESPONSE)%nat
  | Some (Ok (resp, rest)) => ∃ chunks last,
      reads = (PData <$> chunks) ++ PData last :: rest
      ∧ resp = gather "" chunks +:+ last ∧ response_ends resp
      ∧ ¬ response_ends (gather "" chunks)
      ∧ (String.length resp ≤ MAX_PROXY_RESPONSE + String.length last)%nat
  | Some (Err _) => True
  | Some Panic => False
  end.
Proof.
  pose proof (proxy_read_loop_gen "" reads) as H.
  destruct (proxy_read_loop "" reads) as [[[resp rest]|e|]|]; try done.
  - destruct H as (chunks&last&->&->&He&Hch). exists chunks, last.
    assert (¬ response_ends (gather "" chunks)) as Hne.
    { destruct Hch as [->|?]; [|done]. intros [Hl|?]; [|done]. by apply Nat.nlt_0_r in Hl. }
    split_and!; try done. rewrite length_str_app. unfold response_ends in Hne. lia.
  - destruct H as [H| ->]; cbn [length String.length] in *; lia.
Qed.
