(* ===== verification/Proxies.v ===== *)
(** * Proxies: the http and socks5 proxies the client runs for its applications

    Models [src/wstunnel/src/protocols/http_proxy/server.rs] and
    [protocols/socks5/tcp_server.rs]: who may use a proxy, and which destination a
    connection is forwarded to.  The parsers of the protocols (hyper, httparse,
    fast_socks5) are arguments: what they read from a connection, or that a client of the
    socks5 proxy keeps it waiting. *)

From Stdlib Require Import ZArith Lia Ascii String.
From stdpp Require Import base gmap strings list.
From S2P Require Import Prelude Str Net Apis ApiModels Connect.

#[local] Open Scope stdpp_scope.

(** ** The http proxy *)

Module HttpProxy.

Definition PROXY_AUTHORIZATION : HeaderName := "proxy-authorization".
Definition PROXY_AUTHORIZATION_PREFIX : string := "Basic ".
Definition CONNECT_METHOD : string := "CONNECT ".
Definition REQUEST_BUF : nat := 512.
Definition DEFAULT_HTTP_PORT : Z := 80.

Definition verify_credentials (credentials header_value : option string) : bool :=
  match credentials with
  | None => true
  | Some token =>
      match header_value with
      | None => false
      | Some header_value =>
          let auth := trim header_value in
          starts_with PROXY_AUTHORIZATION_PREFIX auth
          && String.eqb (drop_str (String.length PROXY_AUTHORIZATION_PREFIX) auth) token
      end
  end.

Section HttpProxy.
Context `{HostApi, HttpApi, UrlApi, Base64Api}.

(** A request read by hyper: its method, [uri().host()], [uri().port_u16()], headers. *)
Record ConnectReq := mkConnectReq {
  cr_method : string;
  cr_host : option string;
  cr_port_u16 : option Z;
  cr_headers : HeaderMap
}.

(** The status of the response, and the destination after the request. *)
Definition handle_http_connect_request (credentials : option string)
    (dest : option (Host * Z)) (req : ConnectReq) : Z * option (Host * Z) :=
  if negb (String.eqb (cr_method req) "CONNECT") then (401, dest)
  else
    match host_parse (default "" (cr_host req)) with
    | None => (401, dest)
    | Some h =>
        let forward_to := (h, default 443 (cr_port_u16 req)) in
        let header := v ← hm_get (cr_headers req) PROXY_AUTHORIZATION; hv_to_str v in
        if negb (verify_credentials credentials header) then (401, dest)
        else (200, Some forward_to)
    end.

(** What httparse reads: the path, and the names and values of the headers. *)
Record Parsed := mkParsed { hp_path : option string; hp_headers : list (string * string) }.

(** A header name is compared ignoring case. *)
Definition handle_regular_http_request (http_parser : Parsed) (auth_header : option string)
    : option (Host * Z) :=
  let header := find_map (λ '(name, value),
    if String.eqb (to_ascii_lowercase name) PROXY_AUTHORIZATION
    then Some (from_utf8_lossy value) else None) (hp_headers http_parser) in
  if negb (verify_credentials auth_header header) then None
  else
    url ← url_parse (default "" (hp_path http_parser));
    host ← url_host url;
    Some (host, default DEFAULT_HTTP_PORT (url_port_or_known_default url)).

(** A connection: what [peek] reads (at most the buffer), and the requests hyper reads from
    it with the way it ends. *)
Record ProxyConn := mkProxyConn {
  pc_peek : option string;
  pc_requests : list ConnectReq;
  pc_served_ok : bool
}.

(** [httparse n buf] parses [buf] with room for [n] headers. *)
Context (httparse : nat → string → Parsed).

(** The buffer after [peek]: what is not read stays zero. *)
Definition peeked (peek : string) : string :=
  peek +:+ String.string_of_list_ascii (replicate (REQUEST_BUF - String.length peek) "000"%char).

Definition handle_new_connection (auth_header : option string) (stream : ProxyConn)
    : option (Host * Z) :=
  buf ← pc_peek stream;
  if negb (String.eqb (take_str (String.length CONNECT_METHOD) (peeked buf)) CONNECT_METHOD)
  then handle_regular_http_request
         (httparse (match auth_header with Some _ => 32 | None => 0 end) buf) auth_header
  else
    let forward_to := foldl (λ dest req, snd (handle_http_connect_request auth_header dest req))
                        None (pc_requests stream) in
    if pc_served_ok stream then forward_to else None.

Definition auth_header (credentials : option (string * string)) : option string :=
  (λ '(user, pass), b64_encode (user +:+ ":" +:+ pass)) <$> credentials.

(** The listener: connections are handled by tasks of their own, which end in any order.
    [world] is what a connection does. *)
Inductive ProxyEvent :=
| Accepted (c : nat)
| AcceptFailed
| TaskDone (c : nat)
| TaskFailed (c : nat).

Definition listener_event (credentials : option (string * string)) (world : nat → ProxyConn)
    (tasks : gset nat) (ev : ProxyEvent) : gset nat * option (nat * (Host * Z)) :=
  match ev with
  | Accepted c => ({[c]} ∪ tasks, None)
  | AcceptFailed => (tasks, None)
  | TaskDone c => (tasks ∖ {[c]}, pair c <$> handle_new_connection (auth_header credentials) (world c))
  | TaskFailed c => (tasks ∖ {[c]}, None)
  end.

Fixpoint http_proxy_run (credentials : option (string * string)) (world : nat → ProxyConn)
    (tasks : gset nat) (events : list ProxyEvent) : gset nat * list (nat * (Host * Z)) :=
  match events with
  | [] => (tasks, [])
  | ev :: events =>
      let '(tasks, yield) := listener_event credentials world tasks ev in
      let '(tasks, yields) := http_proxy_run credentials world tasks events in
      (tasks, option_list yield ++ yields)
  end.

(** *** What the proxy promises *)

(** Credentials are asked for exactly when some are configured. *)
Definition granted (credentials : option (string * string)) (header : option string) : Prop :=
  match credentials with
  | None => True
  | Some (user, pass) => ∃ h, header = Some h
      ∧ trim h = PROXY_AUTHORIZATION_PREFIX +:+ b64_encode (user +:+ ":" +:+ pass)
  end.

Definition connect_header (req : ConnectReq) : option string :=
  v ← hm_get (cr_headers req) PROXY_AUTHORIZATION; hv_to_str v.

Definition connect_target credentials (req : ConnectReq) (f : Host * Z) : Prop :=
  cr_method req = "CONNECT" ∧ host_parse (default "" (cr_host req)) = Some (fst f)
  ∧ snd f = default 443 (cr_port_u16 req) ∧ granted credentials (connect_header req).

Definition parsed_header (p : Parsed) : option string :=
  snd <$> find (λ '(name, value), String.eqb (to_ascii_lowercase name) PROXY_AUTHORIZATION)
            ((λ '(name, value), (name, from_utf8_lossy value)) <$> hp_headers p).

(** The first connection bytes choose the protocol; a CONNECT connection is forwarded where
    its last granted request says, another one where its absolute locator says. *)
Definition admitted_as credentials (conn : ProxyConn) (f : Host * Z) (peek : string) : Prop :=
    if starts_with CONNECT_METHOD peek
    then pc_served_ok conn = true ∧ ∃ before req after,
      pc_requests conn = before ++ req :: after ∧ connect_target credentials req f
      ∧ Forall (λ req', ∀ f', ¬ connect_target credentials req' f') after
    else let p := httparse (match credentials with Some _ => 32 | None => 0 end) peek in
      granted credentials (parsed_header p)
      ∧ ∃ url, url_parse (default "" (hp_path p)) = Some url ∧ url_host url = Some (fst f)
          ∧ snd f = default DEFAULT_HTTP_PORT (url_port_or_known_default url).
Definition admitted credentials (conn : ProxyConn) (f : Host * Z) : Prop :=
  ∃ peek, pc_peek conn = Some peek ∧ admitted_as credentials conn f peek.

Lemma verify_credentials_spec credentials header :
  verify_credentials (auth_header credentials) header = true ↔ granted credentials header.
Proof.
  unfold verify_credentials, auth_header, granted.
  destruct credentials as [[user pass]|]; cbn [fmap option_fmap option_map]; [|done].
  destruct header as [h|]; [|naive_solver].
  rewrite andb_true_iff, String.eqb_eq. unfold starts_with.
  destruct (strip_prefix PROXY_AUTHORIZATION_PREFIX (trim h)) as [rest|] eqn:Hp.
  - apply strip_prefix_Some in Hp. rewrite Hp, drop_str_app. split.
    + intros [_ ->]. eauto.
    + intros (h'&[= <-]&Heq). rewrite Hp in Heq. split; [done|]. by apply (inj (String.append _)) in Heq.
  - split; [naive_solver|]. intros (h'&[= <-]&Heq). by rewrite Heq, strip_prefix_app in Hp.
Qed.

Lemma connect_request_spec credentials dest req f :
  connect_target credentials req f →
  handle_http_connect_request (auth_header credentials) dest req = (200, Some f).
Proof.
  intros (Hm&Hh&Hp&Hg). unfold handle_http_connect_request. rewrite Hm, Hh. cbn [negb String.eqb].
  fold (connect_header req). apply verify_credentials_spec in Hg. rewrite Hg. cbn.
  destruct f as [h p]. cbn in *. by subst.
Qed.

Lemma connect_request_refused credentials dest req :
  (∀ f, ¬ connect_target credentials req f) →
  handle_http_connect_request (auth_header credentials) dest req = (401, dest).
Proof.
  intros Hno. unfold handle_http_connect_request.
  destruct (String.eqb_spec (cr_method req) "CONNECT") as [Hm|]; [|done]. cbn [negb].
  destruct (host_parse _) as [h|] eqn:Hh; [|done]. fold (connect_header req).
  destruct (verify_credentials _ _) eqn:Hv; [|done]. apply verify_credentials_spec in Hv.
  exfalso. by apply (Hno (h, default 443 (cr_port_u16 req))).
Qed.

Lemma connect_target_dec credentials req :
  {f | connect_target credentials req f} + {∀ f, ¬ connect_target credentials req f}.
Proof.
  destruct (decide (cr_method req = "CONNECT")) as [Hm|]; [|by right; intros f []].
  destruct (host_parse (default "" (cr_host req))) as [h|] eqn:Hh.
  2:{ right. intros f (_&Hf&_). congruence. }
  destruct (verify_credentials (auth_header credentials) (connect_header req)) eqn:Hv.
  - left. exists (h, default 443 (cr_port_u16 req)). by apply verify_credentials_spec in Hv.
  - right. intros f (_&_&_&Hg). apply verify_credentials_spec in Hg. congruence.
Qed.

(** The requests of a connection leave the target of the last granted one. *)
Lemma served_requests credentials reqs f :
  foldl (λ dest req, snd (handle_http_connect_request (auth_header credentials) dest req)) None reqs
    = Some f ↔
  ∃ before req after, reqs = before ++ req :: after ∧ connect_target credentials req f
    ∧ Forall (λ req', ∀ f', ¬ connect_target credentials req' f') after.
Proof.
  induction reqs as [|req reqs IH] using rev_ind.
  { split; [done|]. intros (before&req&after&Heq&_). by destruct before. }
  rewrite foldl_app. cbn [foldl]. destruct (connect_target_dec credentials req) as [[f' Hf']|Hno].
  - rewrite (connect_request_spec _ _ _ _ Hf'). cbn [snd]. split.
    + intros [= ->]. by exists reqs, req, [].
    + intros (before&req'&after&Heq&Ht&Hall).
      destruct after as [|req'' after _] using rev_ind.
      * apply app_inj_tail in Heq as [-> ->].
        f_equal. destruct f, f'. destruct Ht as (_&?&?&_), Hf' as (_&?&?&_). cbn in *. congruence.
      * rewrite app_comm_cons, app_assoc in Heq. apply app_inj_tail in Heq as [_ ->].
        apply Forall_app in Hall as [_ Hall]. inversion Hall. naive_solver.
  - rewrite (connect_request_refused _ _ _ Hno). cbn [snd]. rewrite IH. split.
    + intros (before&req'&after&->&Ht&Hall). exists before, req', (after ++ [req]).
      split_and!; [by rewrite <-app_assoc|done|]. apply Forall_app. auto.
    + intros (before&req'&after&Heq&Ht&Hall).
      destruct after as [|req'' after _] using rev_ind.
      * apply app_inj_tail in Heq as [_ ->]. naive_solver.
      * rewrite app_comm_cons, app_assoc in Heq. apply app_inj_tail in Heq as [-> _].
        apply Forall_app in Hall as [Hall _]. eauto 10.
Qed.

Lemma peeked_method peek :
  String.eqb (take_str (String.length CONNECT_METHOD) (peeked peek)) CONNECT_METHOD
  = starts_with CONNECT_METHOD peek.
Proof.
  unfold peeked, REQUEST_BUF. generalize (512 - String.length peek)%nat as n. intros n.
  unfold CONNECT_METHOD, starts_with.
  assert (∀ p q m, contains_char "000" q = false →
    String.eqb (take_str (String.length q) (p +:+ string_of_list_ascii (replicate m "000"%char))) q
    = match strip_prefix q p with Some _ => true | None => false end) as Hgen.
  { induction p as [|a p IH]; intros [|b q] m Hq; try done.
    - rewrite app_Empty. destruct m; [done|].
      cbn [replicate string_of_list_ascii String.length take_str strip_prefix String.eqb].
      destruct (Ascii.eqb_spec "000" b) as [<-|]; [|done].
      exfalso. revert Hq. unfold contains_char. rewrite bool_decide_eq_false. cbn. set_solver.
    - rewrite app_String. cbn [String.length take_str strip_prefix String.eqb].
      destruct (Ascii.eqb_spec a b) as [->|Hab].
      + rewrite Ascii.eqb_refl. apply IH. revert Hq. unfold contains_char.
        rewrite !bool_decide_eq_false. cbn. set_solver.
      + by destruct (Ascii.eqb_spec b a). }
  by apply Hgen.
Qed.

Lemma parsed_header_find (p : Parsed) :
  find_map (λ '(name, value), if String.eqb (to_ascii_lowercase name) PROXY_AUTHORIZATION
    then Some (from_utf8_lossy value) else None) (hp_headers p) = parsed_header p.
Proof.
  unfold parsed_header. induction (hp_headers p) as [|[name value] l IH]; [done|].
  cbn [find_map find fmap list_fmap]. destruct (String.eqb _ _); [done|]. exact IH.
Qed.

Lemma handle_new_connection_spec credentials conn f :
  handle_new_connection (auth_header credentials) conn = Some f ↔ admitted credentials conn f.
Proof.
  unfold handle_new_connection, admitted.
  destruct (pc_peek conn) as [peek|]; cbn [mbind option_bind]; [|naive_solver].
  rewrite peeked_method. trans (admitted_as credentials conn f peek); [|naive_solver].
  unfold admitted_as.
  destruct (starts_with CONNECT_METHOD peek); cbn [negb].
  - rewrite <-served_requests. destruct (pc_served_ok conn); naive_solver.
  - unfold handle_regular_http_request. rewrite parsed_header_find.
    assert (match auth_header credentials with Some _ => 32 | None => 0 end
            = match credentials with Some _ => 32 | None => 0 end)%nat as ->
      by (by destruct credentials as [[]|]).
    set (p := httparse _ peek). pose proof (verify_credentials_spec credentials (parsed_header p)) as Hv.
    destruct (verify_credentials _ _); cbn [negb]; [|naive_solver].
    destruct (url_parse _) as [url|]; cbn [mbind option_bind]; [|naive_solver].
    destruct (url_host url) as [h|] eqn:Hh; cbn [mbind option_bind]; [|naive_solver].
    destruct f as [h' port]. cbn [fst snd]. naive_solver.
Qed.

(** C9: The http proxy refines its contract, whatever the order in which connections are
    accepted and handled: the connections it hands to the tunnel are exactly those handled
    that the contract admits, each with its own destination. *)
Theorem http_proxy_run_refines credentials world tasks events c f :
  (c, f) ∈ snd (http_proxy_run credentials world tasks events) ↔
  TaskDone c ∈ events ∧ admitted credentials (world c) f.
Proof.
  rewrite <-handle_new_connection_spec. revert tasks.
  induction events as [|ev events IH]; intros tasks; cbn [http_proxy_run]; [set_solver|].
  destruct (listener_event credentials world tasks ev) as [tasks' yield] eqn:He.
  specialize (IH tasks'). destruct (http_proxy_run credentials world tasks' events) as [t yields].
  cbn [snd] in *. rewrite elem_of_app, IH, elem_of_cons.
  assert ((c, f) ∈ option_list yield ↔ TaskDone c = ev ∧
    handle_new_connection (auth_header credentials) (world c) = Some f) as ->; [|naive_solver].
  destruct ev as [c'| |c'|c']; cbn in He; injection He as _ <-; cbn; try set_solver.
  destruct (handle_new_connection _ (world c')) as [f'|] eqn:Hh; cbn; [|set_solver].
  rewrite list_elem_of_singleton. naive_solver.
Qed.
End HttpProxy.

(** A header value the program's own client sends is read back whole. *)
Lemma trim_basic `{Base64Laws} creds : creds ≠ "" →
  trim (PROXY_AUTHORIZATION_PREFIX +:+ b64_encode creds) = PROXY_AUTHORIZATION_PREFIX +:+ b64_encode creds.
Proof.
  intros Hne. pose proof (b64_graphic creds) as Hg. pose proof (b64_nonempty creds Hne) as Hn.
  destruct (str_snoc_inv (b64_encode creds)) as [?|(t&b&Ht)]; [done|]. rewrite Ht in *.
  unfold PROXY_AUTHORIZATION_PREFIX. rewrite app_String.
  apply (trim_id _ _ b ("Basic " +:+ t)); [done| |by rewrite !app_String, !app_Empty].
  rewrite graphic_app in Hg. apply andb_true_iff in Hg as [_ Hg].
  rewrite graphic_cons in Hg. by apply andb_true_iff in Hg as [? _].
Qed.

(** Client and proxy agree on credentials: the [Proxy-Authorization] line the client of
    an http proxy sends for a locator with user and password is accepted by the proxy
    exactly when it is configured with the same user and password (joined by a colon). *)
Theorem proxy_credentials_roundtrip `{HostApi, UrlApi, Base64Laws} url_decode proxy password user pass u p :
  url_password proxy = Some password →
  url_decode (url_username proxy) = Some user → url_decode password = Some pass →
  ∃ value, proxy_authorization url_decode proxy = Ok ("Proxy-Authorization: " +:+ value +:+ CRLF)
    ∧ (verify_credentials (auth_header (Some (u, p))) (Some value) = true
       ↔ u +:+ ":" +:+ p = user +:+ ":" +:+ pass).
Proof.
  intros Hpw Hu Hp. exists (PROXY_AUTHORIZATION_PREFIX +:+ b64_encode (user +:+ ":" +:+ pass)).
  unfold proxy_authorization. rewrite Hpw, Hu, Hp. cbn [ok_or mbind outcome_bind]. split.
  { unfold PROXY_AUTHORIZATION_PREFIX. by rewrite !app_String, !app_Empty. }
  assert (user +:+ ":" +:+ pass ≠ "") as Hne by (destruct user; by rewrite ?app_Empty, app_String).
  rewrite verify_credentials_spec. cbn [granted]. split.
  - intros (h&[= <-]&Heq). rewrite trim_basic in Heq by done.
    apply (inj (String.append _)) in Heq. apply (f_equal b64_decode) in Heq.
    rewrite !b64_decode_encode in Heq. congruence.
  - intros ->. eexists. split; [done|]. by apply trim_basic.
Qed.

Lemma proxy_credentials_roundtrip_witness :
  ∃ value, proxy_authorization Some
      (default (mkToyUrl "" (Domain "") None "") (u ← url_parse "http://proxy:3128"; u ← url_set_username u "me"; url_set_password u "secret"))
      = Ok ("Proxy-Authorization: " +:+ value +:+ CRLF)
    ∧ (verify_credentials (auth_header (Some ("me", "secret"))) (Some value) = true
       ↔ "me" +:+ ":" +:+ "secret" = "me" +:+ ":" +:+ "secret").
Proof.
  eapply (proxy_credentials_roundtrip Some _ "secret" "me" "secret"); vm_compute; reflexivity.
Defined.
End HttpProxy.

(** ** The socks5 proxy *)

Module Socks5.

(** The constants of fast_socks5 (RFC 1928). *)
Class Socks5Consts := {
  SOCKS5_VERSION : Z;
  SOCKS5_ADDR_TYPE_IPV4 : Z;
  SOCKS5_ADDR_TYPE_IPV6 : Z;
  reply_succeeded : Z;
}.

Definition ip_octets (ip : IpAddr) : list Z :=
  match ip with IpV4 ip => be_bytes 4 (v4_bits ip) | IpV6 ip => be_bytes 16 (v6_bits ip) end.

Inductive TargetAddr := TIp (a : SocketAddr) | TDomain (host : string) (port : Z).
Inductive Command := TCPConnect | TCPBind | UDPAssociate.
#[global] Instance Command_eq : EqDecision Command.
Proof. solve_decision. Defined.

(** fast_socks5's [Config], the settings the program makes. *)
Record S5Config := mkS5Config {
  allow_no_auth : bool;
  user_password : option (string * string);
  dns_resolve : bool;
  execute_command : bool;
  udp_support : bool
}.

Definition socks5_config (credentials : option (string * string)) : S5Config :=
  {| allow_no_auth := match credentials with Some _ => false | None => true end;
     user_password := credentials;
     dns_resolve := false; execute_command := false; udp_support := true |}.

(** How an operation on a client's connection ends, if it does: a client may also stop in the
    middle of its handshake, or not read its reply. *)
Inductive Awaited (A : Type) := Done (a : A) | Failed | Stalled.
Arguments Done {A}.
Arguments Failed {A}.
Arguments Stalled {A}.

Section Socks5.
Context `{Socks5Consts}.

Definition new_reply (error : Z) (sock_addr : SocketAddr) : list Z :=
  let addr_type := match sock_addr with
                   | SockV4 _ _ => SOCKS5_ADDR_TYPE_IPV4
                   | SockV6 _ _ _ _ => SOCKS5_ADDR_TYPE_IPV6
                   end in
  [SOCKS5_VERSION; error; 0; addr_type] ++ ip_octets (sock_ip sock_addr)
  ++ be_bytes 2 (sock_port sock_addr).

(** How a client reads a reply (RFC 1928, section 6): the code, the address, the port. *)
Definition parse_reply (l : list Z) : option (Z * IpAddr * Z) :=
  match l with
  | version :: code :: reserved :: addr_type :: l =>
      if negb ((version =? SOCKS5_VERSION) && (reserved =? 0)) then None
      else
        let n := if addr_type =? SOCKS5_ADDR_TYPE_IPV4 then Some 4%nat
                 else if addr_type =? SOCKS5_ADDR_TYPE_IPV6 then Some 16%nat else None in
        n ← n;
        if Nat.eqb (length l) (n + 2)
        then let ip := of_be_bytes (take n l) in
             Some (code, if Nat.eqb n 4 then IpV4 (mkIpv4 ip) else IpV6 (mkIpv6 ip),
                   of_be_bytes (drop n l))
        else None
  | _ => None
  end.

(** A client after fast_socks5's handshake: [target_addr] and [cmd]. *)
Record S5Cnx := mkS5Cnx { s5_target : option TargetAddr; s5_cmd : option Command }.

(** [C] are connections, [U] the streams of the udp server with their destination;
    [upgrade] is fast_socks5's handshake, [write_reply] the [write_all] of a reply. *)
Context {C U : Type}.
Context (upgrade : S5Config → C → Awaited S5Cnx).
Context (write_reply : C → Awaited unit).

(** What [select!] gives. *)
Inductive S5Event :=
| EvTcp (cnx : option (outcome string C))
| EvUdp (udp_conn : option (outcome string (U * (Host * Z)))).

Inductive S5Stream := S5Tcp (c : C) | S5Udp (u : U).

(** The next item of the stream, the replies written on the way, the associations whose
    connection is kept open, and the events left. *)
Record S5Next := mkS5Next {
  n_item : option (outcome string (S5Stream * (Host * Z)));
  n_replies : list (C * list Z);
  n_kept : list C;
  n_rest : list S5Event
}.

Definition add_reply (c : C) (reply : list Z) (n : option S5Next) : option S5Next :=
  (λ n, mkS5Next (n_item n) ((c, reply) :: n_replies n) (n_kept n) (n_rest n)) <$> n.
Definition add_kept (c : C) (n : option S5Next) : option S5Next :=
  (λ n, mkS5Next (n_item n) (n_replies n) (c :: n_kept n) (n_rest n)) <$> n.

Definition target_host_port (t : TargetAddr) : Host * Z :=
  match t with
  | TIp (SockV4 ip port) => (Ipv4 ip, port)
  | TIp (SockV6 ip port _ _) => (Ipv6 ip, port)
  | TDomain host port => (Domain host, port)
  end.

(** The loop of the stream; [None] waits, for the next event or for the client it is dealing
    with: the handshake and the replies are awaited in the loop. *)
Fixpoint socks5_next (cfg : S5Config) (bind : SocketAddr) (events : list S5Event)
    : option S5Next :=
  match events with
  | [] => None
  | EvTcp None :: rest => Some (mkS5Next None [] [] rest)
  | EvTcp (Some (Ok c)) :: rest =>
      match upgrade cfg c with
      | Stalled => None
      | Failed => socks5_next cfg bind rest
      | Done cnx =>
          match s5_target cnx with
          | None => socks5_next cfg bind rest
          | Some target =>
              match s5_cmd cnx with
              | Some UDPAssociate =>
                  match write_reply c with
                  | Done _ => add_reply c (new_reply reply_succeeded bind)
                                (add_kept c (socks5_next cfg bind rest))
                  | Failed => socks5_next cfg bind rest
                  | Stalled => None
                  end
              | _ =>
                  match write_reply c with
                  | Done _ => Some (mkS5Next (Some (Ok (S5Tcp c, target_host_port target)))
                                [(c, new_reply reply_succeeded (SockV4 LOCALHOST_V4 0))] [] rest)
                  | Failed => socks5_next cfg bind rest
                  | Stalled => None
                  end
              end
          end
      end
  | EvTcp (Some (Err e)) :: rest => Some (mkS5Next (Some (Err e)) [] [] rest)
  | EvTcp (Some Panic) :: rest => Some (mkS5Next (Some Panic) [] [] rest)
  | EvUdp (Some (Ok (u, dest))) :: rest => Some (mkS5Next (Some (Ok (S5Udp u, dest))) [] [] rest)
  | EvUdp (Some (Err e)) :: rest => Some (mkS5Next (Some (Err e)) [] [] rest)
  | EvUdp (Some Panic) :: rest => Some (mkS5Next (Some Panic) [] [] rest)
  | EvUdp None :: rest => Some (mkS5Next None [] [] rest)
  end.
(** *** Properties *)

Definition sock_wf (a : SocketAddr) : Prop :=
  0 ≤ sock_port a ≤ U16_MAX
  ∧ match sock_ip a with IpV4 ip => v4_wf ip | IpV6 ip => v6_wf ip end.

(** A client reads from a reply the code, the address and the port it was made of. *)
Lemma new_reply_roundtrip error addr :
  SOCKS5_ADDR_TYPE_IPV4 ≠ SOCKS5_ADDR_TYPE_IPV6 → sock_wf addr →
  parse_reply (new_reply error addr) = Some (error, sock_ip addr, sock_port addr).
Proof.
  intros Htag [Hport Hip]. unfold new_reply, parse_reply. cbn [app]. rewrite Z.eqb_refl. cbn [negb andb Z.eqb].
  assert (of_be_bytes (be_bytes 2 (sock_port addr)) = sock_port addr) as Hp.
  { apply of_be_bytes_be_bytes. unfold U16_MAX in Hport. lia. }
  destruct addr as [[ip] port|[ip] port fl sc]; cbn [sock_ip sock_port ip_octets v4_bits v6_bits] in *.
  - rewrite Z.eqb_refl. cbn [mbind option_bind].
    rewrite length_app, !length_be_bytes. cbn [Nat.eqb Nat.add].
    rewrite take_app_length', drop_app_length' by (by rewrite length_be_bytes).
    rewrite Hp, of_be_bytes_be_bytes; [done|]. unfold v4_wf, U32_MAX in Hip. cbn in Hip. lia.
  - destruct (Z.eqb_spec SOCKS5_ADDR_TYPE_IPV6 SOCKS5_ADDR_TYPE_IPV4); [congruence|].
    rewrite Z.eqb_refl. cbn [mbind option_bind].
    rewrite length_app, !length_be_bytes. cbn [Nat.eqb Nat.add].
    rewrite take_app_length', drop_app_length' by (by rewrite length_be_bytes).
    rewrite Hp, of_be_bytes_be_bytes; [done|]. unfold v6_wf in Hip. cbn in Hip. lia.
Qed.

(** A connection the proxy serves, with its command and destination. *)
Definition serves cfg (c : C) (associate : bool) (dest : Host * Z) : Prop :=
  ∃ cnx target u, upgrade cfg c = Done cnx ∧ s5_target cnx = Some target
    ∧ bool_decide (s5_cmd cnx = Some UDPAssociate) = associate
    ∧ dest = target_host_port target ∧ write_reply c = Done u.

(** A client that keeps the loop waiting. *)
Definition stalls cfg (c : C) : Prop :=
  upgrade cfg c = Stalled
  ∨ ∃ cnx target, upgrade cfg c = Done cnx ∧ s5_target cnx = Some target ∧ write_reply c = Stalled.

Lemma client_cases cfg c :
  (∃ associate dest, serves cfg c associate dest) ∨ stalls cfg c
  ∨ (¬ stalls cfg c ∧ ∀ associate dest, ¬ serves cfg c associate dest).
Proof.
  unfold stalls, serves. destruct (upgrade cfg c) as [cnx| |] eqn:Hu; [|naive_solver..].
  destruct (s5_target cnx) as [t|] eqn:Ht; [|naive_solver].
  destruct (write_reply c) as [[]| |] eqn:Hw; [|naive_solver..].
  left. by eexists _, _, cnx, t, ().
Qed.

(** One turn of the loop on an accepted connection. *)
Lemma socks5_next_refused cfg bind c rest :
  ¬ stalls cfg c → (∀ associate dest, ¬ serves cfg c associate dest) →
  socks5_next cfg bind (EvTcp (Some (Ok c)) :: rest) = socks5_next cfg bind rest.
Proof.
  unfold stalls, serves. intros Hns Hno. cbn [socks5_next].
  destruct (upgrade cfg c) as [cnx| |] eqn:Hu; [|done|naive_solver].
  destruct (s5_target cnx) as [t|] eqn:Ht; [|done].
  destruct (write_reply c) as [[]| |] eqn:Hw; [|by destruct (s5_cmd cnx) as [[]|]|naive_solver].
  exfalso. eapply Hno. by exists cnx, t, ().
Qed.
Lemma socks5_next_stalls cfg bind c rest :
  stalls cfg c → socks5_next cfg bind (EvTcp (Some (Ok c)) :: rest) = None.
Proof.
  intros [Hu|(cnx&t&Hu&Ht&Hw)]; cbn [socks5_next]; rewrite Hu; [done|]. rewrite Ht, Hw.
  by destruct (s5_cmd cnx) as [[]|].
Qed.
Lemma socks5_next_associate cfg bind c dest rest :
  serves cfg c true dest →
  socks5_next cfg bind (EvTcp (Some (Ok c)) :: rest)
  = add_reply c (new_reply reply_succeeded bind) (add_kept c (socks5_next cfg bind rest)).
Proof.
  intros (cnx&t&u&Hu&Ht&Hc%bool_decide_eq_true&_&Hw). cbn [socks5_next]. by rewrite Hu, Ht, Hc, Hw.
Qed.
Lemma socks5_next_connect cfg bind c dest rest :
  serves cfg c false dest →
  socks5_next cfg bind (EvTcp (Some (Ok c)) :: rest)
  = Some (mkS5Next (Some (Ok (S5Tcp c, dest)))
            [(c, new_reply reply_succeeded (SockV4 LOCALHOST_V4 0))] [] rest).
Proof.
  intros (cnx&t&u&Hu&Ht&Hc%bool_decide_eq_false&->&Hw). cbn [socks5_next]. rewrite Hu, Ht, Hw.
  by destruct (s5_cmd cnx) as [[]|].
Qed.

(** The item an event gives. *)
Definition gives cfg (ev : S5Event) (item : option (outcome string (S5Stream * (Host * Z)))) : Prop :=
  match ev with
  | EvTcp (Some (Ok c)) => ∃ dest, serves cfg c false dest ∧ item = Some (Ok (S5Tcp c, dest))
  | EvUdp (Some (Ok (u, dest))) => item = Some (Ok (S5Udp u, dest))
  | EvTcp (Some (Err e)) | EvUdp (Some (Err e)) => item = Some (Err e)
  | EvTcp (Some Panic) | EvUdp (Some Panic) => item = Some Panic
  | EvTcp None | EvUdp None => item = None
  end.

(** Events the loop consumes without an item. *)
Definition passes cfg (ev : S5Event) : Prop :=
  ∃ c, ev = EvTcp (Some (Ok c)) ∧ ¬ stalls cfg c ∧ ∀ dest, ¬ serves cfg c false dest.

Lemma serves_not_stalls cfg c associate dest : serves cfg c associate dest → ¬ stalls cfg c.
Proof. intros (?&?&?&?&?&_&_&?) [?|(?&?&?&?&?)]; congruence. Qed.
Lemma serves_one cfg c dest dest' : serves cfg c true dest → ¬ serves cfg c false dest'.
Proof.
  intros (cnx&t&u&Hu&_&Ha&_) (cnx'&t'&u'&Hu'&_&Hb&_). rewrite Hu in Hu'. injection Hu' as <-.
  congruence.
Qed.

(** The loop stops at the first event that gives an item, or at the first client that stalls,
    or has consumed them all. *)
Lemma socks5_next_first cfg bind events :
  match socks5_next cfg bind events with
  | None => Forall (passes cfg) events
      ∨ ∃ skipped c rest, events = skipped ++ EvTcp (Some (Ok c)) :: rest
          ∧ Forall (passes cfg) skipped ∧ stalls cfg c
  | Some n => ∃ skipped ev, events = skipped ++ ev :: n_rest n ∧ Forall (passes cfg) skipped
      ∧ gives cfg ev (n_item n)
  end.
Proof.
  assert (∀ ev rest item, gives cfg ev item →
    ∃ skipped ev0, ev :: rest = skipped ++ ev0 :: rest ∧ Forall (passes cfg) skipped
      ∧ gives cfg ev0 item) as Hnow by (intros ev rest item Hg; by exists [], ev).
  induction events as [|ev events IH]; [by left|].
  destruct ev as [[[c|e|]|]|[[[u d]|e|]|]]; try (cbn; by apply Hnow).
  assert (passes cfg (EvTcp (Some (Ok c))) → ∀ f : option S5Next → option S5Next,
    f None = None → (∀ n, ∃ n', f (Some n) = Some n' ∧ n_item n' = n_item n ∧ n_rest n' = n_rest n) →
    socks5_next cfg bind (EvTcp (Some (Ok c)) :: events) = f (socks5_next cfg bind events) →
    match socks5_next cfg bind (EvTcp (Some (Ok c)) :: events) with
    | None => Forall (passes cfg) (EvTcp (Some (Ok c)) :: events)
        ∨ ∃ skipped c' rest, EvTcp (Some (Ok c)) :: events = skipped ++ EvTcp (Some (Ok c')) :: rest
            ∧ Forall (passes cfg) skipped ∧ stalls cfg c'
    | Some n => ∃ skipped ev, EvTcp (Some (Ok c)) :: events = skipped ++ ev :: n_rest n
        ∧ Forall (passes cfg) skipped ∧ gives cfg ev (n_item n)
    end) as Hlater.
  { intros Hp f Hf0 Hf ->. destruct (socks5_next cfg bind events) as [n|].
    - destruct (Hf n) as (n'&->&->&->). destruct IH as (sk&ev&->&Hsk&Hg).
      exists (EvTcp (Some (Ok c)) :: sk), ev. split_and!; [done|by constructor|done].
    - rewrite Hf0. destruct IH as [Hall|(sk&c'&rest&->&Hsk&Hst)]; [left; by constructor|right].
      exists (EvTcp (Some (Ok c)) :: sk), c', rest. split_and!; [done|by constructor|done]. }
  destruct (client_cases cfg c) as [([]&dest&Hs)|[Hst|[Hns Hno]]].
  - apply (Hlater ltac:(exists c; split_and!; [done|by eapply serves_not_stalls|]; intros; by eapply serves_one)
      (λ n, add_reply c (new_reply reply_succeeded bind) (add_kept c n)));
      [done|intros n; by eexists|exact (socks5_next_associate _ _ _ _ _ Hs)].
  - rewrite (socks5_next_connect _ _ _ _ _ Hs). cbn. apply Hnow. by exists dest.
  - rewrite (socks5_next_stalls _ _ _ _ Hst). right. by exists [], c, events.
  - apply (Hlater ltac:(exists c; by split_and!) id);
      [done|by eauto|exact (socks5_next_refused _ _ _ _ Hns Hno)].
Qed.

(** Only served clients get a reply. *)
Lemma socks5_next_replies cfg bind events n c reply :
  socks5_next cfg bind events = Some n → (c, reply) ∈ n_replies n →
  ∃ associate dest, serves cfg c associate dest
    ∧ reply = new_reply reply_succeeded (if associate then bind else SockV4 LOCALHOST_V4 0).
Proof.
  revert n. induction events as [|ev events IH]; intros n; [done|].
  destruct ev as [[[c'|e|]|]|[[[u d]|e|]|]]; try (intros [= <-]; cbn; set_solver).
  destruct (client_cases cfg c') as [([]&dest&Hs)|[Hst|[Hns Hno]]].
  - rewrite (socks5_next_associate _ _ _ _ _ Hs).
    destruct (socks5_next cfg bind events) as [n'|]; [|done].
    intros [= <-]. cbn [n_replies]. intros [[= -> ->]|Hin]%elem_of_cons; [eauto|by eapply IH].
  - rewrite (socks5_next_connect _ _ _ _ _ Hs). intros [= <-]. cbn [n_replies].
    intros [= -> ->]%list_elem_of_singleton. eauto.
  - by rewrite (socks5_next_stalls _ _ _ _ Hst).
  - rewrite (socks5_next_refused _ _ _ _ Hns Hno). by apply IH.
Qed.

(** One client that does not finish its handshake, or does not read its reply, holds up
    all others: once the loop has come to it, whatever clients and datagrams come after it,
    nothing more is served. *)
Theorem socks5_client_blocks_all cfg bind skipped c rest :
  Forall (passes cfg) skipped → stalls cfg c →
  socks5_next cfg bind (skipped ++ EvTcp (Some (Ok c)) :: rest) = None.
Proof.
  intros Hsk Hst. induction Hsk as [|ev sk (c'&->&Hns&Hno) _ IH]; [by apply socks5_next_stalls|].
  cbn [app]. destruct (client_cases cfg c') as [([]&dest&Hs)|[?|[_ Hno']]]; [|by destruct (Hno dest)|done|].
  - by rewrite (socks5_next_associate _ _ _ _ _ Hs), IH.
  - by rewrite (socks5_next_refused _ _ _ _ Hns Hno').
Qed.
(** [c] proved the configured credentials, if any, during the handshake. *)
Context (presented : C → option (string * string)).
Definition authenticated (credentials : option (string * string)) (c : C) : Prop :=
  match credentials with None => True | Some up => presented c = Some up end.

(** C20: Over TCP the socks5 proxy serves only clients that proved the configured
    credentials: every connection it hands to a tunnel, and every client it answers, has
    shown them in its handshake, and it goes where the client named.  A refused or failing
    client neither ends the stream nor gives an item: the next item is that of the first
    event that has one.  This is not so for datagrams, which the udp server hands on from
    anybody. *)
Theorem socks5_requires_credentials credentials bind events n :
  (∀ cfg c cnx up, allow_no_auth cfg = false → user_password cfg = Some up →
     upgrade cfg c = Done cnx → presented c = Some up) →
  let cfg := socks5_config credentials in
  socks5_next cfg bind events = Some n →
  (∃ skipped ev, events = skipped ++ ev :: n_rest n ∧ Forall (passes cfg) skipped
     ∧ gives cfg ev (n_item n))
  ∧ (∀ c dest, n_item n = Some (Ok (S5Tcp c, dest)) → authenticated credentials c)
  ∧ (∀ c reply, (c, reply) ∈ n_replies n → authenticated credentials c).
Proof.
  intros Hup cfg Hn.
  assert (∀ c associate dest, serves cfg c associate dest → authenticated credentials c) as Hauth.
  { intros c associate dest (cnx&_&_&Hu&_). unfold authenticated, cfg in *.
    destruct credentials as [up|]; [|done]. by eapply Hup in Hu. }
  pose proof (socks5_next_first cfg bind events) as Hf. rewrite Hn in Hf. split_and!.
  - done.
  - intros c dest Hi. destruct Hf as (_&ev&_&_&Hg). rewrite Hi in Hg.
    destruct ev as [[[c'|e|]|]|[[[u d]|e|]|]]; cbn in Hg; try done.
    destruct Hg as (dest'&Hs&[= -> ->]). by eapply Hauth.
  - intros c reply Hin. destruct (socks5_next_replies _ _ _ _ _ _ Hn Hin) as (b&dest&Hs&_).
    by eapply Hauth.
Qed.

End Socks5.

Section Socks5Witness.
#[local] Instance rfc1928 : Socks5Consts :=
  {| SOCKS5_VERSION := 5; SOCKS5_ADDR_TYPE_IPV4 := 1; SOCKS5_ADDR_TYPE_IPV6 := 4;
     reply_succeeded := 0 |}.

(** Clients are the credentials they show, and one that shows an empty name says nothing; all
    ask for the same host. *)
Definition toy_upgrade (cfg : S5Config) (c : option (string * string)) : Awaited S5Cnx :=
  if bool_decide (c = Some ("", "")) then Stalled
  else if allow_no_auth cfg || bool_decide (c = user_password cfg)
  then Done (mkS5Cnx (Some (TDomain "example.com" 80)) (Some TCPConnect)) else Failed.

Definition toy_s5_events : list (S5Event (C := option (string * string)) (U := nat)) :=
  [EvTcp (Some (Ok None)); EvTcp (Some (Ok (Some ("me", "wrong"))));
   EvTcp (Some (Ok (Some ("me", "secret")))); EvUdp None].

Lemma socks5_requires_credentials_witness :
  ∃ n, socks5_next toy_upgrade (λ _, Done ()) (socks5_config (Some ("me", "secret")))
         (SockV4 LOCALHOST_V4 1080) toy_s5_events = Some n
    ∧ n_item n = Some (Ok (S5Tcp (Some ("me", "secret")), (Domain "example.com", 80)))
    ∧ ∀ c reply, (c, reply) ∈ n_replies n → authenticated id (Some ("me", "secret")) c.
Proof.
  eexists. split; [vm_compute; reflexivity|]. split; [reflexivity|].
  apply (socks5_requires_credentials toy_upgrade (λ _, Done ()) id (Some ("me", "secret"))
           (SockV4 LOCALHOST_V4 1080) toy_s5_events).
  - intros cfg c cnx up Ha Hup. unfold toy_upgrade. rewrite Ha, Hup. cbn [orb].
    case_bool_decide; [done|]. by case_bool_decide.
  - vm_compute. reflexivity.
Defined.

Lemma socks5_client_blocks_all_witness :
  socks5_next toy_upgrade (λ _, Done ()) (socks5_config (Some ("me", "secret")))
    (SockV4 LOCALHOST_V4 1080)
    (EvTcp (Some (Ok (Some ("me", "wrong")))) :: EvTcp (Some (Ok (Some ("", "")))) :: toy_s5_events) = None.
Proof.
  apply (socks5_client_blocks_all toy_upgrade (λ _, Done ()) (socks5_config (Some ("me", "secret")))
           (SockV4 LOCALHOST_V4 1080) [EvTcp (Some (Ok (Some ("me", "wrong"))))]).
  - constructor; [|constructor]. eexists. split; [reflexivity|]. split.
    + intros [[=]|(?&?&[=]&_)].
    + intros dest (?&?&?&[=]&_).
  - left. reflexivity.
Defined.
End Socks5Witness.
End Socks5.
