(* ===== verification/Scp.v ===== *)
(** * Scp: file transfers over a tunnel

    Models [src/wstunnel/src/protocols/ssh/scp.rs], both directions, as programs over the
    messages of the channel and the local files.  The ssh session is an argument: the
    messages it delivers and whether it takes what is sent. *)

From Stdlib Require Import ZArith Lia Ascii String.
From stdpp Require Import base gmap strings list.
From S2P Require Import Prelude Str Net.

#[local] Open Scope stdpp_scope.

Definition NUL : string := String "000" "".
Definition LINE_FEED : ascii := "010"%char.

(** ** Paths *)

(** [Path::join]: an absolute path replaces the base. *)
Definition join (base name : PathBuf) : PathBuf :=
  if starts_with "/" name then name
  else if String.eqb base "" || ends_with "/" base then base +:+ name
  else base +:+ "/" +:+ name.

(** [Path::file_name]: the last component, unless it is [..]. *)
Definition file_name (p : PathBuf) : option string :=
  match last (filter (λ s, s ≠ "" ∧ s ≠ ".") (split_char "/" p)) with
  | Some s => if String.eqb s ".." then None else Some s
  | None => None
  end.

(** ** The channel, the files, and programs over them *)

Inductive ChannelMsg := Data (data : string) | Eof | Close | OtherMsg.

(** [ch_in] are the messages to come ([None] of [wait] after the last), [ch_out] what was
    sent; [files] and [dirs] are the files and directories made. *)
Record Scp := mkScp {
  ch_in : list ChannelMsg;
  ch_out : list string;
  files : gmap PathBuf string;
  dirs : gset PathBuf
}.

(** [send_ok n]: the [n]-th message is taken; [open_ok]: a channel can be opened and the
    command started; the rest says which files and directories can be made. *)
Record ScpEnv := mkScpEnv {
  open_ok : bool;
  send_ok : nat → bool;
  create_ok : PathBuf → bool;
  write_ok : PathBuf → bool;
  mkdir_ok : PathBuf → bool
}.

(** State and errors; [None] is a loop that runs out of its bound. *)
Definition scpM (A : Type) : Type := Scp → Scp * option (outcome string A).
#[global] Instance scpM_ret : MRet scpM := λ A a st, (st, Some (Ok a)).
#[global] Instance scpM_bind : MBind scpM := λ A B f m st,
  match m st with
  | (st, Some (Ok a)) => f a st
  | (st, Some (Err e)) => (st, Some (Err e))
  | (st, Some Panic) => (st, Some Panic)
  | (st, None) => (st, None)
  end.

Definition lift {A} (o : outcome string A) : scpM A := λ st, (st, Some o).
Definition bail {A} (e : string) : scpM A := lift (Err e).
Definition out_of_fuel {A} : scpM A := λ st, (st, None).
Definition check (b : bool) (e : string) : scpM () := if b then mret () else bail e.
(** The messages to come bound the loops that wait for them. *)
Definition messages_left : scpM nat := λ st, (st, Some (Ok (length (ch_in st)))).

Section Scp.
Context (env : ScpEnv).

Definition send (data : string) : scpM () := λ st,
  if send_ok env (length (ch_out st))
  then (mkScp (ch_in st) (ch_out st ++ [data]) (files st) (dirs st), Some (Ok ()))
  else (st, Some (Err "send")).
(** [channel.eof()]. *)
Definition send_eof : scpM () := λ st, check (send_ok env (length (ch_out st))) "eof" st.

Definition file_create (dest : PathBuf) : scpM () := λ st,
  if create_ok env dest
  then (mkScp (ch_in st) (ch_out st) (<[dest := ""]> (files st)) (dirs st), Some (Ok ()))
  else (st, Some (Err "cannot create")).
Definition write_all (dest : PathBuf) (data : string) : scpM () := λ st,
  if write_ok env dest
  then (mkScp (ch_in st) (ch_out st)
          (<[dest := default "" (files st !! dest) +:+ data]> (files st)) (dirs st), Some (Ok ()))
  else (st, Some (Err "write")).
Definition create_dir_all (dest : PathBuf) : scpM () := λ st,
  if mkdir_ok env dest
  then (mkScp (ch_in st) (ch_out st) (files st) ({[dest]} ∪ dirs st), Some (Ok ()))
  else (st, Some (Err "cannot create dir")).

(** ** Receiving *)

(** The messages up to the one that ends the loop of [recv_response]. *)
Fixpoint response_of (msgs : list ChannelMsg) : list ChannelMsg * outcome string () :=
  match msgs with
  | [] => ([], Err "channel closed")
  | Data "" :: msgs => response_of msgs
  | Data (String a rest) :: msgs =>
      let c := N_of_ascii a in
      (msgs, if (c =? 0)%N then Ok ()
             else if (c =? 1)%N then Ok ()
             else if (c =? 2)%N then Err ("scp error: " +:+ trim (from_utf8_lossy rest))
             else Err "unexpected scp response byte")
  | (Eof | Close) :: msgs => (msgs, Err "channel closed unexpectedly")
  | OtherMsg :: msgs => response_of msgs
  end.
Definition recv_response : scpM () := λ st,
  let '(msgs, r) := response_of (ch_in st) in
  (mkScp msgs (ch_out st) (files st) (dirs st), Some r).

(** [false] when the channel is closed. *)
Fixpoint data_of (buf : string) (msgs : list ChannelMsg) : list ChannelMsg * (bool * string) :=
  match msgs with
  | [] => ([], (false, buf))
  | Data data :: msgs => (msgs, (true, buf +:+ data))
  | (Eof | Close) :: msgs => (msgs, (false, buf))
  | OtherMsg :: msgs => data_of buf msgs
  end.
Definition recv_data (buf : string) : scpM (bool * string) := λ st,
  let '(msgs, r) := data_of buf (ch_in st) in
  (mkScp msgs (ch_out st) (files st) (dirs st), Some (Ok r)).

(** ** Upload *)

(** The local files: [metadata().len()], [is_dir], [read], [read_dir] (the names of the
    entries, [None] for an entry that cannot be read). *)
Record LocalFs := mkLocalFs {
  lf_len : PathBuf → option Z;
  lf_is_dir : PathBuf → bool;
  lf_read : PathBuf → option string;
  lf_read_dir : PathBuf → option (list (option string))
}.
Context (fs : LocalFs).

Definition file_header (size : Z) (name : string) : string :=
  "C0644 " +:+ show size +:+ " " +:+ name +:+ String LINE_FEED "".
Definition dir_header (name : string) : string := "D0755 0 " +:+ name +:+ String LINE_FEED "".
Definition END_DIR : string := "E" +:+ String LINE_FEED "".

Definition upload_file (path : PathBuf) : scpM () :=
  size ← lift (ok_or "cannot stat" (lf_len fs path));
  name ← lift (ok_or "no file name" (file_name path));
  send (file_header size (from_utf8_lossy name));;
  recv_response;;
  data ← lift (ok_or "cannot read" (lf_read fs path));
  send data;;
  send NUL;;
  recv_response.

(** [fuel] bounds the depth of directories (links may make it infinite). *)
Fixpoint upload_dir (fuel : nat) (dir : PathBuf) : scpM () :=
  match fuel with
  | 0%nat => out_of_fuel
  | S fuel =>
      name ← lift (ok_or "no directory name" (file_name dir));
      send (dir_header (from_utf8_lossy name));;
      recv_response;;
      entries ← lift (ok_or "cannot read dir" (lf_read_dir fs dir));
      foldr (λ entry (next : scpM ()),
               entry ← lift (ok_or "next_entry" entry);
               let path := join dir entry in
               (if lf_is_dir fs path then upload_dir fuel path else upload_file path);;
               next)
        (mret ()) entries;;
      send END_DIR;;
      recv_response
  end.

Definition scp_upload (fuel : nat) (local : PathBuf) (recursive : bool) : scpM () :=
  check (open_ok env) "exec";;
  recv_response;;
  (if lf_is_dir fs local
   then if negb recursive then bail "is a directory (use --recursive)" else upload_dir fuel local
   else upload_file local);;
  send_eof.

(** ** Download *)

(** Slicing off the first byte panics if it is not a whole character. *)
Definition parse_c_header (buf : string) : outcome string (Z * string) :=
  line ← ok_or "invalid utf-8 in scp header" (from_utf8 buf);
  let line := trim_end_matches LINE_FEED line in
  rest ← unwrap (if is_char_boundary 1 line then Some (drop_str 1 line) else None);
  match splitn_char 3 " " rest with
  | _ :: size :: name :: _ =>
      size ← ok_or "invalid size in scp header" (parse_u64 size);
      Ok (size, name)
  | _ => Err "malformed scp header"
  end.

(** The loop of [download_file_data]; gives the buffer after it. *)
Fixpoint body_loop (fuel : nat) (dest : PathBuf) (remaining : Z) (buf : string) : scpM string :=
  match fuel with
  | 0%nat => out_of_fuel
  | S fuel =>
      if remaining <=? 0 then mret buf
      else
        '(more, buf) ← recv_data "";
        if negb more then bail "channel closed during file transfer"
        else
          let take := Z.to_nat (Z.min remaining (Z.of_nat (String.length buf))) in
          write_all dest (take_str take buf);;
          body_loop fuel dest (remaining - Z.of_nat take)
            (if Nat.ltb take (String.length buf) then drop_str take buf else "")
  end.

Definition download_file_data (dest : PathBuf) (size : Z) (buf : string) : scpM string :=
  file_create dest;;
  fuel ← messages_left;
  buf ← body_loop (S fuel) dest size buf;
  check (write_ok env dest) "flush";;
  buf ← (if String.eqb buf "" then '(_, buf) ← recv_data buf; mret buf else mret buf);
  mret (match buf with
        | String a rest => if Ascii.eqb a "000" then rest else buf
        | "" => ""
        end).

(** The last directory of [dir_stack] comes first. *)
Fixpoint download_loop (fuel : nat) (dir_stack : list PathBuf) (buf : string) : scpM () :=
  match fuel with
  | 0%nat => out_of_fuel
  | S fuel =>
      '(more, buf) ← recv_data buf;
      if negb more then mret ()
      else
        match buf with
        | "" => download_loop fuel dir_stack buf
        | String a rest =>
            if Ascii.eqb a "C" then
              '(size, name) ← lift (parse_c_header buf);
              send NUL;;
              last ← lift (unwrap (head dir_stack));
              let dest := join last name in
              _ ← download_file_data dest size "";
              send NUL;;
              download_loop fuel dir_stack ""
            else if Ascii.eqb a "D" then
              '(_, name) ← lift (parse_c_header buf);
              last ← lift (unwrap (head dir_stack));
              let dest := join last name in
              create_dir_all dest;;
              send NUL;;
              download_loop fuel (dest :: dir_stack) ""
            else if Ascii.eqb a "E" then
              let dir_stack := if Nat.ltb 1 (length dir_stack) then tail dir_stack else dir_stack in
              send NUL;;
              download_loop fuel dir_stack ""
            else if Ascii.eqb a "001" then
              send NUL;;
              download_loop fuel dir_stack ""
            else if Ascii.eqb a "002" then bail ("scp error: " +:+ trim (from_utf8_lossy rest))
            else bail "unexpected scp header byte"
        end
  end.

Definition scp_download (local : PathBuf) : scpM () :=
  check (open_ok env) "exec";;
  send NUL;;
  fuel ← messages_left;
  download_loop (S fuel) [local] "";;
  send_eof.

(** *** The command line *)

Inductive ScpTransfer :=
| Upload (local : PathBuf) (remote : string)
| Download (remote : string) (local : PathBuf).

(** Remote paths start with a colon; exactly one of the two is remote. *)
Definition scp_transfer (source dest : string) : outcome string ScpTransfer :=
  match starts_with ":" source, starts_with ":" dest with
  | false, true => Ok (Upload source (drop_str 1 dest))
  | true, false => Ok (Download (drop_str 1 source) dest)
  | true, true => Err "both source and dest are remote"
  | false, false => Err "one of source or dest must be a remote path"
  end.

(** [connected] is the result of [connect_ssh]. *)
Definition run_scp_client_impl (fuel : nat) (connected : outcome string ()) (transfer : ScpTransfer)
    (recursive : bool) : scpM () :=
  lift connected;;
  match transfer with
  | Upload local _ => scp_upload fuel local recursive
  | Download _ local => scp_download local
  end.

(** The commands the two directions run. *)
Definition upload_command (remote : string) (recursive : bool) : string :=
  if recursive then "scp -r -t " +:+ remote else "scp -t " +:+ remote.
Definition download_command (remote : string) (recursive : bool) : string :=
  if recursive then "scp -r -f " +:+ remote else "scp -f " +:+ remote.
End Scp.

(** ** Termination *)

(** [m] ends and uses up messages only. *)
Definition ends {A} (m : scpM A) (st : Scp) : Prop :=
  snd (m st) ≠ None ∧ (length (ch_in (fst (m st))) ≤ length (ch_in st))%nat.

Lemma ends_bind {A B} (m : scpM A) (f : A → scpM B) st :
  ends m st →
  (∀ a st', m st = (st', Some (Ok a)) → (length (ch_in st') ≤ length (ch_in st))%nat →
     ends (f a) st') →
  ends (m ≫= f) st.
Proof.
  unfold ends, mbind, scpM_bind. intros [Hm Hl] Hf.
  destruct (m st) as [st' [[a|e|]|]] eqn:Hst; cbn [fst snd] in *; try done.
  destruct (Hf a st' eq_refl Hl) as [Hn Hl']. split; [done|lia].
Qed.

Lemma ends_lift {A} (o : outcome string A) st : ends (lift o) st.
Proof. done. Qed.
Lemma ends_bail {A} e st : ends (bail (A := A) e) st.
Proof. done. Qed.
Lemma ends_ret {A} (a : A) st : ends (mret a) st.
Proof. done. Qed.
Lemma ends_check b e st : ends (check b e) st.
Proof. by destruct b. Qed.
Lemma ends_send env data st : ends (send env data) st.
Proof. unfold ends, send. by case_match. Qed.
Lemma ends_send_eof env st : ends (send_eof env) st.
Proof. apply ends_check. Qed.
Lemma ends_file_create env dest st : ends (file_create env dest) st.
Proof. unfold ends, file_create. by case_match. Qed.
Lemma ends_write_all env dest data st : ends (write_all env dest data) st.
Proof. unfold ends, write_all. by case_match. Qed.
Lemma ends_create_dir_all env dest st : ends (create_dir_all env dest) st.
Proof. unfold ends, create_dir_all. by case_match. Qed.

Lemma data_of_shorter buf msgs :
  let '(msgs', (more, _)) := data_of buf msgs in
  (length msgs' ≤ length msgs)%nat ∧ (more = true → length msgs' < length msgs)%nat.
Proof.
  induction msgs as [|[data| | |] msgs IH]; cbn; [naive_solver lia..|].
  destruct (data_of buf msgs) as [msgs' [more buf']]. split; [lia|]. intros Hm. apply IH in Hm. lia.
Qed.

Lemma ends_recv_data buf st : ends (recv_data buf) st.
Proof.
  unfold ends, recv_data. pose proof (data_of_shorter buf (ch_in st)) as H.
  destruct (data_of buf (ch_in st)) as [msgs' [more buf']]. cbn. by destruct H.
Qed.
Lemma recv_data_shorter buf st st' buf' :
  recv_data buf st = (st', Some (Ok (true, buf'))) → (length (ch_in st') < length (ch_in st))%nat.
Proof.
  unfold recv_data. pose proof (data_of_shorter buf (ch_in st)) as H.
  destruct (data_of buf (ch_in st)) as [msgs' [more b]]. intros [= <- -> _]. cbn. by apply H.
Qed.

Create HintDb scp_ends.
#[export] Hint Resolve ends_lift ends_bail ends_ret ends_check ends_send ends_send_eof ends_file_create
  ends_write_all ends_create_dir_all ends_recv_data : scp_ends.

Ltac ends_step :=
  match goal with
  | |- ends (_ ≫= _) _ => apply ends_bind; [|intros]
  | |- ends (let '(_, _) := ?p in _) _ => destruct p
  | |- ends (if ?b then _ else _) _ => destruct b
  | |- ends _ _ => solve [auto with scp_ends]
  end.

Lemma ends_body_loop env fuel dest remaining buf st :
  (length (ch_in st) < fuel)%nat → ends (body_loop env fuel dest remaining buf) st.
Proof.
  revert remaining buf st. induction fuel as [|fuel IH]; intros remaining buf st Hf; [lia|].
  cbn [body_loop]. destruct (remaining <=? 0); [auto with scp_ends|].
  apply ends_bind; [auto with scp_ends|]. intros [[] buf'] st' Hr Hl; cbn [negb]; [|done].
  apply recv_data_shorter in Hr. apply ends_bind; [auto with scp_ends|].
  intros _ st'' _ Hl'. apply IH. lia.
Qed.

Lemma ends_download_file_data env dest size buf st : ends (download_file_data env dest size buf) st.
Proof.
  unfold download_file_data. apply ends_bind; [auto with scp_ends|]. intros _ st1 _ _.
  apply ends_bind; [done|]. intros fuel st2 [= <- <-] _.
  apply ends_bind; [apply ends_body_loop; lia|]. intros b st3 _ _. repeat ends_step.
Qed.
#[export] Hint Resolve ends_download_file_data : scp_ends.

Lemma ends_download_loop env fuel dir_stack buf st :
  (length (ch_in st) < fuel)%nat → ends (download_loop env fuel dir_stack buf) st.
Proof.
  revert dir_stack buf st. induction fuel as [|fuel IH]; intros dir_stack buf st Hf; [lia|].
  cbn [download_loop]. apply ends_bind; [auto with scp_ends|].
  intros [[] buf'] st' Hr Hl; cbn [negb]; [|done]. apply recv_data_shorter in Hr.
  assert (∀ stack b st'', (length (ch_in st'') ≤ length (ch_in st'))%nat →
    ends (download_loop env fuel stack b) st'') as Hloop by (intros; apply IH; lia).
  destruct buf' as [|a rest]; [by apply Hloop|].
  repeat ends_step; apply Hloop; lia.
Qed.

(** C29: The transfer ends whatever the server sends: the loops are bounded by the messages
    that come, each turn taking at least one. *)
Theorem scp_download_terminates env local st : snd (scp_download env local st) ≠ None.
Proof.
  apply (ends_bind (check (open_ok env) "exec")); [auto with scp_ends|]. intros _ st1 _ _.
  apply ends_bind; [auto with scp_ends|]. intros _ st2 _ _.
  apply ends_bind; [done|]. intros fuel st3 [= <- <-] _.
  apply ends_bind; [apply ends_download_loop; lia|]. intros _ st4 _ _. auto with scp_ends.
Qed.

(** ** What is transferred *)

Inductive Node := FileNode (content : string) | DirNode (entries : list (string * Node)).

(** The messages of a transfer between two acknowledgements: a line, or the bytes of a file
    with the zero that ends them. *)
Inductive Item := Line (s : string) | Body (data : string).

Fixpoint transcript (name : string) (node : Node) : list Item :=
  match node with
  | FileNode content =>
      [Line (file_header (Z.of_nat (String.length content)) name); Body content]
  | DirNode entries =>
      Line (dir_header name)
      :: concat ((λ '(n, x), transcript n x) <$> entries) ++ [Line END_DIR]
  end.

(** The files and directories of a node put in [base], in the order they are made. *)
Fixpoint node_files (base : PathBuf) (name : string) (node : Node) : list (PathBuf * string) :=
  match node with
  | FileNode content => [(join base name, content)]
  | DirNode entries => concat ((λ '(n, x), node_files (join base name) n x) <$> entries)
  end.
Fixpoint node_dirs (base : PathBuf) (name : string) (node : Node) : list PathBuf :=
  match node with
  | FileNode _ => []
  | DirNode entries => join base name :: concat ((λ '(n, x), node_dirs (join base name) n x) <$> entries)
  end.
Definition add_files (m : gmap PathBuf string) (l : list (PathBuf * string)) : gmap PathBuf string :=
  foldl (λ m '(p, c), <[p := c]> m) m l.
Definition add_dirs (m : gset PathBuf) (l : list PathBuf) : gset PathBuf :=
  foldl (λ m p, {[p]} ∪ m) m l.

(** File names: components of a path, text, on one line. *)
Definition good_name (n : string) : bool :=
  utf8_valid n && negb (contains_char "/" n) && negb (contains_char LINE_FEED n)
  && negb (bool_decide (n ∈ ["" ; "."; ".."])).
Fixpoint good_node (node : Node) : bool :=
  match node with
  | FileNode content => Z.of_nat (String.length content) <=? U64_MAX
  | DirNode entries => forallb (λ '(n, x), good_name n && good_node x) entries
  end.

(** Induction over the entries. *)
Lemma Node_ind' (P : Node → Prop) :
  (∀ c, P (FileNode c)) → (∀ es, Forall (λ e, P (snd e)) es → P (DirNode es)) → ∀ x, P x.
Proof.
  intros Hf Hd. fix IH 1. intros [c|es]; [apply Hf|]. apply Hd.
  induction es as [|[n x] es IHes]; constructor; [apply IH|done].
Qed.

(** *** Names and headers *)

Lemma good_name_spec n : good_name n = true ↔
  utf8_valid n = true ∧ contains_char "/" n = false ∧ contains_char LINE_FEED n = false
  ∧ n ≠ "" ∧ n ≠ "." ∧ n ≠ "..".
Proof.
  unfold good_name. rewrite !andb_true_iff, !negb_true_iff, bool_decide_eq_false.
  rewrite !not_elem_of_cons. pose proof (not_elem_of_nil n). naive_solver.
Qed.

(** A name that fits on the line of a header. *)
Definition line_name (n : string) : Prop :=
  utf8_valid n = true ∧ contains_char LINE_FEED n = false ∧ n ≠ "".
Lemma good_line_name n : good_name n = true → line_name n.
Proof. intros (?&_&?&?&_)%good_name_spec. done. Qed.

Lemma starts_with_slash n : contains_char "/" n = false → starts_with "/" n = false.
Proof.
  intros Hn. destruct (starts_with "/" n) eqn:Hs; [|done].
  apply starts_with_true in Hs as [r ->]. revert Hn. unfold contains_char.
  rewrite bool_decide_eq_false, bytes_app. cbn. set_solver.
Qed.

Lemma file_name_join base n : good_name n = true → file_name (join base n) = Some n.
Proof.
  intros (_&Hs&_&Hne&Hdot&Hdd)%good_name_spec. unfold join, file_name.
  rewrite starts_with_slash by done.
  assert (∀ l, last (filter (λ s, s ≠ "" ∧ s ≠ ".") (l ++ [n])) = Some n) as Hlast.
  { intros l. rewrite filter_app, filter_cons, decide_True by done. cbn. apply last_snoc. }
  assert (∀ p, split_char "/" (p +:+ String "/" n) = split_char "/" p ++ [n]) as Hsplit.
  { intros p. by rewrite split_char_app_any, (split_char_none _ n). }
  assert (String.eqb n ".." = false) as Hdd' by by apply String.eqb_neq.
  destruct (String.eqb_spec base "") as [->|]; cbn [orb].
  { rewrite app_Empty, split_char_none by done. change [n] with ([] ++ [n]). rewrite Hlast. by rewrite Hdd'. }
  destruct (ends_with "/" base) eqn:He.
  - apply ends_with_true in He as [r ->]. rewrite str_app_assoc. change ("/" +:+ n) with (String "/" n).
    rewrite Hsplit, Hlast. by rewrite Hdd'.
  - change ("/" +:+ n) with (String "/" n). rewrite Hsplit, Hlast. by rewrite Hdd'.
Qed.

Lemma parse_header_gen (mode : string) size name c :
  graphic mode = true → mode ≠ "" → contains_char " " mode = false → in_range 0 127 c = true →
  0 ≤ size ≤ U64_MAX → line_name name →
  parse_c_header (String c mode +:+ " " +:+ show size +:+ " " +:+ name +:+ String LINE_FEED "")
  = Ok (size, name).
Proof.
  intros Hm Hmne Hsp Hc Hsz (Hu&Hlf&Hne). unfold parse_c_header, from_utf8.
  replace (utf8_valid _) with true.
  2:{ symmetry. rewrite app_String. cbn [utf8_valid]. rewrite Hc.
      repeat apply utf8_valid_app; try done; apply utf8_valid_graphic; auto using show_graphic. }
  cbn [ok_or mbind outcome_bind].
  replace (trim_end_matches _ _) with (String c (mode +:+ " " +:+ show size +:+ " " +:+ name)).
  2:{ rewrite <-!str_app_assoc, trim_end_matches_snoc.
      destruct (str_snoc_inv name) as [->|(t&d&->)]; [done|].
      rewrite <-!str_app_assoc, trim_end_matches_last; [by rewrite !str_app_assoc, app_String|].
      intros <-. revert Hlf. unfold contains_char. rewrite bool_decide_eq_false, bytes_app. cbn. set_solver. }
  assert (is_char_boundary 1 (String c (mode +:+ " " +:+ show size +:+ " " +:+ name)) = true) as ->.
  { destruct mode as [|d mode]; [done|]. rewrite graphic_cons in Hm. apply andb_true_iff in Hm as [Hd _].
    rewrite app_String. unfold is_char_boundary, cont, in_range, graphic_char in *. cbn [String.get].
    apply negb_true_iff. lia. }
  cbn [unwrap mbind outcome_bind drop_str splitn_char].
  rewrite !app_String, !app_Empty.
  rewrite (proj2 (split_once_char_Some " " _ mode (show size +:+ String " " name))) by done.
  rewrite (proj2 (split_once_char_Some " " _ (show size) name)) by (split; [done|by apply show_no_sep]).
  unfold parse_u64. by rewrite parse_uint_show.
Qed.

Lemma parse_file_header size name :
  0 ≤ size ≤ U64_MAX → line_name name → parse_c_header (file_header size name) = Ok (size, name).
Proof. intros Hs Hn. by apply (parse_header_gen "0644" size name "C"). Qed.
Lemma parse_dir_header name :
  line_name name → parse_c_header (dir_header name) = Ok (0, name).
Proof. intros Hn. by apply (parse_header_gen "0755" 0 name "D"). Qed.

(** *** How messages carry items *)

(** The bytes of a file come in pieces of any size; other messages may come in between. *)
Inductive chunks_of : string → list ChannelMsg → Prop :=
| chunks_last d : d ≠ "" → chunks_of d [Data d]
| chunks_data d s msgs : d ≠ "" → chunks_of s msgs → chunks_of (d +:+ s) (Data d :: msgs)
| chunks_other s msgs : chunks_of s msgs → chunks_of s (OtherMsg :: msgs).

(** A line is one message: its reader waits for it before it answers. *)
Inductive carries : list Item → list ChannelMsg → Prop :=
| carries_nil : carries [] []
| carries_line s items msgs : carries items msgs → carries (Line s :: items) (Data s :: msgs)
| carries_body d items msgs msgs' :
    chunks_of (d +:+ NUL) msgs → carries items msgs' → carries (Body d :: items) (msgs ++ msgs')
| carries_other items msgs : carries items msgs → carries items (OtherMsg :: msgs).

(** A session and a disk that refuse nothing. *)
Definition all_ok (env : ScpEnv) : Prop :=
  open_ok env = true ∧ (∀ n, send_ok env n = true)
  ∧ ∀ p, create_ok env p = true ∧ write_ok env p = true ∧ mkdir_ok env p = true.

Lemma chunks_of_nonempty s msgs : chunks_of s msgs → s ≠ "".
Proof. induction 1 as [d|[|a d] s msgs|]; try done. Qed.

Lemma append_nil_inv s t : s +:+ t = "" → s = "" ∧ t = "".
Proof. destruct s; [by rewrite app_Empty|by rewrite app_String]. Qed.

(** A prefix of a text and its last byte either stops before the byte or includes it. *)
Lemma app_snoc_inv (c s d : string) (b : ascii) :
  c +:+ s = d +:+ String b "" → s ≠ "" → ∃ d', d = c +:+ d' ∧ s = d' +:+ String b "".
Proof.
  revert d. induction c as [|a c IH]; intros d Heq Hs.
  - rewrite app_Empty in Heq. exists d. by rewrite app_Empty.
  - destruct d as [|a' d].
    + rewrite app_Empty, app_String in Heq. injection Heq as -> Heq.
      by apply append_nil_inv in Heq as [_ ->].
    + rewrite !app_String in Heq. injection Heq as -> Heq.
      destruct (IH d Heq Hs) as (d'&->&->). exists d'. by rewrite app_String.
Qed.

Section Receive.
Context (env : ScpEnv) (Henv : all_ok env).

Lemma send_spec data i o f d :
  send env data (mkScp i o f d) = (mkScp i (o ++ [data]) f d, Some (Ok ())).
Proof. unfold send. cbn. by rewrite (proj1 (proj2 Henv)). Qed.
Lemma file_create_spec p i o f d :
  file_create env p (mkScp i o f d) = (mkScp i o (<[p := ""]> f) d, Some (Ok ())).
Proof. unfold file_create. by destruct (proj2 (proj2 Henv) p) as [-> _]. Qed.
Lemma write_all_spec p data w i o f d :
  f !! p = Some w →
  write_all env p data (mkScp i o f d) = (mkScp i o (<[p := w +:+ data]> f) d, Some (Ok ())).
Proof. intros Hp. unfold write_all. cbn. rewrite Hp. by destruct (proj2 (proj2 Henv) p) as (_&->&_). Qed.
Lemma create_dir_all_spec p i o f d :
  create_dir_all env p (mkScp i o f d) = (mkScp i o f ({[p]} ∪ d), Some (Ok ())).
Proof. unfold create_dir_all. by destruct (proj2 (proj2 Henv) p) as (_&_&->). Qed.

Lemma body_loop_done fuel p buf st : body_loop env (S fuel) p 0 buf st = (st, Some (Ok buf)).
Proof. done. Qed.

Lemma body_loop_data fuel p remaining buf data w i o f d :
  0 < remaining → f !! p = Some w →
  let take := Z.to_nat (Z.min remaining (Z.of_nat (String.length data))) in
  body_loop env (S fuel) p remaining buf (mkScp (Data data :: i) o f d)
  = body_loop env fuel p (remaining - Z.of_nat take)
      (if Nat.ltb take (String.length data) then drop_str take data else "")
      (mkScp i o (<[p := w +:+ take_str take data]> f) d).
Proof.
  intros Hr Hp take. cbn [body_loop]. rewrite (proj2 (Z.leb_gt _ _)) by done.
  unfold mbind, scpM_bind. cbn [recv_data data_of ch_in ch_out files dirs]. rewrite app_Empty.
  cbn [negb]. fold take. by rewrite (write_all_spec _ _ w).
Qed.

Lemma body_loop_other fuel p remaining buf i o f d :
  0 < remaining →
  body_loop env fuel p remaining buf (mkScp (OtherMsg :: i) o f d)
  = body_loop env fuel p remaining buf (mkScp i o f d)
  ∨ fuel = 0%nat.
Proof.
  intros Hr. destruct fuel; [by right|left]. cbn [body_loop].
  by rewrite (proj2 (Z.leb_gt _ _)).
Qed.

(** The loop writes the bytes of the file and leaves at most the zero that ends them. *)
Lemma body_loop_writes p data msgs fuel rest o f d w :
  chunks_of (data +:+ NUL) msgs → (length msgs < fuel)%nat → f !! p = Some w →
  ∃ msgs' buf,
    body_loop env fuel p (Z.of_nat (String.length data)) "" (mkScp (msgs ++ rest) o f d)
    = (mkScp (msgs' ++ rest) o (<[p := w +:+ data]> f) d, Some (Ok buf))
    ∧ (buf = NUL ∧ msgs' = [] ∨ buf = "" ∧ chunks_of NUL msgs').
Proof.
  intros Hc. remember (data +:+ NUL) as s eqn:Hs. revert data Hs fuel f w.
  induction Hc as [s Hne|c s msgs Hne Hc IH|s msgs Hc IH]; intros data Hs fuel f w Hf Hp;
    (destruct data as [|a data];
     [destruct fuel; [cbn in Hf; lia|]; rewrite app_Empty in Hs; subst; rewrite app_empty_r, insert_id by done;
      eexists _, ""; (split; [done|]); right; (split; [done|]) |]).
  - by constructor.
  - destruct fuel as [|[|fuel]]; [cbn in Hf; lia..|]. subst s. set (data' := String a data) in *.
    cbn [app]. rewrite (body_loop_data _ _ _ _ _ w) by (done || (unfold data'; cbn; lia)).
    rewrite length_str_app. cbn [String.length].
    rewrite Z.min_l, Nat2Z.id, Z.sub_diag, take_str_app, drop_str_app by (cbn; lia).
    rewrite (proj2 (Nat.ltb_lt _ _)) by (cbn; lia). rewrite body_loop_done.
    exists [], NUL. split; [done|by left].
  - rewrite <-Hs. by constructor.
  - apply app_snoc_inv in Hs as (d'&Hd&->); [|by eapply chunks_of_nonempty].
    destruct fuel as [|fuel]; [cbn in Hf; lia|]. cbn [app].
    rewrite (body_loop_data _ _ _ _ _ w) by (done || (cbn; lia)).
    rewrite Hd, length_str_app. rewrite Z.min_r, Nat2Z.id by lia.
    rewrite take_str_all, Nat.ltb_irrefl by done.
    replace (Z.of_nat (String.length c + String.length d') - Z.of_nat (String.length c))
      with (Z.of_nat (String.length d')) by lia.
    destruct (IH d' eq_refl fuel (<[p:=w +:+ c]> f) (w +:+ c)) as (m'&buf&Hl&Hb).
    { cbn in Hf. lia. } { apply lookup_insert_eq. }
    exists m', buf. split; [|done]. rewrite Hl, insert_insert_eq. by rewrite str_app_assoc.
  - by constructor.
  - cbn [app]. destruct (body_loop_other fuel p (Z.of_nat (String.length (String a data))) ""
      (msgs ++ rest) o f d) as [->| ->]; [cbn; lia| |cbn in Hf; lia].
    apply IH; [done|cbn in Hf; lia|done].
Qed.

Lemma recv_zero msgs rest o f d :
  chunks_of NUL msgs →
  recv_data "" (mkScp (msgs ++ rest) o f d) = (mkScp rest o f d, Some (Ok (true, NUL))).
Proof.
  intros Hc. remember NUL as s eqn:Hs. induction Hc as [s Hne|c s msgs Hne Hc _|s msgs Hc IH].
  - subst. done.
  - apply chunks_of_nonempty in Hc. destruct c as [|a [|b c]], s as [|a' s]; done.
  - cbn [app]. by apply IH.
Qed.

Lemma download_file_data_spec p data msgs rest o f d :
  chunks_of (data +:+ NUL) msgs →
  download_file_data env p (Z.of_nat (String.length data)) "" (mkScp (msgs ++ rest) o f d)
  = (mkScp rest o (<[p := data]> f) d, Some (Ok "")).
Proof.
  intros Hc. unfold download_file_data, mbind, scpM_bind. rewrite file_create_spec.
  cbn [messages_left ch_in]. rewrite length_app.
  destruct (body_loop_writes p data msgs (S (length msgs + length rest)) rest o (<[p:=""]> f) d "" Hc)
    as (m'&buf&Hl&Hb); [lia|apply lookup_insert_eq|]. rewrite Hl.
  rewrite app_Empty, insert_insert_eq. destruct (proj2 (proj2 Henv) p) as (_&->&_).
  cbn [check mret scpM_ret]. destruct Hb as [[-> ->]|[-> Hz]]; [done|].
  cbn [String.eqb]. by rewrite (recv_zero _ _ _ _ _ Hz).
Qed.

(** *** One turn of the loop *)

Lemma download_loop_other fuel stack buf i o f d :
  download_loop env (S fuel) stack buf (mkScp (OtherMsg :: i) o f d)
  = download_loop env (S fuel) stack buf (mkScp i o f d).
Proof. done. Qed.

Lemma download_loop_file fuel base stack name content msgs rest o f d :
  line_name name → Z.of_nat (String.length content) ≤ U64_MAX →
  chunks_of (content +:+ NUL) msgs →
  download_loop env (S fuel) (base :: stack) ""
    (mkScp (Data (file_header (Z.of_nat (String.length content)) name) :: msgs ++ rest) o f d)
  = download_loop env fuel (base :: stack) ""
      (mkScp rest ((o ++ [NUL]) ++ [NUL]) (<[join base name := content]> f) d).
Proof.
  intros Hn Hsz Hc. cbn [download_loop]. unfold mbind, scpM_bind at 1.
  cbn [recv_data data_of ch_in ch_out files dirs]. rewrite app_Empty.
  pose proof (parse_file_header (Z.of_nat (String.length content)) name ltac:(lia) Hn) as Hp.
  unfold file_header in *. rewrite app_String in *. cbn [negb Ascii.eqb]. cbn -[parse_c_header send download_file_data download_loop join].
  unfold mbind, scpM_bind, lift. rewrite Hp, send_spec. cbn [unwrap head].
  rewrite (download_file_data_spec _ _ _ _ _ _ _ Hc). by rewrite send_spec.
Qed.

Lemma download_loop_dir fuel base stack name rest o f d :
  good_name name = true →
  download_loop env (S fuel) (base :: stack) "" (mkScp (Data (dir_header name) :: rest) o f d)
  = download_loop env fuel (join base name :: base :: stack) ""
      (mkScp rest (o ++ [NUL]) f ({[join base name]} ∪ d)).
Proof.
  intros Hn. cbn [download_loop]. unfold mbind, scpM_bind at 1.
  cbn [recv_data data_of ch_in ch_out files dirs]. rewrite app_Empty.
  pose proof (parse_dir_header name (good_line_name _ Hn)) as Hp.
  unfold dir_header in *. rewrite app_String in *. cbn -[parse_c_header send create_dir_all download_loop join].
  unfold mbind, scpM_bind, lift. rewrite Hp. cbn [unwrap head].
  by rewrite create_dir_all_spec, send_spec.
Qed.

Lemma download_loop_end fuel dir base stack rest o f d :
  download_loop env (S fuel) (dir :: base :: stack) "" (mkScp (Data END_DIR :: rest) o f d)
  = download_loop env fuel (base :: stack) "" (mkScp rest (o ++ [NUL]) f d).
Proof.
  change END_DIR with (String "E" (String LINE_FEED "")).
  cbn [download_loop]. unfold mbind, scpM_bind at 1.
  cbn [recv_data data_of ch_in ch_out files dirs]. rewrite app_Empty. cbn -[send download_loop].
  unfold mbind, scpM_bind. by rewrite send_spec.
Qed.

Lemma download_loop_eof fuel stack i o f d :
  download_loop env (S fuel) stack "" (mkScp (Eof :: i) o f d) = (mkScp i o f d, Some (Ok ())).
Proof. done. Qed.
Lemma send_eof_spec st : send_eof env st = (st, Some (Ok ())).
Proof. unfold send_eof. by rewrite (proj1 (proj2 Henv)). Qed.

Lemma download_skip k fuel stack i o f d :
  (0 < fuel)%nat →
  download_loop env fuel stack "" (mkScp (replicate k OtherMsg ++ i) o f d)
  = download_loop env fuel stack "" (mkScp i o f d).
Proof.
  intros Hf. destruct fuel; [lia|]. induction k as [|k IH]; [done|].
  cbn [replicate app]. by rewrite download_loop_other.
Qed.

Lemma carries_line_inv s items msgs :
  carries (Line s :: items) msgs → ∃ k m, msgs = replicate k OtherMsg ++ Data s :: m ∧ carries items m.
Proof.
  intros Hc. remember (Line s :: items) as l eqn:Hl. induction Hc as [| | |l msgs Hc IH]; simplify_eq.
  - by exists 0%nat, msgs.
  - destruct IH as (k&m&->&Hm); [done|]. by exists (S k), m.
Qed.
Lemma carries_body_inv data items msgs :
  carries (Body data :: items) msgs →
  ∃ m m', msgs = m ++ m' ∧ chunks_of (data +:+ NUL) m ∧ carries items m'.
Proof.
  intros Hc. remember (Body data :: items) as l eqn:Hl.
  induction Hc as [| |? ? m m' Hch Hc _|l msgs Hc IH]; simplify_eq; [by exists m, m'|].
  destruct IH as (m&m'&->&Hch&Hm); [done|]. exists (OtherMsg :: m), m'.
  split_and!; [done|by constructor|done].
Qed.

(** What receiving the items of a node does, whatever follows them. *)
Definition receives (base : PathBuf) (items : list Item) (fs : list (PathBuf * string))
    (ds : list PathBuf) : Prop :=
  ∀ stack more msgs tail fuel o f d,
    carries (items ++ more) msgs → (length (msgs ++ tail) < fuel)%nat →
    ∃ msgs' fuel', carries more msgs' ∧ (length (msgs' ++ tail) < fuel')%nat
      ∧ download_loop env fuel (base :: stack) "" (mkScp (msgs ++ tail) o f d)
        = download_loop env fuel' (base :: stack) ""
            (mkScp (msgs' ++ tail) (o ++ replicate (length items) NUL) (add_files f fs) (add_dirs d ds)).

Lemma receives_nil base : receives base [] [] [].
Proof. intros stack more msgs tail fuel o f d Hc Hf. exists msgs, fuel. by rewrite app_nil_r. Qed.

Lemma receives_app base items1 items2 fs1 fs2 ds1 ds2 :
  receives base items1 fs1 ds1 → receives base items2 fs2 ds2 →
  receives base (items1 ++ items2) (fs1 ++ fs2) (ds1 ++ ds2).
Proof.
  intros H1 H2 stack more msgs tail fuel o f d Hc Hf. rewrite <-app_assoc in Hc.
  destruct (H1 stack _ _ tail fuel o f d Hc Hf) as (m1&f1&Hc1&Hf1&->).
  destruct (H2 stack _ _ tail f1 (o ++ replicate (length items1) NUL) (add_files f fs1)
              (add_dirs d ds1) Hc1 Hf1) as (m2&f2&Hc2&Hf2&->).
  exists m2, f2. split_and!; [done..|]. unfold add_files, add_dirs.
  by rewrite length_app, replicate_add, !foldl_app, app_assoc.
Qed.

Lemma receives_file base name content :
  good_name name = true → Z.of_nat (String.length content) ≤ U64_MAX →
  receives base (transcript name (FileNode content)) (node_files base name (FileNode content)) [].
Proof.
  intros Hn Hs stack more msgs tail fuel o f d Hc Hf.
  apply carries_line_inv in Hc as (k&m&->&Hc). apply carries_body_inv in Hc as (m1&m2&->&Hch&Hc).
  rewrite !length_app in Hf. cbn [length] in Hf. rewrite length_app in Hf.
  destruct fuel as [|fuel]; [lia|]. exists m2, fuel. rewrite length_app. split_and!; [done|lia|].
  rewrite <-app_assoc, download_skip by lia. cbn [app]. rewrite <-app_assoc.
  rewrite download_loop_file by auto using good_line_name. by rewrite <-app_assoc.
Qed.

Lemma receives_dir base name items fs ds :
  good_name name = true → receives (join base name) items fs ds →
  receives base (Line (dir_header name) :: items ++ [Line END_DIR]) fs (join base name :: ds).
Proof.
  intros Hn Hr stack more msgs tail fuel o f d Hc Hf.
  cbn [app] in Hc. rewrite <-app_assoc in Hc. apply carries_line_inv in Hc as (k&m&->&Hc).
  rewrite !length_app in Hf. cbn [length] in Hf. destruct fuel as [|fuel]; [lia|].
  rewrite <-app_assoc, download_skip by lia. cbn [app]. rewrite download_loop_dir by done.
  destruct (Hr (base :: stack) _ _ tail fuel (o ++ [NUL]) f ({[join base name]} ∪ d) Hc)
    as (m'&f'&Hc'&Hf'&->); [rewrite length_app; lia|].
  apply carries_line_inv in Hc' as (k'&m''&->&Hc').
  rewrite !length_app in Hf'. cbn [length] in Hf'. destruct f' as [|f']; [lia|].
  exists m'', f'. rewrite length_app. split_and!; [done|lia|].
  rewrite <-app_assoc, download_skip by lia. cbn [app]. rewrite download_loop_end.
  f_equal. cbn [length]. rewrite length_app, Nat.add_comm. cbn [length Nat.add].
  rewrite replicate_S. cbn [app]. change (NUL :: replicate ?n NUL) with ([NUL] ++ replicate n NUL).
  rewrite replicate_S_end. by rewrite <-!app_assoc.
Qed.

Lemma receives_node node : good_node node = true → ∀ base name, good_name name = true →
  receives base (transcript name node) (node_files base name node) (node_dirs base name node).
Proof.
  induction node as [content|entries IH] using Node_ind'; intros Hg base name Hn.
  { apply receives_file; [done|]. cbn in Hg. lia. }
  cbn [transcript node_files node_dirs]. apply receives_dir; [done|]. cbn [good_node] in Hg.
  set (base' := join base name). clearbody base'. induction IH as [|[n x] entries Hx _ IH]; [apply receives_nil|].
  cbn [forallb] in Hg. apply andb_true_iff in Hg as [Hnx Hg]. apply andb_true_iff in Hnx as [Hn' Hx'].
  cbn [fmap list_fmap concat]. apply receives_app; [by apply Hx|by apply IH].
Qed.
End Receive.

(** *** Upload *)

(** [fs] has [node] at [path]. *)
Fixpoint represents (fs : LocalFs) (path : PathBuf) (node : Node) : Prop :=
  match node with
  | FileNode content => lf_is_dir fs path = false
      ∧ lf_len fs path = Some (Z.of_nat (String.length content)) ∧ lf_read fs path = Some content
  | DirNode entries => lf_is_dir fs path = true
      ∧ lf_read_dir fs path = Some ((λ e, Some (fst e)) <$> entries)
      ∧ foldr (λ '(n, x) P, represents fs (join path n) x ∧ P) True entries
  end.

Fixpoint depth (node : Node) : nat :=
  match node with
  | FileNode _ => 0
  | DirNode entries => S (foldr (λ '(_, x) n, Nat.max (depth x) n) 0%nat entries)
  end.

(** What the sender of an item sends. *)
Definition item_out (i : Item) : list string :=
  match i with Line s => [s] | Body d => [d; NUL] end.

Section Send.
Context (env : ScpEnv) (Henv : all_ok env) (fs : LocalFs).

(** [m] sends the items, taking one acknowledgement for each. *)
Definition sends (m : scpM ()) (items : list Item) : Prop :=
  ∀ i o f d, m (mkScp ((Data <$> replicate (length items) NUL) ++ i) o f d)
    = (mkScp i (o ++ concat (item_out <$> items)) f d, Some (Ok ())).

Lemma sends_app m1 m2 items1 items2 :
  sends m1 items1 → sends m2 items2 → sends (m1;; m2) (items1 ++ items2).
Proof.
  intros H1 H2 i o f d. unfold mbind, scpM_bind.
  rewrite length_app, replicate_add, fmap_app, <-app_assoc, H1, H2.
  by rewrite fmap_app, concat_app, app_assoc.
Qed.

Lemma sends_line s : sends (send env s;; recv_response) [Line s].
Proof. intros i o f d. unfold mbind, scpM_bind. by rewrite (send_spec env Henv). Qed.
Lemma sends_body s : sends (send env s;; send env NUL;; recv_response) [Body s].
Proof.
  intros i o f d. unfold mbind, scpM_bind. rewrite !(send_spec env Henv). cbn. by rewrite <-app_assoc.
Qed.
Lemma sends_ret : sends (mret ()) [].
Proof. intros i o f d. cbn. by rewrite app_nil_r. Qed.

(** Sequencing is associative. *)
Lemma scp_assoc (a b c : scpM ()) st : (a;; b;; c) st = ((a;; b);; c) st.
Proof. unfold mbind, scpM_bind. by destruct (a st) as [? [[]|]]. Qed.

Lemma lift_ok {A B} (a : A) (g : A → scpM B) st : (lift (Ok a) ≫= g) st = g a st.
Proof. done. Qed.

Lemma sends_file path name content :
  represents fs path (FileNode content) → file_name path = Some name → utf8_valid name = true →
  sends (upload_file env fs path) (transcript name (FileNode content)).
Proof.
  intros (_&Hl&Hr) Hn Hu i o f d. unfold upload_file. rewrite Hl, Hn, Hr.
  cbn [ok_or]. rewrite !lift_ok, from_utf8_lossy_valid, scp_assoc by done.
  change (transcript name (FileNode content)) with
    ([Line (file_header (Z.of_nat (String.length content)) name)] ++ [Body content]).
  apply sends_app; [apply sends_line|apply sends_body].
Qed.

Definition upload (fuel : nat) (path : PathBuf) : scpM () :=
  if lf_is_dir fs path then upload_dir env fs fuel path else upload_file env fs path.

Lemma sends_node node : good_node node = true → ∀ path name fuel,
  represents fs path node → file_name path = Some name → utf8_valid name = true →
  (depth node ≤ fuel)%nat → sends (upload fuel path) (transcript name node).
Proof.
  induction node as [content|entries IH] using Node_ind'; intros Hg path name fuel Hrep Hn Hu Hd.
  { unfold upload. rewrite (proj1 Hrep). by apply sends_file. }
  destruct Hrep as (Hdir&Hread&Hes). unfold upload. rewrite Hdir.
  destruct fuel as [|fuel]; cbn [depth] in Hd; [lia|]. apply le_S_n in Hd. cbn [good_node] in Hg.
  assert (sends (foldr (λ entry (next : scpM ()), entry ← lift (ok_or "next_entry" entry);
      (if lf_is_dir fs (join path entry) then upload_dir env fs fuel (join path entry)
       else upload_file env fs (join path entry));; next) (mret ()) ((λ e, Some (fst e)) <$> entries))
    (concat ((λ '(n, x), transcript n x) <$> entries))) as Hloop.
  { clear Hread. induction IH as [|[n x] entries Hx _ IH]; [apply sends_ret|].
    cbn [forallb foldr fmap list_fmap concat fst] in *.
    apply andb_true_iff in Hg as [Hnx Hg]. apply andb_true_iff in Hnx as [Hn' Hx'].
    destruct Hes as [Hrep Hes]. cbn [ok_or].
    apply (sends_app (upload fuel (join path n))); [|apply IH; first [done|lia]].
    pose proof (proj1 (good_name_spec n) Hn') as [Hv _].
    apply Hx; [done|done|by apply file_name_join|done|cbn [snd]; lia]. }
  intros i o f d. cbn [upload_dir]. rewrite Hn, Hread. cbn [ok_or].
  rewrite lift_ok, from_utf8_lossy_valid, scp_assoc by done.
  apply (sends_app _ _ [Line (dir_header name)]); [apply sends_line|].
  apply sends_app; [exact Hloop|apply sends_line].
Qed.
End Send.

(** ** Correctness of a transfer *)

(** The receiver's whole run: every item acknowledged once, every file written. *)
Lemma scp_download_spec env local name node msgs :
  all_ok env → good_node node = true → good_name name = true → carries (transcript name node) msgs →
  scp_download env local (mkScp (msgs ++ [Eof]) [] ∅ ∅)
  = (mkScp [] (replicate (S (length (transcript name node))) NUL)
       (add_files ∅ (node_files local name node)) (add_dirs ∅ (node_dirs local name node)), Some (Ok ())).
Proof.
  intros Henv Hg Hn Hc. unfold scp_download, mbind, scpM_bind.
  rewrite (proj1 Henv). cbn [check mret scpM_ret]. rewrite (send_spec env Henv).
  cbn [messages_left ch_in app].
  rewrite <-(app_nil_r (transcript name node)) in Hc.
  destruct (receives_node env Henv node Hg local name Hn [] [] msgs [Eof]
    (S (length (msgs ++ [Eof]))) [NUL] ∅ ∅ Hc ltac:(lia)) as (m'&f'&Hm&Hf&->).
  assert (∃ k, m' = replicate k OtherMsg) as [k ->].
  { clear -Hm. remember [] as items eqn:Hi. induction Hm; simplify_eq; [by exists 0%nat|].
    destruct IHHm as [k ->]; [done|]. by exists (S k). }
  rewrite download_skip by lia. rewrite length_app in Hf. destruct f' as [|f']; [lia|].
  by rewrite download_loop_eof, (send_eof_spec env Henv).
Qed.

(** C14: Uploading a file or a directory tree and downloading it are inverse: whatever pieces
    the file contents are cut into on the way, the receiver ends with exactly the files and
    directories of the sender, and the acknowledgements it sends are exactly those the
    sender waits for. *)
Theorem scp_roundtrip env env' fs path name node remote msgs fuel :
  all_ok env → all_ok env' → good_node node = true → good_name name = true →
  represents fs path node → file_name path = Some name → (depth node ≤ fuel)%nat →
  carries (transcript name node) msgs →
  let '(down, r') := scp_download env' remote (mkScp (msgs ++ [Eof]) [] ∅ ∅) in
  let '(up, r) := scp_upload env fs fuel path true (mkScp (Data <$> ch_out down) [] ∅ ∅) in
  r = Some (Ok ()) ∧ r' = Some (Ok ())
  ∧ ch_out up = concat (item_out <$> transcript name node)
  ∧ files down = add_files ∅ (node_files remote name node)
  ∧ dirs down = add_dirs ∅ (node_dirs remote name node).
Proof.
  intros Henv Henv' Hg Hn Hrep Hname Hd Hc.
  rewrite (scp_download_spec env' remote name node msgs) by done. cbn [ch_out files dirs].
  unfold scp_upload, mbind, scpM_bind. rewrite (proj1 Henv). cbn [check mret scpM_ret replicate fmap list_fmap].
  cbn [recv_response response_of ch_in ch_out files dirs NUL N_of_ascii]. cbn [N.eqb negb].
  pose proof (sends_node env Henv fs node Hg path name fuel Hrep Hname
    (proj1 (proj1 (good_name_spec name) Hn)) Hd [] [] ∅ ∅) as Hs.
  rewrite app_nil_r in Hs. unfold upload in Hs. rewrite Hs. by rewrite (send_eof_spec env Henv).
Qed.

(** C36: The file names of a download are the server's choice: a name that is an absolute
    path is written there, wherever the download was to go. *)
Theorem scp_download_escapes env local p content msgs :
  all_ok env → utf8_valid p = true → contains_char LINE_FEED p = false →
  Z.of_nat (String.length content) ≤ U64_MAX → chunks_of (content +:+ NUL) msgs →
  let header := file_header (Z.of_nat (String.length content)) ("/" +:+ p) in
  let '(st, r) := scp_download env local (mkScp (Data header :: msgs ++ [Eof]) [] ∅ ∅) in
  r = Some (Ok ()) ∧ files st = {["/" +:+ p := content]}.
Proof.
  intros Henv Hu Hlf Hsz Hc header. unfold scp_download, mbind, scpM_bind.
  rewrite (proj1 Henv). cbn [check mret scpM_ret]. rewrite (send_spec env Henv).
  cbn [messages_left ch_in app length]. unfold header. rewrite length_app.
  rewrite (download_loop_file env Henv _ _ _ _ _ _ _ _ _ _).
  - rewrite Nat.add_comm, download_loop_eof, (send_eof_spec env Henv). split; [done|].
    cbn [files]. unfold join. by rewrite (proj2 (starts_with_true "/" ("/" +:+ p))) by eauto.
  - split_and!; [by apply (utf8_valid_app "/")| |done].
    revert Hlf. unfold contains_char. rewrite !bool_decide_eq_false, bytes_app. cbn. set_solver.
  - done.
  - done.
Qed.

(** ** Witnesses *)

Definition ok_env : ScpEnv :=
  mkScpEnv true (λ _, true) (λ _, true) (λ _, true) (λ _, true).
Lemma ok_env_all_ok : all_ok ok_env.
Proof. by repeat split. Qed.

(** A directory with a file and an empty directory. *)
Definition toy_node : Node := DirNode [("a b.txt", FileNode "hello"); ("empty", DirNode [])].
Definition toy_local_fs : LocalFs := mkLocalFs
  (λ p, if String.eqb p "data/a b.txt" then Some 5 else None)
  (λ p, String.eqb p "data" || String.eqb p "data/empty")
  (λ p, if String.eqb p "data/a b.txt" then Some "hello" else None)
  (λ p, if String.eqb p "data" then Some [Some "a b.txt"; Some "empty"]
        else if String.eqb p "data/empty" then Some [] else None).
Definition toy_messages : list ChannelMsg :=
  [Data (dir_header "data"); OtherMsg; Data (file_header 5 "a b.txt"); Data "he"; OtherMsg;
   Data ("llo" +:+ NUL); Data (dir_header "empty"); Data END_DIR; Data END_DIR].

Lemma toy_messages_carry : carries (transcript "data" toy_node) toy_messages.
Proof.
  constructor. constructor. constructor.
  apply (carries_body "hello" _ [Data "he"; OtherMsg; Data ("llo" +:+ NUL)]).
  - apply (chunks_data "he"); [done|]. constructor. by constructor.
  - repeat constructor.
Qed.

Lemma scp_roundtrip_witness :
  let '(down, r') := scp_download ok_env "out" (mkScp (toy_messages ++ [Eof]) [] ∅ ∅) in
  let '(up, r) := scp_upload ok_env toy_local_fs 2 "data" true (mkScp (Data <$> ch_out down) [] ∅ ∅) in
  r = Some (Ok ()) ∧ r' = Some (Ok ())
  ∧ ch_out up = concat (item_out <$> transcript "data" toy_node)
  ∧ files down = add_files ∅ (node_files "out" "data" toy_node)
  ∧ dirs down = add_dirs ∅ (node_dirs "out" "data" toy_node).
Proof.
  apply (scp_roundtrip ok_env ok_env toy_local_fs "data" "data" toy_node "out" toy_messages 2);
    [apply ok_env_all_ok|apply ok_env_all_ok|reflexivity|reflexivity| |reflexivity|cbn; lia
    |apply toy_messages_carry].
  cbn. repeat split.
Defined.

Lemma scp_download_escapes_witness :
  let '(st, r) := scp_download ok_env "out"
    (mkScp (Data (file_header 1 "/etc/passwd") :: [Data ("x" +:+ NUL)] ++ [Eof]) [] ∅ ∅) in
  r = Some (Ok ()) ∧ files st = {["/etc/passwd" := "x"]}.
Proof.
  apply (scp_download_escapes ok_env "out" "etc/passwd" "x" [Data ("x" +:+ NUL)]);
    [apply ok_env_all_ok|reflexivity|reflexivity|vm_compute; discriminate|by constructor].
Defined.
