(* ===== verification/Sockets.v ===== *)
(** * Sockets: options, buffers and addresses of sockets

    Models [src/wstunnel/src/somark.rs], the socket set-up of [protocols/tcp/server.rs]
    ([configure_socket], [run_server]) and [protocols/udp/server.rs] (buffers, the
    transparent proxy, the writers), the start of the proxies, the associations and the
    halves of a stream of [protocols/socks5] and of its connector, and, in
    [protocols/dns/resolver.rs], the sockets of the resolver and the lookup of ECH
    configurations.  A socket is the list of its options, newest first;
    which system calls succeed is an argument. *)

From Stdlib Require Import ZArith Lia Ascii String.
From stdpp Require Import base strings list sets.
From S2P Require Import Prelude Str Net Apis ApiModels CnxPool Connect Proxies.

#[local] Open Scope stdpp_scope.

(** The systems the code is built for. *)
Inductive TargetOs := Linux | Windows | OpenBsd | OtherUnix.

Inductive SockOpt :=
| OptNoDelay
| OptKeepalive (time : Duration) (interval : option Duration) (retries : option Z)
| OptMark (mark : Z)
| OptTransparentV4
| OptOrigDstV4
| OptOrigDstV6
| OptReuseAddress
| OptReusePort
| OptNonBlocking
| OptRecvBuffer (size : Z)
| OptSendBuffer (size : Z)
| OptBound (addr : SocketAddr).

#[global] Instance TargetOs_eq : EqDecision TargetOs.
Proof. solve_decision. Defined.

Definition Socket : Type := list SockOpt.

Section Options.
(** Whether the system lets an option be set. *)
Context (sys : SockOpt → bool).

Definition setsockopt (o : SockOpt) (s : Socket) : outcome string Socket :=
  if sys o then Ok (o :: s) else Err "setsockopt".

(** ** [somark.rs] *)

(** On other systems than Linux the mark is not kept. *)
Definition SoMark : Type := option Z.
Definition so_mark_new (os : TargetOs) (so_mark : option Z) : SoMark :=
  match os with Linux => so_mark | _ => None end.
Definition set_mark (m : SoMark) (s : Socket) : outcome string Socket :=
  match m with None => Ok s | Some so_mark => setsockopt (OptMark so_mark) s end.

(** ** TCP *)

Definition tcp_keepalive (os : TargetOs) : SockOpt :=
  match os with
  | Windows => OptKeepalive (from_secs 60) (Some (from_secs 10)) None
  | OpenBsd => OptKeepalive (from_secs 60) None None
  | Linux | OtherUnix => OptKeepalive (from_secs 60) (Some (from_secs 10)) (Some 3)
  end.

Definition configure_socket (os : TargetOs) (so_mark : SoMark) (s : Socket) : outcome string Socket :=
  s ← setsockopt OptNoDelay s;
  s ← setsockopt (tcp_keepalive os) s;
  set_mark so_mark s.

(** [bind] of the system. *)
Definition tcp_run_server (os : TargetOs) (bind : SocketAddr → outcome string Socket) (addr : SocketAddr)
    (ip_transparent : bool) : outcome string Socket :=
  listener ← bind addr;
  match os with
  | Linux => if ip_transparent then setsockopt OptTransparentV4 listener else Ok listener
  | _ => Ok listener
  end.

(** ** UDP *)

Definition MIB : Z := 1024 * 1024.
Definition BUF_SIZES : list Z := [64; 32; 16; 8; 4; 2; 1].

(** The loops of [UdpServer::new]: the first size the system takes. *)
Fixpoint increase_buffer (opt : Z → SockOpt) (sizes : list Z) (s : Socket) : Socket :=
  match sizes with
  | [] => s
  | size :: sizes =>
      match setsockopt (opt (size * MIB)) s with
      | Ok s => s
      | _ => increase_buffer opt sizes s
      end
  end.
Definition udp_buffers (s : Socket) : Socket :=
  increase_buffer OptSendBuffer BUF_SIZES (increase_buffer OptRecvBuffer BUF_SIZES s).

(** The start of [udp::run_server]. *)
Definition udp_run_server (bind : SocketAddr → outcome string Socket)
    (configure_listener : Socket → outcome string Socket) (addr : SocketAddr) : outcome string Socket :=
  listener ← bind addr;
  listener ← configure_listener listener;
  Ok (udp_buffers listener).

(** [Socks5UdpServer::new] in the start of its [run_server]: the same loops on its own socket. *)
Definition socks5_udp_run_server (bind : SocketAddr → outcome string Socket) (addr : SocketAddr)
    : outcome string Socket :=
  listener ← bind addr;
  Ok (udp_buffers listener).

(** ** Start of the proxies *)

(** hyper's [http1::Builder]: a client that is slow with its headers is cut off after
    [h1_header_read_timeout], and a connection serves one request. *)
Record Http1Builder := mkHttp1 { h1_header_read_timeout : option Duration; h1_keep_alive : bool }.

(** [http_proxy::run_server]: the listener with [proxy_cfg]. *)
Definition http_proxy_start `{Base64Api} (bind : SocketAddr → outcome string Socket) (addr : SocketAddr)
    (timeout : option Duration) (credentials : option (string * string))
    : outcome string (Socket * (option string * Http1Builder)) :=
  listener ← bind addr;
  Ok (listener, (HttpProxy.auth_header credentials, mkHttp1 timeout false)).

(** [socks5::run_server]: both sockets are bound to the same address, the tcp one first; if
    the second cannot be had the first is dropped. *)
Definition socks5_start (tcp_bind udp_bind : SocketAddr → outcome string Socket) (addr : SocketAddr)
    (credentials : option (string * string)) : outcome string (Socket * Socket * Socks5.S5Config) :=
  server ← tcp_bind addr;
  udp_server ← socks5_udp_run_server udp_bind addr;
  Ok (server, udp_server, Socks5.socks5_config credentials).

(** *** Transparent proxy *)

(** [local] is the address the listener is bound to; [unwrap] on it. *)
Definition configure_tproxy (local : option SocketAddr) (listener : Socket) : outcome string Socket :=
  listener ← setsockopt OptTransparentV4 listener;
  addr ← unwrap local;
  match addr with
  | SockV4 _ _ => setsockopt OptOrigDstV4 listener
  | SockV6 _ _ _ _ => setsockopt OptOrigDstV6 listener
  end.

(** Control messages of a datagram, as the structures of the system hold them: an integer
    field is read in the byte order of the machine. *)
Inductive ControlMessage :=
| CmsgIpv4OrigDst (sin_addr sin_port : Z)
| CmsgIpv6OrigDst (sin6_addr : list Z) (sin6_port : Z)
| CmsgOther.

(** [swap_bytes] and [from_be] on [n] bytes. *)
Definition swap_bytes (n : nat) (x : Z) : Z := of_be_bytes (rev (be_bytes n x)).
Definition from_be (little_endian : bool) (n : nat) (x : Z) : Z :=
  if little_endian then swap_bytes n x else x.

Definition cmsg_addr (le : bool) (acc : SocketAddr) (cmsg : ControlMessage) : SocketAddr :=
  match cmsg with
  | CmsgIpv4OrigDst a p => SockV4 (mkIpv4 (from_be le 4 a)) (from_be le 2 p)
  | CmsgIpv6OrigDst a p => SockV6 (mkIpv6 (of_be_bytes a)) (from_be le 2 p) 0 0
  | CmsgOther => acc
  end.
Definition orig_dst (le : bool) (cmsgs : list ControlMessage) : SocketAddr :=
  foldl (cmsg_addr le) (SockV4 UNSPECIFIED_V4 0) cmsgs.

(** [mk_send_socket_tproxy]: a socket bound to the address the datagram was sent to, which
    is peeked with its control messages; [new_socket], [bind] and [from_std] of the
    system. *)
Definition mk_send_socket_tproxy (le : bool) (peek : outcome string (list ControlMessage))
    (new_socket : SocketAddr → outcome string Socket) (bind_ok from_std_ok : bool)
    : outcome string Socket :=
  cmsgs ← peek;
  let remote_addr := orig_dst le cmsgs in
  socket ← new_socket remote_addr;
  socket ← setsockopt OptTransparentV4 socket;
  socket ← setsockopt OptReuseAddress socket;
  socket ← setsockopt OptReusePort socket;
  socket ← (if bind_ok then Ok (OptBound remote_addr :: socket) else Err "bind");
  socket ← setsockopt OptNonBlocking socket;
  if from_std_ok then Ok socket else Err "from_std".

(** ** The sockets of the resolver *)

Record TokioRuntimeProviderWithSoMark {U : Type} := mkProvider {
  rp_proxy : option U;
  rp_so_mark : SoMark
}.
Arguments TokioRuntimeProviderWithSoMark U : clear implicits.

(** A connection to a name server: directly, or through the http proxy; [connect] and
    [connect_with_http_proxy] get the mark. *)
Definition connect_tcp {U C} (this : TokioRuntimeProviderWithSoMark U)
    (connect : Host → Z → SoMark → Duration → outcome string C)
    (connect_with_http_proxy : U → Host → Z → SoMark → Duration → outcome string C)
    (server_addr : SocketAddr) (timeout : option Duration) : outcome string C :=
  let host := match server_addr with
              | SockV4 addr _ => Ipv4 addr
              | SockV6 addr _ _ _ => Ipv6 addr
              end in
  match rp_proxy this with
  | Some proxy => connect_with_http_proxy proxy host (sock_port server_addr) (rp_so_mark this)
                    (default (from_secs 10) timeout)
  | None => connect host (sock_port server_addr) (rp_so_mark this) (default (from_secs 10) timeout)
  end.

Definition bind_udp {U} (os : TargetOs) (this : TokioRuntimeProviderWithSoMark U)
    (bind : SocketAddr → outcome string Socket) (local_addr : SocketAddr) : outcome string Socket :=
  match os with
  | Linux => sock ← bind local_addr; set_mark (rp_so_mark this) sock
  | _ => bind local_addr
  end.

(** ** ECH configurations *)

(** The records of an answer and their parameters. *)
Inductive SvcParam := EchConfigList (bytes : string) | OtherParam.
Inductive RData := RDataHttps (svc_params : list SvcParam) | OtherRData.

(** [ech_new] is [EchConfig::new]; the [System] resolver and addresses have none. *)
Definition lookup_ech_config {E} (ech_new : string → option E)
    (lookup : string → outcome string (list RData)) (dns : DnsResolver) (domain : Host)
    : outcome string (option E) :=
  match dns, domain with
  | TrustDns _ _, Domain domain =>
      records ← lookup domain;
      let params := mjoin (omap (λ r, match r with RDataHttps ps => Some ps | OtherRData => None end) records) in
      Ok (head (omap (λ sp, match sp with EchConfigList e => ech_new e | OtherParam => None end) params))
  | _, _ => Ok None
  end.
End Options.

(** ** Streams over sockets *)

Section Writers.
(** [poll_send_to], [poll_send] and [poll_send_ready] of the system's sockets. *)
Context {U : Type}.
Context (poll_send_to : U → string → SocketAddr → Poll (outcome string Z)).
Context (poll_send : U → string → Poll (outcome string Z)).
Context (poll_send_ready : U → Poll (outcome string unit)).
Context (poll_recv_from : U → nat → string * Poll (outcome string SocketAddr)).

(** [UdpStreamWriter]: every write is a datagram to the peer. *)
Record UdpStreamWriter := mkUdpWriter { uw_send_socket : U; uw_peer : SocketAddr }.
Definition udp_writer_poll_write (this : UdpStreamWriter) (buf : string) : Poll (outcome string Z) :=
  poll_send_to (uw_send_socket this) buf (uw_peer this).
Definition udp_writer_poll_flush (this : UdpStreamWriter) : Poll (outcome string unit) :=
  poll_send_ready (uw_send_socket this).
Definition udp_writer_poll_shutdown (this : UdpStreamWriter) : Poll (outcome string unit) := Ready (Ok ()).

(** [WsUdpSocket]: a connected socket; the sender of what it reads is ignored. *)
Definition ws_udp_poll_read (this : U) (remaining : nat) : string * Poll (outcome string unit) :=
  let '(data, r) := poll_recv_from this remaining in
  (data, match r with
         | Ready (Ok _) => Ready (Ok ())
         | Ready (Err e) => Ready (Err e)
         | Ready Panic => Ready Panic
         | Pending => Pending
         end).
Definition ws_udp_poll_write (this : U) (buf : string) : Poll (outcome string Z) := poll_send this buf.
Definition ws_udp_poll_flush (this : U) : Poll (outcome string unit) := Ready (Ok ()).
Definition ws_udp_poll_shutdown (this : U) : Poll (outcome string unit) := Ready (Ok ()).

(** [Socks5UdpStreamWriter]: the header of the association goes before the data, in the
    buffer that holds the header; the length that is returned is without it, and the
    subtraction is on unsigned integers. *)
Record Socks5UdpStreamWriter := mkSocksWriter {
  sw_send_socket : U;
  sw_peer : SocketAddr;
  sw_udp_header : string
}.
Definition socks5_writer_poll_write (this : Socks5UdpStreamWriter) (buf : string)
    : Socks5UdpStreamWriter * Poll (outcome string Z) :=
  let header_len := String.length (sw_udp_header this) in
  let udp_header := sw_udp_header this +:+ buf in
  let ret := poll_send_to (sw_send_socket this) udp_header (sw_peer this) in
  (mkSocksWriter (sw_send_socket this) (sw_peer this) (take_str header_len udp_header),
   match ret with
   | Ready (Ok write_len) =>
       if Z.of_nat header_len <=? write_len then Ready (Ok (write_len - Z.of_nat header_len)) else Ready Panic
   | r => r
   end).
Definition socks5_writer_poll_flush (this : Socks5UdpStreamWriter) : Poll (outcome string unit) :=
  poll_send_ready (sw_send_socket this).
Definition socks5_writer_poll_shutdown (this : Socks5UdpStreamWriter) : Poll (outcome string unit) :=
  Ready (Ok ()).

(** [Socks5UdpStream]: what an association keeps besides its queue. *)
Record Socks5Association := mkAssociation {
  sa_send_socket : U;
  sa_peer : SocketAddr;
  sa_destination : Socks5.TargetAddr;
  sa_udp_header : string;
  sa_watchdog : option Duration
}.

(** [new_udp_header] of fast_socks5, unwrapped. *)
Definition association_new (new_udp_header : Socks5.TargetAddr → outcome string string) (send_socket : U)
    (peer : SocketAddr) (destination : Socks5.TargetAddr) (watchdog_deadline : option Duration)
    : outcome string Socks5Association :=
  match new_udp_header destination with
  | Ok udp_header => Ok (mkAssociation send_socket peer destination udp_header watchdog_deadline)
  | _ => Panic
  end.

Definition association_destination (this : Socks5Association) : Host * Z :=
  match sa_destination this with
  | Socks5.TIp sock_addr => to_host_port sock_addr
  | Socks5.TDomain h p => (Domain h, p)
  end.
Definition association_writer (this : Socks5Association) : Socks5UdpStreamWriter :=
  mkSocksWriter (sa_send_socket this) (sa_peer this) (sa_udp_header this).
End Writers.

(** [Socks5ReadHalf] and [Socks5WriteHalf] delegate to the stream they hold. *)
Section Socks5Halves.
Context {Tcp UdpR UdpW : Type}.
Context `{!AsyncRead Tcp, !AsyncRead UdpR, !AsyncWrite Tcp, !AsyncWrite UdpW}.
Inductive Socks5ReadHalf := S5rTcp (s : Tcp) | S5rUdp (s : UdpR).
Inductive Socks5WriteHalf := S5wTcp (s : Tcp) | S5wUdp (s : UdpW).
Inductive Socks5Halves := S5Tcp (s : Tcp) | S5Udp (r : UdpR) (w : UdpW).

Definition socks5_into_split (this : Socks5Halves) : Socks5ReadHalf * Socks5WriteHalf :=
  match this with
  | S5Tcp s => (S5rTcp s, S5wTcp s)
  | S5Udp r w => (S5rUdp r, S5wUdp w)
  end.
Definition socks5_poll_read (this : Socks5ReadHalf) (remaining : nat)
    : Socks5ReadHalf * string * Poll (outcome string unit) :=
  match this with
  | S5rTcp s => let '(s, out, r) := poll_read s remaining in (S5rTcp s, out, r)
  | S5rUdp s => let '(s, out, r) := poll_read s remaining in (S5rUdp s, out, r)
  end.
Definition on_socks5_write {A} (f : ∀ X, AsyncWrite X → X → X * A) (this : Socks5WriteHalf)
    : Socks5WriteHalf * A :=
  match this with
  | S5wTcp s => let '(s, r) := f Tcp _ s in (S5wTcp s, r)
  | S5wUdp s => let '(s, r) := f UdpW _ s in (S5wUdp s, r)
  end.
Definition socks5_is_write_vectored (this : Socks5WriteHalf) : bool :=
  match this with S5wTcp s => is_write_vectored s | S5wUdp s => is_write_vectored s end.
#[global] Instance socks5_half_read : AsyncRead Socks5ReadHalf := {| poll_read := socks5_poll_read |}.
#[global] Instance socks5_half_write : AsyncWrite Socks5WriteHalf :=
  {| poll_write this buf := on_socks5_write (λ X _ s, poll_write s buf) this;
     poll_flush this := on_socks5_write (λ X _ s, poll_flush s) this;
     poll_shutdown this := on_socks5_write (λ X _ s, poll_shutdown s) this;
     poll_write_vectored this bufs := on_socks5_write (λ X _ s, poll_write_vectored s bufs) this;
     is_write_vectored := socks5_is_write_vectored |}.
End Socks5Halves.

(** The halves of the reverse socks5 connector ([connectors/sock5.rs]): a TCP stream in two,
    or a connected datagram socket twice. *)
Section ConnectorHalves.
Context {Tcp U : Type} `{!AsyncRead Tcp, !AsyncWrite Tcp}.
Context (poll_send : U → string → Poll (outcome string Z)).
Context (poll_recv_from : U → nat → string * Poll (outcome string SocketAddr)).

(** tokio's default for writers without vectored writes: the first buffer that is not empty. *)
Definition first_buffer (bufs : list string) : string :=
  default "" (head (filter (λ b, b ≠ "") bufs)).

Definition ws_udp_read : AsyncRead U :=
  {| poll_read this remaining :=
       let '(data, r) := ws_udp_poll_read poll_recv_from this remaining in (this, data, r) |}.
Definition ws_udp_write : AsyncWrite U :=
  {| poll_write this buf := (this, ws_udp_poll_write poll_send this buf);
     poll_flush this := (this, ws_udp_poll_flush this);
     poll_shutdown this := (this, ws_udp_poll_shutdown this);
     poll_write_vectored this bufs := (this, ws_udp_poll_write poll_send this (first_buffer bufs));
     is_write_vectored _ := false |}.

Inductive Socks5Reader := S5RdTcp (reader : Tcp) | S5RdUdp (reader : U).
Inductive Socks5Writer := S5WrTcp (writer : Tcp) | S5WrUdp (writer : U).

Definition socks5_reader_poll_read (this : Socks5Reader) (remaining : nat)
    : Socks5Reader * string * Poll (outcome string unit) :=
  match this with
  | S5RdTcp s => let '(s, out, r) := poll_read s remaining in (S5RdTcp s, out, r)
  | S5RdUdp s => let '(s, out, r) := poll_read (AsyncRead := ws_udp_read) s remaining in (S5RdUdp s, out, r)
  end.
Definition on_socks5_writer {A} (f : ∀ X, AsyncWrite X → X → X * A) (this : Socks5Writer)
    : Socks5Writer * A :=
  match this with
  | S5WrTcp s => let '(s, r) := f Tcp _ s in (S5WrTcp s, r)
  | S5WrUdp s => let '(s, r) := f U ws_udp_write s in (S5WrUdp s, r)
  end.
Definition socks5_writer_is_write_vectored (this : Socks5Writer) : bool :=
  match this with
  | S5WrTcp v => is_write_vectored v
  | S5WrUdp v => is_write_vectored (AsyncWrite := ws_udp_write) v
  end.
Definition socks5_writer : AsyncWrite Socks5Writer :=
  {| poll_write this buf := on_socks5_writer (λ X _ s, poll_write s buf) this;
     poll_flush this := on_socks5_writer (λ X _ s, poll_flush s) this;
     poll_shutdown this := on_socks5_writer (λ X _ s, poll_shutdown s) this;
     poll_write_vectored this bufs := on_socks5_writer (λ X _ s, poll_write_vectored s bufs) this;
     is_write_vectored := socks5_writer_is_write_vectored |}.
End ConnectorHalves.

(** ** Properties *)

(** The datagrams a socks5 association sends are its header followed by the
    data, each time: a write leaves the header as it was, and over a socket that sends
    datagrams whole it reports the length of the data. *)
Theorem socks5_writer_frames {U} (send_to : U → string → SocketAddr → Poll (outcome string Z)) this buf :
  (∀ u d a n, send_to u d a = Ready (Ok n) → n = Z.of_nat (String.length d)) →
  fst (socks5_writer_poll_write send_to this buf) = this
  ∧ snd (socks5_writer_poll_write send_to this buf)
    = match send_to (sw_send_socket this) (sw_udp_header this +:+ buf) (sw_peer this) with
      | Ready (Ok _) => Ready (Ok (Z.of_nat (String.length buf)))
      | r => r
      end.
Proof.
  intros Hwhole. unfold socks5_writer_poll_write. cbn. split.
  - destruct this as [u p h]. cbn. f_equal. apply take_str_app.
  - destruct (send_to _ _ _) as [|[n|e|]] eqn:E; try done. apply Hwhole in E as ->.
    rewrite length_str_app. destruct (Z.leb_spec (Z.of_nat (String.length (sw_udp_header this)))
      (Z.of_nat (String.length (sw_udp_header this) + String.length buf))); [|lia].
    do 2 f_equal. lia.
Qed.

(** What an association is asked to send reaches its own peer, behind the header made from
    its destination, however often its writer is used. *)
Lemma association_answers {U} (send_to : U → string → SocketAddr → Poll (outcome string Z)) new_udp_header
    send_socket peer destination watchdog a bufs :
  association_new new_udp_header send_socket peer destination watchdog = Ok a →
  ∃ header, new_udp_header destination = Ok header
    ∧ foldl (λ w buf, fst (socks5_writer_poll_write send_to w buf)) (association_writer a) bufs
      = mkSocksWriter send_socket peer header.
Proof.
  unfold association_new. destruct (new_udp_header destination) as [header| |]; try done.
  intros [= <-]. exists header. split; [done|]. unfold association_writer. cbn.
  induction bufs as [|b bufs IH]; [done|]. cbn. by rewrite take_str_app.
Qed.

(** *** Byte order *)

Lemma be_bytes_snoc n x : 0 ≤ x →
  be_bytes (S n) x = be_bytes n (Z.shiftr x 8) ++ [Z.land x 255].
Proof.
  intros Hx. induction n as [|n IH].
  - cbn. by rewrite Z.shiftr_0_r.
  - cbn [be_bytes] in *. rewrite IH. cbn [app]. f_equal. f_equal. rewrite Z.shiftr_shiftr by lia.
    f_equal. lia.
Qed.

Lemma of_be_bytes_snoc l b : of_be_bytes (l ++ [b]) = Z.lor (Z.shiftl (of_be_bytes l) 8) b.
Proof. unfold of_be_bytes. by rewrite fold_left_app. Qed.

Lemma of_be_bytes_nonneg l : Forall (λ b, 0 ≤ b < 256) l → 0 ≤ of_be_bytes l.
Proof.
  induction l as [|b l IH] using rev_ind; [done|]. intros [Hl Hb]%Forall_app.
  apply Forall_cons in Hb as [Hb _]. rewrite of_be_bytes_snoc. apply Z.lor_nonneg.
  split; [apply Z.shiftl_nonneg; auto|lia].
Qed.

Lemma be_bytes_of_be_bytes l :
  Forall (λ b, 0 ≤ b < 256) l → be_bytes (length l) (of_be_bytes l) = l.
Proof.
  induction l as [|b l IH] using rev_ind; [done|]. intros [Hl Hb]%Forall_app.
  apply Forall_cons in Hb as [Hb _]. pose proof (of_be_bytes_nonneg l Hl) as Hn.
  assert (0 ≤ of_be_bytes (l ++ [b])) as Hn'.
  { apply of_be_bytes_nonneg, Forall_app. split; [done|]. by constructor. }
  rewrite length_app. cbn [length]. rewrite Nat.add_1_r, be_bytes_snoc by done.
  rewrite of_be_bytes_snoc.
  assert (Z.shiftr b 8 = 0) as Hb0 by (rewrite Z.shiftr_div_pow2 by lia; apply Z.div_small; lia).
  assert (Z.land b 255 = b) as Hb1.
  { change 255 with (Z.ones 8). rewrite Z.land_ones by lia. apply Z.mod_small. lia. }
  rewrite Z.shiftr_lor, Hb0, Z.lor_0_r, Z.shiftr_shiftl_l by lia.
  rewrite Z.sub_diag, Z.shiftl_0_r, IH by done. f_equal. f_equal.
  rewrite Z.land_lor_distr_l, Hb1. change 255 with (Z.ones 8).
  rewrite Z.land_ones, Z.shiftl_mul_pow2, Z_mod_mult by lia. by rewrite Z.lor_0_l.
Qed.

Lemma be_bytes_range n x : Forall (λ b, 0 ≤ b < 256) (be_bytes n x).
Proof.
  induction n as [|n IH]; [constructor|]. constructor; [|done].
  change 255 with (Z.ones 8). rewrite Z.land_ones by lia. apply (Z.mod_pos_bound _ (2 ^ 8)). lia.
Qed.

(** The integer a machine reads in the memory that holds some bytes. *)
Definition native (little_endian : bool) (l : list Z) : Z :=
  of_be_bytes (if little_endian then rev l else l).

Lemma from_be_native le n x :
  0 ≤ x < 2 ^ (8 * Z.of_nat n) → from_be le n (native le (be_bytes n x)) = x.
Proof.
  intros Hx. destruct le; cbn; [|by apply of_be_bytes_be_bytes].
  unfold swap_bytes, native. rewrite <-(length_be_bytes n x) at 1. rewrite <-length_rev.
  rewrite be_bytes_of_be_bytes; [|apply Forall_rev, be_bytes_range].
  by rewrite rev_involutive, of_be_bytes_be_bytes.
Qed.

(** What the system puts in the control message for a destination: addresses and ports in
    network order. *)
Definition cmsg_of (le : bool) (dst : SocketAddr) : ControlMessage :=
  match dst with
  | SockV4 a p => CmsgIpv4OrigDst (native le (be_bytes 4 (v4_bits a))) (native le (be_bytes 2 p))
  | SockV6 a p _ _ => CmsgIpv6OrigDst (be_bytes 16 (v6_bits a)) (native le (be_bytes 2 p))
  end.

Definition dst_wf (dst : SocketAddr) : Prop :=
  match dst with
  | SockV4 a p => v4_wf a ∧ 0 ≤ p ≤ U16_MAX
  | SockV6 a p flow scope => v6_wf a ∧ 0 ≤ p ≤ U16_MAX ∧ flow = 0 ∧ scope = 0
  end.

Lemma setsockopt_ok sys o s s' : setsockopt sys o s = Ok s' → s' = o :: s.
Proof. unfold setsockopt. destruct (sys o); by intros [= <-]. Qed.

Lemma set_mark_ok sys os m s s' :
  set_mark sys (so_mark_new os (Some m)) s = Ok s' → os = Linux → OptMark m ∈ s'.
Proof. intros Hm ->. apply setsockopt_ok in Hm as ->. by left. Qed.

(** The answers of the transparent UDP proxy come from the address the client sent its
    datagram to: whatever other control messages there are, on machines of either byte
    order and for both families, the socket for the answers is bound to that address. *)
Theorem tproxy_answers_from_destination sys le dst before after new_socket bind_ok std_ok s :
  dst_wf dst → Forall (λ c, c = CmsgOther) after →
  mk_send_socket_tproxy sys le (Ok (before ++ cmsg_of le dst :: after)) new_socket bind_ok std_ok = Ok s →
  OptBound dst ∈ s ∧ OptTransparentV4 ∈ s.
Proof.
  intros Hwf Hafter.
  assert (orig_dst le (before ++ cmsg_of le dst :: after) = dst) as Hdst.
  { unfold orig_dst. rewrite foldl_app. cbn [foldl].
    assert (∀ acc, cmsg_addr le acc (cmsg_of le dst) = dst) as Hone.
    { intros acc. destruct dst as [[a] p|[a] p flow scope]; cbn [cmsg_of cmsg_addr v4_bits v6_bits].
      - destruct Hwf as [Ha Hp]. unfold v4_wf, U32_MAX, U16_MAX in *. cbn in Ha.
        by rewrite !from_be_native by (cbn; lia).
      - destruct Hwf as (Ha&Hp&->&->). unfold v6_wf, U16_MAX in *. cbn in Ha.
        rewrite from_be_native by (cbn; lia). rewrite of_be_bytes_be_bytes by (cbn; lia). done. }
    rewrite Hone. clear -Hafter. induction Hafter as [|c after -> _ IH]; [done|]. exact IH. }
  unfold mk_send_socket_tproxy. intros (cmsgs&[= <-]&Hs)%bind_ok_inv. cbv zeta in Hs. rewrite Hdst in Hs.
  apply bind_ok_inv in Hs as (s0&_&Hs). apply bind_ok_inv in Hs as (s1&->%setsockopt_ok&Hs).
  apply bind_ok_inv in Hs as (s2&->%setsockopt_ok&Hs). apply bind_ok_inv in Hs as (s3&->%setsockopt_ok&Hs).
  apply bind_ok_inv in Hs as (s4&Hb&Hs). destruct bind_ok; [|done]. injection Hb as <-.
  apply bind_ok_inv in Hs as (s5&->%setsockopt_ok&Hs). destruct std_ok; [|done]. injection Hs as <-.
  set_solver.
Qed.

(** With [--socket-so-mark] on Linux, no socket of a connection or of the
    resolver leaves without its mark, and without the option none has one. *)
Theorem sockets_are_marked {U} sys m s s' (proxy : option U) bind addr :
  (configure_socket sys Linux (so_mark_new Linux (Some m)) s = Ok s' → OptMark m ∈ s')
  ∧ (bind_udp sys Linux (mkProvider U proxy (so_mark_new Linux (Some m))) bind addr = Ok s' → OptMark m ∈ s')
  ∧ (∀ os k, configure_socket sys os (so_mark_new os None) s = Ok s' → OptMark k ∈ s' → OptMark k ∈ s).
Proof.
  split_and!.
  - unfold configure_socket. intros (?&_&Hs)%bind_ok_inv. apply bind_ok_inv in Hs as (?&_&Hs).
    by eapply set_mark_ok.
  - unfold bind_udp. intros (?&_&Hs)%bind_ok_inv. by apply (set_mark_ok sys Linux m _ _ Hs).
  - intros os k. unfold configure_socket. intros (?&->%setsockopt_ok&Hs)%bind_ok_inv.
    apply bind_ok_inv in Hs as (?&->%setsockopt_ok&Hs).
    assert (s' = tcp_keepalive os :: OptNoDelay :: s) as -> by (destruct os; by injection Hs as <-).
    destruct os; cbn; set_solver.
Qed.

(** ** Witnesses *)

Definition toy_dst : SocketAddr := SockV4 (v4_of_octets 10 1 2 3) 5353.
Lemma tproxy_answers_from_destination_witness :
  ∃ s, mk_send_socket_tproxy (λ _, true) true (Ok ([CmsgOther] ++ cmsg_of true toy_dst :: [CmsgOther]))
         (λ _, Ok []) true true = Ok s ∧ OptBound toy_dst ∈ s.
Proof.
  eexists. split; [reflexivity|].
  eapply (tproxy_answers_from_destination (λ _, true) true toy_dst [CmsgOther] [CmsgOther]
    (λ _, Ok []) true true).
  - vm_compute. repeat split; discriminate.
  - constructor; [reflexivity|constructor].
  - reflexivity.
Defined.
