(* ===== verification/Terminal.v ===== *)
(** * Terminal: standard input and output, the ssh shell, the socket file

    Models [src/wstunnel/src/protocols/stdio/server_unix.rs] and [server_windows.rs],
    [protocols/unix_sock/server.rs], [protocols/ssh/mod.rs] ([connect_ssh]) and
    [protocols/ssh/shell.rs], and [main] of [src/wstunnel-cli/src/main.rs].  What is read
    and the results of writes are sequences of events; the mode of the terminal, the two
    copies of the ssh shell with the task that waits for them, and the file of a socket are
    state. *)

From Stdlib Require Import ZArith Lia Ascii String.
From stdpp Require Import base gmap strings list sets.
From S2P Require Import Prelude Str Net Apis ApiModels Restrictions Jwt Request Config Listeners Client Scp.

#[local] Open Scope stdpp_scope.

Definition CTRL_C : ascii := "003"%char.
Definition CTRL_D : ascii := "004"%char.

(** The mode of the terminal. *)
Inductive TermMode := Cooked | Raw.

(** ** Standard input and output *)

Module Stdio.

(** [server_unix.rs]: both descriptors must be usable; the reader has the end of the
    channel whose other end [run_server] returns, so that dropping it is noticed. *)
Section Unix.
Context {Fd : Type}.
Record WsStdin := mkWsStdin { stdin : Fd; receiver_open : bool }.
Definition stdio_run_server (stdin stdout : outcome string Fd) : outcome string (WsStdin * Fd) :=
  stdin ← stdin;
  stdout ← stdout;
  Ok (mkWsStdin stdin true, stdout).
End Unix.

(** [server_windows.rs]: the threads that copy standard input and output.  [abort_closed]
    says that the side that waits for the end of the tunnel was told. *)
Record Console := mkConsole { mode : TermMode; abort_closed : bool }.

Definition run_server_windows (enable_raw_mode : bool) : outcome string Console :=
  if enable_raw_mode then Ok (mkConsole Raw false) else Err "enable_raw_mode".

(** The guard of both threads. *)
Definition restore_terminal (c : Console) : Console := mkConsole Cooked true.

(** A read of at most 64 KiB (an error is an empty read) and whether the receiver of the
    channel is still there.  The chunks sent, and whether the thread has ended: at the end
    of the input, and at a read of nothing but ctrl+c. *)
Fixpoint stdin_thread (reads : list (outcome string string * bool)) : list string * bool :=
  match reads with
  | [] => ([], false)
  | (r, receiver) :: reads =>
      let data := match r with Ok data => data | _ => "" end in
      if String.eqb data "" || String.eqb data (String CTRL_C "") then ([], true)
      else if receiver then let '(sent, ended) := stdin_thread reads in (data :: sent, ended)
      else ([], true)
  end.

(** What the tunnel gives, and whether it can be written. *)
Fixpoint stdout_thread (reads : list (outcome string string * bool)) : string * bool :=
  match reads with
  | [] => ("", false)
  | (Ok "", _) :: _ => ("", true)
  | (Ok data, true) :: reads => let '(out, ended) := stdout_thread reads in (data +:+ out, ended)
  | (Ok _, false) :: _ => ("", true)
  | _ :: _ => ("", true)
  end.

(** The console after the threads have run so far. *)
Definition console_after (c : Console) (ended_in ended_out : bool) : Console :=
  let c := if ended_in then restore_terminal c else c in
  if ended_out then restore_terminal c else c.
End Stdio.

(** ** The socket file *)

Module UnixSock.

(** [UnixListenerStream]: the path of its address, [None] if it has none. *)
Record UnixListenerStream := mkUnixListener { local_path : option PathBuf; path_to_delete : bool }.

(** The files that exist.  [bind] of the system fails if the path is taken, and for other
    reasons ([bind_ok]). *)
Definition unix_bind (bind_ok : bool) (p : PathBuf) (fs : gset PathBuf) : outcome string (gset PathBuf) :=
  if negb bind_ok || bool_decide (p ∈ fs) then Err "Cannot create Unix socket server" else Ok ({[p]} ∪ fs).

(** [raced] are files others create between the test and the bind. *)
Definition unix_run_server (bind_ok : bool) (raced : gset PathBuf) (p : PathBuf) (fs : gset PathBuf)
    : gset PathBuf * outcome string UnixListenerStream :=
  let path_to_delete := negb (bool_decide (p ∈ fs)) in
  let fs := raced ∪ fs in
  match unix_bind bind_ok p fs with
  | Ok fs => (fs, Ok (mkUnixListener (Some p) path_to_delete))
  | Err e => (fs, Err e)
  | Panic => (fs, Panic)
  end.

Definition unix_drop (this : UnixListenerStream) (fs : gset PathBuf) : gset PathBuf :=
  if path_to_delete this
  then match local_path this with None => fs | Some path => fs ∖ {[path]} end
  else fs.

(** [poll_next]: the stream of connections never ends, and errors are items of it. *)
Definition unix_listener_poll_next {S : Type} (accepted : Poll (outcome string S)) : Poll (option (outcome string S)) :=
  match accepted with Ready r => Ready (Some r) | Pending => Pending end.
End UnixSock.

(** ** ssh *)

Module Ssh.
Section Connect.
Context `{UuidApi, HttpApi, UrlApi}.
Context {Secret Session : Type}.

(** What [client::connect_stream] and the methods of the session give. *)
Record SshEnv := mkSshEnv {
  ssh_connect_stream : outcome string Session;
  ssh_load_secret_key : PathBuf → option string → outcome string Secret;
  ssh_is_rsa : Secret → bool;
  ssh_best_rsa_hash : Session → outcome string (option string);
  ssh_authenticate : Session → string → Secret → option string → outcome string bool
}.

(** The destination of the tunnel: its identifier, resolved by the server. *)
Definition ssh_remote (tunnel : Uuid) : RemoteAddr :=
  mkRemote (TunnelStdio false None) (Domain (uuid_to_string tunnel)) 0.

(** The arguments without their tunnels. *)
Definition clear_tunnels (args : ClientArgs) : ClientArgs :=
  mkClientArgs [] [] (a_socket_so_mark args) (a_connection_min_idle args)
    (a_connection_retry_max_backoff args) (a_reverse_tunnel_connection_retry_max_backoff args)
    (a_tls_sni_override args) (a_tls_sni_disable args) (a_tls_ech_enable args)
    (a_tls_verify_certificate args) (a_http_proxy args) (a_http_proxy_login args)
    (a_http_proxy_password args) (a_http_upgrade_path_prefix args) (a_http_upgrade_credentials args)
    (a_websocket_ping_frequency args) (a_websocket_mask_frame args) (a_http_headers args)
    (a_http_headers_file args) (a_remote_addr args) (a_tls_certificate args) (a_tls_private_key args)
    (a_dns_resolver args) (a_dns_resolver_prefer_ipv4 args).

(** [check_server_key] of [AcceptAll]. *)
Definition check_server_key (key : string) : outcome string bool := Ok true.

(** [connect_ssh]: the destinations a tunnel was asked for, and the session. *)
Definition connect_ssh (env : SshEnv) (create_client : ClientArgs → outcome string unit)
    (client_cfg : ClientArgs) (tunnel : Uuid) (user : string) (key : PathBuf)
    (key_passphrase : option string) : list RemoteAddr * outcome string Session :=
  match create_client (clear_tunnels client_cfg) with
  | Err e => ([], Err e)
  | Panic => ([], Panic)
  | Ok _ =>
      ([ssh_remote tunnel],
       session ← ssh_connect_stream env;
       secret ← ssh_load_secret_key env key key_passphrase;
       hash_alg ← (if ssh_is_rsa env secret then ssh_best_rsa_hash env session else Ok None);
       auth ← ssh_authenticate env session user secret hash_alg;
       if (auth : bool) then Ok session else Err "ssh authentication failed")
  end.
End Connect.

(** *** The shell *)

(** The task [to_remote]: in [read], in [write_all], in [shutdown], ended. *)
Inductive ToRemote := TrReading | TrWriting (data : string) | TrShutdown | TrDone.

(** Why the shell ends: the session is told so in the first two cases. *)
Inductive ShellEnd := Terminated | StdinClosed | RemoteClosed.

(** [run_ssh_client_impl]: in the [select!], in [disconnect], returned. *)
Inductive ShellMain := Selecting | Disconnecting (why : ShellEnd) | Returned (why : ShellEnd).

(** The three tasks, what was written to the channel, and to standard output. *)
Record Shell := mkShell {
  sh_to_remote : ToRemote;
  sh_from_remote : bool;
  sh_main : ShellMain;
  sh_sent : string;
  sh_out : string
}.
Definition shell_new : Shell := mkShell TrReading true Selecting "" "".

Inductive ShellEvent :=
| SvStdin (read : outcome string string)   (** [stdin.read] returns, at most 1 KiB *)
| SvWritten (ok : bool)                    (** [write_all] returns *)
| SvShutdown                               (** [shutdown] returns *)
| SvRemote (out : string)                  (** output of the remote side; nothing: its end *)
| SvCtrlC                                  (** the signal *)
| SvToRemoteEnded                          (** the [select!] sees the end of [to_remote] *)
| SvFromRemoteEnded                        (** or of [from_remote] *)
| SvDisconnected.                          (** [disconnect] returns, the tasks are aborted *)

(** A read that ends the loop: nothing, ctrl+d, or an error, which skips the shutdown. *)
Definition to_remote_step (read : outcome string string) : ToRemote :=
  match read with
  | Ok "" => TrShutdown
  | Ok data => if contains_char CTRL_D data then TrShutdown else TrWriting data
  | _ => TrDone
  end.

Definition set_main (st : Shell) (m : ShellMain) : Shell :=
  mkShell (sh_to_remote st) (sh_from_remote st) m (sh_sent st) (sh_out st).
Definition set_to_remote (st : Shell) (t : ToRemote) : Shell :=
  mkShell t (sh_from_remote st) (sh_main st) (sh_sent st) (sh_out st).
(** [abort] of both copies. *)
Definition shell_return (st : Shell) (why : ShellEnd) : Shell :=
  mkShell TrDone false (Returned why) (sh_sent st) (sh_out st).

Definition shell_step (st : Shell) (e : ShellEvent) : option Shell :=
  match e with
  | SvStdin read =>
      match sh_to_remote st with
      | TrReading => Some (set_to_remote st (to_remote_step read))
      | _ => None
      end
  | SvWritten ok =>
      match sh_to_remote st with
      | TrWriting data =>
          Some (if ok
                then mkShell TrReading (sh_from_remote st) (sh_main st) (sh_sent st +:+ data) (sh_out st)
                else set_to_remote st TrDone)
      | _ => None
      end
  | SvShutdown =>
      match sh_to_remote st with TrShutdown => Some (set_to_remote st TrDone) | _ => None end
  | SvRemote out =>
      if sh_from_remote st
      then Some (if String.eqb out ""
                 then mkShell (sh_to_remote st) false (sh_main st) (sh_sent st) (sh_out st)
                 else mkShell (sh_to_remote st) true (sh_main st) (sh_sent st) (sh_out st +:+ out))
      else None
  | SvCtrlC =>
      match sh_main st with Selecting => Some (set_main st (Disconnecting Terminated)) | _ => None end
  | SvToRemoteEnded =>
      match sh_main st, sh_to_remote st with
      | Selecting, TrDone => Some (set_main st (Disconnecting StdinClosed))
      | _, _ => None
      end
  | SvFromRemoteEnded =>
      match sh_main st with
      | Selecting => if sh_from_remote st then None else Some (shell_return st RemoteClosed)
      | _ => None
      end
  | SvDisconnected =>
      match sh_main st with Disconnecting why => Some (shell_return st why) | _ => None end
  end.

(** The shell: the three tasks in any order. *)
Fixpoint shell_session (st : Shell) (evs : list ShellEvent) : option Shell :=
  match evs with
  | [] => Some st
  | e :: evs => st ← shell_step st e; shell_session st evs
  end.

(** What [run_ssh_client_impl] finds on its way. *)
Record ShellEnv := mkShellEnv {
  sh_channel : outcome string unit;
  sh_enable_raw : outcome string unit;
  sh_request_pty : outcome string unit;
  sh_request_shell : outcome string unit
}.

(** [Drop] of [RawModeGuard]. *)
Definition drop_raw_guard (_ : TermMode) : TermMode := Cooked.

(** The mode of the terminal and the session; the guard is dropped at every return after it
    was made. *)
Definition run_ssh_client_impl {Session} (ssh : outcome string Session) (env : ShellEnv)
    (evs : list ShellEvent) : option (TermMode * outcome string Shell) :=
  match (_ ← ssh; _ ← sh_channel env; sh_enable_raw env) with
  | Err e => Some (Cooked, Err e)
  | Panic => Some (Cooked, Panic)
  | Ok _ =>
      match (_ ← sh_request_pty env; sh_request_shell env) with
      | Err e => Some (drop_raw_guard Raw, Err e)
      | Panic => Some (drop_raw_guard Raw, Panic)
      | Ok _ =>
          st ← shell_session shell_new evs;
          Some (match sh_main st with Returned _ => drop_raw_guard Raw | _ => Raw end, Ok st)
      end
  end.
End Ssh.

(** ** [main] *)

Module Main.
Section Main.
Context `{UuidApi, HttpApi, UrlApi}.

Record SshArgs := mkSshArgs {
  ssh_client : ClientArgs;
  ssh_tunnel : Uuid;
  ssh_user : string;
  ssh_key : PathBuf;
  ssh_key_passphrase : option string;
  ssh_term : string
}.
Record ScpArgs := mkScpArgs {
  scp_client : ClientArgs;
  scp_tunnel : Uuid;
  scp_user : string;
  scp_key : PathBuf;
  scp_key_passphrase : option string;
  scp_recursive : bool;
  scp_source : string;
  scp_dest : string
}.
Inductive Commands :=
| CmdClient (args : ClientArgs)
| CmdServer (args : ServerArgs)
| CmdSsh (args : SshArgs)
| CmdScp (args : ScpArgs).

Inductive LogWriter := LogStdout | LogStderr.

(** Where the logs go: not to the standard output that carries a tunnel. *)
Definition log_writer (c : Commands) : LogWriter :=
  match c with
  | CmdClient args =>
      if existsb (λ x, match local_protocol x with Stdio _ | TunnelStdio _ _ => true | _ => false end)
           (a_local_to_remote args)
      then LogStderr else LogStdout
  | CmdSsh _ | CmdScp _ => LogStderr
  | CmdServer _ => LogStdout
  end.

(** The directive that silences the codec of http2, unless the level names it. *)
Definition log_directives (log_lvl : string) : list string :=
  log_lvl :: if negb (contains "h2::" log_lvl || contains "h2=" log_lvl) then ["h2::codec=off"] else [].

(** [run_client], [run_server], [run_ssh_client] and [run_scp_client]; an error of the client or of the server panics. *)
Record Runners := mkRunners {
  do_client : ClientArgs → outcome string unit;
  do_server : ServerArgs → outcome string unit;
  do_ssh_client : SshArgs → outcome string unit;
  do_scp_client : ScpArgs → ScpTransfer → outcome string unit
}.
Definition main (run : Runners) (c : Commands) : outcome string unit :=
  match c with
  | CmdClient args => match do_client run args with Err _ => Panic | r => r end
  | CmdServer args => match do_server run args with Err _ => Panic | r => r end
  | CmdSsh args => do_ssh_client run args
  | CmdScp args =>
      transfer ← scp_transfer (scp_source args) (scp_dest args);
      do_scp_client run args transfer
  end.
End Main.
End Main.

(** ** Properties *)

(** Reads of a thread before it stops. *)
Definition read_data (r : outcome string string) : string := match r with Ok data => data | _ => "" end.

(** What is typed reaches the tunnel, in order and unchanged, up to the end of
    the input, a read of nothing but ctrl+c or the end of the tunnel; nothing else is sent,
    and an ended thread leaves the terminal as it was and the tunnel told. *)
Theorem stdin_thread_delivers reads sent ended :
  Stdio.stdin_thread reads = (sent, ended) →
  (∃ k, (k ≤ length reads)%nat ∧ sent = (λ r, read_data (fst r)) <$> take k reads
     ∧ (ended = false → k = length reads))
  ∧ (∀ chunk, chunk ∈ sent → chunk ≠ "" ∧ chunk ≠ String CTRL_C "")
  ∧ (ended = true → ∀ c o, Stdio.console_after c ended o = Stdio.mkConsole Cooked true).
Proof.
  intros Hs. split_and!.
  - revert sent Hs. induction reads as [|[r recv] reads IH]; intros sent; cbn.
    { intros [= <- <-]. by exists 0%nat. }
    fold (read_data r). destruct (_ || _); [intros [= <- <-]; exists 0%nat; split_and!; [lia|done|done]|].
    destruct recv; [|intros [= <- <-]; exists 0%nat; split_and!; [lia|done|done]].
    destruct (Stdio.stdin_thread reads) as [s e] eqn:E. intros [= <- <-].
    destruct (IH s eq_refl) as (k&Hk&->&He). exists (S k). cbn. split_and!; [lia|done|].
    intros Hf. by rewrite He.
  - revert sent Hs. induction reads as [|[r recv] reads IH]; intros sent; cbn.
    { intros [= <- <-]. by intros ? []%elem_of_nil. }
    fold (read_data r).
    destruct (String.eqb_spec (read_data r) "") as [|H1]; cbn; [intros [= <- <-]; by intros ? []%elem_of_nil|].
    destruct (String.eqb_spec (read_data r) (String CTRL_C "")) as [|H2]; cbn;
      [intros [= <- <-]; by intros ? []%elem_of_nil|].
    destruct recv; [|intros [= <- <-]; by intros ? []%elem_of_nil].
    destruct (Stdio.stdin_thread reads) as [s e] eqn:E. intros [= <- <-] chunk [->|Hin]%elem_of_cons; [done|].
    by apply (IH s eq_refl).
  - intros -> c o. by destruct o.
Qed.

(** A Unix-socket listener never removes a file that is not its own: if the path
    exists when it is bound, also if someone made it a moment ago, the start fails and the
    files stay as they are; otherwise dropping the listener leaves the files as they were
    before it, with what others made in the meantime. *)
Theorem unix_socket_cleanup bind_ok raced p fs others :
  let '(fs1, r) := UnixSock.unix_run_server bind_ok raced p fs in
  match r with
  | Ok listener => (p ∉ raced ∪ fs) ∧ (p ∈ fs1)
      ∧ (p ∉ others → UnixSock.unix_drop listener (others ∪ fs1) = others ∪ raced ∪ fs)
  | _ => fs1 = raced ∪ fs
  end.
Proof.
  unfold UnixSock.unix_run_server, UnixSock.unix_bind. destruct bind_ok; cbn; [|done].
  case_bool_decide as Hin; [done|]. split; [done|]. split; [set_solver|]. intros Ho.
  unfold UnixSock.unix_drop. cbn. rewrite bool_decide_eq_false_2 by set_solver. cbn. set_solver.
Qed.

(** Once [to_remote] has stopped reading, nothing more is sent. *)
Definition reads_no_more (st : Ssh.Shell) : Prop :=
  Ssh.sh_to_remote st = Ssh.TrShutdown ∨ Ssh.sh_to_remote st = Ssh.TrDone.
Lemma reads_no_more_step st e st' :
  reads_no_more st → Ssh.shell_step st e = Some st' →
  reads_no_more st' ∧ Ssh.sh_sent st' = Ssh.sh_sent st.
Proof.
  unfold reads_no_more, Ssh.shell_step. intros Hr Hs.
  destruct e, (Ssh.sh_to_remote st) eqn:Ht; repeat (case_match; try done); simplify_eq; cbn;
    rewrite ?Ht; naive_solver.
Qed.

(** A shell that has returned does nothing more. *)
Lemma returned_step st why e st' :
  Ssh.sh_main st = Ssh.Returned why → Ssh.sh_to_remote st = Ssh.TrDone → Ssh.sh_from_remote st = false →
  Ssh.shell_step st e ≠ Some st'.
Proof. intros Hm Ht Hf. unfold Ssh.shell_step. rewrite Hm, Ht, Hf. by destruct e. Qed.

(** C38: The ssh shell loses what comes with ctrl+d, and may lose what comes after the end of
    the input.  A read that holds the character anywhere is dropped as a whole, also the
    part before it, and nothing is sent after it, whatever happens.  And once the input has
    ended the session does not wait for the remote side: its tasks can shut down, disconnect
    and return while output is still to come, and of that output nothing is ever shown. *)
Theorem shell_cuts_off st :
  Ssh.sh_to_remote st = Ssh.TrReading → Ssh.sh_main st = Ssh.Selecting →
  (∀ a b evs st', Ssh.shell_session st (Ssh.SvStdin (Ok (a +:+ String CTRL_D b)) :: evs) = Some st' →
     Ssh.sh_sent st' = Ssh.sh_sent st)
  ∧ ∃ st1, Ssh.shell_session st
             [Ssh.SvStdin (Ok ""); Ssh.SvShutdown; Ssh.SvToRemoteEnded; Ssh.SvDisconnected] = Some st1
      ∧ ∀ evs st', Ssh.shell_session st1 evs = Some st' → Ssh.sh_out st' = Ssh.sh_out st.
Proof.
  intros Ht Hm. split.
  - intros a b evs st'. cbn [Ssh.shell_session Ssh.shell_step]. rewrite Ht. cbn [mbind option_bind].
    assert (Ssh.to_remote_step (Ok (a +:+ String CTRL_D b)) = Ssh.TrShutdown) as ->.
    { unfold Ssh.to_remote_step. destruct (a +:+ String CTRL_D b) eqn:E; [done|]. rewrite <-E.
      assert (contains_char CTRL_D (a +:+ String CTRL_D b) = true) as ->; [|done].
      unfold contains_char. apply bool_decide_eq_true. rewrite bytes_app. apply elem_of_app. right. by left. }
    assert (reads_no_more (Ssh.set_to_remote st Ssh.TrShutdown)) as Hr by by left.
    change (Ssh.sh_sent st) with (Ssh.sh_sent (Ssh.set_to_remote st Ssh.TrShutdown)).
    revert Hr. generalize (Ssh.set_to_remote st Ssh.TrShutdown). clear.
    induction evs as [|e evs IH]; intros st Hr; cbn; [by intros [= <-]|].
    destruct (Ssh.shell_step st e) as [st1|] eqn:E; cbn; [|done].
    destruct (reads_no_more_step _ _ _ Hr E) as [Hr1 <-]. by apply IH.
  - cbn. rewrite Ht. cbn. rewrite Hm. cbn. eexists. split; [done|].
    intros [|e evs] st'; cbn [Ssh.shell_session]; [by intros [= <-]|].
    destruct (Ssh.shell_step _ e) as [st2|] eqn:E; [|done].
    exfalso. by eapply returned_step; [..|exact E].
Qed.

(** The standard output that carries a tunnel carries no logs: whenever the client
    starts a tunnel on its standard input and output, its logs go to standard error. *)
Theorem stdout_is_clean `{UuidApi, HttpApi, UrlApi} {C} (client : outcome string C) bind
    (args : ClientArgs) l unstarted :
  create_client_tunnels client bind (a_remote_to_local args) (a_local_to_remote args)
    = Ok (Exited l unstarted) →
  Main.log_writer (Main.CmdClient args) = Main.LogStderr.
Proof.
  unfold create_client_tunnels. intros (?&_&Hc)%bind_ok_inv. apply bind_ok_inv in Hc as (tasks&_&Hf).
  cbn. revert tasks Hf. induction (a_local_to_remote args) as [|t ts IH]; intros tasks; [done|].
  cbn. unfold forward_listener. destruct (local_protocol t); cbn; try (by apply IH); try done;
    (intros (?&_&Hf)%bind_ok_inv; by eapply IH).
Qed.

(** ** Witnesses *)

Lemma stdin_thread_delivers_witness :
  ∃ sent ended, Stdio.stdin_thread [(Ok "ls", true); (Ok (String CTRL_C ""), true)] = (sent, ended)
    ∧ ended = true ∧ ∀ chunk, chunk ∈ sent → chunk ≠ "" ∧ chunk ≠ String CTRL_C "".
Proof.
  eexists _, _. split; [reflexivity|]. split; [reflexivity|].
  exact (proj1 (proj2 (stdin_thread_delivers [(Ok "ls", true); (Ok (String CTRL_C ""), true)] _ _ eq_refl))).
Defined.

(** [echo date | wstunnel ssh]: the command is sent, its answer may not be shown. *)
Lemma shell_cuts_off_witness :
  ∃ st st1, Ssh.shell_session Ssh.shell_new [Ssh.SvStdin (Ok "date"); Ssh.SvWritten true] = Some st
    ∧ Ssh.sh_sent st = "date"
    ∧ Ssh.shell_session st
        [Ssh.SvStdin (Ok ""); Ssh.SvShutdown; Ssh.SvToRemoteEnded; Ssh.SvDisconnected] = Some st1
    ∧ ∀ evs st', Ssh.shell_session st1 evs = Some st' → Ssh.sh_out st' = "".
Proof.
  eexists. destruct (shell_cuts_off (Ssh.mkShell Ssh.TrReading true Ssh.Selecting "date" ""))
    as [_ (st1&H1&H2)]; [reflexivity..|]. exists st1.
  split; [reflexivity|]. split; [reflexivity|]. split; [exact H1|exact H2].
Defined.

Definition stdio_args : ClientArgs :=
  mkClientArgs [mkLocalToRemote (Stdio false) (SockV4 LOCALHOST_V4 0) (Domain "h", 22)] [] None 0 0 0
    None false false false None None None "v1" None None false [] None
    (mkToyUrl "ws" (Domain "server") None "/") None None [] false.
Lemma stdout_is_clean_witness : Main.log_writer (Main.CmdClient stdio_args) = Main.LogStderr.
Proof.
  apply (stdout_is_clean (Ok ()) (λ _, Ok ()) stdio_args (FStdio (Domain "h", 22) false) []).
  reflexivity.
Defined.
