(* ===== verification/Executor.v ===== *)
(** * Executor: who owns the tasks

    Models [src/wstunnel/src/executor.rs]: the traits [TokioExecutorRef] and
    [TokioExecutor], the executor that spawns on the runtime, and the one that owns its
    tasks in a [JoinSet] shared by [Arc], with references that hold it weakly.  The runtime
    of tokio is the class [TokioApi]; a [JoinSet] is the tasks spawned in it, and aborting
    it aborts them. *)

From Stdlib Require Import ZArith Lia.
From stdpp Require Import base gmap list sets relations.
From S2P Require Import Prelude.

#[local] Open Scope stdpp_scope.

(** Tasks by their identifier; a task that has ended or was aborted is not live. *)
Class TokioApi := {
  Runtime : Type;
  rt_spawn : Runtime → nat * Runtime;
  rt_abort : nat → Runtime → Runtime;
  rt_finish : nat → Runtime → Runtime;
  rt_live : Runtime → nat → bool;
}.

(** A task is new when it is spawned, and only ends. *)
Class TokioLaws `{TokioApi} : Prop := {
  spawn_new rt t rt' : rt_spawn rt = (t, rt') → rt_live rt' t = true;
  spawn_others rt t rt' u : rt_spawn rt = (t, rt') → rt_live rt' u = true → u = t ∨ rt_live rt u = true;
  abort_ends rt t : rt_live (rt_abort t rt) t = false;
  abort_others rt t u : rt_live (rt_abort t rt) u = true → rt_live rt u = true;
  finish_others rt t u : rt_live (rt_finish t rt) u = true → rt_live rt u = true;
}.

Section Executors.
Context `{TokioApi}.

(** The heap: the runtime, and the sets behind their [Arc]s with the number of strong
    references. *)
Record World := mkWorld { w_rt : Runtime; w_sets : gmap nat (list nat * nat) }.

Class TokioExecutorRef (E : Type) := { spawn : E → World → nat * World }.
Class TokioExecutor (E R : Type) `{TokioExecutorRef E, TokioExecutorRef R} := {
  ref_clone : E → World → R * World;
}.

(** ** The default executor *)

Inductive DefaultTokioExecutor := DefaultExec.
Definition default_spawn (_ : DefaultTokioExecutor) (w : World) : nat * World :=
  let '(t, rt) := rt_spawn (w_rt w) in (t, mkWorld rt (w_sets w)).
#[global] Instance default_exec_ref : TokioExecutorRef DefaultTokioExecutor := {| spawn := default_spawn |}.
#[global] Instance default_exec : TokioExecutor DefaultTokioExecutor DefaultTokioExecutor :=
  {| ref_clone e w := (e, w) |}.

(** ** The executor that owns its tasks *)

Record JoinSetTokioExecutor := mkJoinSetExec { join_set : nat }.
Record JoinSetTokioExecutorRef := mkJoinSetRef { weak_set : nat; default_abort_handle : nat }.

(** [JoinSet::spawn] through the lock. *)
Definition set_spawn (l : nat) (tasks : list nat) (strong : nat) (w : World) : nat * World :=
  let '(t, rt) := rt_spawn (w_rt w) in (t, mkWorld rt (<[l := (t :: tasks, strong)]> (w_sets w))).

(** [new]: the [Arc] at a free place of the heap. *)
Definition join_set_new (l : nat) (tasks : list nat) (w : World) : JoinSetTokioExecutor * World :=
  (mkJoinSetExec l, mkWorld (w_rt w) (<[l := (tasks, 1%nat)]> (w_sets w))).
Definition join_set_default (l : nat) (w : World) : JoinSetTokioExecutor * World := join_set_new l [] w.

Definition rt_abort_all (tasks : list nat) (rt : Runtime) : Runtime := foldr rt_abort rt tasks.
Definition abort_all (e : JoinSetTokioExecutor) (w : World) : World :=
  match w_sets w !! join_set e with
  | Some (tasks, _) => mkWorld (rt_abort_all tasks (w_rt w)) (w_sets w)
  | None => w
  end.

(** [Clone] is derived: another strong reference. *)
Definition exec_clone (e : JoinSetTokioExecutor) (w : World) : JoinSetTokioExecutor * World :=
  match w_sets w !! join_set e with
  | Some (tasks, strong) => (e, mkWorld (w_rt w) (<[join_set e := (tasks, S strong)]> (w_sets w)))
  | None => (e, w)
  end.

(** [Drop] aborts the tasks, then the [Arc] is released; the last one drops the set, which
    aborts its tasks. *)
Definition exec_drop (e : JoinSetTokioExecutor) (w : World) : World :=
  let w := abort_all e w in
  match w_sets w !! join_set e with
  | Some (tasks, S (S strong)) => mkWorld (w_rt w) (<[join_set e := (tasks, S strong)]> (w_sets w))
  | Some (tasks, _) => mkWorld (rt_abort_all tasks (w_rt w)) (delete (join_set e) (w_sets w))
  | None => w
  end.

Definition join_set_spawn (e : JoinSetTokioExecutor) (w : World) : nat * World :=
  match w_sets w !! join_set e with
  | Some (tasks, strong) => set_spawn (join_set e) tasks strong w
  | None => (0%nat, w)
  end.
#[global] Instance join_set_exec_ref : TokioExecutorRef JoinSetTokioExecutor := {| spawn := join_set_spawn |}.

(** [upgrade] fails when no executor is left; the handle of the pending task is given out
    then. *)
Definition join_set_ref_spawn (r : JoinSetTokioExecutorRef) (w : World) : nat * World :=
  match w_sets w !! weak_set r with
  | Some (tasks, strong) => set_spawn (weak_set r) tasks strong w
  | None => (default_abort_handle r, w)
  end.
#[global] Instance join_set_weak_ref : TokioExecutorRef JoinSetTokioExecutorRef := {| spawn := join_set_ref_spawn |}.

(** A reference spawns a task that never ends, for its handle. *)
Definition join_set_ref_clone (e : JoinSetTokioExecutor) (w : World) : JoinSetTokioExecutorRef * World :=
  let '(h, w) := join_set_spawn e w in (mkJoinSetRef (join_set e) h, w).
#[global] Instance join_set_exec : TokioExecutor JoinSetTokioExecutor JoinSetTokioExecutorRef :=
  {| ref_clone := join_set_ref_clone |}.

(** ** A program that uses one executor *)

(** Its executors (clones), its references, and the tasks spawned through any of them. *)
Record ExecState := mkExec {
  ex_world : World;
  ex_execs : list JoinSetTokioExecutor;
  ex_refs : list JoinSetTokioExecutorRef;
  ex_tasks : list nat
}.

Inductive exec_step : ExecState → ExecState → Prop :=
| ex_spawn st e t w :
    e ∈ ex_execs st → spawn e (ex_world st) = (t, w) →
    exec_step st (mkExec w (ex_execs st) (ex_refs st) (t :: ex_tasks st))
| ex_clone st e e' w :
    e ∈ ex_execs st → exec_clone e (ex_world st) = (e', w) →
    exec_step st (mkExec w (e' :: ex_execs st) (ex_refs st) (ex_tasks st))
| ex_drop st l1 e l2 :
    ex_execs st = l1 ++ e :: l2 →
    exec_step st (mkExec (exec_drop e (ex_world st)) (l1 ++ l2) (ex_refs st) (ex_tasks st))
| ex_ref st e r w :
    e ∈ ex_execs st → ref_clone e (ex_world st) = (r, w) →
    exec_step st (mkExec w (ex_execs st) (r :: ex_refs st) (default_abort_handle r :: ex_tasks st))
| ex_ref_spawn st r t w :
    r ∈ ex_refs st → spawn r (ex_world st) = (t, w) →
    exec_step st (mkExec w (ex_execs st) (ex_refs st) (t :: ex_tasks st))
| ex_finish st t :
    exec_step st (mkExec (mkWorld (rt_finish t (w_rt (ex_world st))) (w_sets (ex_world st)))
                    (ex_execs st) (ex_refs st) (ex_tasks st)).

Definition exec_initial (l : nat) (w : World) : ExecState :=
  let '(e, w) := join_set_default l w in mkExec w [e] [] [].

(** ** Properties *)

Context `{!TokioLaws}.

Lemma rt_abort_all_ends tasks rt t : t ∈ tasks → rt_live (rt_abort_all tasks rt) t = false.
Proof.
  induction tasks as [|u tasks IH]; [by intros []%elem_of_nil|].
  intros [->|Hin]%elem_of_cons; cbn; [apply abort_ends|].
  destruct (rt_live (rt_abort u _) t) eqn:E; [|done]. apply abort_others in E.
  unfold rt_abort_all in *. by rewrite IH in E.
Qed.

Lemma rt_abort_all_others tasks rt t : rt_live (rt_abort_all tasks rt) t = true → rt_live rt t = true.
Proof. induction tasks as [|u tasks IH]; cbn; [done|]. intros Hl%abort_others. auto. Qed.

(** The set of a program is there as long as it has an executor, and then holds every task
    that is live; afterwards none is. *)
Record exec_inv (l : nat) (st : ExecState) : Prop := {
  inv_execs : Forall (λ e, join_set e = l) (ex_execs st);
  inv_refs : Forall (λ r, weak_set r = l ∧ default_abort_handle r ∈ ex_tasks st) (ex_refs st);
  inv_set : match w_sets (ex_world st) !! l with
            | Some (tasks, strong) =>
                strong = length (ex_execs st) ∧ strong ≠ 0%nat
                ∧ ∀ t, t ∈ ex_tasks st → t ∈ tasks
            | None => ex_execs st = [] ∧ ∀ t, t ∈ ex_tasks st → rt_live (w_rt (ex_world st)) t = false
            end
}.

Lemma Forall_refs_more l t rs (ts : list nat) :
  Forall (λ r, weak_set r = l ∧ default_abort_handle r ∈ ts) rs →
  Forall (λ r, weak_set r = l ∧ default_abort_handle r ∈ t :: ts) rs.
Proof. intros Hr. eapply Forall_impl; [exact Hr|]. intros r [? ?]. split; [done|by right]. Qed.

(** A task that joins the set. *)
Lemma exec_inv_spawn l st tasks strong t rt :
  exec_inv l st → w_sets (ex_world st) !! l = Some (tasks, strong) →
  exec_inv l (mkExec (mkWorld rt (<[l := (t :: tasks, strong)]> (w_sets (ex_world st))))
                (ex_execs st) (ex_refs st) (t :: ex_tasks st)).
Proof.
  intros [He Hr Hs] Hl. rewrite Hl in Hs. destruct Hs as (Hlen&Hne&Hin).
  split; cbn; [done|by apply Forall_refs_more|]. rewrite lookup_insert_eq.
  split_and!; [done|done|]. intros u [->|Hu]%elem_of_cons; [by left|right; auto].
Qed.

Lemma exec_inv_step l st st' : exec_step st st' → exec_inv l st → exec_inv l st'.
Proof.
  intros Hs Hinv. pose proof Hinv as [He Hr Hset]. rewrite Forall_forall in He. rewrite Forall_forall in Hr.
  assert (∀ e, e ∈ ex_execs st → ∃ tasks strong, w_sets (ex_world st) !! l = Some (tasks, strong)) as Hthere.
  { intros e Hin. destruct (w_sets (ex_world st) !! l) as [[tasks strong]|]; [by eauto|].
    destruct Hset as [Hnil _]. rewrite Hnil in Hin. by apply elem_of_nil in Hin. }
  destruct Hs as [st e t w Hin Hsp|st e e' w Hin Hcl|st l1 e l2 Hex|st e r w Hin Href|st r t w Hin Hsp|st t].
  - destruct (Hthere e Hin) as (tasks&strong&Hl). cbn in Hsp. unfold join_set_spawn in Hsp.
    rewrite (He e Hin), Hl in Hsp. unfold set_spawn in Hsp.
    destruct (rt_spawn _) as [t' rt]. injection Hsp as <- <-. by apply exec_inv_spawn.
  - destruct (Hthere e Hin) as (tasks&strong&Hl). unfold exec_clone in Hcl.
    rewrite (He e Hin), Hl in Hcl. injection Hcl as <- <-. rewrite Hl in Hset. destruct Hset as (Hlen&Hne&Hall).
    split; cbn; [by apply Forall_forall; intros ? [->|?]%elem_of_cons; auto|by apply Forall_forall|].
    rewrite lookup_insert_eq. split_and!; [by rewrite Hlen|done|done].
  - destruct (Hthere e) as (tasks&strong&Hl); [rewrite Hex; set_solver|].
    assert (join_set e = l) as Hel by (apply He; rewrite Hex; set_solver).
    rewrite Hl in Hset. destruct Hset as (Hlen&Hne&Hall).
    unfold exec_drop, abort_all. rewrite Hel, Hl. cbn [w_sets w_rt]. rewrite Hl.
    rewrite Hex, length_app in Hlen. cbn in Hlen.
    destruct strong as [|[|strong]]; [done|..].
    + split; cbn; [apply Forall_forall; intros; apply He; rewrite Hex; set_solver|by apply Forall_forall|].
      rewrite lookup_delete_eq. split; [destruct l1, l2; cbn in *; (done || lia)|].
      intros t Ht. by apply rt_abort_all_ends, Hall.
    + split; cbn; [apply Forall_forall; intros; apply He; rewrite Hex; set_solver|by apply Forall_forall|].
      rewrite lookup_insert_eq, length_app. split_and!; [lia|done|done].
  - destruct (Hthere e Hin) as (tasks&strong&Hl). cbn in Href. unfold join_set_ref_clone, join_set_spawn in Href.
    rewrite (He e Hin), Hl in Href. unfold set_spawn in Href.
    destruct (rt_spawn _) as [t' rt]. injection Href as <- <-. cbn.
    pose proof (exec_inv_spawn l st tasks strong t' rt Hinv Hl) as [He' Hr' Hs']. split; [done| |done].
    constructor; [|done]. cbn. split; [done|by left].
  - destruct (Hr r Hin) as [Hw Hdef]. cbn in Hsp. unfold join_set_ref_spawn in Hsp. rewrite Hw in Hsp.
    destruct (w_sets (ex_world st) !! l) as [[tasks strong]|] eqn:Hl.
    + unfold set_spawn in Hsp. destruct (rt_spawn _) as [t' rt]. injection Hsp as <- <-.
      by apply exec_inv_spawn.
    + injection Hsp as <- <-. split; cbn; [by apply Forall_forall|apply Forall_refs_more; by apply Forall_forall|].
      rewrite Hl. destruct Hset as [-> Hdead]. split; [done|]. intros u [->|Hu]%elem_of_cons; auto.
  - split; cbn; [by apply Forall_forall|by apply Forall_forall|].
    destruct (w_sets (ex_world st) !! l) as [[tasks strong]|]; [done|].
    destruct Hset as [-> Hdead]. split; [done|]. intros u Hu. specialize (Hdead u Hu).
    destruct (rt_live (rt_finish t _) u) eqn:E; [|done]. apply finish_others in E. congruence.
Qed.

Lemma exec_inv_reachable l w st :
  rtc exec_step (exec_initial l w) st → exec_inv l st.
Proof.
  intros Hr. assert (exec_inv l (exec_initial l w)) as Hi.
  { split; cbn; [by constructor|constructor|]. rewrite lookup_insert_eq. split_and!; [done|done|].
    by intros ? []%elem_of_nil. }
  revert Hr Hi. generalize (exec_initial l w). induction 1; eauto using exec_inv_step.
Qed.

(** C30: No task outlives its executor: in every program that spawns through an executor, its
    clones and its references in any order, once the last executor is dropped no task
    spawned through any of them runs, and a reference that is used afterwards spawns
    nothing: it gives out the handle of a task that has ended. *)
Theorem no_task_outlives_executor l w st :
  rtc exec_step (exec_initial l w) st → ex_execs st = [] →
  (∀ t, t ∈ ex_tasks st → rt_live (w_rt (ex_world st)) t = false)
  ∧ ∀ r, r ∈ ex_refs st → ∃ t, spawn r (ex_world st) = (t, ex_world st)
      ∧ rt_live (w_rt (ex_world st)) t = false.
Proof.
  intros [_ Hrefs Hset]%exec_inv_reachable Hnil. rewrite Forall_forall in Hrefs.
  destruct (w_sets (ex_world st) !! l) as [[tasks strong]|] eqn:Hl.
  { destruct Hset as (->&Hne&_). by rewrite Hnil in Hne. }
  destruct Hset as [_ Hdead]. split; [done|]. intros r Hr. destruct (Hrefs r Hr) as [Hw Hin].
  exists (default_abort_handle r). split; [|auto]. cbn. unfold join_set_ref_spawn. by rewrite Hw, Hl.
Qed.

(** Dropping a clone of an executor aborts the tasks of all of them: whatever executors
    remain, after one of them is dropped no task spawned so far runs. *)
Theorem clone_drop_aborts_all l w st l1 e l2 :
  rtc exec_step (exec_initial l w) st → ex_execs st = l1 ++ e :: l2 →
  ∀ t, t ∈ ex_tasks st → rt_live (w_rt (exec_drop e (ex_world st))) t = false.
Proof.
  intros [Hexecs _ Hset]%exec_inv_reachable Hex t Ht. rewrite Forall_forall in Hexecs.
  assert (join_set e = l) as Hel by (apply Hexecs; rewrite Hex; set_solver).
  destruct (w_sets (ex_world st) !! l) as [[tasks strong]|] eqn:Hl;
    [|destruct Hset as [Hnil _]; rewrite Hnil in Hex; by destruct l1].
  destruct Hset as (_&_&Hall). pose proof (Hall t Ht) as Hin.
  unfold exec_drop, abort_all. rewrite Hel, Hl. cbn. rewrite Hl.
  destruct strong as [|[|strong]]; cbn; by apply rt_abort_all_ends.
Qed.
End Executors.

(** ** Witnesses *)

(** A runtime that counts its tasks and knows which ones run. *)
#[global] Instance toy_tokio : TokioApi :=
  {| Runtime := nat * list nat;
     rt_spawn rt := (fst rt, (S (fst rt), fst rt :: snd rt));
     rt_abort t rt := (fst rt, filter (λ u, u ≠ t) (snd rt));
     rt_finish t rt := (fst rt, filter (λ u, u ≠ t) (snd rt));
     rt_live rt t := bool_decide (t ∈ snd rt) |}.
#[global] Instance toy_tokio_laws : TokioLaws.
Proof.
  split; cbn.
  - intros rt t rt' [= <- <-]. apply bool_decide_eq_true. cbn. by left.
  - intros rt t rt' u [= <- <-]. cbn. rewrite !bool_decide_eq_true, elem_of_cons. naive_solver.
  - intros rt t. apply bool_decide_eq_false. rewrite list_elem_of_filter. naive_solver.
  - intros rt t u. rewrite !bool_decide_eq_true, list_elem_of_filter. naive_solver.
  - intros rt t u. rewrite !bool_decide_eq_true, list_elem_of_filter. naive_solver.
Qed.

Definition toy_world : World := mkWorld (0%nat, []) ∅.

Lemma no_task_outlives_executor_witness :
  ∃ st, rtc exec_step (exec_initial 0 toy_world) st ∧ ex_execs st = [] ∧ ex_tasks st = [1; 0]%nat
    ∧ ∀ t, t ∈ ex_tasks st → rt_live (w_rt (ex_world st)) t = false.
Proof.
  assert (∃ st, rtc exec_step (exec_initial 0 toy_world) st ∧ ex_execs st = [] ∧ ex_tasks st = [1; 0]%nat)
    as (st&Hr&Hn&Ht).
  { eexists. split; [|split].
    - eapply rtc_l; [apply (ex_spawn _ (mkJoinSetExec 0)); [by left|reflexivity]|].
      eapply rtc_l; [apply (ex_ref _ (mkJoinSetExec 0)); [by left|reflexivity]|].
      eapply rtc_l; [apply (ex_drop _ [] (mkJoinSetExec 0) []); reflexivity|]. apply rtc_refl.
    - reflexivity.
    - reflexivity. }
  exists st. split; [exact Hr|]. split; [exact Hn|]. split; [exact Ht|].
  exact (proj1 (no_task_outlives_executor 0 toy_world st Hr Hn)).
Defined.

Lemma clone_drop_aborts_all_witness :
  ∃ st, rtc exec_step (exec_initial 0 toy_world) st ∧ length (ex_execs st) = 2%nat
    ∧ rt_live (w_rt (ex_world st)) 0 = true
    ∧ rt_live (w_rt (exec_drop (mkJoinSetExec 0) (ex_world st))) 0 = false.
Proof.
  assert (∃ st, rtc exec_step (exec_initial 0 toy_world) st
    ∧ ex_execs st = [] ++ mkJoinSetExec 0 :: [mkJoinSetExec 0]
    ∧ ex_tasks st = [0%nat] ∧ rt_live (w_rt (ex_world st)) 0 = true) as (st&Hr&He&Ht&Hl).
  { eexists. split; [|split; [|split]].
    - eapply rtc_l; [apply (ex_spawn _ (mkJoinSetExec 0)); [by left|reflexivity]|].
      eapply rtc_l; [apply (ex_clone _ (mkJoinSetExec 0)); [by left|reflexivity]|]. apply rtc_refl.
    - reflexivity.
    - reflexivity.
    - reflexivity. }
  exists st. split; [exact Hr|]. rewrite He. split; [reflexivity|]. split; [exact Hl|].
  apply (clone_drop_aborts_all 0 toy_world st [] (mkJoinSetExec 0) [mkJoinSetExec 0] Hr He).
  rewrite Ht. by left.
Defined.
