(* ===== verification/Reloader.v ===== *)
(** * Reloader: configuration files that change while the program runs

    Models [src/wstunnel/src/restrictions/config_reloader.rs], [tunnel/tls_reloader.rs] and
    the [TlsContext] of [tunnel/server/server.rs].  Handlers run on the threads of the file
    watcher and of the re-watchers, at the same time as the accept loop: a handler is the
    list of its actions on shared state, and steps interleave them.  What is in the files
    when they are read, and what the watcher answers, are arguments. *)

From Stdlib Require Import ZArith Lia Ascii String.
From stdpp Require Import base gmap strings list relations.
From S2P Require Import Prelude Str Net.

#[local] Open Scope stdpp_scope.

(** ** File events *)

(** [Path::components] and [Path::ends_with]. *)
Definition components (p : PathBuf) : list string :=
  let segments := split_char "/" p in
  (if starts_with "/" p then ["/"]
   else match segments with "." :: _ => ["."] | _ => [] end)
  ++ filter (λ s, s ≠ "" ∧ s ≠ ".") segments.
Definition path_ends_with (p child : PathBuf) : bool :=
  bool_decide (components child `suffix_of` components p).

(** notify's events. *)
Inductive EventKind := EkAny | EkAccess | EkCreate | EkModify | EkRemove | EkOther.
Record FsEvent := mkFsEvent { ev_kind : EventKind; ev_paths : list PathBuf }.

(** The path of an event that is the file [file]. *)
Definition event_path (ev : FsEvent) (file : PathBuf) : option PathBuf :=
  find (λ p, path_ends_with p file) (ev_paths ev).

(** The event made up once a file that was removed is back. *)
Definition created (p : PathBuf) : FsEvent := mkFsEvent EkCreate [p].

(** ** Restriction rules *)

Module Rules.
Section Rules.
Context {R : Type}.

(** [rr_config] is [None] for [Static]; [rr_waiting] are the paths of the threads that wait
    for a removed file. *)
Record RestrictionsRulesReloader := mkRr {
  rr_config : option PathBuf;
  rr_rules : R;
  rr_waiting : list PathBuf
}.

(** [watch_ok] says whether the watch can be set. *)
Definition rr_new (watch_ok : bool) (rules : R) (config_path : option PathBuf)
    : outcome string RestrictionsRulesReloader :=
  match config_path with
  | None => Ok (mkRr None rules [])
  | Some p => if watch_ok then Ok (mkRr (Some p) rules []) else Err "watch"
  end.

(** [load] is what [from_config_file] gives now. *)
Definition reload_restrictions_config (load : PathBuf → option R)
    (this : RestrictionsRulesReloader) : RestrictionsRulesReloader :=
  match rr_config this with
  | None => this
  | Some p => match load p with
              | Some rules => mkRr (rr_config this) rules (rr_waiting this)
              | None => this
              end
  end.

Definition handle_config_fs_event (load : PathBuf → option R)
    (this : RestrictionsRulesReloader) (event : option FsEvent)
    : RestrictionsRulesReloader :=
  match rr_config this, event with
  | None, _ => this
  | Some _, None => this
  | Some config_path, Some ev =>
      match ev_kind ev with
      | EkAccess => this
      | kind =>
          match event_path ev config_path with
          | None => this
          | Some path =>
              match kind with
              | EkCreate | EkModify => reload_restrictions_config load this
              | EkRemove => mkRr (rr_config this) (rr_rules this) (path :: rr_waiting this)
              | EkAccess | EkOther | EkAny => this
              end
          end
      end
  end.

(** One turn of the oldest waiting thread: it goes on waiting while the file is missing, and
    gives up if it cannot watch it again. *)
Definition rewatch_turn (exists_now : PathBuf → bool) (watch_ok : bool)
    (load : PathBuf → option R) (this : RestrictionsRulesReloader)
    : RestrictionsRulesReloader :=
  match rr_waiting this with
  | [] => this
  | p :: waiting =>
      if negb (exists_now p) then this
      else
        let this := mkRr (rr_config this) (rr_rules this) waiting in
        if watch_ok then handle_config_fs_event load this (Some (created p)) else this
  end.

(** *** Properties *)

(** A step of the reloader, with what the file holds then. *)
Inductive RStep :=
| RsEvent (event : option FsEvent) (load : PathBuf → option R)
| RsTurn (exists_now : PathBuf → bool) (watch_ok : bool) (load : PathBuf → option R).

Definition rr_step (this : RestrictionsRulesReloader) (s : RStep) : RestrictionsRulesReloader :=
  match s with
  | RsEvent event load => handle_config_fs_event load this event
  | RsTurn exists_now watch_ok load => rewatch_turn exists_now watch_ok load this
  end.

(** Rules a file held at a step. *)
Definition offered (p : PathBuf) (s : RStep) (r : R) : Prop :=
  match s with RsEvent _ load | RsTurn _ _ load => load p = Some r end.

Lemma rr_step_config this s : rr_config (rr_step this s) = rr_config this.
Proof.
  destruct this as [c r w], s as [ev load|ex wok load]; cbn.
  - unfold handle_config_fs_event, reload_restrictions_config. by repeat (case_match; cbn in *).
  - unfold rewatch_turn, handle_config_fs_event, reload_restrictions_config.
    by repeat (case_match; cbn in *; simplify_eq).
Qed.

Lemma rr_step_rules this s :
  rr_rules (rr_step this s) = rr_rules this
  ∨ ∃ p, rr_config this = Some p ∧ offered p s (rr_rules (rr_step this s)).
Proof.
  destruct this as [c r w], s as [ev load|ex wok load]; cbn.
  - unfold handle_config_fs_event, reload_restrictions_config.
    repeat (case_match; cbn in *; simplify_eq); eauto.
  - unfold rewatch_turn, handle_config_fs_event, reload_restrictions_config.
    repeat (case_match; cbn in *; simplify_eq); eauto.
Qed.

Lemma rr_run_config this steps : rr_config (foldl rr_step this steps) = rr_config this.
Proof.
  revert this. induction steps as [|s steps IH]; intros this; [done|]. cbn [foldl].
  by rewrite IH, rr_step_config.
Qed.

Lemma rr_run_rules this steps p :
  rr_config this = Some p →
  rr_rules (foldl rr_step this steps) = rr_rules this
  ∨ ∃ s, s ∈ steps ∧ offered p s (rr_rules (foldl rr_step this steps)).
Proof.
  revert this. induction steps as [|s steps IH]; intros this Hc; [by left|]. cbn [foldl].
  destruct (IH (rr_step this s)) as [Heq|(s'&Hin&Ho)];
    [by rewrite rr_step_config| |right; exists s'; split; [by right|done]].
  rewrite Heq. destruct (rr_step_rules this s) as [->|(p'&Hp'&Ho)]; [by left|right].
  exists s. split; [by left|]. by simplify_eq.
Qed.

(** Every event of a file names it. *)
Lemma event_path_created p file : path_ends_with p file = true → event_path (created p) file = Some p.
Proof. intros Hp. unfold event_path. cbn. by rewrite Hp. Qed.

(** The rules in force are at every moment the ones the server started with or a whole
    set of rules the file held at some step: a file that is missing or broken never changes
    them.  And a replaced file is always picked up: once its removal was noticed, however
    long it is missing, the first turn that finds it back puts its rules in force. *)
Theorem rules_follow_file this steps p r0 waits exists_now load r ev path :
  rr_config this = Some p → rr_rules this = r0 →
  let now := foldl rr_step this steps in
  (rr_rules now = r0 ∨ ∃ s, s ∈ steps ∧ offered p s (rr_rules now))
  ∧ (rr_waiting now = [] → ev_kind ev = EkRemove → event_path ev p = Some path →
     Forall (λ s, ∃ ex wok ld, s = RsTurn ex wok ld ∧ ex path = false) waits →
     exists_now path = true → load p = Some r →
     let removed := foldl rr_step (rr_step now (RsEvent (Some ev) load)) waits in
     rr_rules removed = rr_rules now
     ∧ rr_step removed (RsTurn exists_now true load) = mkRr (Some p) r []).
Proof.
  intros Hc <- now. assert (rr_config now = Some p) as Hcn by (unfold now; by rewrite rr_run_config).
  split; [by apply rr_run_rules|].
  intros Hw Hk Hev Hwaits Hex Hload removed.
  assert (removed = mkRr (Some p) (rr_rules now) [path]) as ->.
  { unfold removed. cbn [rr_step]. unfold handle_config_fs_event. rewrite Hcn, Hk, Hev, Hw.
      clear -Hwaits. induction Hwaits as [|s waits Hs _ IH]; [done|].
    destruct Hs as (ex&wok&ld&->&Hex). cbn [foldl]. cbn [rr_step]. unfold rewatch_turn. cbn [rr_waiting]. by rewrite Hex. }
  split; [done|]. cbn [rr_step]. unfold rewatch_turn. cbn [rr_waiting rr_config rr_rules]. rewrite Hex.
  cbn [negb]. unfold handle_config_fs_event. cbn [rr_config created ev_kind].
  rewrite event_path_created by (by unfold event_path in Hev; apply find_Some in Hev as (?&?&_&?&_)).
  unfold reload_restrictions_config. cbn [rr_config]. by rewrite Hload.
Qed.
End Rules.

(** The file is removed, missing for a turn, then back with other rules. *)
Lemma rules_follow_file_witness :
  let file := "/etc/wstunnel.yaml" in
  let this : RestrictionsRulesReloader := mkRr (Some file) 1%nat [] in
  let gone : RStep := RsTurn (λ _, false) true (λ _, None) in
  let removed := foldl rr_step (rr_step this (RsEvent (Some (mkFsEvent EkRemove [file])) (λ _, Some 2%nat))) [gone] in
  rr_rules removed = 1%nat
  ∧ rr_step removed (RsTurn (λ _, true) true (λ _, Some 2%nat)) = mkRr (Some file) 2%nat [].
Proof.
  intros file this gone.
  destruct (rules_follow_file this [] file 1%nat [gone] (λ _, true) (λ _, Some 2%nat) 2%nat
    (mkFsEvent EkRemove [file]) file eq_refl eq_refl) as [_ H].
  apply H; [reflexivity|reflexivity|vm_compute; reflexivity| |reflexivity|reflexivity].
  constructor; [|constructor]. by exists (λ _, false), true, (λ _, None).
Defined.
End Rules.

(** ** TLS certificates *)

Module Tls.
Section Tls.
(** Certificates, keys, and the objects of rustls made of them. *)
Context {Certs Key Acceptor Connector : Type}.

(** What is on the disk when a handler runs, and what the watcher answers. *)
Record Disk := mkDisk {
  load_certificates_from_pem : PathBuf → option Certs;
  load_private_key_from_file : PathBuf → option Key;
  path_exists : PathBuf → bool;
  watch_ok : PathBuf → bool
}.

(** The paths of [TlsReloaderServerState] and [TlsReloaderClientState]. *)
Record TlsPaths := mkTlsPaths {
  cert_path : PathBuf;
  key_path : PathBuf;
  client_ca_path : option PathBuf
}.

(** [new_for_server] and [new_for_client]: the paths to watch, if there are both of a
    certificate and of a key; each must be watchable. *)
Definition new_for_server (d : Disk) (tls : option (option PathBuf * option PathBuf * option PathBuf))
    : outcome string (option TlsPaths) :=
  match tls with
  | Some (Some cert, Some key, ca) =>
      if watch_ok d cert && watch_ok d key
         && match ca with Some ca => watch_ok d ca | None => true end
      then Ok (Some (mkTlsPaths cert key ca)) else Err "watch"
  | _ => Ok None
  end.
Definition new_for_client (d : Disk) (tls : option (option PathBuf * option PathBuf))
    : outcome string (option TlsPaths) :=
  match tls with
  | Some (Some cert, Some key) =>
      if watch_ok d cert && watch_ok d key then Ok (Some (mkTlsPaths cert key None)) else Err "watch"
  | _ => Ok None
  end.

(** The mutable parts of [TlsServerConfig]. *)
Record TlsConf := mkTlsConf { tls_certificate : Certs; tls_key : Key; tls_client_ca : option Certs }.

(** What a handler does to shared state, in order. *)
Inductive Action :=
| StoreCert (c : Certs)
| StoreKey (k : Key)
| StoreCa (c : Certs)
| StoreConnector (c : Connector)
| SetFlag
| Spawn (p : PathBuf).

(** The reaction to an event of one file: reload it, or wait for it in a new thread. *)
Definition react {A} (load : option A) (store : A → list Action) (kind : EventKind)
    (path : PathBuf) : list Action :=
  match kind with
  | EkCreate | EkModify =>
      match load with Some x => store x | None => [Spawn path] end
  | EkRemove => [Spawn path]
  | EkAccess | EkOther | EkAny => []
  end.

(** [has_ca] says whether the server has client certificates. *)
Definition handle_server_fs_event (d : Disk) (this : TlsPaths) (has_ca : bool)
    (event : option FsEvent) : list Action :=
  match event with
  | None => []
  | Some ev =>
      match ev_kind ev with
      | EkAccess => []
      | kind =>
          match event_path ev (cert_path this) with
          | None => []
          | Some path => react (load_certificates_from_pem d (cert_path this))
                           (λ c, [StoreCert c; SetFlag]) kind path
          end
          ++ match event_path ev (key_path this) with
             | None => []
             | Some path => react (load_private_key_from_file d (key_path this))
                              (λ k, [StoreKey k; SetFlag]) kind path
             end
          ++ match client_ca_path this with
             | None => []
             | Some client_ca_path =>
                 match event_path ev client_ca_path with
                 | None => []
                 | Some path => react (load_certificates_from_pem d client_ca_path)
                                  (λ c, if has_ca then [StoreCa c; SetFlag] else []) kind path
                 end
             end
      end
  end.

(** The client makes a connector of both files on an event of either; an error of
    [tls_connector] (an argument) ends the handler. *)
Definition react_client (d : Disk) (this : TlsPaths)
    (tls_connector : Certs → Key → option Connector) (kind : EventKind) (path : PathBuf)
    : list Action * bool :=
  match kind with
  | EkCreate | EkModify =>
      match load_certificates_from_pem d (cert_path this), load_private_key_from_file d (key_path this) with
      | Some certs, Some key =>
          match tls_connector certs key with
          | Some cn => ([StoreConnector cn; SetFlag], true)
          | None => ([], false)
          end
      | _, _ => ([Spawn path], true)
      end
  | EkRemove => ([Spawn path], true)
  | EkAccess | EkOther | EkAny => ([], true)
  end.

Definition handle_client_fs_event (d : Disk) (this : TlsPaths)
    (tls_connector : Certs → Key → option Connector) (event : option FsEvent)
    : list Action :=
  match event with
  | None => []
  | Some ev =>
      match ev_kind ev with
      | EkAccess => []
      | kind =>
          let '(actions, continue) :=
            match event_path ev (cert_path this) with
            | None => ([], true)
            | Some path => react_client d this tls_connector kind path
            end in
          if negb continue then actions
          else actions ++ match event_path ev (key_path this) with
                          | None => []
                          | Some path => fst (react_client d this tls_connector kind path)
                          end
      end
  end.

(** *** The server while it runs *)

(** Where the accept loop is in [TlsContext::tls_acceptor]: it has taken the flag, and read
    the certificates one lock after the other. *)
Inductive Phase :=
| Idle
| Swapped
| GotCa (ca : option Certs)
| GotCert (ca : option Certs) (c : Certs).

Record TlsState := mkTls {
  ts_conf : TlsConf;
  ts_flag : bool;
  ts_threads : list PathBuf;
  ts_running : list (list Action);
  ts_phase : Phase;
  ts_acceptor : Acceptor
}.

(** rustls's acceptor for a configuration, and the files of the server. *)
Context (tls_acceptor : TlsConf → option Acceptor).
Context (this : TlsPaths).

Definition has_ca (c : TlsConf) : bool := match tls_client_ca c with Some _ => true | None => false end.

(** One action; client connectors are not part of a server. *)
Definition act (a : Action) (st : TlsState) : TlsState :=
  let '(mkTls conf flag threads running phase acc) := st in
  match a with
  | StoreCert c => mkTls (mkTlsConf c (tls_key conf) (tls_client_ca conf)) flag threads running phase acc
  | StoreKey k => mkTls (mkTlsConf (tls_certificate conf) k (tls_client_ca conf)) flag threads running phase acc
  | StoreCa c => mkTls (mkTlsConf (tls_certificate conf) (tls_key conf) (Some c)) flag threads running phase acc
  | StoreConnector _ => st
  | SetFlag => mkTls conf true threads running phase acc
  | Spawn p => mkTls conf flag (threads ++ [p]) running phase acc
  end.

(** A handler with nothing left to do is gone. *)
Definition put (t : list Action) (running : list (list Action)) : list (list Action) :=
  match t with [] => running | _ => t :: running end.
Definition set_running (st : TlsState) (r : list (list Action)) : TlsState :=
  mkTls (ts_conf st) (ts_flag st) (ts_threads st) r (ts_phase st) (ts_acceptor st).
Definition set_phase (st : TlsState) (flag : bool) (p : Phase) : TlsState :=
  mkTls (ts_conf st) flag (ts_threads st) (ts_running st) p (ts_acceptor st).
Definition set_threads (st : TlsState) (t : list PathBuf) : TlsState :=
  mkTls (ts_conf st) (ts_flag st) t (ts_running st) (ts_phase st) (ts_acceptor st).

(** What the accept loop does with the acceptor it made. *)
Definition install (st : TlsState) (r : option Acceptor) : TlsState :=
  mkTls (ts_conf st) (ts_flag st) (ts_threads st) (ts_running st) Idle
    match r with Some a => a | None => ts_acceptor st end.

(** [try_rewatch_certificate]: a turn of the thread of [p].  It sleeps for ten seconds while
    the file is missing; otherwise it watches the file again and runs the handler. *)
Inductive Turn := Sleeping | GaveUp | Handled (actions : list Action).
Definition thread_turn (d : Disk) (has_ca : bool) (p : PathBuf) : Turn :=
  if negb (path_exists d p) then Sleeping
  else if watch_ok d p then Handled (handle_server_fs_event d this has_ca (Some (created p)))
  else GaveUp.

Definition rewatch (d : Disk) (st : TlsState) (p : PathBuf) (others : list PathBuf) : TlsState :=
  match thread_turn d (has_ca (ts_conf st)) p with
  | Sleeping => st
  | GaveUp => set_threads st others
  | Handled actions => set_running (set_threads st others) (put actions (ts_running st))
  end.

(** The turns of a thread and of those that follow it, on a disk that stays as it is: a
    thread that handled the event is over, and those its handler spawned go on. *)
Definition spawned (actions : list Action) : list PathBuf :=
  omap (λ a, match a with Spawn p => Some p | _ => None end) actions.
Fixpoint thread_chain (d : Disk) (has_ca : bool) (n : nat) (p : PathBuf) : list Turn :=
  match n with
  | 0%nat => []
  | S n =>
      thread_turn d has_ca p ::
      match thread_turn d has_ca p with
      | Sleeping => thread_chain d has_ca n p
      | GaveUp => []
      | Handled actions =>
          match spawned actions with p' :: _ => thread_chain d has_ca n p' | [] => [] end
      end
  end.

Inductive tls_step : TlsState → TlsState → Prop :=
| step_event st d ev :
    tls_step st (set_running st
      (put (handle_server_fs_event d this (has_ca (ts_conf st)) ev) (ts_running st)))
| step_act st l1 a t l2 :
    ts_running st = l1 ++ (a :: t) :: l2 → tls_step st (act a (set_running st (l1 ++ put t l2)))
| step_rewatch st d l1 p l2 :
    ts_threads st = l1 ++ p :: l2 → tls_step st (rewatch d st p (l1 ++ l2))
| step_swap st :
    ts_phase st = Idle → ts_flag st = true → tls_step st (set_phase st false Swapped)
| step_ca st :
    ts_phase st = Swapped → tls_step st (set_phase st (ts_flag st) (GotCa (tls_client_ca (ts_conf st))))
| step_cert st ca :
    ts_phase st = GotCa ca →
    tls_step st (set_phase st (ts_flag st) (GotCert ca (tls_certificate (ts_conf st))))
| step_install st ca c :
    ts_phase st = GotCert ca c →
    tls_step st (install st (tls_acceptor (mkTlsConf c (tls_key (ts_conf st)) ca))).

(** The server starts with the acceptor of its configuration. *)
Definition tls_initial (conf : TlsConf) (acc : Acceptor) : TlsState :=
  mkTls conf false [] [] Idle acc.

(** *** Properties *)

(** A handler sets the flag right after each store. *)
Fixpoint flags_stores (l : list Action) : Prop :=
  match l with
  | [] => True
  | (StoreCert _ | StoreKey _ | StoreCa _ | StoreConnector _) :: l =>
      match l with SetFlag :: _ => flags_stores l | _ => False end
  | (SetFlag | Spawn _) :: l => flags_stores l
  end.

Lemma flags_stores_app l1 l2 : flags_stores l1 → flags_stores l2 → flags_stores (l1 ++ l2).
Proof.
  induction l1 as [|a l1 IH]; [done|]. intros H1 H2.
  destruct a; cbn [app flags_stores] in *; try by apply IH.
  all: destruct l1 as [|[] l1]; try done; cbn [app] in *; by apply IH.
Qed.

Lemma flags_stores_react {A} (load : option A) (store : A → list Action) kind path :
  (∀ x, flags_stores (store x)) → flags_stores (react load store kind path).
Proof. intros Hs. by destruct kind, load; cbn. Qed.

Lemma flags_stores_server d ca ev : flags_stores (handle_server_fs_event d this ca ev).
Proof.
  unfold handle_server_fs_event. destruct ev as [ev|]; [|done].
  destruct (ev_kind ev); try done;
    (apply flags_stores_app; [|apply flags_stores_app]);
    repeat case_match; try done; apply flags_stores_react; by destruct ca.
Qed.

(** A reload is due: the flag is set, or about to be by a handler that has stored. *)
Definition due (st : TlsState) : Prop :=
  ts_flag st = true ∨ ∃ t, (SetFlag :: t) ∈ ts_running st.

(** The acceptor is that of the configuration, unless the configuration is not usable. *)
Definition up_to_date (st : TlsState) : Prop :=
  ∀ a, tls_acceptor (ts_conf st) = Some a → ts_acceptor st = a.

Definition phase_ok (st : TlsState) : Prop :=
  match ts_phase st with
  | Idle => up_to_date st
  | Swapped => True
  | GotCa ca => ca = tls_client_ca (ts_conf st)
  | GotCert ca c => ca = tls_client_ca (ts_conf st) ∧ c = tls_certificate (ts_conf st)
  end.

Record tls_inv (st : TlsState) : Prop := {
  inv_threads : Forall flags_stores (ts_running st);
  inv_usable : ∃ conf, tls_acceptor conf = Some (ts_acceptor st);
  inv_fresh : due st ∨ phase_ok st
}.

Lemma tls_inv_initial conf acc : tls_acceptor conf = Some acc → tls_inv (tls_initial conf acc).
Proof.
  intros Ha. split; [constructor|by exists conf|right]. intros a Hb. cbn in *. congruence.
Qed.

Lemma Forall_put (P : list Action → Prop) t l : P t → Forall P l → Forall P (put t l).
Proof. intros Ht Hl. destruct t; [done|by constructor]. Qed.
Lemma elem_of_put a t' t l : (a :: t') ∈ put t l ↔ t = a :: t' ∨ (a :: t') ∈ l.
Proof. destruct t as [|b t]; cbn; [naive_solver|]. rewrite elem_of_cons. naive_solver. Qed.

(** A state that only differs in its threads, and in more running handlers. *)
Lemma tls_inv_more st threads t :
  flags_stores t → tls_inv st →
  tls_inv (mkTls (ts_conf st) (ts_flag st) threads (put t (ts_running st)) (ts_phase st) (ts_acceptor st)).
Proof.
  intros Ht [Hth Hu Hf]. split; cbn; [by apply Forall_put|done|].
  destruct Hf as [[Hd|[t' Hd]]|Hp]; [by left; left|left; right; exists t'; by apply elem_of_put; right|by right].
Qed.

Lemma tls_inv_act st l1 a t l2 :
  ts_running st = l1 ++ (a :: t) :: l2 → tls_inv st → tls_inv (act a (set_running st (l1 ++ put t l2))).
Proof.
  intros Hr [Hth Hu Hf]. destruct st as [conf flag threads running phase acc]; cbn in *. subst running.
  apply Forall_app in Hth as [Hl1 Hth]. apply Forall_cons in Hth as [Hat Hl2].
  assert (flags_stores t) as Ht by (destruct a, t as [|[] t]; cbn in *; by try destruct Hat).
  assert (Forall flags_stores (l1 ++ put t l2)) as Hth' by (by apply Forall_app; auto using Forall_put).
  assert (a ≠ SetFlag → (∀ p, a ≠ Spawn p) → ∃ t', t = SetFlag :: t') as Hstore.
  { intros Hn Hs. destruct a, t as [|[] t]; cbn in Hat; try done; try (by eexists); naive_solver. }
  assert (a ≠ SetFlag → flag = true ∨ (∃ t', (SetFlag :: t') ∈ l1 ++ (a :: t) :: l2) →
          flag = true ∨ ∃ t', (SetFlag :: t') ∈ l1 ++ put t l2) as Hkeep.
  { intros Hn [?|[t' Hin]]; [by left|right]. exists t'. rewrite elem_of_app, elem_of_put.
    rewrite elem_of_app, elem_of_cons in Hin. naive_solver. }
  destruct a; cbn; split; cbn; try done;
    try (left; destruct Hstore as [t' ->]; [done..|]; right; exists t';
         apply elem_of_app; right; by left).
  - left. by left.
  - destruct Hf as [Hd|Hp]; [|by right]. left. by apply Hkeep.
Qed.

Lemma tls_inv_step st st' : tls_step st st' → tls_inv st → tls_inv st'.
Proof.
  intros Hs Hi. destruct Hs as [st d ev|st l1 a t l2 Hr|st d l1 p l2 Ht|st Hp Hfl|st Hp|st ca Hp|st ca c Hp].
  - by apply tls_inv_more; [apply flags_stores_server|].
  - by apply tls_inv_act.
  - unfold rewatch, thread_turn. destruct (path_exists d p); [|done]. cbn [negb].
    destruct (watch_ok d p).
    + apply (tls_inv_more (set_threads st (l1 ++ l2))); [apply flags_stores_server|].
      destruct Hi as [Hth Hu Hf]. by split.
    + destruct Hi as [Hth Hu Hf]. by split.
  - destruct Hi as [Hth Hu _]. split; [done..|by right].
  - destruct Hi as [Hth Hu Hf]. split; [done..|]. destruct Hf as [Hd|_]; [by left|by right].
  - destruct Hi as [Hth Hu Hf]. split; [done..|]. destruct Hf as [Hd|Hok]; [by left|right].
    unfold phase_ok in *. rewrite Hp in Hok. cbn. done.
  - destruct Hi as [Hth Hu Hf]. split; [done| |].
    + cbn. destruct (tls_acceptor _) eqn:Ha; [by eexists|done].
    + destruct Hf as [Hd|Hok]; [by left|right]. unfold phase_ok in *. rewrite Hp in Hok.
      destruct Hok as [-> ->]. intros a Ha. cbn in *. destruct (ts_conf st) as [c0 k0 ca0]. cbn in *.
      by rewrite Ha.
Qed.

Lemma tls_inv_reachable st st' : rtc tls_step st st' → tls_inv st → tls_inv st'.
Proof. induction 1; eauto using tls_inv_step. Qed.

(** C24: Certificates that change are served, and nothing else is: in every interleaving of
    file events, handlers, re-watchers and connections, the acceptor in use is one that
    could be made, and when no reload is due and the accept loop is at rest it is the one
    of the certificates last stored, if they make one. *)
Theorem tls_reload_not_lost conf acc st :
  tls_acceptor conf = Some acc → rtc tls_step (tls_initial conf acc) st →
  (∃ conf', tls_acceptor conf' = Some (ts_acceptor st))
  ∧ (¬ due st → ts_phase st = Idle → up_to_date st).
Proof.
  intros Ha Hr. destruct (tls_inv_reachable _ _ Hr (tls_inv_initial _ _ Ha)) as [_ Hu Hf].
  split; [done|]. intros Hd Hp. destruct Hf as [?|Hok]; [done|]. unfold phase_ok in Hok.
  by rewrite Hp in Hok.
Qed.

(** While a private key file exists but holds no key, the re-watchers of it follow each
    other without a pause: each finds the file, runs the handler, and the handler starts the
    next one, any number of times, and none of them ever sleeps.  A key that can be loaded
    ends this with the first turn. *)
Theorem broken_key_respawns d ca p :
  path_exists d p = true → watch_ok d p = true →
  event_path (created p) (key_path this) = Some p → event_path (created p) (cert_path this) = None →
  match client_ca_path this with Some ca => event_path (created p) ca = None | None => True end →
  (load_private_key_from_file d (key_path this) = None ↔
     ∀ n, thread_chain d ca n p = replicate n (Handled [Spawn p]))
  ∧ ∀ k n, load_private_key_from_file d (key_path this) = Some k →
     thread_chain d ca (S n) p = [Handled [StoreKey k; SetFlag]].
Proof.
  intros Hex Hw Hkey Hcert Hca.
  assert (thread_turn d ca p = Handled match load_private_key_from_file d (key_path this) with
            | Some k => [StoreKey k; SetFlag] | None => [Spawn p] end) as Ht.
  { unfold thread_turn. rewrite Hex, Hw. cbn [negb handle_server_fs_event created ev_kind]. fold (created p).
    rewrite Hcert, Hkey. destruct (load_private_key_from_file d _), (client_ca_path this); by rewrite ?Hca. }
  split; [split|].
  - intros Hl n. rewrite Hl in Ht. induction n as [|n IH]; [done|]. cbn [thread_chain replicate].
    rewrite Ht. cbn. by rewrite IH.
  - intros Hall. specialize (Hall 1%nat). cbn in Hall. rewrite Ht in Hall.
    by destruct (load_private_key_from_file d _).
  - intros k n Hk. rewrite Hk in Ht. cbn [thread_chain]. by rewrite Ht.
Qed.
End Tls.

Section TlsWitness.
Definition toy_paths : TlsPaths := mkTlsPaths "/tls/cert.pem" "/tls/key.pem" None.
(** An acceptor needs the certificate of its key. *)
Definition toy_acceptor (c : TlsConf (Certs := nat) (Key := nat)) : option (nat * nat) :=
  if Nat.eqb (tls_certificate c) (tls_key c) then Some (tls_certificate c, tls_key c) else None.
Definition toy_disk : Disk (Certs := nat) (Key := nat) :=
  mkDisk (λ _, Some 2%nat) (λ _, Some 2%nat) (λ _, true) (λ _, true).

(** The certificate is replaced, then the key: in between no acceptor can be made. *)
Lemma tls_reload_not_lost_witness :
  ∃ st, rtc (tls_step (Connector := nat) toy_acceptor toy_paths)
          (tls_initial (mkTlsConf 1%nat 1%nat None) (1%nat, 1%nat)) st
    ∧ ts_acceptor st = (1%nat, 1%nat) ∧ tls_certificate (ts_conf st) = 2%nat
    ∧ ((∃ conf', toy_acceptor conf' = Some (ts_acceptor st))
       ∧ (¬ due st → ts_phase st = Idle → up_to_date toy_acceptor st)).
Proof.
  set (init := tls_initial (mkTlsConf 1%nat 1%nat None) (1%nat, 1%nat)).
  assert (∃ st, rtc (tls_step (Connector := nat) toy_acceptor toy_paths) init st
    ∧ ts_acceptor st = (1%nat, 1%nat) ∧ tls_certificate (ts_conf st) = 2%nat) as (st&Hr&Ha&Hc).
  { eexists. split; [|split].
    - eapply rtc_l; [apply (step_event _ _ _ toy_disk (Some (mkFsEvent EkModify ["/tls/cert.pem"])))|].
      eapply rtc_l; [apply (step_act _ _ _ [] (StoreCert 2%nat) [SetFlag] []); vm_compute; reflexivity|].
      apply rtc_refl.
    - reflexivity.
    - reflexivity. }
  exists st. split; [exact Hr|]. split; [exact Ha|]. split; [exact Hc|].
  exact (tls_reload_not_lost toy_acceptor toy_paths (mkTlsConf 1%nat 1%nat None) (1%nat, 1%nat) st eq_refl Hr).
Defined.

Definition broken_disk : Disk (Certs := nat) (Key := nat) :=
  mkDisk (λ _, Some 1%nat) (λ _, None) (λ _, true) (λ _, true).

Lemma broken_key_respawns_witness :
  thread_chain (Connector := nat) toy_paths broken_disk false 1000 "/tls/key.pem"
  = replicate 1000 (Handled [Spawn "/tls/key.pem"]).
Proof.
  apply (broken_key_respawns toy_paths broken_disk false "/tls/key.pem");
    vm_compute; try reflexivity; exact I.
Defined.
End TlsWitness.
End Tls.
