(* ===== verification/TlsSetup.v ===== *)
(** * TlsSetup: the TLS objects of both sides

    Models [src/wstunnel/src/protocols/tls/server.rs] (files, connector, acceptor, the
    verifier that accepts everything), [embedded_certificate.rs] and the TLS part of
    [run_server_impl] in [lib.rs].  The checks of rustls are the class [RustlsApi]; the
    configurations the program builds are records of what it sets. *)

From Stdlib Require Import ZArith Lia Ascii String.
From stdpp Require Import base strings list.
From S2P Require Import Prelude Str Net Apis ApiModels Jwt Server Client Connect Reloader.

#[local] Open Scope stdpp_scope.

(** rustls and [rustls_pemfile]: the certificates and keys of a file, the certificates a
    root store takes, and whether a configuration can be built. *)
Class RustlsApi `{X509Api} := {
  PrivateKey : Type;
  EchConfig : Type;
  pem_certs : string → list (option Cert);
  pem_private_key : string → outcome string (option PrivateKey);
  root_accepts : Cert → bool;
  default_versions_ok : bool;
  ech_ok : EchConfig → bool;
  client_auth_ok : list Cert → PrivateKey → bool;
  client_verifier_ok : list Cert → bool;
  single_cert_ok : list Cert → PrivateKey → bool;
}.

(** [WebPkiClientVerifier] refuses to be built without a root. *)
Class RustlsLaws `{RustlsApi} : Prop := {
  verifier_needs_root : client_verifier_ok [] = false;
}.

Section Setup.
Context `{RustlsApi}.

(** ** Files *)

(** [None] is a file that cannot be opened.  A certificate that is not readable is skipped. *)
Definition load_certificates_from_pem (file : option string) : outcome string (list Cert) :=
  match file with
  | None => Err "cannot open"
  | Some contents => Ok (omap id (pem_certs contents))
  end.

Definition load_private_key_from_file (file : option string) : outcome string PrivateKey :=
  match file with
  | None => Err "cannot open"
  | Some contents =>
      key ← pem_private_key contents;
      match key with Some private_key => Ok private_key | None => Err "No private key found" end
  end.

(** ** Client *)

(** The verifier of a connector: that of rustls for some roots, or [NullVerifier]. *)
Inductive CertVerifier := WebPki (roots : list Cert) | NullVerifier.

Inductive SignatureScheme :=
| RSA_PKCS1_SHA1 | ECDSA_SHA1_Legacy | RSA_PKCS1_SHA256 | ECDSA_NISTP256_SHA256
| RSA_PKCS1_SHA384 | ECDSA_NISTP384_SHA384 | RSA_PKCS1_SHA512 | ECDSA_NISTP521_SHA512
| RSA_PSS_SHA256 | RSA_PSS_SHA384 | RSA_PSS_SHA512 | ED25519 | ED448.

(** The methods of [ServerCertVerifier]; [webpki] and [signature] are rustls. *)
Definition verify_server_cert (webpki : list Cert → Cert → list Cert → ServerName → bool)
    (v : CertVerifier) (end_entity : Cert) (intermediates : list Cert) (server_name : ServerName) : bool :=
  match v with
  | WebPki roots => webpki roots end_entity intermediates server_name
  | NullVerifier => true
  end.
Definition verify_signature (signature : string → Cert → bool) (v : CertVerifier) (message : string)
    (cert : Cert) : bool :=
  match v with WebPki _ => signature message cert | NullVerifier => true end.
Definition supported_verify_schemes : list SignatureScheme :=
  [RSA_PKCS1_SHA1; ECDSA_SHA1_Legacy; RSA_PKCS1_SHA256; ECDSA_NISTP256_SHA256;
   RSA_PKCS1_SHA384; ECDSA_NISTP384_SHA384; RSA_PKCS1_SHA512; ECDSA_NISTP521_SHA512;
   RSA_PSS_SHA256; RSA_PSS_SHA384; RSA_PSS_SHA512; ED25519; ED448].

Record TlsConnector := mkConnector {
  tc_ech : option EchConfig;
  tc_client_auth : option (list Cert * PrivateKey);
  tc_enable_sni : bool;
  tc_verifier : CertVerifier;
  tc_alpn : list string
}.

(** [native] are the certificates of the system. *)
Definition tls_connector (native : list Cert) (tls_verify_certificate : bool)
    (alpn_protocols : list string) (enable_sni : bool) (ech_config : option EchConfig)
    (tls_client_certificate : option (list Cert)) (tls_client_key : option PrivateKey)
    : outcome string TlsConnector :=
  let root_store := filter (λ c, root_accepts c = true) native in
  _ ← match ech_config with
      | Some ech => if ech_ok ech then Ok () else Err "ech"
      | None => if default_versions_ok then Ok () else Err "versions"
      end;
  client_auth ← match tls_client_certificate, tls_client_key with
                | Some certs, Some key =>
                    if client_auth_ok certs key then Ok (Some (certs, key)) else Err "Error setting up mTLS"
                | _, _ => Ok None
                end;
  let verifier := if negb tls_verify_certificate then NullVerifier else WebPki root_store in
  Ok (mkConnector ech_config client_auth enable_sni verifier alpn_protocols).

(** The connector [handle_client_fs_event] makes of the files it has read, from the settings
    the client was started with. *)
Definition reload_connector `{HostApi} (native : list Cert) (scheme : TransportScheme)
    (tls : TlsClientConfig (TlsConnector := TlsConnector)) (tls_certs : list Cert) (tls_key : PrivateKey)
    : option TlsConnector :=
  ok (tls_connector native (tls_verify_certificate tls) (alpn_protocols scheme)
        (negb (tls_sni_disabled tls)) None (Some tls_certs) (Some tls_key)).

(** ** Server *)

Record TlsAcceptor := mkAcceptor {
  ta_client_roots : option (list Cert);
  ta_certificate : list Cert;
  ta_key : PrivateKey;
  ta_alpn : list string
}.

#[local] Abbreviation TlsConf := (Tls.TlsConf (Certs := list Cert) (Key := PrivateKey)).

Definition tls_acceptor (tls_cfg : TlsConf) (alpn_protocols : option (list string))
    : outcome string TlsAcceptor :=
  client_roots ← match Tls.tls_client_ca tls_cfg with
                 | Some cas =>
                     _ ← collect (λ ca, if root_accepts ca then Ok ()
                                        else Err "Failed to add mTLS client CA certificate") cas;
                     if client_verifier_ok cas then Ok (Some cas)
                     else Err "Failed to build mTLS client verifier"
                 | None => Ok None
                 end;
  if single_cert_ok (Tls.tls_certificate tls_cfg) (Tls.tls_key tls_cfg)
  then Ok (mkAcceptor client_roots (Tls.tls_certificate tls_cfg) (Tls.tls_key tls_cfg)
             (default [] alpn_protocols))
  else Err "invalid tls certificate or private key".

(** What the server offers, at the start and after a reload. *)
Definition SERVER_ALPN : list string := ["h2"; "http/1.1"].
Definition server_acceptor (tls_cfg : TlsConf) : option TlsAcceptor :=
  ok (tls_acceptor tls_cfg (Some SERVER_ALPN)).

(** The TLS part of [run_server_impl]: files that cannot be loaded abort the start;
    [embedded] is the certificate the program makes for itself. *)
Definition server_tls_config `{UrlApi} (file : PathBuf → option string) (embedded : list Cert * PrivateKey)
    (args : ServerArgs)
    : outcome string (option (TlsConf * (option PathBuf * option PathBuf * option PathBuf))) :=
  if String.eqb (url_scheme (s_remote_addr args)) "wss"
  then
    tls_certificate ← match s_tls_certificate args with
                      | Some p => unwrap (ok (load_certificates_from_pem (file p)))
                      | None => Ok (fst embedded)
                      end;
    tls_key ← match s_tls_private_key args with
              | Some p => unwrap (ok (load_private_key_from_file (file p)))
              | None => Ok (snd embedded)
              end;
    tls_client_ca ← match s_tls_client_ca_certs args with
                    | Some p => cas ← unwrap (ok (load_certificates_from_pem (file p))); Ok (Some cas)
                    | None => Ok None
                    end;
    Ok (Some (Tls.mkTlsConf tls_certificate tls_key tls_client_ca,
              (s_tls_certificate args, s_tls_private_key args, s_tls_client_ca_certs args)))
  else Ok None.
End Setup.

(** ** The embedded certificate *)

(** The validity of the certificate, from the two times read while it is made. *)
Definition embedded_not_before (nanos : Z) : Z * Z * Z :=
  (2024 - nanos mod 2, 1 + nanos mod 12, 1 + nanos mod 28).
Definition embedded_not_after (nanos : Z) : Z * Z * Z :=
  (2025 + nanos mod 50, 1 + nanos mod 12, 1 + nanos mod 28).

(** ** Properties *)

(** A connector a handler of the client stores was made of the files on the disk. *)
Section ClientHandler.
Context {Certs Key Connector : Type} (mk : Certs → Key → option Connector).
Context (d : Tls.Disk (Certs := Certs) (Key := Key)) (this : Tls.TlsPaths) (c : Connector).

Definition from_disk : Prop :=
  ∃ certs key, Tls.load_certificates_from_pem d (Tls.cert_path this) = Some certs
    ∧ Tls.load_private_key_from_file d (Tls.key_path this) = Some key ∧ mk certs key = Some c.

Lemma react_client_connector kind path :
  Tls.StoreConnector c ∈ fst (Tls.react_client d this mk kind path) → from_disk.
Proof.
  unfold Tls.react_client, from_disk. intros Hin.
  destruct kind; repeat case_match; cbn in Hin; rewrite ?elem_of_cons, ?elem_of_nil in Hin; naive_solver.
Qed.

Lemma handle_client_connector ev :
  Tls.StoreConnector c ∈ Tls.handle_client_fs_event d this mk ev → from_disk.
Proof.
  unfold Tls.handle_client_fs_event. destruct ev as [ev|]; [|by intros []%elem_of_nil].
  assert (∀ kind o, Tls.StoreConnector c ∈ match o with
      | Some path => fst (Tls.react_client d this mk kind path) | None => [] end →
    from_disk) as Hreact.
  { intros kind [path|]; [apply react_client_connector|by intros []%elem_of_nil]. }
  assert (∀ kind, Tls.StoreConnector c ∈
    (let '(actions, continue) :=
       match event_path ev (Tls.cert_path this) with
       | None => ([], true)
       | Some path => Tls.react_client d this mk kind path
       end in
     if negb continue then actions
     else actions ++ match event_path ev (Tls.key_path this) with
                     | None => []
                     | Some path => fst (Tls.react_client d this mk kind path)
                     end) → from_disk) as Hboth.
  { intros kind. pose proof (Hreact kind (event_path ev (Tls.cert_path this))) as Hcert.
    destruct (event_path ev (Tls.cert_path this)) as [path|]; [|apply Hreact].
    destruct (Tls.react_client d this mk kind path) as [acts []]; cbn in *; [|exact Hcert].
    intros [Hin|Hin]%elem_of_app; [by apply Hcert|by eapply Hreact]. }
  destruct (ev_kind ev); try apply Hboth. by intros []%elem_of_nil.
Qed.
End ClientHandler.

Section Properties.
Context `{RustlsLaws}.
#[local] Abbreviation TlsConf := (Tls.TlsConf (Certs := list Cert) (Key := PrivateKey)).

Lemma tls_acceptor_ok (conf : TlsConf) alpn a :
  tls_acceptor conf alpn = Ok a →
  ta_client_roots a = Tls.tls_client_ca conf
  ∧ ta_certificate a = Tls.tls_certificate conf ∧ ta_key a = Tls.tls_key conf
  ∧ ∀ cas, Tls.tls_client_ca conf = Some cas → cas ≠ [].
Proof.
  unfold tls_acceptor. intros (roots&Hr&Ha)%bind_ok_inv.
  destruct (single_cert_ok _ _); [|done]. injection Ha as <-. cbn.
  destruct (Tls.tls_client_ca conf) as [cas|]; [|by injection Hr as <-].
  apply bind_ok_inv in Hr as (?&_&Hr). destruct (client_verifier_ok cas) eqn:Hv; [|done].
  injection Hr as <-. split_and!; [done..|]. intros ? [= <-] ->. by rewrite verifier_needs_root in Hv.
Qed.

(** Client authentication is never turned off by what is in the file of the client
    certificates: an acceptor asks for exactly the certificates of the configuration, and
    one with an empty list of them, as a file without a readable certificate gives, cannot
    be made. *)
Theorem acceptor_enforces_mtls (conf : TlsConf) alpn a contents :
  tls_acceptor conf alpn = Ok a →
  ta_client_roots a = Tls.tls_client_ca conf
  ∧ (load_certificates_from_pem (Some contents) = Ok (default [] (ta_client_roots a)) →
     is_Some (ta_client_roots a) → ∃ c, Some c ∈ pem_certs contents).
Proof.
  intros (Hroots&_&_&Hne)%tls_acceptor_ok. split; [done|]. intros Hload [cas Hcas].
  rewrite Hcas in Hload. rewrite Hroots in Hcas. specialize (Hne cas Hcas).
  cbn in Hload. injection Hload as Hload. destruct cas as [|c cas]; [done|]. exists c.
  assert (c ∈ omap id (pem_certs contents)) as (x&Hx&Hid)%list_elem_of_omap by (rewrite Hload; by left).
  cbn in Hid. by subst x.
Qed.

Lemma tls_connector_ok native verify alpn sni ech certs key c :
  tls_connector native verify alpn sni ech certs key = Ok c →
  tc_ech c = ech
  ∧ tc_client_auth c = match certs, key with Some cs, Some k => Some (cs, k) | _, _ => None end
  ∧ tc_enable_sni c = sni
  ∧ tc_verifier c = (if verify then WebPki (filter (λ c, root_accepts c = true) native) else NullVerifier)
  ∧ tc_alpn c = alpn.
Proof.
  unfold tls_connector. intros (?&_&Hc)%bind_ok_inv. apply bind_ok_inv in Hc as (auth&Hauth&[= <-]).
  cbn. split_and!; try done; [|by destruct verify].
  destruct certs as [cs|], key as [k|]; try by injection Hauth as <-.
  by destruct (client_auth_ok cs k); [injection Hauth as <-|].
Qed.

(** The certificate of the server is checked exactly when the option says so: a
    connector with the verifier that accepts everything is made without
    [--tls-verify-certificate] and never with it, and then the roots are certificates of
    the system; a client certificate is presented exactly when both its files are given. *)
Theorem connector_verifies native verify alpn sni ech certs key c :
  tls_connector native verify alpn sni ech certs key = Ok c →
  (tc_verifier c = NullVerifier ↔ verify = false)
  ∧ (∀ roots, tc_verifier c = WebPki roots → roots ⊆ native)
  ∧ (is_Some (tc_client_auth c) ↔ is_Some certs ∧ is_Some key)
  ∧ tc_ech c = ech ∧ tc_enable_sni c = sni ∧ tc_alpn c = alpn.
Proof.
  unfold tls_connector. intros (?&_&Hc)%bind_ok_inv. apply bind_ok_inv in Hc as (auth&Hauth&[= <-]).
  cbn. split_and!; try done.
  - by destruct verify.
  - destruct verify; [|done]. intros roots [= <-] c Hc. by apply list_elem_of_filter in Hc as [_ ?].
  - destruct certs as [cs|], key as [k|]; try (injection Hauth as <-).
    + destruct (client_auth_ok cs k); [injection Hauth as <-|done]. split; eauto.
    + split; [by intros []|by intros [_ []]].
    + split; [by intros []|by intros [[] _]].
    + split; [by intros []|by intros [[] _]].
Qed.

(** C37: A reload of the client's certificate keeps the settings the client was started with
    except one: whatever the event and the files, a connector that is put in place presents
    the certificate and key now on the disk, checks the server as the first one did and has
    its SNI and ALPN settings, but it has no ECH configuration, also where the first one had
    the one found for the server. *)
Theorem reload_drops_ech `{HttpApi, UrlApi} {Dns} native
    (env : StartEnv (Key := PrivateKey) (Ech := EchConfig) (TlsConnector := TlsConnector) (Dns := Dns))
    args dns scheme certs key tls d this ev c :
  (∀ verify alpn sni ech cs k,
     st_tls_connector env verify alpn sni ech cs k = ok (tls_connector native verify alpn sni ech cs k)) →
  client_tls env args dns scheme certs key = Ok (Some tls) →
  Tls.StoreConnector c ∈ Tls.handle_client_fs_event d this (reload_connector native scheme tls) ev →
  (∃ cs k, Tls.load_certificates_from_pem d (Tls.cert_path this) = Some cs
     ∧ Tls.load_private_key_from_file d (Tls.key_path this) = Some k ∧ tc_client_auth c = Some (cs, k))
  ∧ tc_verifier c = tc_verifier (Client.tls_connector tls)
  ∧ tc_enable_sni c = tc_enable_sni (Client.tls_connector tls)
  ∧ tc_alpn c = tc_alpn (Client.tls_connector tls)
  ∧ tc_ech c = None
  ∧ (∀ lookup h ech, a_tls_ech_enable args = true → st_ech env = Some lookup →
     url_host (a_remote_addr args) = Some h → lookup dns h = Ok (Some ech) →
     tc_ech (Client.tls_connector tls) = Some ech).
Proof.
  intros Henv Htls (cs&k&Hcs&Hk&Hc)%handle_client_connector. unfold reload_connector in Hc.
  destruct (tls_connector _ _ _ _ None _ _) as [c'| |] eqn:Hc'; [|done..]. injection Hc as ->.
  apply tls_connector_ok in Hc' as (Hech&Hauth&Hsni&Hver&Halpn).
  unfold client_tls in Htls. destruct scheme; try done; apply bind_ok_inv in Htls as (ech&Hl&Htls).
  all: rewrite Henv in Htls; apply bind_ok_inv in Htls as (c0&Hc0&[= <-]).
  all: destruct (tls_connector native _ _ _ ech _ _) as [c1| |] eqn:E; cbn in Hc0; simplify_eq.
  all: apply tls_connector_ok in E as (Hech0&_&Hsni0&Hver0&Halpn0); cbn in *.
  all: split_and!; [by exists cs, k|congruence..|done|].
  all: intros lookup h e He Hst Hh Hlook; rewrite He, Hst, Hh in Hl; cbn in Hl; congruence.
Qed.
End Properties.

(** Dates are ordered by year, month and day. *)
Definition date_lt (a b : Z * Z * Z) : bool :=
  let '(y1, m1, d1) := a in
  let '(y2, m2, d2) := b in
  (y1 <? y2) || ((y1 =? y2) && ((m1 <? m2) || ((m1 =? m2) && (d1 <? d2)))).
(** Days every month has. *)
Definition date_wf (a : Z * Z * Z) : bool :=
  let '(_, m, d) := a in (1 <=? m) && (m <=? 12) && (1 <=? d) && (d <=? 28).

(** The certificate a server makes for itself has well-formed dates, in order, and was
    valid from 2024 on; but once 2025 is over one in fifty of them is expired when it is
    made: its end is drawn from the years 2025 to 2074. *)
Theorem embedded_certificate_dates n1 n2 :
  date_wf (embedded_not_before n1) = true ∧ date_wf (embedded_not_after n2) = true
  ∧ date_lt (embedded_not_before n1) (embedded_not_after n2) = true
  ∧ date_lt (embedded_not_before n1) (2024, 12, 29) = true
  ∧ (date_lt (embedded_not_after n2) (2026, 1, 1) = true ↔ n2 mod 50 = 0).
Proof.
  unfold embedded_not_before, embedded_not_after, date_wf, date_lt.
  pose proof (Z.mod_pos_bound n1 2 ltac:(lia)). pose proof (Z.mod_pos_bound n1 12 ltac:(lia)).
  pose proof (Z.mod_pos_bound n1 28 ltac:(lia)). pose proof (Z.mod_pos_bound n2 12 ltac:(lia)).
  pose proof (Z.mod_pos_bound n2 28 ltac:(lia)). pose proof (Z.mod_pos_bound n2 50 ltac:(lia)).
  split_and!; [lia..|]. split; lia.
Qed.

(** ** Witnesses *)

(** Certificates are lines of the file that are not empty, and a key fits the first one. *)
#[global] Instance toy_rustls : @RustlsApi toy_x509 :=
  {| PrivateKey := string; EchConfig := string;
     pem_certs s := map (λ l, if String.eqb l "" then None else Some l) (split_char NEWLINE s);
     pem_private_key s := Ok (if String.eqb s "" then None else Some s);
     root_accepts _ := true; default_versions_ok := true; ech_ok _ := true;
     client_auth_ok certs key := bool_decide (head certs = Some key);
     client_verifier_ok roots := bool_decide (roots ≠ []);
     single_cert_ok certs key := bool_decide (head certs = Some key) |}.
#[global] Instance toy_rustls_laws : RustlsLaws.
Proof. split. reflexivity. Qed.

Definition toy_server_conf : Tls.TlsConf (Certs := list (@Cert toy_x509)) (Key := @PrivateKey _ toy_rustls) :=
  Tls.mkTlsConf ["srv"] "srv" (Some ["ca"]).
Lemma acceptor_enforces_mtls_witness :
  ∃ a, tls_acceptor toy_server_conf (Some SERVER_ALPN) = Ok a
    ∧ ta_client_roots a = Some ["ca"] ∧ ∃ c, Some c ∈ pem_certs "ca".
Proof.
  eexists. split; [reflexivity|].
  destruct (acceptor_enforces_mtls toy_server_conf (Some SERVER_ALPN) _
    "ca" eq_refl) as [Hr Hc]. split; [exact Hr|]. apply Hc; [reflexivity|]. eexists. reflexivity.
Defined.

Definition toy_roots : list (@Cert toy_x509) := ["root"].
Definition toy_chain : list (@Cert toy_x509) := ["c"].
Definition toy_key : @PrivateKey _ toy_rustls := "c".
Definition toy_ech : @EchConfig _ toy_rustls := "ech".

Lemma connector_verifies_witness :
  ∃ c, tls_connector toy_roots true ["h2"] true None None None = Ok c ∧ tc_verifier c ≠ NullVerifier.
Proof.
  destruct (tls_connector toy_roots true ["h2"] true None None None) as [c| |] eqn:E; [|discriminate..].
  exists c. split; [reflexivity|].
  destruct (connector_verifies toy_roots true ["h2"] true None None None c E) as ([Hv _]&_).
  intros Hn. specialize (Hv Hn). discriminate.
Defined.

(** The certificate of a client with ECH is replaced. *)
Definition toy_client_disk : Tls.Disk (Certs := list (@Cert toy_x509)) (Key := @PrivateKey _ toy_rustls) :=
  Tls.mkDisk (λ _, Some toy_chain) (λ _, Some toy_key) (λ _, true) (λ _, true).
Definition toy_start : StartEnv (Key := @PrivateKey _ toy_rustls) (Ech := @EchConfig _ toy_rustls)
    (TlsConnector := TlsConnector) (Dns := ()) :=
  mkStart (λ _, Some toy_chain) (λ _, Some toy_key) (λ _ _ _, Some ()) (Some (λ _ _, Ok (Some toy_ech)))
    (λ v a s e cs k, ok (tls_connector toy_roots v a s e cs k)) (λ _, true) (Ok ()).
Definition toy_ech_args : ClientArgs :=
  mkClientArgs [] [] None 0 (from_secs 300) (from_secs 1) None true true true None None None
    "v1" None None false [] None toy_server_url (Some "/tls/cert.pem") (Some "/tls/key.pem") [] false.

Lemma reload_drops_ech_witness :
  ∃ tls c, client_tls toy_start toy_ech_args () Wss (Some toy_chain) (Some toy_key) = Ok (Some tls)
    ∧ tc_ech (Client.tls_connector tls) = Some toy_ech ∧ tc_ech c = None
    ∧ tc_enable_sni c = tc_enable_sni (Client.tls_connector tls).
Proof.
  destruct (client_tls toy_start toy_ech_args () Wss (Some toy_chain) (Some toy_key)) as [[tls|]| |] eqn:E0;
    [|discriminate..].
  destruct (reload_connector toy_roots Wss tls toy_chain toy_key) as [c|] eqn:E;
    [|injection E0 as <-; discriminate].
  exists tls, c. split; [reflexivity|].
  destruct (reload_drops_ech toy_roots toy_start toy_ech_args () Wss (Some toy_chain) (Some toy_key) tls
    toy_client_disk Tls.toy_paths (Some (mkFsEvent EkModify ["/tls/cert.pem"])) c) as (_&_&Hsni&_&Hc&H0).
  - reflexivity.
  - exact E0.
  - injection E0 as <-. injection E as <-. vm_compute. left.
  - split; [by eapply (H0 _ (Domain "server") toy_ech eq_refl eq_refl eq_refl)|]. split; [exact Hc|exact Hsni].
Defined.
