(* ===== verification/Serve.v ===== *)
(** * Serve: the server as it runs

    Models [WsServer::serve] of [src/wstunnel/src/tunnel/server/server.rs]: start-up, the
    accept loop, the connections it spawns, and what these share (the rules and the
    certificates that are reloaded, the pool of rate limiters).  A run is a sequence of
    steps of the loop, of the connections and of the file watchers in any order; its trace
    records the files that were read and the requests that were served.  On top of it the
    three programs are composed: a client's request, the server, and the registry that
    resolves the identifier the request names. *)

From Stdlib Require Import ZArith Lia Ascii String.
From stdpp Require Import base gmap strings list relations.
From S2P Require Import Prelude Str Net Apis ApiModels Restrictions Jwt Request.
From S2P Require Import RateLimiter Resolver Server Client Udp Reloader TlsSetup.

#[local] Open Scope stdpp_scope.

Section Serve.
Context `{UuidApi, HostApi, HttpApi, UrlApi, YamlApi, JwtApi JwtTunnelConfig}.
Context `{RegexApi, IpNetApi, GovernorApi, X509Api}.
Context {Io Certs Key Acceptor Connector Client : Type}.
Context (is_upgrade_request : Request → bool) (upgrade : Request → option HeaderMap).
(** rustls: the acceptor of a configuration, and the handshake with a client, which gives
    the negotiated protocol and the client's certificates. *)
Context (tls_acceptor : Tls.TlsConf (Certs := Certs) (Key := Key) → option Acceptor).
Context (tls_accept : Acceptor → Client → option (option string * option (list Cert))).
Context (cfg : WsServerConfig).

#[local] Abbreviation RulesReloader := (Rules.RestrictionsRulesReloader (R := RestrictionsRules)).
#[local] Abbreviation TlsState := (Tls.TlsState (Certs := Certs) (Key := Key) (Acceptor := Acceptor) (Connector := Connector)).
#[local] Abbreviation TlsConf := (Tls.TlsConf (Certs := Certs) (Key := Key)).

(** A connection the loop has spawned a task for: in its TLS handshake, with the acceptor
    it was given, or served. *)
Inductive ConnState :=
| CsHandshake (acceptor : Acceptor) (peer : SocketAddr)
| CsServing (conn : Conn) (peer : SocketAddr).

(** [sv_tls] is the [TlsContext] with the files it watches, [sv_taken] the connection the
    loop has accepted while it is in [TlsContext::tls_acceptor]. *)
Record ServeState := mkServe {
  sv_rules : RulesReloader;
  sv_tls : option (option Tls.TlsPaths * TlsState);
  sv_taken : option SocketAddr;
  sv_conns : list ConnState;
  sv_pool : RateLimiterPool
}.

(** What [serve] does before its loop: each [?] in the order of the code.  [tls] is the TLS
    configuration with the paths it was loaded from. *)
Definition serve_start (d : Tls.Disk (Certs := Certs) (Key := Key)) (watch_rules bind_ok : bool)
    (tls : option (TlsConf * (option PathBuf * option PathBuf * option PathBuf)))
    (rules : RestrictionsRules) : outcome string ServeState :=
  tls_context ← match tls with
                | Some (conf, paths) =>
                    acceptor ← ok_or "tls" (tls_acceptor conf);
                    tls_reloader ← Tls.new_for_server d (Some paths);
                    Ok (Some (tls_reloader, Tls.tls_initial conf acceptor))
                | None => Ok None
                end;
  restrictions ← Rules.rr_new watch_rules rules (srv_restriction_config cfg);
  if bind_ok then Ok (mkServe restrictions tls_context None [] pool_new)
  else Err "Failed to bind to socket".

(** The next connection, or an error of [accept], after which the loop goes on. *)
Definition on_accept (accepted : option SocketAddr) (st : ServeState) : ServeState :=
  match accepted with
  | None => st
  | Some peer =>
      match sv_tls st with
      | None => mkServe (sv_rules st) None (sv_taken st)
                  (CsServing Plain peer :: sv_conns st) (sv_pool st)
      | Some _ => mkServe (sv_rules st) (sv_tls st) (Some peer) (sv_conns st) (sv_pool st)
      end
  end.

(** The task of a TLS connection is spawned with the acceptor. *)
Definition spawn_tls (acceptor : Acceptor) (peer : SocketAddr) (st : ServeState) : ServeState :=
  mkServe (sv_rules st) (sv_tls st) None (CsHandshake acceptor peer :: sv_conns st) (sv_pool st).

Definition set_tls (st : ServeState) (paths : option Tls.TlsPaths) (ts : TlsState) : ServeState :=
  mkServe (sv_rules st) (Some (paths, ts)) (sv_taken st) (sv_conns st) (sv_pool st).
Definition set_conns (st : ServeState) (conns : list ConnState) : ServeState :=
  mkServe (sv_rules st) (sv_tls st) (sv_taken st) conns (sv_pool st).

(** The end of the handshake: an error ends the task. *)
Definition handshaken (acceptor : Acceptor) (peer : SocketAddr) (client : Client) : list ConnState :=
  match tls_accept acceptor client with
  | Some (alpn, peer_certificates) => [CsServing (TlsConn alpn peer_certificates) peer]
  | None => []
  end.

(** A request on a connection, under the rules in force now: [restrictions.load()]. *)
Definition request_on (st : ServeState) (conn : Conn) (peer : SocketAddr)
    (net : NetEnv (Io := Io)) (req : Request) :=
  serve_request is_upgrade_request upgrade cfg net (sv_pool st) (Rules.rr_rules (sv_rules st))
    conn peer req.
Definition pool_after (pool : RateLimiterPool) (r : outcome string (Upgraded (Io := Io)))
    : RateLimiterPool :=
  match r with Ok (_, _, pool) => pool | Err _ | Panic => pool end.

(** What a step shows: a handler of the rules' file ran, the certificates changed, a request
    was served. *)
Inductive Label :=
| LTau
| LRules (s : Rules.RStep (R := RestrictionsRules))
| LConf (conf : TlsConf)
| LServed (conn : Conn) (peer : SocketAddr) (net : NetEnv (Io := Io)) (req : Request)
    (out : list (Effect Uuid) * outcome string (Upgraded (Io := Io))).

Inductive serve_step : ServeState → Label → ServeState → Prop :=
| sv_watch_rules st s :
    serve_step st (LRules s)
      (mkServe (Rules.rr_step (sv_rules st) s) (sv_tls st) (sv_taken st) (sv_conns st) (sv_pool st))
| sv_watch_tls st paths ts ts' :
    sv_tls st = Some (Some paths, ts) → Tls.tls_step tls_acceptor paths ts ts' →
    Tls.ts_phase ts' = Tls.ts_phase ts →
    serve_step st (LConf (Tls.ts_conf ts')) (set_tls st (Some paths) ts')
| sv_accept st accepted :
    sv_taken st = None → serve_step st LTau (on_accept accepted st)
| sv_keep st peer paths ts :
    sv_taken st = Some peer → sv_tls st = Some (paths, ts) → Tls.ts_phase ts = Tls.Idle →
    Tls.ts_flag ts = false → serve_step st LTau (spawn_tls (Tls.ts_acceptor ts) peer st)
| sv_reload st peer paths ts ts' :
    sv_taken st = Some peer → sv_tls st = Some (Some paths, ts) →
    Tls.tls_step tls_acceptor paths ts ts' → Tls.ts_phase ts' ≠ Tls.ts_phase ts →
    Tls.ts_phase ts' ≠ Tls.Idle → serve_step st LTau (set_tls st (Some paths) ts')
| sv_reloaded st peer paths ts ts' :
    sv_taken st = Some peer → sv_tls st = Some (Some paths, ts) →
    Tls.tls_step tls_acceptor paths ts ts' → Tls.ts_phase ts' ≠ Tls.ts_phase ts →
    Tls.ts_phase ts' = Tls.Idle →
    serve_step st LTau (spawn_tls (Tls.ts_acceptor ts') peer (set_tls st (Some paths) ts'))
| sv_handshake st l1 acceptor peer l2 client :
    sv_conns st = l1 ++ CsHandshake acceptor peer :: l2 →
    serve_step st LTau (set_conns st (l1 ++ handshaken acceptor peer client ++ l2))
| sv_request st l1 conn peer l2 net req :
    sv_conns st = l1 ++ CsServing conn peer :: l2 →
    serve_step st (LServed conn peer net req (request_on st conn peer net req))
      (mkServe (sv_rules st) (sv_tls st) (sv_taken st) (sv_conns st)
         (pool_after (sv_pool st) (snd (request_on st conn peer net req))))
| sv_closed st l1 c l2 :
    sv_conns st = l1 ++ c :: l2 → serve_step st LTau (set_conns st (l1 ++ l2)).

Inductive serve_run : ServeState → list Label → ServeState → Prop :=
| run_nil st : serve_run st [] st
| run_cons st l st1 tr st2 :
    serve_step st l st1 → serve_run st1 tr st2 → serve_run st (l :: tr) st2.

(** The handlers of the rules' file that ran in a trace. *)
Definition file_steps (tr : list Label) : list (Rules.RStep (R := RestrictionsRules)) :=
  omap (λ l, match l with LRules s => Some s | _ => None end) tr.

(** ** Runs *)

Lemma serve_run_app st tr1 tr2 st2 :
  serve_run st (tr1 ++ tr2) st2 ↔ ∃ st1, serve_run st tr1 st1 ∧ serve_run st1 tr2 st2.
Proof.
  split.
  - revert st. induction tr1 as [|l tr1 IH]; intros st Hr; [exists st; by split; [constructor|]|].
    inversion Hr as [|? ? ? ? ? Hs Hr']; subst. apply IH in Hr' as (st'&?&?).
    exists st'. split; [by econstructor|done].
  - intros (st1&Hr1&Hr2). induction Hr1; [done|]. cbn. econstructor; eauto.
Qed.

Lemma serve_run_snoc st tr l st2 :
  serve_run st (tr ++ [l]) st2 ↔ ∃ st1, serve_run st tr st1 ∧ serve_step st1 l st2.
Proof.
  rewrite serve_run_app. split; intros (st1&Hr&Hs); exists st1; (split; [done|]).
  - inversion Hs as [|? ? ? ? ? ? Hn]; subst. by inversion Hn; subst.
  - econstructor; [done|constructor].
Qed.

(** Invariants of runs may speak of the trace so far. *)
Lemma serve_run_inv (P : list Label → ServeState → Prop) st0 :
  P [] st0 →
  (∀ tr st l st', serve_run st0 tr st → P tr st → serve_step st l st' → P (tr ++ [l]) st') →
  ∀ tr st, serve_run st0 tr st → P tr st.
Proof.
  intros Hinit Hstep tr. induction tr as [|l tr IH] using rev_ind; intros st Hr.
  - by inversion Hr; subst.
  - apply serve_run_snoc in Hr as (st1&Hr&Hs). eauto.
Qed.

(** The rules in force are those the handlers of the trace leave, whatever else ran. *)
Lemma serve_run_rules st0 tr st :
  serve_run st0 tr st → sv_rules st = foldl Rules.rr_step (sv_rules st0) (file_steps tr).
Proof.
  apply (serve_run_inv (λ tr st, sv_rules st = foldl Rules.rr_step (sv_rules st0) (file_steps tr)));
    [done|].
  intros tr' st1 l st2 _ IH Hs. unfold file_steps in *. rewrite omap_app, foldl_app, <-IH.
  destruct Hs as [| |? [?|]| | | | | |]; try done. cbn. by case_match.
Qed.

(** A request that was served was served in some state of the run. *)
Lemma serve_run_served st0 tr1 conn peer net req out tr2 st :
  serve_run st0 (tr1 ++ LServed conn peer net req out :: tr2) st →
  ∃ st1, serve_run st0 tr1 st1 ∧ CsServing conn peer ∈ sv_conns st1
    ∧ out = request_on st1 conn peer net req.
Proof.
  intros (st1&Hr1&Hr2)%serve_run_app. exists st1. split; [done|].
  inversion Hr2 as [|? ? ? ? ? Hs _]; subst. inversion Hs as [| | | | | | |? l1 ? ? l2 ? ? Hc|]; subst.
  split; [rewrite Hc; set_solver|done].
Qed.

(** *** Mutual TLS *)

(** The client certificates [ca] were configured at the start, or loaded since. *)
Definition ca_held (ca0 : Certs) (tr : list Label) (ca : Certs) : Prop :=
  ca = ca0 ∨ ∃ conf, LConf conf ∈ tr ∧ Tls.tls_client_ca conf = Some ca.

(** The acceptor asks for certificates of some [ca] that was configured. *)
Definition asks_for (P : Certs → Prop) (acceptor : Acceptor) : Prop :=
  ∃ conf ca, tls_acceptor conf = Some acceptor ∧ Tls.tls_client_ca conf = Some ca ∧ P ca.

Definition ca_ok (P : Certs → Prop) (ca : option Certs) : Prop := ∃ c, ca = Some c ∧ P c.

Definition phase_asks (P : Certs → Prop) (ph : Tls.Phase (Certs := Certs)) : Prop :=
  match ph with
  | Tls.Idle | Tls.Swapped => True
  | Tls.GotCa ca | Tls.GotCert ca _ => ca_ok P ca
  end.

Record tls_asks (P : Certs → Prop) (ts : TlsState) : Prop := {
  asks_conf : ca_ok P (Tls.tls_client_ca (Tls.ts_conf ts));
  asks_phase : phase_asks P (Tls.ts_phase ts);
  asks_acceptor : asks_for P (Tls.ts_acceptor ts)
}.

(** No step of the reloader drops the client certificates. *)
Lemma act_ca (a : Tls.Action (Key := Key) (Connector := Connector)) (ts : TlsState) :
  is_Some (Tls.tls_client_ca (Tls.ts_conf ts)) →
  is_Some (Tls.tls_client_ca (Tls.ts_conf (Tls.act a ts))).
Proof. destruct ts as [[]], a; cbn; eauto. Qed.

Lemma act_keeps (a : Tls.Action (Key := Key) (Connector := Connector)) (ts : TlsState) :
  Tls.ts_phase (Tls.act a ts) = Tls.ts_phase ts
  ∧ Tls.ts_acceptor (Tls.act a ts) = Tls.ts_acceptor ts.
Proof. destruct ts as [[]], a; by cbn. Qed.

Lemma tls_step_ca paths (ts ts' : TlsState) :
  Tls.tls_step tls_acceptor paths ts ts' →
  is_Some (Tls.tls_client_ca (Tls.ts_conf ts)) → is_Some (Tls.tls_client_ca (Tls.ts_conf ts')).
Proof.
  intros [st d ev|st l1 a t l2 _|st d l1 p l2 _| | | |]; try done.
  { intros Hca. by apply (act_ca a (Tls.set_running st (l1 ++ Tls.put t l2))). }
  unfold Tls.rewatch. by repeat case_match.
Qed.

(** What a step does to the acceptor and to the progress of a reload. *)
Lemma tls_step_reload paths (ts ts' : TlsState) :
  Tls.tls_step tls_acceptor paths ts ts' →
  Tls.ts_acceptor ts' = Tls.ts_acceptor ts
    ∧ (Tls.ts_phase ts' = Tls.ts_phase ts ∨ Tls.ts_phase ts' = Tls.Swapped
       ∨ Tls.ts_phase ts' = Tls.GotCa (Tls.tls_client_ca (Tls.ts_conf ts))
       ∨ Tls.ts_phase ts' = Tls.Idle
       ∨ ∃ ca c, Tls.ts_phase ts = Tls.GotCa ca ∧ Tls.ts_phase ts' = Tls.GotCert ca c)
  ∨ ∃ ca c k, Tls.ts_phase ts = Tls.GotCert ca c ∧ Tls.ts_phase ts' = Tls.Idle
      ∧ tls_acceptor (Tls.mkTlsConf c k ca) = Some (Tls.ts_acceptor ts').
Proof.
  intros [st d ev|st l1 a t l2 _|st d l1 p l2 _|st Hp|st Hp|st ca Hp|st ca c Hp];
    try (left; by eauto 10).
  - left. destruct (act_keeps a (Tls.set_running st (l1 ++ Tls.put t l2))) as [-> ->].
    split; [done|by left].
  - left. unfold Tls.rewatch. repeat case_match; (split; [done|by left]).
  - unfold Tls.install. cbn [Tls.ts_acceptor Tls.ts_phase].
    destruct (tls_acceptor _) as [a|] eqn:Ha; [right; by eauto 10|left; by eauto 10].
Qed.

(** [P] is what held of the certificates before the step, [Q] holds of them and of those
    the configuration has after it. *)
Lemma tls_asks_step (P Q : Certs → Prop) paths ts ts' :
  (∀ c, P c → Q c) → (∀ c, Tls.tls_client_ca (Tls.ts_conf ts') = Some c → Q c) →
  Tls.tls_step tls_acceptor paths ts ts' → tls_asks P ts → tls_asks Q ts'.
Proof.
  intros HPQ HQ Hs [Hconf Hph Hacc].
  assert (∀ o, ca_ok P o → ca_ok Q o) as Hok by (intros o (c&->&?); exists c; auto).
  assert (asks_for Q (Tls.ts_acceptor ts)) as HaccQ.
  { destruct Hacc as (conf&ca&?&?&?). exists conf, ca. auto. }
  destruct (tls_step_ca _ _ _ Hs) as [c Hc]; [by destruct Hconf as (c&->&_)|].
  apply tls_step_reload in Hs as [[Hacc' Hcase]|(ca&ct&k&Hp&Hp'&Ha)].
  - split; [exists c; auto| |by rewrite Hacc'].
    destruct Hcase as [->|[->|[->|[->|(ca&ct&Hp&->)]]]]; cbn; auto.
    + destruct (Tls.ts_phase ts); cbn in *; auto.
    + rewrite Hp in Hph. auto.
  - rewrite Hp in Hph. cbn in Hph. destruct Hph as (c'&->&?). split; [exists c; auto|by rewrite Hp'|].
    eexists _, c'. split_and!; [done|done|auto].
Qed.

Definition conn_asks (P : Certs → Prop) (Q : list Cert → Prop) (c : ConnState) : Prop :=
  match c with
  | CsHandshake acceptor _ => asks_for P acceptor
  | CsServing conn _ => ∃ alpn chain, conn = TlsConn alpn (Some chain) ∧ Q chain
  end.

Lemma conn_asks_mono (P P' : Certs → Prop) (Q Q' : list Cert → Prop) c :
  (∀ x, P x → P' x) → (∀ x, Q x → Q' x) → conn_asks P Q c → conn_asks P' Q' c.
Proof.
  intros HP HQ. destruct c as [acc peer|conn peer]; cbn.
  - intros (conf&ca&?&?&?). exists conf, ca. auto.
  - intros (alpn&chain&?&?). exists alpn, chain. auto.
Qed.

Lemma ca_held_mono ca0 tr tr' ca : tr ⊆ tr' → ca_held ca0 tr ca → ca_held ca0 tr' ca.
Proof. intros Hsub [->|(conf&Hin&Hca)]; [by left|right]. exists conf. auto. Qed.

(** An acceptor of a configuration with client certificates lets only clients in that have one
    of them. *)
Context (verified : Certs → list Cert → Prop).
Definition acceptor_verifies : Prop := ∀ conf acceptor ca client alpn certs,
  tls_acceptor conf = Some acceptor → Tls.tls_client_ca conf = Some ca →
  tls_accept acceptor client = Some (alpn, certs) → ∃ chain, certs = Some chain ∧ verified ca chain.

(** The invariant of a server with client certificates [ca0]. *)
Definition mtls_inv (ca0 : Certs) (tr : list Label) (st : ServeState) : Prop :=
  (∃ paths ts, sv_tls st = Some (paths, ts) ∧ tls_asks (ca_held ca0 tr) ts)
  ∧ Forall (conn_asks (ca_held ca0 tr) (λ chain, ∃ ca, ca_held ca0 tr ca ∧ verified ca chain))
      (sv_conns st).

Lemma mtls_conns_later ca0 tr l conns :
  Forall (conn_asks (ca_held ca0 tr) (λ chain, ∃ ca, ca_held ca0 tr ca ∧ verified ca chain)) conns →
  Forall (conn_asks (ca_held ca0 (tr ++ [l]))
    (λ chain, ∃ ca, ca_held ca0 (tr ++ [l]) ca ∧ verified ca chain)) conns.
Proof.
  intros Hc. eapply Forall_impl; [exact Hc|]. intros c. apply conn_asks_mono.
  - intros x. apply ca_held_mono. set_solver.
  - intros x (ca&Hca&?). exists ca. split; [|done]. eapply ca_held_mono; [|done]. set_solver.
Qed.

Lemma tls_asks_mono (P Q : Certs → Prop) ts : (∀ c, P c → Q c) → tls_asks P ts → tls_asks Q ts.
Proof.
  intros HPQ [(c&?&?) Hph (conf&ca&?&?&?)].
  split; [exists c; auto| |exists conf, ca; auto].
  destruct (Tls.ts_phase ts); cbn in *; try done; destruct Hph as (c'&->&?); exists c'; auto.
Qed.

(** The loop reads the configuration and does not change it. *)
Lemma tls_step_conf paths (ts ts' : TlsState) :
  Tls.tls_step tls_acceptor paths ts ts' → Tls.ts_phase ts' ≠ Tls.ts_phase ts →
  Tls.ts_conf ts' = Tls.ts_conf ts.
Proof.
  intros [st d ev|st l1 a t l2 _|st d l1 p l2 _| | | |] Hph; try done.
  - by destruct (act_keeps a (Tls.set_running st (l1 ++ Tls.put t l2))) as [-> _] in Hph.
  - revert Hph. unfold Tls.rewatch. by repeat case_match.
Qed.

Lemma tls_asks_reload (P : Certs → Prop) paths ts ts' :
  Tls.tls_step tls_acceptor paths ts ts' → Tls.ts_phase ts' ≠ Tls.ts_phase ts →
  tls_asks P ts → tls_asks P ts'.
Proof.
  intros Hs Hph Ha. eapply tls_asks_step; [done| |done|done]. intros c.
  rewrite (tls_step_conf _ _ _ Hs Hph). destruct Ha as [(c'&->&?) _ _]. by intros [= <-].
Qed.

Lemma handshaken_asks (P : Certs → Prop) acceptor peer client :
  acceptor_verifies → asks_for P acceptor →
  Forall (conn_asks P (λ chain, ∃ ca, P ca ∧ verified ca chain)) (handshaken acceptor peer client).
Proof.
  intros Hrustls (conf&ca&Ha&Hca&HP). unfold handshaken.
  destruct (tls_accept acceptor client) as [[alpn certs]|] eqn:Hacc; [|constructor].
  destruct (Hrustls _ _ _ _ _ _ Ha Hca Hacc) as (chain&->&Hv).
  constructor; [|constructor]. exists alpn, chain. split; [done|]. by exists ca.
Qed.

Lemma mtls_inv_step ca0 tr st l st' :
  acceptor_verifies → mtls_inv ca0 tr st → serve_step st l st' → mtls_inv ca0 (tr ++ [l]) st'.
Proof.
  intros Hrustls [(paths&ts&Htls&Hasks) Hconns] Hs.
  apply (mtls_conns_later ca0 tr l) in Hconns.
  assert (∀ c, ca_held ca0 tr c → ca_held ca0 (tr ++ [l]) c) as Hmono.
  { intros c. apply ca_held_mono. set_solver. }
  pose proof (tls_asks_mono _ _ _ Hmono Hasks) as Hasks'.
  destruct Hs as [st s|st p1 ts1 ts2 Ht1 Hts Hph|st [peer|] Hk|st peer p1 ts1 Hk Ht1 _ _
    |st peer p1 ts1 ts2 Hk Ht1 Hts Hph Hidle|st peer p1 ts1 ts2 Hk Ht1 Hts Hph Hidle
    |st l1 acceptor peer l2 client Hc|st l1 conn peer l2 net req Hc|st l1 c l2 Hc];
    cbn; unfold mtls_inv; cbn; simplify_eq; try rewrite Htls in *; cbn; simplify_eq;
    try (rewrite Hc in Hconns; apply Forall_app in Hconns as [Hl1 Hl2];
         apply Forall_cons in Hl2 as [Hc0 Hl2]).
  all: split; [eexists _, _; split; [reflexivity|try exact Hasks']|try exact Hconns].
  - eapply tls_asks_step; [exact Hmono| |exact Hts|done]. intros c Hc. right.
    exists (Tls.ts_conf ts2). split; [set_solver|done].
  - constructor; [apply Hasks'|done].
  - by eapply tls_asks_reload.
  - by eapply tls_asks_reload.
  - constructor; [|done]. by eapply (tls_asks_reload _ _ _ _ Hts Hph Hasks').
  - apply Forall_app. split; [done|]. apply Forall_app. split; [|done].
    by apply handshaken_asks.
  - rewrite Hc. apply Forall_app. split; [done|]. by constructor.
  - by apply Forall_app.
Qed.

(** *** Rate limits *)

Lemma request_for_det net restrict req p1 r1 d1 i1 p2 r2 d2 i2 :
  request_for (Io := Io) cfg net restrict req p1 r1 d1 i1 →
  request_for cfg net restrict req p2 r2 d2 i2 → i1 = i2.
Proof.
  intros (_&_&(j1&Hj1&Hr1)&Hd1) (_&_&(j2&Hj2&Hr2)&Hd2).
  rewrite Hj1 in Hj2. injection Hj2 as <-. rewrite Hr1 in Hr2. injection Hr2 as <-. congruence.
Qed.

(** The accepted tunnel of a request and the pool after it. *)
Lemma request_on_ok st conn peer net req l resp acc pool :
  request_on st conn peer net req = (l, Ok (resp, Some acc, pool)) →
  ∃ prefix remote dest info,
    request_for cfg net (conn_restrict conn) req prefix remote dest info
    ∧ (acc_limiters acc, pool) = apply_rate_limit net (sv_pool st) info.
Proof.
  intros Hs. pose proof (serve_request_handle is_upgrade_request upgrade cfg net (sv_pool st)
    (Rules.rr_rules (sv_rules st)) conn peer req) as Hcase.
  unfold request_on in Hs. rewrite Hs in Hcase. cbn [fst snd] in Hcase.
  destruct Hcase as [[_ (r&[=]&_)]|[_ Hcase]].
  destruct (handle_tunnel_request _ _ _ _ _ _ _) as [l' [[acc1 pool1]|r|]] eqn:Hh;
    cbn [fst snd] in Hcase; [|by destruct Hcase as (_&[=]&_)|done].
  destruct Hcase as [-> [[= ->]|[[=] _]]].
  apply handle_ok in Hh as (prefix&remote&dest&info&_&Hreq&_&_&Hl&_). by exists prefix, remote, dest, info.
Qed.

(** A request changes the pool by at most one call of [wrap]. *)
Lemma request_on_pool st conn peer net req :
  let pool' := pool_after (sv_pool st) (snd (request_on st conn peer net req)) in
  pool' = sv_pool st ∨ ∃ c, pool' = pool_step (sv_pool st) c.
Proof.
  pose proof (serve_request_handle is_upgrade_request upgrade cfg net (sv_pool st)
    (Rules.rr_rules (sv_rules st)) conn peer req) as Hcase.
  cbv zeta. unfold request_on. destruct (serve_request _ _ _ _ _ _ _ _ _) as [l out].
  cbn [fst snd] in *. destruct Hcase as [[_ (r&->&_)]|[_ Hcase]]; [by left|].
  destruct (handle_tunnel_request _ _ _ _ _ _ _) as [l' [[acc1 pool1]|r|]] eqn:Hh;
    cbn [fst snd] in Hcase; destruct out as [[[resp acc'] pool']|e|]; try done; try by left.
  - destruct Hcase as [-> _]. cbn.
    apply handle_ok in Hh as (prefix&remote&dest&info&_&_&_&_&Hl&_).
    unfold apply_rate_limit in Hl. destruct info as [[[id up] down]|]; [|left; congruence].
    destruct (_ || _); [|left; congruence]. right. exists (mkCall (net_now net) id up down).
    unfold pool_step. cbn. destruct (pool_wrap _ _ _ _ _). cbn. congruence.
  - left. by destruct Hcase as (_&_&->).
Qed.

Lemma serve_run_limiters st tr st' id d :
  serve_run st tr st' → limiters (sv_pool st) !! id = Some d → limiters (sv_pool st') !! id = Some d.
Proof.
  induction 1 as [|st l st1 tr st2 Hs _ IH]; [done|]. intros Hd. apply IH.
  destruct Hs as [| |? [?|]| | | | |st l1 conn peer l2 net req Hc|]; try done.
  - cbn. by case_match.
  - cbn. destruct (request_on_pool st conn peer net req) as [->|[c ->]]; [done|].
    by apply pool_step_keeps.
Qed.

(** An accepted tunnel with a rate has the limiters that the pool holds for it ever after. *)
Lemma request_on_limiters st conn peer net req l resp acc pool prefix remote dest id up down :
  request_on st conn peer net req = (l, Ok (resp, Some acc, pool)) →
  request_for cfg net (conn_restrict conn) req prefix remote dest (Some (id, up, down)) →
  is_Some up ∨ is_Some down →
  ∃ d, acc_limiters acc = Some (dl_read d, dl_write d) ∧ limiters pool !! id = Some d
    ∧ ∀ d', limiters (sv_pool st) !! id = Some d' → d = d'.
Proof.
  intros (p'&r'&d'&info&Hreq'&Hl)%request_on_ok Hreq Hrate.
  rewrite (request_for_det _ _ _ _ _ _ _ _ _ _ _ Hreq' Hreq) in Hl. cbn in Hl.
  assert (bool_decide (is_Some up) || bool_decide (is_Some down) = true) as Hb.
  { apply orb_true_iff. rewrite !bool_decide_eq_true. done. }
  rewrite Hb in Hl. unfold pool_wrap in Hl.
  destruct (limiters (sv_pool st) !! id) as [d|] eqn:Hd.
  - injection Hl as -> ->. exists d. split_and!; [done|done|by intros ? [= <-]].
  - destruct (build_limiter _ down _) as [rd p1]. destruct (build_limiter _ up p1) as [wr p2].
    injection Hl as -> ->. exists (mkLimiters rd wr). cbn. by rewrite lookup_insert_eq.
Qed.

Lemma serve_start_ok d watch_rules bind_ok tls rules st0 :
  serve_start d watch_rules bind_ok tls rules = Ok st0 →
  sv_rules st0 = Rules.mkRr (srv_restriction_config cfg) rules []
  ∧ sv_taken st0 = None ∧ sv_conns st0 = [] ∧ sv_pool st0 = pool_new
  ∧ match tls with
    | None => sv_tls st0 = None
    | Some (conf, _) => ∃ paths acceptor, tls_acceptor conf = Some acceptor
                          ∧ sv_tls st0 = Some (paths, Tls.tls_initial conf acceptor)
    end.
Proof.
  unfold serve_start. intros (ctx&Hctx&Hs)%bind_ok_inv. apply bind_ok_inv in Hs as (rr&Hrr&Hs).
  destruct bind_ok; [|done]. injection Hs as <-. cbn.
  assert (rr = Rules.mkRr (srv_restriction_config cfg) rules []) as ->.
  { revert Hrr. unfold Rules.rr_new. destruct (srv_restriction_config cfg); [destruct watch_rules|];
      by intros [=]. }
  split_and!; [done..|]. destruct tls as [[conf paths]|]; [|by injection Hctx as <-].
  apply bind_ok_inv in Hctx as (acceptor&Ha%ok_or_ok&Hctx).
  apply bind_ok_inv in Hctx as (p&_&[= <-]). by exists p, acceptor.
Qed.

(** ** Properties *)

(** C2: Admission over a whole run: whatever files change, connections come and go and in
    whatever order, everything the server does for a request is admitted by a rule that is
    in force at the moment of that request: the rules the server started with or a whole
    set its file held before, also for requests on connections that are older. *)
Theorem run_effects_admitted d watch_rules bind_ok tls rules st0 tr1 conn peer net req out tr2 st e p :
  serve_start d watch_rules bind_ok tls rules = Ok st0 →
  serve_run st0 (tr1 ++ LServed conn peer net req out :: tr2) st →
  srv_restriction_config cfg = Some p → e ∈ fst out →
  ∃ now, now = Rules.rr_rules (foldl Rules.rr_step (sv_rules st0) (file_steps tr1))
    ∧ (now = rules ∨ ∃ s, LRules s ∈ tr1 ∧ Rules.offered p s now)
    ∧ lawful cfg net now conn req e.
Proof.
  intros (Hrr&_&_&_&_)%serve_start_ok (st1&Hr1&_&->)%serve_run_served Hp He.
  rewrite Hrr. eexists. split; [reflexivity|]. split.
  - destruct (Rules.rr_run_rules (Rules.mkRr (srv_restriction_config cfg) rules [])
      (file_steps tr1) p Hp) as [->|(s&Hin&Ho)]; [by left|right].
    exists s. split; [|done]. unfold file_steps in Hin.
    apply list_elem_of_omap in Hin as ([]&Hin&Hs); by simplify_eq.
  - apply serve_run_rules in Hr1. rewrite Hrr in Hr1. unfold request_on in He. rewrite Hr1 in He.
    by eapply serve_request_effect.
Qed.

(** Through every reload, for any such acceptor. *)
Lemma mtls_kept d watch_rules bind_ok conf paths rules ca0 st0 tr1 conn peer net req out tr2 st :
  acceptor_verifies →
  serve_start d watch_rules bind_ok (Some (conf, paths)) rules = Ok st0 →
  Tls.tls_client_ca conf = Some ca0 →
  serve_run st0 (tr1 ++ LServed conn peer net req out :: tr2) st →
  ∃ alpn chain ca, conn = TlsConn alpn (Some chain) ∧ ca_held ca0 tr1 ca ∧ verified ca chain.
Proof.
  intros Hrustls (_&_&Hconns&_&(p&acceptor&Ha&Htls))%serve_start_ok Hca
    (st1&Hr1&Hin&_)%serve_run_served.
  assert (mtls_inv ca0 tr1 st1) as [_ Hall].
  { revert Hr1. apply (serve_run_inv (mtls_inv ca0)).
    - split; [|rewrite Hconns; constructor]. exists p, (Tls.tls_initial conf acceptor).
      split; [done|]. split; [exists ca0; by split; [|left]|done|].
      exists conf, ca0. by split_and!; [..|left].
    - intros. by eapply mtls_inv_step. }
  rewrite Forall_forall in Hall. destruct (Hall _ Hin) as (alpn&chain&->&ca&?&?).
  by exists alpn, chain, ca.
Qed.
(** C18: All tunnels of one identifier share their limiters, over the whole run of the
    server: whatever happens between two accepted requests for the same tunnel, on whatever
    connections they came and whatever rates the registry gave for the second one, both
    spend the same two quotas. *)
Theorem tunnels_share_limiters st0 tr1 tr2 tr3 st conn1 peer1 net1 req1 l1 resp1 acc1 pool1
    conn2 peer2 net2 req2 l2 resp2 acc2 pool2 id up1 down1 up2 down2 p1 r1 d1 p2 r2 d2 :
  serve_run st0 (tr1 ++ LServed conn1 peer1 net1 req1 (l1, Ok (resp1, Some acc1, pool1))
                 :: tr2 ++ LServed conn2 peer2 net2 req2 (l2, Ok (resp2, Some acc2, pool2)) :: tr3) st →
  request_for cfg net1 (conn_restrict conn1) req1 p1 r1 d1 (Some (id, up1, down1)) →
  request_for cfg net2 (conn_restrict conn2) req2 p2 r2 d2 (Some (id, up2, down2)) →
  is_Some up1 ∨ is_Some down1 → is_Some up2 ∨ is_Some down2 →
  is_Some (acc_limiters acc1) ∧ acc_limiters acc2 = acc_limiters acc1.
Proof.
  intros (st1&_&Hr2)%serve_run_app Hq1 Hq2 Hs1 Hs2.
  inversion Hr2 as [|? ? st1' ? ? Hstep Hr3]; subst.
  assert (request_on st1 conn1 peer1 net1 req1 = (l1, Ok (resp1, Some acc1, pool1))
    ∧ sv_pool st1' = pool1) as [Heq <-].
  { inversion Hstep; subst. match goal with H : request_on _ _ _ _ _ = _ |- _ => by rewrite H end. }
  destruct (request_on_limiters _ _ _ _ _ _ _ _ _ _ _ _ _ _ _ Heq Hq1 Hs1)
    as (d&Hd1&Hp1&_).
  apply serve_run_served in Hr3 as (st2&Hr3&_&Heq2).
  destruct (request_on_limiters _ _ _ _ _ _ _ _ _ _ _ _ _ _ _ (eq_sym Heq2) Hq2 Hs2)
    as (d'&Hd2&_&Hsame).
  rewrite Hd2, Hd1. split; [by eexists|]. rewrite (Hsame d); [done|].
  eapply serve_run_limiters; [exact Hr3|exact Hp1].
Qed.
End Serve.

(** ** The three programs together *)

Section EndToEnd.
Context `{UuidApi, HostLaws, HttpLaws, UrlApi, YamlLaws, JwtLaws JwtTunnelConfig}.
Context `{RegexApi, IpNetApi, GovernorApi, X509Api}.
Context {Io T : Type}.
Context (is_upgrade_request : Request → bool) (upgrade : Request → option HeaderMap).
Implicit Types (cfg : WsServerConfig) (net : NetEnv (Io := Io)).

(** A request that passes every check is executed. *)
Lemma handle_accepts cfg net pool rules restrict client req prefix jwt remote l1 dest info restriction l2 r io :
  extract_path_prefix (uri_path (req_uri req)) = Ok prefix →
  (∀ p, restrict = Some p → p = prefix) →
  extract_tunnel_info req = Ok jwt → remote_try_from jwt = Ok remote →
  resolve_tunnel cfg net remote (extract_authorization req) = (l1, Ok (dest, info)) →
  validate_tunnel dest prefix (extract_authorization req) rules = Some restriction →
  (∀ c, exec_tunnel cfg net restriction dest c = (l2, Ok (r, io))) →
  handle_tunnel_request cfg net pool rules restrict client req
  = (l1 ++ l2, Ok (mkAccepted r io (fst (apply_rate_limit net pool info))
                     (is_dynamic_reverse_tunnel (protocol dest)),
                   snd (apply_rate_limit net pool info))).
Proof.
  intros Hp Hrestrict Hj Hr Hres Hv Hx. unfold handle_tunnel_request. rewrite Hp. cbn [map_err].
  assert (match restrict with
    | Some restrict_path =>
        if negb (String.eqb prefix restrict_path) then lift (Err bad_request) else mret ()
    | None => mret ()
    end = (([], Ok ()) : W Uuid HttpResponse unit)) as Hcheck.
  { destruct restrict as [p|]; [|done]. rewrite (Hrestrict p) by done. by rewrite String.eqb_refl. }
  cbn -[extract_tunnel_info remote_try_from resolve_tunnel validate_tunnel exec_tunnel].
  rewrite Hcheck, Hj. cbn -[resolve_tunnel validate_tunnel exec_tunnel remote_try_from].
  rewrite Hr. cbn -[resolve_tunnel validate_tunnel exec_tunnel]. rewrite Hres.
  cbn -[validate_tunnel exec_tunnel]. rewrite Hv. cbn -[exec_tunnel]. rewrite Hx. cbn.
  destruct (apply_rate_limit net pool info). cbn. by rewrite app_nil_r.
Qed.

(** An accepted websocket request is answered 101. *)
Lemma ws_accepts cfg net pool rules restrict client req headers l acc pool' :
  is_upgrade_request req = true → upgrade req = Some headers → acc_inject_cookie acc = false →
  handle_tunnel_request cfg net pool rules restrict client req = (l, Ok (acc, pool')) →
  ∃ v1, hv_from_str "v1" = Some v1
    ∧ ws_server_upgrade is_upgrade_request upgrade cfg net pool rules restrict client req
      = (l, Ok (mkResponse 101 "" (hm_insert SEC_WEBSOCKET_PROTOCOL v1 headers), Some acc, pool')).
Proof.
  intros Hu Hh Hi Hr. destruct (hv_visible "v1" eq_refl) as [v1 Hv1]. exists v1. split; [done|].
  unfold ws_server_upgrade. rewrite Hu, Hr, Hh. cbn [negb]. unfold with_cookie. by rewrite Hi, Hv1.
Qed.

(** The connections on which a websocket request of the prefix [p] is taken. *)
Definition takes_ws (conn : Conn) (p : string) : Prop :=
  (∀ cn, conn_restrict conn = Some cn → cn = p)
  ∧ match conn with Plain => True | TlsConn alpn _ => alpn ≠ Some "h2" end.

Lemma serve_ws cfg net pool rules conn peer req p :
  is_upgrade_request req = true → takes_ws conn p →
  serve_request is_upgrade_request upgrade cfg net pool rules conn peer req
  = ws_server_upgrade is_upgrade_request upgrade cfg net pool rules (conn_restrict conn) peer req.
Proof.
  intros Hu [_ Hc]. unfold serve_request. destruct conn as [|alpn certs]; [by rewrite Hu|].
  by rewrite bool_decide_eq_false_2.
Qed.

(** [req] is what a client of the configuration [ccfg] sends for the destination [dest], its
    path prefix being plain and its custom headers leaving the token alone. *)
Record ws_asks (files : PathBuf → option (list (option string))) (ccfg : WsClientConfig T)
    (dest : RemoteAddr) (req : Request) : Prop := {
  ask_path : path_safe (http_upgrade_path_prefix ccfg) = true;
  ask_segment : contains_char "/" (http_upgrade_path_prefix ccfg) = false;
  ask_headers : SEC_WEBSOCKET_PROTOCOL ∉ (ws_custom_headers files ccfg).*1;
  ask_host : ∃ s, host_parse s = Some (host dest);
  ask_req : ∃ key id token, tunnel_to_jwt_token (E := string) id dest = Ok token ∧ token ≠ ""
              ∧ ws_upgrade_request files ccfg key id dest = Ok req
}.

Lemma ws_asks_reads files ccfg dest req :
  ws_asks files ccfg dest req →
  extract_path_prefix (uri_path (req_uri req)) = Ok (http_upgrade_path_prefix ccfg)
  ∧ ∃ claims, extract_tunnel_info req = Ok claims ∧ remote_try_from claims = Ok dest.
Proof.
  intros [Hp Hseg Hh [s Hs] (key&id&token&Ht&Hne&Hr)].
  destruct (ws_request_reads files ccfg key id dest s req token) as [? (c&?&_&?)]; eauto.
Qed.

Lemma auth_visible req a : extract_authorization req = Some a → visible a = true.
Proof.
  unfold extract_authorization. destruct (hm_get _ _) as [v|]; [|done]. cbn.
  apply hv_to_str_visible.
Qed.

(** The answer to an accepted websocket request. *)
Definition switching (v1 : HeaderValue) (headers : HeaderMap) : HttpResponse :=
  mkResponse 101 "" (hm_insert SEC_WEBSOCKET_PROTOCOL v1 headers).

(** C11: A client that asks for a TCP destination the rules admit gets it: the server
    connects to exactly that host and port, does nothing else, answers 101, and the tunnel
    it opens is for the destination the client named, without rate limit. *)
Theorem tcp_tunnel_end_to_end files ccfg cfg net pool rules conn peer h p req headers restriction io la :
  ws_asks files ccfg (mkRemote (Tcp false) h p) req →
  is_upgrade_request req = true → upgrade req = Some headers →
  takes_ws conn (http_upgrade_path_prefix ccfg) →
  validate_tunnel (mkRemote (Tcp false) h p) (http_upgrade_path_prefix ccfg)
    (extract_authorization req) rules = Some restriction →
  srv_http_proxy cfg = None →
  net_tcp_connect net h p (from_secs 10) = Ok (io, la) →
  ∃ v1, hv_from_str "v1" = Some v1
    ∧ serve_request is_upgrade_request upgrade cfg net pool rules conn peer req
      = ([ETcpConnect h p],
         Ok (switching v1 headers, Some (mkAccepted (mkRemote (Tcp false) h p) io None false), pool)).
Proof.
  intros Hask Hu Hh Hc Hv Hproxy Hconn. rewrite (serve_ws cfg net pool rules conn peer req _ Hu Hc).
  destruct (ws_asks_reads _ _ _ _ Hask) as [Hp (jwt&Hj&Hr)].
  apply ws_accepts; [done..|].
  apply (handle_accepts cfg net pool rules _ peer req (http_upgrade_path_prefix ccfg) jwt
    (mkRemote (Tcp false) h p) [] (mkRemote (Tcp false) h p) None restriction [ETcpConnect h p]
    (mkRemote (Tcp false) h p) io); try done.
  - apply Hc.
  - intros c. unfold exec_tunnel. cbn. by rewrite Hproxy, Hconn.
Qed.

(** The effects of a request that passes every check are those of [exec_tunnel]. *)
Lemma serve_ws_log cfg net pool rules conn peer req prefix jwt remote restriction :
  extract_path_prefix (uri_path (req_uri req)) = Ok prefix →
  extract_tunnel_info req = Ok jwt → remote_try_from jwt = Ok remote →
  is_upgrade_request req = true → takes_ws conn prefix →
  resolve_tunnel cfg net remote (extract_authorization req) = ([], Ok (remote, None)) →
  validate_tunnel remote prefix (extract_authorization req) rules = Some restriction →
  ∃ c, fst (serve_request is_upgrade_request upgrade cfg net pool rules conn peer req)
       = fst (exec_tunnel cfg net restriction remote c).
Proof.
  intros Hp Hj Hr Hu Hc Hres Hv. rewrite (serve_ws cfg net pool rules conn peer req _ Hu Hc).
  assert (∃ c, fst (handle_tunnel_request cfg net pool rules (conn_restrict conn) peer req)
               = fst (exec_tunnel cfg net restriction remote c)) as [c Hh].
  { unfold handle_tunnel_request. rewrite Hp. cbn -[extract_tunnel_info remote_try_from resolve_tunnel validate_tunnel exec_tunnel].
    destruct (conn_restrict conn) as [cn|] eqn:Hcn; [rewrite (proj1 Hc cn Hcn), String.eqb_refl|];
      cbn -[extract_tunnel_info remote_try_from resolve_tunnel validate_tunnel exec_tunnel];
      rewrite Hj; cbn -[resolve_tunnel validate_tunnel exec_tunnel remote_try_from];
      rewrite Hr; cbn -[resolve_tunnel validate_tunnel exec_tunnel]; rewrite Hres;
      cbn -[validate_tunnel exec_tunnel]; rewrite Hv; cbn -[exec_tunnel]; eexists;
      destruct (exec_tunnel _ _ _ _ _) as [l [[r io]|?|]] eqn:Hx; cbn;
      rewrite ?app_nil_r; by erewrite Hx. }
  exists c. rewrite <-Hh. unfold ws_server_upgrade. rewrite Hu. cbn [negb].
  destruct (handle_tunnel_request _ _ _ _ _ _ _) as [l [[acc pool1]|?|]]; [|done..].
  destruct (upgrade req) as [h|]; [|done]. by destruct (with_cookie acc h), (hv_from_str "v1").
Qed.

(** C40: One admitted request can bring the whole server down: for a reverse udp tunnel with a
    timeout of zero in its token (which no check refuses) the server opens the udp listener it
    is asked for, and in every state that listener can reach, the next datagram, from
    anybody, panics, which aborts the process. *)
Theorem zero_timeout_aborts_server {K D} `{Countable K} files ccfg cfg net pool rules conn peer h p req
    restriction bind :
  let remote := mkRemote (ReverseUdp (Some 0)) h p in
  let local_srv := (h, find_mapped_port p restriction) in
  ws_asks files ccfg remote req → is_upgrade_request req = true →
  takes_ws conn (http_upgrade_path_prefix ccfg) →
  validate_tunnel remote (http_upgrade_path_prefix ccfg) (extract_authorization req) rules
    = Some restriction →
  try_to_sock_addr local_srv = Ok bind →
  fst (serve_request is_upgrade_request upgrade cfg net pool rules conn peer req)
    = [EListen (LkUdp local_srv (Some 0)) bind]
  ∧ ∀ es (st : UdpServer.UdpState (K := K) (D := D)) k d q now,
      UdpServer.udp_run (Some 0) UdpServer.udp_initial es = Ok st →
      UdpServer.phase st = UdpServer.Peeking → UdpServer.queue st = (k, d) :: q →
      UdpServer.udp_step (Some 0) st (UdpServer.Peek true now) = Panic.
Proof.
  intros remote local_srv Hask Hu Hc Hv Hb.
  split; [|intros es st k d q now; apply UdpServer.zero_timeout_aborts].
  destruct (ws_asks_reads _ _ _ _ Hask) as [Hp (jwt&Hj&Hr)].
  destruct (serve_ws_log cfg net pool rules conn peer req _ jwt remote restriction Hp Hj Hr Hu Hc eq_refl Hv)
    as [c ->].
  unfold exec_tunnel, exec_reverse. cbn -[try_to_sock_addr].
  unfold local_srv in Hb. rewrite Hb. cbn. by destruct (net_listen _ _ _ _) as [[]|?|].
Qed.

(** C3: From a pod to a connection, through the three programs: a client asks for a tunnel
    by its identifier; the registry has seen a pod with that identifier become routable; the
    server resolves the identifier with the registry, checks its rules against the address
    it got, connects to the address and port of the pod and to nothing else, answers 101,
    and the tunnel has the limiters of that identifier, made with the rates of the pod. *)
Theorem tunnel_id_end_to_end files ccfg cfg net pool rules conn peer tid t n req headers base url uri
    events e ip restriction io la :
  ws_asks files ccfg (mkRemote (TunnelStdio false t) (Domain n) 0) req →
  uuid_parse_str n = Some tid →
  is_upgrade_request req = true → upgrade req = Some headers →
  takes_ws conn (http_upgrade_path_prefix ccfg) →
  srv_tunnel_resolver cfg = Some base → srv_http_proxy cfg = None →
  url_scheme base = "http" → url_push base (uuid_to_string tid) = Some url →
  uri_parse (url_as_str url) = Some uri →
  (∀ h, net_exchange net (mkRequest "GET" uri HTTP_11 h)
        = Ok (get_tunnel (watch_pods app_state_new events) tid)) →
  watch_pods app_state_new events !! tid = Some e →
  ipaddr_from_str (te_host e) = Some (IpV4 ip) →
  validate_tunnel (mkRemote (Tcp false) (Ipv4 ip) (te_port e)) (http_upgrade_path_prefix ccfg)
    (extract_authorization req) rules = Some restriction →
  net_tcp_connect net (Ipv4 ip) (te_port e) (from_secs 10) = Ok (io, la) →
  ∃ v1 limiters pool', hv_from_str "v1" = Some v1
    ∧ apply_rate_limit net pool (Some (tid, te_rate_limit_upload_m e, te_rate_limit_download_m e))
      = (limiters, pool')
    ∧ serve_request is_upgrade_request upgrade cfg net pool rules conn peer req
      = ([EResolve tid; ETcpConnect (Ipv4 ip) (te_port e)],
         Ok (switching v1 headers,
             Some (mkAccepted (mkRemote (Tcp false) (Ipv4 ip) (te_port e)) io limiters false), pool')).
Proof.
  intros Hask Hn Hu Hh Hc Hres Hproxy Hscheme Hurl Huri Hex He Hip Hv Hconn.
  rewrite (serve_ws cfg net pool rules conn peer req _ Hu Hc).
  destruct (ws_asks_reads _ _ _ _ Hask) as [Hp (jwt&Hj&Hr)].
  set (info := Some (tid, te_rate_limit_upload_m e, te_rate_limit_download_m e)).
  destruct (apply_rate_limit net pool info) as [limiters pool'] eqn:Hl.
  destruct (ws_accepts cfg net pool rules (conn_restrict conn) peer req headers
    [EResolve tid; ETcpConnect (Ipv4 ip) (te_port e)]
    (mkAccepted (mkRemote (Tcp false) (Ipv4 ip) (te_port e)) io limiters false) pool')
    as (v1&Hv1&Hw); [done..| |by exists v1, limiters, pool'].
  rewrite (handle_accepts cfg net pool rules _ peer req (http_upgrade_path_prefix ccfg) jwt
    (mkRemote (TunnelStdio false t) (Domain n) 0) [EResolve tid]
    (mkRemote (Tcp false) (Ipv4 ip) (te_port e)) info restriction [ETcpConnect (Ipv4 ip) (te_port e)]
    (mkRemote (Tcp false) (Ipv4 ip) (te_port e)) io); try done; [by rewrite Hl|apply Hc|..].
  - unfold resolve_tunnel. cbn -[resolve_tunnel_over_http]. rewrite Hn. cbn -[resolve_tunnel_over_http].
    rewrite Hres. cbn -[resolve_tunnel_over_http].
    rewrite (resolve_registered (net_exchange net) base tid _ events e ip uri url);
      [done..| |done|done|done]. intros a Ha. by eapply auth_visible.
  - intros c. unfold exec_tunnel. cbn. by rewrite Hproxy, Hconn.
Qed.
End EndToEnd.

(** ** From the command line *)

Section RunServer.
Context `{UuidApi, HostApi, HttpApi, UrlApi, YamlApi, JwtApi JwtTunnelConfig}.
Context `{RegexLaws, IpNetLaws, GovernorApi, RustlsLaws}.
Context {Io Connector Client : Type}.
Context (is_upgrade_request : Request → bool) (upgrade : Request → option HeaderMap).
Context (tls_accept : TlsAcceptor → Client → option (option string * option (list Cert))).

(** What the system and the libraries answer while the server starts. *)
Record ServerEnv := mkServerEnv {
  se_file : PathBuf → option string;
  se_rules : PathBuf → outcome string RestrictionsRules;
  se_embedded : list Cert * PrivateKey;
  se_disk : Tls.Disk (Certs := list Cert) (Key := PrivateKey);
  se_watch_rules : bool;
  se_bind_ok : bool;
  se_socket_addrs : Url → outcome string (list SocketAddr);
  se_dns_ok : bool
}.

(** [run_server_impl]: the configuration and the server before its loop.  The bind address
    is the first one ([[0]] panics without any), and the resolver must exist. *)
Definition run_server_impl (env : ServerEnv) (args : ServerArgs)
    : outcome string (WsServerConfig * ServeState (Connector := Connector)) :=
  tls_config ← server_tls_config (se_file env) (se_embedded env) args;
  '(restrictions, server_config) ← run_server_config (se_rules env) args;
  addrs ← se_socket_addrs env (s_remote_addr args);
  _ ← unwrap (head addrs);
  _ ← (if se_dns_ok env then Ok () else Panic);
  st ← serve_start server_acceptor server_config (se_disk env) (se_watch_rules env) (se_bind_ok env)
         tls_config restrictions;
  Ok (server_config, st).

(** What rustls promises of an acceptor with the roots of client certificates. *)
Context (verified : list Cert → list Cert → Prop).
Definition rustls_verifies : Prop := ∀ acceptor roots client alpn certs,
  ta_client_roots acceptor = Some roots → tls_accept acceptor client = Some (alpn, certs) →
  ∃ chain, certs = Some chain ∧ verified roots chain.

(** C5: A server started with client certificates never serves a client without one: in
    every run, through every reload of its files, each request it serves came over TLS, on
    a connection whose certificate chain was verified against client certificates it was
    started with or that its file held before. *)
Theorem mtls_never_dropped cfg d watch_rules bind_ok conf paths rules ca0 st0 tr1 conn peer net req out tr2 st :
  rustls_verifies →
  serve_start (Connector := Connector) server_acceptor cfg d watch_rules bind_ok (Some (conf, paths)) rules
    = Ok st0 →
  Tls.tls_client_ca conf = Some ca0 →
  serve_run (Io := Io) is_upgrade_request upgrade server_acceptor tls_accept cfg st0
    (tr1 ++ LServed conn peer net req out :: tr2) st →
  ∃ alpn chain ca, conn = TlsConn alpn (Some chain) ∧ ca_held ca0 tr1 ca ∧ verified ca chain.
Proof.
  intros Hrustls Hstart Hca Hrun. eapply mtls_kept; [|exact Hstart|exact Hca|exact Hrun].
  intros conf' acceptor ca client alpn certs Ha Hc. eapply Hrustls. rewrite <-Hc.
  unfold server_acceptor in Ha. destruct (tls_acceptor conf' _) as [a| |] eqn:E; [|done..].
  injection Ha as <-. by apply tls_acceptor_ok in E as (->&_).
Qed.

Lemma run_server_impl_ok env args cfg st0 :
  run_server_impl env args = Ok (cfg, st0) →
  ∃ tls rules, server_tls_config (se_file env) (se_embedded env) args = Ok tls
    ∧ run_server_config (se_rules env) args = Ok (rules, cfg)
    ∧ serve_start server_acceptor cfg (se_disk env) (se_watch_rules env) (se_bind_ok env) tls rules
      = Ok st0.
Proof.
  unfold run_server_impl. intros (tls&Htls&Hr)%bind_ok_inv.
  apply bind_ok_inv in Hr as ([rules cfg']&Hcfg&Hr). apply bind_ok_inv in Hr as (?&_&Hr).
  apply bind_ok_inv in Hr as (?&_&Hr). apply bind_ok_inv in Hr as (?&_&Hr).
  apply bind_ok_inv in Hr as (st&Hst&[= <- <-]). by exists tls, rules.
Qed.

(** Without a file of rules they are those of the options, for good. *)
Lemma run_server_rules env args cfg st0 tr st :
  run_server_impl env args = Ok (cfg, st0) → s_restrict_config args = None →
  serve_run (Io := Io) is_upgrade_request upgrade server_acceptor tls_accept cfg st0 tr st →
  ∃ targets, collect parse_restrict_to (default [] (s_restrict_to args)) = Ok targets
    ∧ from_path_prefix (default [] (s_restrict_http_upgrade_path_prefix args)) targets
      = Ok (Rules.rr_rules (sv_rules st)).
Proof.
  intros (tls&rules&_&Hcfg&(Hrr&_)%serve_start_ok)%run_server_impl_ok Hnone Hrun.
  unfold run_server_config in Hcfg. apply bind_ok_inv in Hcfg as (rules'&Hrules&Hcfg).
  apply bind_ok_inv in Hcfg as (proxy&_&Hcfg). injection Hcfg as -> <-.
  unfold server_restrictions in Hrules. rewrite Hnone in Hrules.
  apply bind_ok_inv in Hrules as (targets&Ht&Hrules). exists targets. split; [done|].
  cbn [srv_restriction_config] in Hrr. rewrite Hnone in Hrr.
  assert (∀ steps, foldl Rules.rr_step (Rules.mkRr None rules []) steps = Rules.mkRr None rules []) as Hstatic.
  { intros steps. induction steps as [|[ev load|ex ok load] steps IH]; [done|..]; exact IH. }
  apply serve_run_rules in Hrun. rewrite Hrun, Hrr, Hstatic. cbn.
  destruct (from_path_prefix _ targets); by simplify_eq.
Qed.

(** [--restrict-to] names the host and port. *)
Definition names_target (targets : list (string * Z)) (h : Host) (p : Z) : Prop :=
  ∃ name, (name, p) ∈ targets
    ∧ match ipaddr_from_str name with
      | Some ip => Policy.host_ip h = Some ip ∨ h = Domain ""
      | None => h = Domain name
      end.

(** C1: What [--restrict-to] promises, from the command line to the network: a server
    started with at least one target and no file of rules never, in any run and for any
    client, connects to a host and port that is not one of its targets (for a target that
    is an address, an empty host name is let through too), and never listens for a reverse
    tunnel. *)
Theorem restrict_to_confines_server env args cfg st0 tr1 conn peer net req out tr2 st e targets :
  run_server_impl env args = Ok (cfg, st0) → s_restrict_config args = None →
  collect parse_restrict_to (default [] (s_restrict_to args)) = Ok targets → targets ≠ [] →
  serve_run (Io := Io) is_upgrade_request upgrade server_acceptor tls_accept cfg st0
    (tr1 ++ LServed conn peer net req out :: tr2) st →
  e ∈ fst out →
  match e with
  | EUdpConnect h p | ETcpConnect h p | ETcpConnectProxy h p => names_target targets h p
  | EListen _ _ => False
  | EResolve _ | EProxyHeader _ => True
  end.
Proof.
  intros Hstart Hnone Ht Hne (st1&Hr1&_&->)%serve_run_served He.
  destruct (run_server_rules _ _ _ _ _ _ Hstart Hnone Hr1) as (targets'&Ht'&Hrules).
  rewrite Ht in Ht'. injection Ht' as <-.
  apply serve_request_effect in He as (prefix&remote&_&_&_&[(id&?&?&?&->&_)|Hcase]); [done|].
  destruct Hcase as (dest&info&restriction&_&Hin&Hadm&He).
  assert (Cli.targets_ok targets dest) as Hok.
  { apply (from_path_prefix_admits _ _ _ dest prefix (extract_authorization req) Hrules).
    apply validate_is_Some, Exists_exists. eauto. }
  unfold Cli.targets_ok in Hok. destruct targets as [|t0 targets]; [done|].
  apply Exists_exists in Hok as ([name port]&Hin'&Hrev&Hport&Hhost). cbn in Hport, Hhost.
  assert (names_target (t0 :: targets) (host dest) (Net.port dest)) as Hnames.
  { exists name. rewrite Hport. by split. }
  destruct e as [|h p|h p|h p|c|k b]; cbn in He; try done;
    try (destruct He as (_&->&->); exact Hnames).
  destruct He as [He _]. congruence.
Qed.
End RunServer.

(** ** Witnesses *)

Definition toy_conf : Type := Tls.TlsConf (Certs := nat) (Key := nat).

(** An acceptor for a key that fits its certificate; it accepts the clients that have a
    certificate when it asks for one. *)
Definition toy_acc : Type := nat * option nat.
Definition toy_make (c : toy_conf) : option toy_acc :=
  if Nat.eqb (Tls.tls_certificate c) (Tls.tls_key c)
  then Some (Tls.tls_certificate c, Tls.tls_client_ca c) else None.
Definition toy_handshake (a : toy_acc) (client : option (@Cert toy_x509))
    : option (option string * option (list (@Cert toy_x509))) :=
  match snd a, client with
  | Some _, None => None
  | Some _, Some cert => Some (None, Some [cert])
  | None, _ => Some (None, None)
  end.

Definition toy_file : PathBuf := "/etc/rules.yaml".
Definition toy_cfg_file : WsServerConfig :=
  mkServerConfig None (from_secs 5) false (Some toy_file) None (from_secs 60) (Some toy_base).
Definition toy_start (tls : option (toy_conf * (option PathBuf * option PathBuf * option PathBuf)))
    (rules : RestrictionsRules) :=
  serve_start (Connector := nat) toy_make toy_cfg_file Tls.toy_disk true true tls rules.
Definition toy_run := serve_run (Io := unit) (Connector := nat) (λ _, true) (λ _, Some hm_empty)
  toy_make toy_handshake toy_cfg_file.
(** The server starts without any rule; the file then gets some, and a client comes. *)
Lemma run_effects_admitted_witness :
  ∃ now, (now = mkRules [] ∨ ∃ s, s = toy_rules ∧ now = s)
    ∧ lawful toy_cfg_file toy_net now Plain (toy_request toy_dest) (ETcpConnect (Domain "google.com") 443).
Proof.
  set (reload := LRules (Io := unit) (Certs := nat) (Key := nat) (Rules.RsEvent (Some (mkFsEvent EkModify [toy_file])) (λ _, Some toy_rules))).
  destruct (toy_start None (mkRules [])) as [st0| |] eqn:E; [|discriminate..].
  assert (∃ out st, toy_run st0 ([reload; LTau] ++ LServed Plain toy_peer toy_net (toy_request toy_dest)
    out :: []) st ∧ ETcpConnect (Domain "google.com") 443 ∈ fst out) as (out&st&Hr&Hin).
  { injection E as <-. eexists _, _. split.
    - eapply run_cons; [apply sv_watch_rules|].
      eapply run_cons; [apply (sv_accept _ _ _ _ _ _ (Some toy_peer)); reflexivity|].
      eapply run_cons; [apply (sv_request _ _ _ _ _ _ [] Plain toy_peer []); reflexivity|]. apply run_nil.
    - vm_compute. left. }
  destruct (run_effects_admitted (Connector := nat) _ _ _ _ toy_cfg_file Tls.toy_disk true true None
    (mkRules []) st0 [reload; LTau] Plain toy_peer toy_net (toy_request toy_dest) out [] st
    (ETcpConnect (Domain "google.com") 443) toy_file E Hr eq_refl Hin) as (now&_&Hnow&Hl).
  exists now. split; [|exact Hl]. destruct Hnow as [->|(s&Hs&Ho)]; [left; reflexivity|right].
  exists toy_rules. split; [reflexivity|].
  apply elem_of_cons in Hs as [[= ->]|Hs]; [injection Ho as <-; reflexivity|].
  apply elem_of_cons in Hs as [[=]|Hs]. by apply elem_of_nil in Hs.
Defined.

(** The client certificates ["old"] are replaced by ["new"] while the server runs; then a
    client with a certificate comes. *)
Definition toy_mtls : Tls.TlsConf (Certs := list (@Cert toy_x509)) (Key := @PrivateKey _ toy_rustls) :=
  Tls.mkTlsConf ["srv"] "srv" (Some ["old"]).
Definition toy_mtls_disk : Tls.Disk (Certs := list (@Cert toy_x509)) (Key := @PrivateKey _ toy_rustls) :=
  Tls.mkDisk (λ _, Some ["new"]) (λ _, Some "srv") (λ _, true) (λ _, true).
Definition toy_mtls_accept (a : TlsAcceptor) (client : option (@Cert toy_x509))
    : option (option string * option (list (@Cert toy_x509))) :=
  match ta_client_roots a, client with
  | Some _, None => None
  | Some _, Some cert => Some (None, Some [cert])
  | None, _ => Some (None, None)
  end.
Definition toy_mtls_step := serve_run (Io := unit) (Connector := nat) (λ _, true) (λ _, Some hm_empty)
  server_acceptor toy_mtls_accept toy_cfg_file.
Definition toy_pems : option PathBuf * option PathBuf * option PathBuf :=
  (Some "/tls/cert.pem", Some "/tls/key.pem", Some "/tls/ca.pem").
Definition toy_verified (ca : list (@Cert toy_x509)) (chain : list (@Cert toy_x509)) : Prop := chain ≠ [].

Lemma toy_mtls_run : ∃ st0 tr out st,
  serve_start (Connector := nat) server_acceptor toy_cfg_file toy_mtls_disk true true (Some (toy_mtls, toy_pems))
    toy_rules = Ok st0
  ∧ toy_mtls_step st0 (tr ++ LServed (toy_conn "v1") toy_peer toy_net (toy_request toy_dest) out :: []) st.
Proof.
  eexists _, [_; _; _; _; _; _; _; _; _], _, _. split; [reflexivity|].
  eapply run_cons; [eapply sv_watch_tls; [reflexivity|
    apply (Tls.step_event _ _ _ toy_mtls_disk (Some (mkFsEvent EkModify ["/tls/ca.pem"])))|reflexivity]|].
  eapply run_cons; [eapply sv_watch_tls; [reflexivity|
    apply (Tls.step_act _ _ _ [] (Tls.StoreCa ["new"]) [Tls.SetFlag] []); vm_compute; reflexivity|reflexivity]|].
  eapply run_cons; [eapply sv_watch_tls; [reflexivity|
    apply (Tls.step_act _ _ _ [] Tls.SetFlag [] []); vm_compute; reflexivity|reflexivity]|].
  eapply run_cons; [apply (sv_accept _ _ _ _ _ _ (Some toy_peer)); reflexivity|].
  eapply run_cons; [eapply sv_reload; [reflexivity|reflexivity|apply Tls.step_swap; reflexivity|discriminate..]|].
  eapply run_cons; [eapply sv_reload; [reflexivity|reflexivity|apply Tls.step_ca; reflexivity|discriminate..]|].
  eapply run_cons; [eapply sv_reload; [reflexivity|reflexivity|eapply Tls.step_cert; reflexivity|discriminate..]|].
  eapply run_cons; [eapply sv_reloaded; [reflexivity|reflexivity|eapply Tls.step_install; reflexivity|discriminate|reflexivity]|].
  eapply run_cons; [eapply (sv_handshake _ _ _ _ _ _ [] _ _ [] (Some "v1" : option (@Cert toy_x509))); reflexivity|].
  eapply run_cons; [apply (sv_request _ _ _ _ _ _ [] (toy_conn "v1") toy_peer []); reflexivity|].
  apply run_nil.
Qed.

Lemma mtls_never_dropped_witness :
  ∃ st0 tr conn out st, serve_start (Connector := nat) server_acceptor toy_cfg_file toy_mtls_disk true true (Some (toy_mtls, toy_pems))
    toy_rules = Ok st0
    ∧ toy_mtls_step st0 (tr ++ LServed conn toy_peer toy_net (toy_request toy_dest) out :: []) st
    ∧ ∃ alpn chain ca, conn = TlsConn alpn (Some chain) ∧ ca_held ["old"] tr ca
        ∧ toy_verified ca chain.
Proof.
  destruct toy_mtls_run as (st0&tr&out&st&E&Hr).
  exists st0, tr, (toy_conn "v1"), out, st. split; [exact E|]. split; [exact Hr|].
  apply (mtls_never_dropped (Connector := nat) (λ _, true) (λ _, Some hm_empty) toy_mtls_accept toy_verified
    toy_cfg_file toy_mtls_disk true true toy_mtls toy_pems toy_rules ["old"] st0 tr
    (toy_conn "v1") toy_peer toy_net (toy_request toy_dest) out [] st); [|exact E|reflexivity|exact Hr].
  intros a roots client alpn certs Hroots. unfold toy_mtls_accept. rewrite Hroots.
  destruct client as [cert|]; [|discriminate]. intros [= <- <-].
  exists [cert]. split; [reflexivity|discriminate].
Defined.

Lemma toy_ws_asks dest :
  is_ok (ws_upgrade_request toy_files (toy_cfg Ws) "key" toy_id dest) = true →
  (∃ s, host_parse s = Some (host dest)) →
  (∃ t, tunnel_to_jwt_token (E := string) toy_id dest = Ok t ∧ t ≠ "") →
  ws_asks toy_files (toy_cfg Ws) dest (toy_request dest).
Proof.
  intros Hok Hh (t&Ht&Hne). split; [reflexivity|reflexivity| |exact Hh|].
  - cbn. set_solver by discriminate.
  - exists "key", toy_id, t. split; [exact Ht|]. split; [exact Hne|]. unfold toy_request.
    destruct (ws_upgrade_request _ _ _ _ dest); done.
Qed.

Definition toy_admitted (req : Request) (dest : RemoteAddr) : option RestrictionConfig :=
  validate_tunnel dest "v1" (extract_authorization req) toy_rules.
Lemma toy_admitted_some :
  is_Some (toy_admitted (toy_request toy_dest) toy_dest)
  ∧ is_Some (toy_admitted (toy_request toy_tunnel)
               (mkRemote (Tcp false) (Ipv4 (mkIpv4 167772167)) 22)).
Proof. rewrite !is_Some_alt. vm_compute. by split. Qed.

Lemma tcp_tunnel_end_to_end_witness :
  ∃ v1, serve_request (λ _, true) (λ _, Some hm_empty) toy_server toy_net pool_new toy_rules (toy_conn "v1")
    toy_peer (toy_request toy_dest)
  = ([ETcpConnect (Domain "google.com") 443],
     Ok (switching v1 hm_empty, Some (mkAccepted toy_dest () None false), pool_new)).
Proof.
  destruct toy_admitted_some as [[r Hv] _].
  destruct (tcp_tunnel_end_to_end (λ _, true) (λ _, Some hm_empty) toy_files (toy_cfg Ws) toy_server toy_net
    pool_new toy_rules (toy_conn "v1") toy_peer (Domain "google.com") 443 (toy_request toy_dest) hm_empty
    r () (Ok (SockV4 LOCALHOST_V4 1))) as (v1&_&E); try reflexivity.
  - apply toy_ws_asks; [reflexivity|by exists "google.com"|]. eexists. split; [reflexivity|discriminate].
  - split; [|discriminate]. intros cn [= <-]. reflexivity.
  - exact Hv.
  - exists v1. exact E.
Defined.

Definition toy_zero : RemoteAddr := mkRemote (ReverseUdp (Some 0)) (Ipv4 (mkIpv4 0)) 9000.
Lemma toy_zero_admitted : is_Some (toy_admitted (toy_request toy_zero) toy_zero).
Proof. rewrite is_Some_alt. vm_compute. done. Qed.

(** The listener is opened, and the first datagram aborts. *)
Lemma zero_timeout_aborts_server_witness :
  (∃ st, UdpServer.udp_run (Some 0) UdpServer.udp_initial [UdpServer.Clean; UdpServer.Arrive 1%nat 10%nat] = Ok st
     ∧ UdpServer.udp_step (Some 0) st (UdpServer.Peek true 0) = Panic)
  ∧ ∃ dest bind, fst (serve_request (λ _, true) (λ _, Some hm_empty) toy_server toy_net pool_new toy_rules Plain
      toy_peer (toy_request toy_zero)) = [EListen (LkUdp dest (Some 0)) bind].
Proof.
  destruct toy_zero_admitted as [r Hv].
  destruct (zero_timeout_aborts_server (K := nat) (D := nat) (λ _, true) (λ _, Some hm_empty) toy_files
    (toy_cfg Ws) toy_server toy_net pool_new toy_rules Plain toy_peer (Ipv4 (mkIpv4 0)) 9000
    (toy_request toy_zero) r (SockV4 (mkIpv4 0) (find_mapped_port 9000 r))) as [Hlog Habort].
  - apply toy_ws_asks; [reflexivity|exists "4!0"; vm_compute; reflexivity|]. eexists.
    split; [reflexivity|discriminate].
  - reflexivity.
  - split; [discriminate|exact I].
  - exact Hv.
  - reflexivity.
  - split; [|by eexists _, _].
    eexists. split; [vm_compute; reflexivity|].
    by apply (Habort [UdpServer.Clean; UdpServer.Arrive 1%nat 10%nat] _ 1%nat 10%nat []).
Defined.

(** The resolver of the server is the registry, which has seen the pod of the tunnel [5]. *)
Definition registry_net : NetEnv (Io := unit) :=
  mkNet (net_udp_connect toy_net) (net_tcp_connect toy_net) (net_tcp_connect_proxy toy_net)
    (net_ppp toy_net) (net_listen toy_net) (net_hash toy_net)
    (λ _, Ok (get_tunnel (watch_pods app_state_new toy_events) toy_tunnel_id)) 0.

Lemma tunnel_id_end_to_end_witness :
  ∃ v1 limiters pool', serve_request (λ _, true) (λ _, Some hm_empty) toy_server registry_net pool_new
    toy_rules Plain toy_peer (toy_request toy_tunnel)
  = ([EResolve toy_tunnel_id; ETcpConnect (Ipv4 (mkIpv4 167772167)) 22],
     Ok (switching v1 hm_empty,
         Some (mkAccepted (mkRemote (Tcp false) (Ipv4 (mkIpv4 167772167)) 22) () limiters false), pool')).
Proof.
  destruct toy_admitted_some as [_ [r Hv]].
  destruct (tunnel_id_end_to_end (λ _, true) (λ _, Some hm_empty) toy_files (toy_cfg Ws) toy_server registry_net
    pool_new toy_rules Plain toy_peer toy_tunnel_id None "5" (toy_request toy_tunnel) hm_empty toy_base
    (mkToyUrl "http" (Domain "resolver") None "/tunnels/5") ("http://resolver/tunnels/5" : @Uri toy_http_api)
    toy_events (mkEntry "10.0.0.7" 22 (Some 7) (Some 7)) (mkIpv4 167772167) r () (Ok (SockV4 LOCALHOST_V4 1)))
    as (v1&limiters&pool'&_&_&E).
  - apply toy_ws_asks; [reflexivity|exists "5"; vm_compute; reflexivity|]. eexists.
    split; [reflexivity|discriminate].
  - vm_compute. reflexivity.
  - reflexivity.
  - reflexivity.
  - split; [discriminate|exact I].
  - reflexivity.
  - reflexivity.
  - reflexivity.
  - vm_compute. reflexivity.
  - vm_compute. reflexivity.
  - intros h. reflexivity.
  - vm_compute. reflexivity.
  - vm_compute. reflexivity.
  - exact Hv.
  - reflexivity.
  - exists v1, limiters, pool'. exact E.
Defined.

Definition opens_tunnel (out : list (Effect Uuid) * outcome string (Upgraded (Io := unit))) : bool :=
  match snd out with Ok (_, Some _, _) => true | _ => false end.

(** Two clients ask for the tunnel [5] on the same connection. *)
Lemma toy_shared_run : ∃ st0 out1 out2 st,
  toy_start None toy_rules = Ok st0
  ∧ toy_run st0 ([LTau] ++ LServed Plain toy_peer toy_net (toy_request toy_tunnel) out1
                 :: [] ++ LServed Plain toy_peer toy_net (toy_request toy_tunnel) out2 :: []) st
  ∧ opens_tunnel out1 = true ∧ opens_tunnel out2 = true.
Proof.
  eexists _, _, _, _. split; [reflexivity|]. split; [|split].
  - eapply run_cons; [apply (sv_accept _ _ _ _ _ _ (Some toy_peer)); reflexivity|].
    eapply run_cons; [apply (sv_request _ _ _ _ _ _ [] Plain toy_peer []); reflexivity|].
    eapply run_cons; [apply (sv_request _ _ _ _ _ _ [] Plain toy_peer []); reflexivity|]. apply run_nil.
  - vm_compute. reflexivity.
  - vm_compute. reflexivity.
Qed.

Lemma tunnels_share_limiters_witness :
  ∃ acc1 acc2 : Accepted (Io := unit),
    is_Some (acc_limiters acc1) ∧ acc_limiters acc2 = acc_limiters acc1.
Proof.
  destruct toy_shared_run as (st0&out1&out2&st&_&Hr&Ho1&Ho2).
  destruct out1 as [l1 [[[resp1 [acc1|]] pool1]| |]]; try discriminate Ho1.
  destruct out2 as [l2 [[[resp2 [acc2|]] pool2]| |]]; try discriminate Ho2.
  assert (∃ p r d, request_for toy_cfg_file toy_net None (toy_request toy_tunnel) p r d
    (Some (toy_tunnel_id, Some 3, Some 3))) as (p&r&d&Hq).
  { eexists _, _, _. split; [vm_compute; reflexivity|]. split; [discriminate|].
    split; [eexists; split; vm_compute; reflexivity|vm_compute; reflexivity]. }
  exists acc1, acc2.
  apply (tunnels_share_limiters (λ _, true) (λ _, Some hm_empty) toy_make toy_handshake toy_cfg_file
    st0 [LTau] [] [] st Plain toy_peer toy_net (toy_request toy_tunnel) l1 resp1 acc1 pool1
    Plain toy_peer toy_net (toy_request toy_tunnel) l2 resp2 acc2 pool2 toy_tunnel_id
    (Some 3) (Some 3) (Some 3) (Some 3) p r d p r d Hr Hq Hq); left; eexists; reflexivity.
Defined.

(** A server that is restricted to one target, and a client that asks for it. *)
Definition toy_env : ServerEnv :=
  mkServerEnv (λ _, None) (λ _, Err "") (toy_chain, toy_key)
    (Tls.mkDisk (λ _, None) (λ _, None) (λ _, true) (λ _, true)) true true
    (λ _, Ok [toy_peer]) true.
Definition toy_args : ServerArgs :=
  mkServerArgs (mkToyUrl "ws" (Domain "0.0.0.0") (Some 8080) "/") None None false [] false
    (Some ["google.com:443"]) None None None None None None None None (from_secs 60) None.

Lemma toy_restricted_run : ∃ cfg st0 out st,
  run_server_impl (Connector := nat) toy_env toy_args = Ok (cfg, st0)
  ∧ serve_run (Io := unit) (λ _, true) (λ _, Some hm_empty) server_acceptor (Client := unit) (λ _ _, None) cfg st0
      ([LTau] ++ LServed Plain toy_peer toy_net (toy_request toy_dest) out :: []) st
  ∧ ETcpConnect (Domain "google.com") 443 ∈ fst out.
Proof.
  eexists _, _, _, _. split; [reflexivity|]. split.
  - eapply run_cons; [apply (sv_accept _ _ _ _ _ _ (Some toy_peer)); reflexivity|].
    eapply run_cons; [apply (sv_request _ _ _ _ _ _ [] Plain toy_peer []); reflexivity|]. apply run_nil.
  - vm_compute. left.
Qed.

Lemma restrict_to_confines_server_witness :
  names_target [("google.com", 443)] (Domain "google.com") 443.
Proof.
  destruct toy_restricted_run as (cfg&st0&out&st&Hs&Hr&He).
  exact (restrict_to_confines_server _ _ _ toy_env toy_args cfg st0 [LTau] Plain toy_peer toy_net
    (toy_request toy_dest) out [] st (ETcpConnect (Domain "google.com") 443) [("google.com", 443)]
    Hs eq_refl eq_refl ltac:(discriminate) Hr He).
Defined.
